(* ===== verification/_CoqProject ===== *)
-Q . S2P
Prelude.v
Tables.v
Strings.v
Unicode.v
Json.v
Attributes.v
Text.v
Delta.v
DeltaSpec.v
DeltaAlg.v
DeltaPush.v
DeltaCanon.v
DeltaTotal.v
DeltaIter.v
DeltaLoops.v
DeltaTransform.v
DeltaTheory.v
DeltaApply.v
DeltaValidate.v
DeltaSlice.v
DeltaInvert.v
DeltaDiff.v
OtGuarantees.v
ServerDoc.v
ServerDocTheory.v
DeltaSequence.v
DocGuarantees.v
Model.v
Protocol.v
Content.v
DocBounds.v
LiveWave.v
LiveWaveTheory.v
Snippet.v
Storage.v
OpLog.v
Queries.v
Effects.v
Critical.v
Handlers.v
Coherence.v
CoherenceLemmas.v
CoherenceMembers.v
CoherenceFrame.v
CoherenceHandlers.v
Submission.v
App.v
AppTheory.v
Limit.v
Dispatch.v
Commands.v
Agent.v
AgentTheory.v
Sections.v
Server.v
Watchers.v
Lifecycle.v
Scenario.v
ServerGuarantees.v
Audience.v
Client.v
ClientTheory.v
Listening.v
Network.v
ClientGuarantees.v
AudienceHandlers.v
AccessGuarantees.v
CommandGuarantees.v
AgentGuarantees.v
InboxGuarantees.v
Auth.v
Accounts.v
AccountTheory.v
AccountGuarantees.v
Uploads.v
Oidc.v
Router.v
Migrate.v
Settings.v
Metrics.v
