(* ===== verification/Prelude.v ===== *)
(** * Gal: a verification development

    Gal (under [src/]) is a server for conversations edited together: rich text kept by operational transformation,
    spoken to over WebSockets and a small HTTP surface, stored in SQLite.  This library models its three crates and
    proves what makes them right.  The definitions follow the source function by function and run: the examples and the
    witnesses evaluate them.

    ** The program and its parts

    [gal-ot] is the algebra of changes: a [Delta] is a list of insertions, retains and deletes counted in UTF-16 units;
    [ServerDoc] is a document with a bounded history, which takes a change written against an older revision, transforms
    it over what came since and commits it.  [gal-core] has the domain (waves hold wavelets, wavelets hold blips) and the
    messages.  [gal-server] keeps a [Storage] of tables and, in memory, the waves somebody has open; a command of a
    connection is checked, takes its wave's lock, writes storage, changes the resident wave, and queues messages for
    the connections watching.  Agents reach one wavelet with a credential, over HTTP; people sign in over HTTP, with a
    password or through a provider; limiters meter all of them.

    ** Files and sources

    Foundations: [Prelude] (texts as lists of scalar values, machine integers, results, tactics), [Tables] (SQL tables
    as lists of rows), [Strings] and [Snippet] (what the source uses of [str], text it makes for readers, numbers as
    text), [Unicode] and [Json] (interfaces of what is not in the sources).

    gal-ot: [Text] (text.rs), [Attributes] (attributes.rs), [Delta] (delta.rs), [ServerDoc] (lib.rs).  [DeltaSpec] is the
    specification: a delta denotes a list of edits of one unit each, on which composition and transformation are
    structural recursions.  [DeltaAlg] proves the algebra there; [DeltaPush], [DeltaCanon] and [DeltaTotal] deal with
    the canonical form and with fuel and panics; [DeltaIter], [DeltaLoops], [DeltaTransform] and [DeltaTheory] show that
    the loops of the code refine the specification; [DeltaApply], [DeltaValidate], [DeltaSlice], [DeltaInvert] and
    [DeltaDiff] take one operation each; [DeltaSequence] has what doing one change after another amounts to;
    [ServerDocTheory] has the invariant of a document.

    gal-core: [Model] (model.rs), [Protocol] (protocol.rs).

    gal-server, storage: [Storage] (db.rs, writes), [Queries] (db.rs, reads and the agents' tables), [OpLog] (the log
    replays to the text), [Migrate] (db.rs [migrate], schema.sql).

    gal-server, one wave: [Content] (what a document may hold), [DocBounds] (within the limits nothing reaches the width
    of a [usize]), [LiveWave] with [LiveWaveTheory] (state.rs), [Effects] (the monad of server code, the outside world),
    [Critical] ([AppState::apply_op] and what it uses), [Handlers] (every command once it holds the lock, ws.rs).

    gal-server, the whole: [App] (connections, the table of resident waves, loading and eviction, debounced inboxes:
    state.rs), [Limit] (limit.rs), [Dispatch] (ws.rs from the allowance to the reply), [Agent] (agent.rs), [Server]
    (everything that can happen to the state, as a transition system), [Lifecycle] (a turn of a connection's reading
    loop, and the transitions of connections that come, read and go).  Over HTTP: [Auth] (auth.rs), [Accounts] and
    [Uploads] (http.rs), [Oidc] (oidc.rs), [Router] (routes, security headers, request ids), [Settings] (config.rs),
    [Metrics] (metrics.rs).

    The client: [Client] (e2e.rs, [TestClient], which repeats the state machine of the browser's client);
    [ClientTheory] says when a client, the queues to and from it and the server's document fit together, and that every
    message keeps them so; [Listening] says what each command of [Handlers] tells those who watch; [Network] puts any
    number of clients around the sections of [Handlers] and [Critical].

    Invariants and their lemmas: [Coherence] says when a resident wave is what loading it from storage would give;
    [CoherenceLemmas], [CoherenceMembers], [CoherenceFrame] and [CoherenceHandlers] carry it through each write and each
    command, [Submission] through an edit, [AppTheory] and [Commands] through loading and the server's shared state,
    [AgentTheory] through the agents' requests; [Sections] has all that runs under a lock as one kind of command, and shows
    that refusals leave no trace.  [Watchers] relates the watchers of resident waves to the table of connections.
    [Audience] and [AudienceHandlers] follow every queued message to its receivers; [AccountTheory] serves the account
    theorems.  [Scenario] is a server in use, from which the witnesses are taken.

    ** What is shown

    - [OtGuarantees], [DocGuarantees]: concurrent changes converge; composing is doing one and then the other; inverses,
      slices and rollback are exact; [validate] accepts exactly the changes that fit; a change valid where its author
      wrote it is accepted; no loop runs on, no slice panics.
    - [ServerGuarantees]: in every state reached, with storage failing at any call, memory and storage agree and a wave
      has one live copy; an edit ends in one of three ways; a retried edit is applied once; the op log replays; who
      watches a wave is in the table of connections, and a connection told to stop stops and leaves nothing behind.
    - [ClientGuarantees]: a client that has heard everything and has nothing in flight shows the text the server stores,
      however its edits, others' and every other command interleaved; no edit of a client is malformed when it arrives;
      deliveries come to an end.
    - [AccessGuarantees], [CommandGuarantees]: messages and answers about a wavelet reach its members only; commands are
      accepted from those entitled; a refusal changes nothing; what removing, deleting and replying privately do.
    - [AgentGuarantees], [Limit], [InboxGuarantees]: replies are posted once and answered, pages list every
      message once, allowances are kept, the grouped inbox is the single rows.
    - [AccountGuarantees], [Oidc], [Uploads], [Router]: sessions go to who has the password or the
      identity; guesses are bounded; a changed password ends other sessions; files are served to members and never run;
      every request is a sequence of the transition system's events.
    - [Migrate], [Settings], [Metrics]: upgrades lose no row and may be interrupted; a first start may not, which is
      proved too; a server runs only with settings it could read; a scrape of the metrics tells what happened.

    ** Parameters

    Code that is not in the sources is a parameter: JSON values ([Json]), Unicode tables ([Unicode], with laws on ASCII),
    the clock, fresh identifiers and which storage calls fail ([World]), Argon2, SHA-256, random tokens and the check of
    a header value ([Secrets]), the provider's answers and base64 ([Provider]), what the full-text index matches, the
    printing of a request as JSON.  Laws about them are hypotheses of the theorems that need them, and the witnesses give
    concrete functions.

    ** Bounds and fuel

    The loops over a delta run on fuel equal to the number of ops involved, which is proved enough whatever the ops, as
    long as lengths fit a [usize].  Numbering an account name stops where the source stops.  The retry loop of an agent's
    reply takes fuel as an argument: one turn always answers, and more makes no difference.  Reading pages takes any fuel
    that suffices, and one is shown to exist.  What clients show is bounded by the server's limit and what they typed;
    the theorems on clients ask that 64 times that bound fits a [usize] ([ClientTheory.roomy]).

    ** Idealisations

    A handler runs from its check to its reply without another handler in between, except where it lets go of its lock
    in the source: there the interleavings are events of [Server].  A storage call is atomic, as a transaction of SQLite
    is.  A [HashSet] or [DashMap] is visited in one fixed order.  Seconds and tokens are exact rationals in place of
    [f64].  One pass over a table of flows reads the clock once.  Arithmetic on [usize] and [u64] saturates or wraps where
    the source does; on [i64] times and sequence numbers it is exact.

    In the network of clients the sections of one wave are interleaved, each as a whole; the ids of edits are not used
    twice; a slot of a client's queue is free again when the client hears the message, not when the socket takes it; a
    client whose edit is refused, or whose queue overflowed, opens the wave anew under another connection; nobody is added
    to a wavelet of a wave they have open: the server would not send them what is in it (see [Listening]).

    ** Not modelled

    The JavaScript of the browser's client ([web/]) but for the state machine that e2e.rs repeats; unit tests, the bodies
    of the end-to-end tests and the example program: not part of the program's logic.  [main.rs]: starting the runtime,
    signals, the health probe, and with them the wait for writers to drain.  Sockets, timers and the parsing of JSON into
    messages belong to the frameworks; what they deliver is the input of a turn ([Lifecycle.Turn]).  Counting for the
    metrics is not threaded through the handlers: [Metrics.Counted] lists what is reported.  Logging, and the printing of
    error values, are left out. *)

From Stdlib Require Export NArith ZArith Ascii.
From stdpp Require Export base numbers list list_numbers strings gmap sets option.
From stdpp Require Export tactics.

#[export] Set Default Proof Using "Type".

Declare Scope gal_scope.
Delimit Scope gal_scope with gal.
Open Scope gal_scope.

(** ** Text

    A Rust [char] is a Unicode scalar value, kept as its code point.  A [String] or [&str] is the
    sequence of its scalar values; byte positions are sums of [len_utf8]. *)

Abbreviation char := N (only parsing).
Abbreviation str := (list N).

(** ASCII literals of the source. *)
Definition lit (s : string) : str := N_of_ascii <$> String.list_ascii_of_string s.

(** [char::len_utf16] and [char::len_utf8]. *)
Definition len_utf16 (c : char) : N := if (c <? 65536)%N then 1 else 2.
Definition len_utf8 (c : char) : N :=
  if (c <? 128)%N then 1 else if (c <? 2048)%N then 2 else if (c <? 65536)%N then 3 else 4.

(** [str::len]: the length in bytes. *)
Definition str_len (s : str) : N := foldr (λ c n, (len_utf8 c + n)%N) 0%N s.

(** [&s[from..]]: [None] is the panic at a position that is not a character boundary. *)
Fixpoint str_from (s : str) (from : N) : option str :=
  if (from =? 0)%N then Some s else
  match s with
  | [] => None
  | c :: rest => if (from <? len_utf8 c)%N then None else str_from rest (from - len_utf8 c)
  end.

(** [&s[..end]], with the same panic. *)
Fixpoint str_upto (s : str) (end_ : N) : option str :=
  if (end_ =? 0)%N then Some [] else
  match s with
  | [] => None
  | c :: rest =>
      if (end_ <? len_utf8 c)%N then None
      else cons c <$> str_upto rest (end_ - len_utf8 c)
  end.

(** [&s[start..end]]. *)
Definition str_slice (s : str) (start end_ : N) : option str :=
  if (end_ <? start)%N then None
  else s' ← str_from s start; str_upto s' (end_ - start).

(** ** Machine integers: [usize] and [u64] on a 64-bit target. *)

Definition usize_max : N := 18446744073709551615.
Definition two64 : N := 18446744073709551616.

(** [usize::saturating_add], [usize::saturating_sub] and the wrapping [+] of a release build. *)
Definition sat_add (a b : N) : N := N.min (a + b) usize_max.
Definition sat_sub (a b : N) : N := (a - b)%N.
Definition wadd (a b : N) : N := ((a + b) mod two64)%N.

(** ** Results *)

Inductive result (T E : Type) : Type :=
| Ok (t : T)
| Err (e : E).
Arguments Ok {T E} t.
Arguments Err {T E} e.

Definition result_bind {T U E} (f : T → result U E) (r : result T E) : result U E :=
  match r with Ok t => f t | Err e => Err e end.
Definition result_map {T U E} (f : T → U) (r : result T E) : result U E :=
  match r with Ok t => Ok (f t) | Err e => Err e end.
Definition map_err {T E F} (f : E → F) (r : result T E) : result T F :=
  match r with Ok t => Ok t | Err e => Err (f e) end.
Definition is_ok {T E} (r : result T E) : bool := match r with Ok _ => true | Err _ => false end.

Lemma bind_ok {T U E} (r : result T E) (f : T → result U E) u :
  result_bind f r = Ok u → ∃ t, r = Ok t ∧ f t = Ok u.
Proof. destruct r; [eauto|done]. Qed.

(** The [?] operator. *)
Notation "x <-? r ; k" := (result_bind (λ x, k) r)
  (at level 20, r at level 100, k at level 200, right associativity) : gal_scope.
Notation "' pat <-? r ; k" := (result_bind (λ x, match x with pat => k end) r)
  (at level 20, pat pattern, r at level 100, k at level 200, right associativity) : gal_scope.

(** ** Automation *)

Create HintDb gal.
Create Rewrite HintDb gal.

(** Decide every test in sight, then hand the rest to arithmetic. *)
Ltac case_tests :=
  repeat (case_match || case_decide || case_bool_decide); simplify_eq/=.

(** Turn boolean comparisons on [N] into propositions. *)
Ltac bool_to_prop :=
  repeat match goal with
  | H : (_ <? _)%N = true |- _ => apply N.ltb_lt in H
  | H : (_ <? _)%N = false |- _ => apply N.ltb_ge in H
  | H : (_ <=? _)%N = true |- _ => apply N.leb_le in H
  | H : (_ <=? _)%N = false |- _ => apply N.leb_gt in H
  | H : (_ =? _)%N = true |- _ => apply N.eqb_eq in H
  | H : (_ =? _)%N = false |- _ => apply N.eqb_neq in H
  | H : (_ && _) = true |- _ => apply andb_prop in H as [? ?]
  | H : (_ || _) = false |- _ => apply orb_false_elim in H as [? ?]
  | H : negb _ = true |- _ => apply negb_true_iff in H
  | H : negb _ = false |- _ => apply negb_false_iff in H
  | H : bool_decide _ = true |- _ => apply bool_decide_eq_true in H
  | H : bool_decide _ = false |- _ => apply bool_decide_eq_false in H
  end.

Ltac ncase := case_match; bool_to_prop; simplify_eq/=; try lia.

Ltac ex_split := repeat match goal with |- ∃ _, _ => eexists | |- _ ∧ _ => split end.

(** ** Generic lemmas *)

Lemma len_utf8_pos c : (0 < len_utf8 c)%N.
Proof. unfold len_utf8. repeat case_match; lia. Qed.

Lemma len_utf16_range c : (1 ≤ len_utf16 c ≤ 2)%N.
Proof. unfold len_utf16. case_match; lia. Qed.

Lemma len_utf16_le_utf8 c : (len_utf16 c ≤ len_utf8 c)%N.
Proof. unfold len_utf16, len_utf8. repeat ncase. Qed.

#[export] Hint Resolve len_utf8_pos len_utf16_range : gal.

Lemma str_len_nil : str_len [] = 0%N.
Proof. reflexivity. Qed.

Lemma str_len_cons c s : str_len (c :: s) = (len_utf8 c + str_len s)%N.
Proof. reflexivity. Qed.

#[global] Arguments str_len : simpl never.
#[export] Hint Rewrite str_len_nil str_len_cons : gal.

Lemma str_len_app s1 s2 : str_len (s1 ++ s2) = (str_len s1 + str_len s2)%N.
Proof. induction s1; simpl; autorewrite with gal; lia. Qed.

(** Slicing at a character boundary never panics and splits the text there. *)
Lemma str_from_prefix s1 s2 : str_from (s1 ++ s2) (str_len s1) = Some s2.
Proof.
  induction s1 as [|c s1 IH]; simpl.
  - destruct s2; reflexivity.
  - pose proof (len_utf8_pos c). rewrite str_len_cons.
    repeat ncase. rewrite <- IH. f_equal. lia.
Qed.

Lemma str_upto_prefix s1 s2 : str_upto (s1 ++ s2) (str_len s1) = Some s1.
Proof.
  induction s1 as [|c s1 IH]; simpl.
  - destruct s2; reflexivity.
  - pose proof (len_utf8_pos c). rewrite str_len_cons.
    repeat ncase. replace (len_utf8 c + str_len s1 - len_utf8 c)%N with (str_len s1) by lia.
    by rewrite IH.
Qed.

Lemma str_slice_middle s1 s2 s3 :
  str_slice (s1 ++ s2 ++ s3) (str_len s1) (str_len s1 + str_len s2) = Some s2.
Proof.
  unfold str_slice. ncase. rewrite str_from_prefix. simpl.
  replace (str_len s1 + str_len s2 - str_len s1)%N with (str_len s2) by lia.
  apply str_upto_prefix.
Qed.

Lemma sat_add_small a b : (a + b ≤ usize_max)%N → sat_add a b = (a + b)%N.
Proof. unfold sat_add. lia. Qed.

Lemma sat_add_le a b : (sat_add a b ≤ usize_max)%N.
Proof. unfold sat_add. lia. Qed.

Lemma wadd_small a b : (a + b ≤ usize_max)%N → wadd a b = (a + b)%N.
Proof. unfold wadd, usize_max, two64. intros. apply N.mod_small. lia. Qed.

(** [Vec::insert]. *)
Definition insert_at {A} (i : nat) (x : A) (l : list A) : list A := take i l ++ x :: drop i l.

Lemma insert_at_end {A} (x : A) l : insert_at (length l) x l = l ++ [x].
Proof. unfold insert_at. by rewrite take_ge, drop_ge. Qed.

Lemma insert_at_app {A} (x : A) l1 l2 : insert_at (length l1) x (l1 ++ l2) = l1 ++ x :: l2.
Proof. unfold insert_at. by rewrite take_app_length, drop_app_length. Qed.

(** ** Sums over a map *)

Section sums.
Context {K : Type} `{Countable K}.

Definition map_sum {A} (f : K → A → nat) (m : gmap K A) : nat := map_fold (λ k y acc, f k y + acc)%nat 0%nat m.

Lemma map_sum_fresh {A} (f : K → A → nat) m k y : m !! k = None → map_sum f (<[k := y]> m) = (f k y + map_sum f m)%nat.
Proof. intros Hk. unfold map_sum. rewrite map_fold_insert_L; [done|intros; lia|done]. Qed.

Lemma map_sum_delete {A} (f : K → A → nat) m k y : m !! k = Some y → map_sum f m = (f k y + map_sum f (delete k m))%nat.
Proof. intros Hk. rewrite <- map_sum_fresh by apply lookup_delete_eq. by rewrite insert_delete_eq, insert_id. Qed.

Lemma map_sum_insert {A} (f : K → A → nat) m k y : map_sum f (<[k := y]> m) = (f k y + map_sum f (delete k m))%nat.
Proof. rewrite <- map_sum_fresh by apply lookup_delete_eq. by rewrite insert_delete_eq. Qed.

(** A map with no other keys, each value at most [d] heavier. *)
Lemma map_sum_le {A B} (f : K → A → nat) (g : K → B → nat) (d : nat) (m : gmap K A) (m' : gmap K B) :
  (∀ k z, m' !! k = Some z → ∃ y, m !! k = Some y ∧ (g k z ≤ f k y + d)%nat) →
  (map_sum g m' ≤ map_sum f m + d * size m)%nat.
Proof.
  revert m. induction m' as [|k z m' Hk IH] using map_ind; intros m Hm; [unfold map_sum; rewrite map_fold_empty; lia|].
  destruct (Hm k z) as (y & Hy & Hle); [apply lookup_insert_eq|].
  rewrite map_sum_fresh, (map_sum_delete f m k y) by done.
  assert (size m = S (size (delete k m))) as Es.
  { assert (size (<[k := y]> (delete k m)) = S (size (delete k m))) as <- by (apply map_size_insert_None, lookup_delete_eq).
    by rewrite insert_delete_eq, insert_id. }
  assert (map_sum g m' ≤ map_sum f (delete k m) + d * size (delete k m))%nat as Hrest; [|rewrite Es; nia].
  apply IH. intros k' z' Hz'. assert (k' ≠ k) as Hne by congruence. destruct (Hm k' z') as (y' & ? & ?).
  - by rewrite lookup_insert_ne.
  - exists y'. by rewrite lookup_delete_ne.
Qed.
End sums.
