(* ===== verification/Tables.v ===== *)
(** * Tables: lists of rows

    A SQL table is the list of its rows in storage order; a query is a filter or a bind over rows, an
    [UPDATE] a map, a [DELETE] a filter, an [ORDER BY] a stable sort.  The generic lemmas on filters,
    keys and sorted lists that the server's components share are here too. *)

From stdpp Require Import sorting.
From S2P Require Import Prelude.

Section rows.
Context {R : Type}.
Implicit Types t : list R.

Definition select_where (p : R → bool) t : list R := filter (λ r, p r = true) t.

Definition update_where (p : R → bool) (f : R → R) t : list R := (λ r, if p r then f r else r) <$> t.

Definition delete_where (p : R → bool) t : list R := filter (λ r, p r = false) t.

(** [query_row(..).optional()]: the first row, if there is one. *)
Definition find_row (p : R → bool) t : option R := head (select_where p t).

Definition exists_row (p : R → bool) t : bool := existsb p t.

(** A stable sort on a key. *)
Definition key_before (key : R → Z) (a b : R) : Prop := (key a ≤ key b)%Z.

#[global] Instance key_before_dec key a b : Decision (key_before key a b).
Proof. unfold key_before. apply _. Defined.

Definition order_by (key : R → Z) t : list R := merge_sort (key_before key) t.

(** [iter_mut().find(..)]: change the first row that satisfies the test. *)
Fixpoint update_first (p : R → bool) (f : R → R) t : list R :=
  match t with
  | [] => []
  | r :: t => if p r then f r :: t else r :: update_first p f t
  end.

(** An [INSERT]: refused when a key is taken or a reference dangles. *)
Definition insert_row {E} (refusal : E) (ok : bool) (r : R) t : result (list R) E :=
  if ok then Ok (t ++ [r]) else Err refusal.

Lemma elem_of_select p t r : r ∈ select_where p t ↔ r ∈ t ∧ p r = true.
Proof. unfold select_where. rewrite list_elem_of_filter. tauto. Qed.

Lemma elem_of_delete p t r : r ∈ delete_where p t ↔ r ∈ t ∧ p r = false.
Proof. unfold delete_where. rewrite list_elem_of_filter. tauto. Qed.

Lemma elem_of_update p f t r :
  r ∈ update_where p f t ↔ ∃ r0, r0 ∈ t ∧ r = if p r0 then f r0 else r0.
Proof. unfold update_where. rewrite list_elem_of_fmap. naive_solver. Qed.

Lemma exists_row_spec p t : exists_row p t = true ↔ ∃ r, r ∈ t ∧ p r = true.
Proof.
  unfold exists_row. rewrite existsb_exists. setoid_rewrite <- list_elem_of_In. done.
Qed.

Lemma exists_row_false p t : exists_row p t = false ↔ ∀ r, r ∈ t → p r = false.
Proof.
  rewrite <- not_true_iff_false, exists_row_spec. split.
  - intros H r Hr. destruct (p r) eqn:E; [|done]. destruct H. eauto.
  - intros H (r & Hr & E). rewrite H in E by done. done.
Qed.

Lemma find_row_some p t r : find_row p t = Some r → r ∈ t ∧ p r = true.
Proof.
  unfold find_row. destruct (select_where p t) as [|x l] eqn:E; [done|]. intros [= ->].
  apply elem_of_select. rewrite E. by left.
Qed.

Lemma find_row_none p t : find_row p t = None ↔ ∀ r, r ∈ t → p r = false.
Proof.
  unfold find_row. destruct (select_where p t) as [|x l] eqn:E; simpl; split; try done.
  - intros _ r Hr. destruct (p r) eqn:Ep; [|done].
    assert (r ∈ select_where p t) as H by by apply elem_of_select. rewrite E in H. by apply elem_of_nil in H.
  - intros H. assert (x ∈ select_where p t) as [Hx Hp]%elem_of_select by (rewrite E; by left).
    rewrite H in Hp; done.
Qed.

(** With at most one row satisfying the test, that is the row found. *)
Lemma find_row_unique p t r :
  r ∈ t → p r = true → (∀ r', r' ∈ t → p r' = true → r' = r) → find_row p t = Some r.
Proof.
  intros Hr Hp Hu. destruct (find_row p t) as [r'|] eqn:E.
  - apply find_row_some in E as [H1 H2]. f_equal. by apply Hu.
  - rewrite find_row_none in E. rewrite E in Hp; done.
Qed.

Lemma filter_ext_elem (P Q : R → Prop) `{∀ x, Decision (P x), ∀ x, Decision (Q x)} t :
  (∀ x, x ∈ t → P x ↔ Q x) → filter P t = filter Q t.
Proof.
  induction t as [|x t IH]; intros Hx; [done|]. rewrite !filter_cons, IH by (intros; apply Hx; by right).
  pose proof (Hx x). repeat case_decide; set_solver.
Qed.

Lemma filter_all (P : R → Prop) `{∀ x, Decision (P x)} t : (∀ x, x ∈ t → P x) → filter P t = t.
Proof.
  induction t as [|x t IH]; intros Hx; [done|].
  rewrite filter_cons_True by (apply Hx; by left). by rewrite IH by (intros; apply Hx; by right).
Qed.

Lemma order_by_perm key t : order_by key t ≡ₚ t.
Proof. apply merge_sort_Permutation. Qed.

Lemma elem_of_order_by key t r : r ∈ order_by key t ↔ r ∈ t.
Proof. by rewrite order_by_perm. Qed.

End rows.

(** Rows with a key no two share. *)
Definition keyed {R K} (key : R → K) (t : list R) : Prop := NoDup (key <$> t).

Lemma keyed_eq {R K} (key : R → K) t r r' : keyed key t → r ∈ t → r' ∈ t → key r = key r' → r = r'.
Proof.
  unfold keyed. intros Hnd [i Hi]%list_elem_of_lookup [j Hj]%list_elem_of_lookup E.
  assert (i = j) as ->; [|congruence].
  eapply NoDup_lookup; [done| |]; rewrite list_lookup_fmap; [by rewrite Hi|by rewrite Hj, E].
Qed.

Lemma keyed_snoc {R K} (key : R → K) t r :
  keyed key t → (∀ r', r' ∈ t → key r' ≠ key r) → keyed key (t ++ [r]).
Proof.
  unfold keyed. intros Hnd Hr. rewrite fmap_app. apply list.NoDup_app. split_and!; [done| |by apply list.NoDup_singleton].
  intros k (r' & -> & Hr')%list_elem_of_fmap Hk. simpl in Hk. apply list_elem_of_singleton in Hk. by eapply Hr.
Qed.

Lemma keyed_update {R K} (key : R → K) p f t :
  (∀ r, key (f r) = key r) → keyed key t → keyed key (update_where p f t).
Proof.
  unfold keyed, update_where. intros Hf. rewrite <- list_fmap_compose.
  intros H. rewrite (list_fmap_ext _ key); [done|]. intros i r _. simpl. destruct (p r); [apply Hf|done].
Qed.

Lemma keyed_delete {R K} (key : R → K) p t : keyed key t → keyed key (delete_where p t).
Proof.
  unfold keyed, delete_where. induction t as [|r t IH]; [done|]. simpl. rewrite filter_cons.
  intros [Hr Hnd]%list.NoDup_cons. case_decide; simpl; [|by apply IH].
  apply list.NoDup_cons. split; [|by apply IH].
  intros (r' & E & [_ Hr']%list_elem_of_filter)%list_elem_of_fmap. apply Hr. rewrite E. by apply list_elem_of_fmap_2.
Qed.

Lemma keyed_filter {R K} (key : R → K) (P : R → Prop) `{∀ r, Decision (P r)} t : keyed key t → keyed key (filter P t).
Proof.
  unfold keyed. induction t as [|r t IH]; [done|]. simpl. rewrite filter_cons. intros [Hr Hnd]%list.NoDup_cons.
  case_decide; simpl; [|by apply IH]. apply list.NoDup_cons. split; [|by apply IH].
  intros (x & E & [_ Hx]%list_elem_of_filter)%list_elem_of_fmap. apply Hr. rewrite E. by apply list_elem_of_fmap_2.
Qed.

Lemma keyed_perm {R K} (key : R → K) t t' : t ≡ₚ t' → keyed key t → keyed key t'.
Proof. unfold keyed. by intros ->. Qed.

Lemma filter_none {A} (P : A → Prop) `{∀ x, Decision (P x)} (l : list A) : (∀ x, x ∈ l → ¬ P x) → filter P l = [].
Proof.
  induction l as [|x l IH]; intros Hx; [done|]. rewrite filter_cons_False by (apply Hx; by left).
  apply IH. intros y Hy. apply Hx. by right.
Qed.

Lemma sorted_filter {A} (R : A → A → Prop) (P : A → Prop) `{∀ x, Decision (P x)} l :
  StronglySorted R l → StronglySorted R (filter P l).
Proof.
  induction 1 as [|x l Hl IH Hx]; [constructor|]. rewrite filter_cons. case_decide; [|done]. constructor; [done|].
  rewrite list.Forall_forall in *. intros y [_ Hy]%list_elem_of_filter. by apply Hx.
Qed.

(** On distinct keys, changing the first row with a key is changing the rows with that key. *)
Lemma update_first_where {R} (key : R → str) k f t :
  keyed key t → update_first (λ r, bool_decide (key r = k)) f t = update_where (λ r, bool_decide (key r = k)) f t.
Proof.
  unfold keyed, update_where. induction t as [|r t IH]; [done|]. simpl. intros [Hr Hnd]%list.NoDup_cons.
  destruct (bool_decide (key r = k)) eqn:E; [|by rewrite IH]. f_equal. apply bool_decide_eq_true in E.
  symmetry. rewrite <- (list_fmap_id t) at 2. apply list_fmap_ext. intros i x Hx.
  rewrite bool_decide_eq_false_2; [done|]. intros Hk. apply Hr. rewrite E, <- Hk.
  eapply list_elem_of_fmap_2, list_elem_of_lookup_2. done.
Qed.
