(* ===== verification/Strings.v ===== *)
(** * The string functions of the standard library the server uses

    Scalar-value strings, with the [std::str] methods the modelled code calls: prefixes, trimming,
    lines, whitespace, ASCII classes and UTF-8 bytes. *)

From S2P Require Import Prelude.

Definition str_eqb (a b : str) : bool := bool_decide (a = b).

(** [str::strip_prefix]. *)
Fixpoint strip_prefix (s p : str) {struct p} : option str :=
  match p, s with
  | [], _ => Some s
  | x :: p, y :: s => if (x =? y)%N then strip_prefix s p else None
  | _ :: _, [] => None
  end.

Definition starts_with (s p : str) : bool := match strip_prefix s p with Some _ => true | None => false end.

(** [char::is_whitespace]: the Unicode [White_Space] property. *)
Definition is_whitespace (c : char) : bool :=
  ((9 <=? c) && (c <=? 13) || (c =? 32) || (c =? 133) || (c =? 160) || (c =? 5760)
   || (8192 <=? c) && (c <=? 8202) || (c =? 8232) || (c =? 8233) || (c =? 8239) || (c =? 8287)
   || (c =? 12288))%N.

Definition is_ascii_digit (c : char) : bool := ((48 <=? c) && (c <=? 57))%N.
Definition is_ascii_lowercase (c : char) : bool := ((97 <=? c) && (c <=? 122))%N.
Definition is_ascii_uppercase (c : char) : bool := ((65 <=? c) && (c <=? 90))%N.
Definition is_ascii_alphanumeric (c : char) : bool :=
  is_ascii_digit c || is_ascii_lowercase c || is_ascii_uppercase c.
Definition to_ascii_lowercase (c : char) : char := if is_ascii_uppercase c then (c + 32)%N else c.
Definition is_ascii_control (c : char) : bool := ((c <? 32) || (c =? 127))%N.
(** [char::is_control]: general category Cc. *)
Definition is_control (c : char) : bool := ((c <? 32) || (127 <=? c) && (c <=? 159))%N.

Fixpoint trim_start_by (p : char → bool) (s : str) : str :=
  match s with
  | c :: rest => if p c then trim_start_by p rest else s
  | [] => []
  end.
Definition trim_end_by (p : char → bool) (s : str) : str := reverse (trim_start_by p (reverse s)).

Definition trim_start : str → str := trim_start_by is_whitespace.
Definition trim_end : str → str := trim_end_by is_whitespace.
Definition trim (s : str) : str := trim_end (trim_start s).

(** [str::split(sep)]. *)
Fixpoint split_on (sep : char) (s : str) : list str :=
  match s with
  | [] => [[]]
  | c :: rest =>
      if (c =? sep)%N then [] :: split_on sep rest
      else match split_on sep rest with l :: ls => (c :: l) :: ls | [] => [[c]] end
  end.

Definition drop_trailing_empty (ls : list str) : list str :=
  match list.last ls with Some [] => take (length ls - 1) ls | _ => ls end.

Definition strip_cr (l : str) : str :=
  match list.last l with Some c => if (c =? 13)%N then take (length l - 1) l else l | None => l end.

(** [str::lines]: split at line feeds, without the last empty line or a trailing carriage return. *)
Definition lines (s : str) : list str := strip_cr <$> drop_trailing_empty (split_on 10 s).

(** UTF-8. *)
Definition utf8_bytes (c : char) : list N :=
  if (c <? 128)%N then [c]
  else if (c <? 2048)%N then [192 + c / 64; 128 + c mod 64]%N
  else if (c <? 65536)%N then [224 + c / 4096; 128 + (c / 64) mod 64; 128 + c mod 64]%N
  else [240 + c / 262144; 128 + (c / 4096) mod 64; 128 + (c / 64) mod 64; 128 + c mod 64]%N.

Definition as_bytes (s : str) : list N := s ≫= utf8_bytes.

(** ** Lemmas *)

Lemma strip_prefix_spec s p r : strip_prefix s p = Some r ↔ s = p ++ r.
Proof.
  revert s. induction p as [|x p IH]; intros s; [destruct s; simpl; naive_solver|].
  destruct s as [|y s]; simpl; [done|]. destruct (x =? y)%N eqn:E; bool_to_prop.
  - rewrite IH. naive_solver.
  - naive_solver.
Qed.

Lemma starts_with_spec s p : starts_with s p = true ↔ ∃ r, s = p ++ r.
Proof.
  unfold starts_with. destruct (strip_prefix s p) as [r|] eqn:E.
  - split; [|done]. intros _. exists r. by apply strip_prefix_spec.
  - split; [done|]. intros [r Hr]. apply strip_prefix_spec in Hr. congruence.
Qed.

Lemma trim_start_by_head p s c r : trim_start_by p s = c :: r → p c = false.
Proof. induction s as [|d s IH]; simpl; [done|]. destruct (p d) eqn:E; [done|]. intros [= <- <-]. done. Qed.

Lemma trim_start_by_suffix p s : ∃ pre, s = pre ++ trim_start_by p s ∧ Forall (λ c, p c = true) pre.
Proof.
  induction s as [|c s [pre [E H]]]; simpl; [by exists []|].
  destruct (p c) eqn:Ec; [|by exists []]. exists (c :: pre). split; [by rewrite E at 1|by constructor].
Qed.

Lemma trim_end_by_prefix p s : ∃ post, s = trim_end_by p s ++ post ∧ Forall (λ c, p c = true) post.
Proof.
  unfold trim_end_by. destruct (trim_start_by_suffix p (reverse s)) as (pre & E & H).
  exists (reverse pre). apply (f_equal reverse) in E. rewrite reverse_involutive, reverse_app in E.
  split; [done|]. by apply Forall_reverse.
Qed.

Lemma trim_end_by_last p s l c : trim_end_by p s = l ++ [c] → p c = false.
Proof.
  unfold trim_end_by. intros E. apply (f_equal reverse) in E. rewrite reverse_involutive, reverse_snoc in E.
  by eapply trim_start_by_head.
Qed.

Lemma trim_end_by_length p s : (length (trim_end_by p s) ≤ length s)%nat.
Proof. destruct (trim_end_by_prefix p s) as (post & E & _). apply (f_equal length) in E. rewrite length_app in E. lia. Qed.

Lemma str_len_take_le s n : (str_len (take n s) ≤ str_len s)%N.
Proof. rewrite <- (take_drop n s) at 2. rewrite str_len_app. lia. Qed.

Lemma str_len_length s : (N.of_nat (length s) ≤ str_len s)%N.
Proof.
  induction s as [|c s IH]; [rewrite str_len_nil; simpl; lia|]. rewrite str_len_cons.
  pose proof (len_utf8_pos c). simpl length. lia.
Qed.

(** Every byte of a scalar value is a byte. *)
Lemma utf8_bytes_len c : N.of_nat (length (utf8_bytes c)) = len_utf8 c.
Proof. unfold utf8_bytes, len_utf8. by repeat case_match. Qed.

(** ** Ordering: [String]'s [Ord] is lexicographic on scalar values (as on UTF-8 bytes) *)

Fixpoint str_leb (a b : str) : bool :=
  match a, b with
  | [], _ => true
  | _ :: _, [] => false
  | x :: a, y :: b => (x <? y)%N || (x =? y)%N && str_leb a b
  end.

Definition str_le (a b : str) : Prop := str_leb a b = true.

#[export] Instance str_le_dec a b : Decision (str_le a b).
Proof. unfold str_le. apply _. Defined.

Lemma str_leb_refl a : str_leb a a = true.
Proof. induction a as [|x a IH]; simpl; [done|]. rewrite N.eqb_refl, IH. apply orb_true_r. Qed.

Lemma str_leb_total a b : str_leb a b = true ∨ str_leb b a = true.
Proof.
  revert b. induction a as [|x a IH]; intros [|y b]; simpl; auto.
  destruct (N.lt_trichotomy x y) as [H|[->|H]].
  - left. by rewrite (proj2 (N.ltb_lt _ _)).
  - rewrite N.ltb_irrefl, N.eqb_refl. simpl. apply IH.
  - right. by rewrite (proj2 (N.ltb_lt _ _)).
Qed.

Lemma str_leb_trans a b c : str_leb a b = true → str_leb b c = true → str_leb a c = true.
Proof.
  revert b c. induction a as [|x a IH]; intros [|y b] [|z c]; simpl; try done.
  rewrite !orb_true_iff, !andb_true_iff, !N.ltb_lt, !N.eqb_eq.
  intros [H1|[-> H1]] [H2|[-> H2]]; [left; lia|by left|by left|right; split; [done|by eapply IH]].
Qed.

Lemma str_leb_antisym a b : str_leb a b = true → str_leb b a = true → a = b.
Proof.
  revert b. induction a as [|x a IH]; intros [|y b]; simpl; try done.
  rewrite !orb_true_iff, !andb_true_iff, !N.ltb_lt, !N.eqb_eq.
  intros [H1|[-> H1]] [H2|[E H2]]; try lia. f_equal. by apply IH.
Qed.
