(* ===== verification/Unicode.v ===== *)
(** * Unicode tables of the standard library

    [char::is_alphanumeric] and [str::to_lowercase] are table-driven; they are parameters, with what
    their documentation promises on ASCII. *)

From S2P Require Import Prelude Strings.

Class Unicode := {
  is_alphanumeric : char → bool;
  to_lowercase : str → str;
}.

(** What the documentation says of ASCII. *)
Class UnicodeLaws `(U : Unicode) : Prop := {
  is_alphanumeric_ascii c : (c < 128)%N → is_alphanumeric c = is_ascii_alphanumeric c;
  to_lowercase_ascii s : Forall (λ c, (c < 128)%N) s → to_lowercase s = to_ascii_lowercase <$> s;
  to_lowercase_idemp s : to_lowercase (to_lowercase s) = to_lowercase s;
}.

(** The ASCII part of the tables, for the examples. *)
#[export] Instance unicode_ascii : Unicode := {|
  is_alphanumeric := is_ascii_alphanumeric;
  to_lowercase := fmap to_ascii_lowercase;
|}.

#[export] Instance unicode_ascii_laws : UnicodeLaws unicode_ascii.
Proof.
  split; try done. intros s. simpl. rewrite <- list_fmap_compose. apply list_fmap_ext. intros i c _.
  unfold compose, to_ascii_lowercase, is_ascii_uppercase. simpl.
  destruct ((65 <=? c)%N && (c <=? 90)%N) eqn:E; [|by rewrite ?E]. bool_to_prop.
  destruct ((65 <=? c + 32)%N && (c + 32 <=? 90)%N) eqn:E'; [|done]. bool_to_prop. lia.
Qed.
