(* ===== verification/Json.v ===== *)
(** * The interface of [serde_json::Value]

    Attribute values and embedded objects are [serde_json::Value]s.  That type is a third-party
    package, so it is a parameter of the development: this class names what the source uses of it.
    [json_scalar] at the end is a small concrete instance, used only by the examples. *)

From S2P Require Import Prelude.

Class Json := {
  Value : Type;
  #[global] value_eq_dec :: EqDecision Value;
  (** [Value::Null]; [is_null] compares with it. *)
  VNull : Value;
  (** [Value::is_boolean], [Value::as_str], [Value::is_object]. *)
  value_is_boolean : Value → bool;
  value_as_str : Value → option str;
  value_is_object : Value → bool;
  (** [Value::get] on an object key. *)
  value_get : Value → str → option Value;
  (** [serde_json::to_string(value).map(|s| s.len()).unwrap_or(usize::MAX)]. *)
  value_json_len : Value → N;
}.

Definition is_null `{Json} (v : Value) : bool := bool_decide (v = VNull).

(** A concrete instance: scalars, and objects with one field. *)
Inductive scalar : Type :=
| JNull
| JBool (b : bool)
| JStr (s : str)
| JObj (key : str) (value : scalar).

#[export] Instance scalar_eq_dec : EqDecision scalar.
Proof. solve_decision. Defined.

Fixpoint scalar_len (v : scalar) : N :=
  match v with
  | JNull => 4
  | JBool true => 4
  | JBool false => 5
  | JStr s => 2 + str_len s
  | JObj k v => 5 + str_len k + scalar_len v
  end%N.

#[export] Instance json_scalar : Json := {|
  Value := scalar;
  VNull := JNull;
  value_is_boolean v := match v with JBool _ => true | _ => false end;
  value_as_str v := match v with JStr s => Some s | _ => None end;
  value_is_object v := match v with JObj _ _ => true | _ => false end;
  value_get v k := match v with JObj k' w => if decide (k = k') then Some w else None | _ => None end;
  value_json_len := scalar_len;
|}.
