(* ===== verification/Attributes.v ===== *)
(** * Rich-text attribute maps ([crates/gal-ot/src/attributes.rs])

    A [BTreeMap<String, Value>] is a finite map.  A [VNull] value means removal. *)

From S2P Require Import Prelude Json.

Abbreviation Attributes := (gmap str Value).

Section attributes.
Context `{J : Json}.

(** ** The code *)

Definition attr_without_nulls (attrs : Attributes) : Attributes :=
  filter (λ kv, is_null kv.2 = false) attrs.

Definition attr_compose (a b : Attributes) (keep_null : bool) : Attributes :=
  let out := if keep_null then b else filter (λ kv, is_null kv.2 = false) b in
  map_fold (λ key value out, if decide (b !! key = None) then <[key:=value]> out else out) out a.

Definition attr_transform (a b : Attributes) (priority : bool) : Attributes :=
  if negb priority then b else filter (λ kv, a !! kv.1 = None) b.

Definition attr_invert (attr base : Attributes) : Attributes :=
  let restored :=
    map_fold (λ key value out,
      if decide (base !! key ≠ attr !! key ∧ is_Some (attr !! key))
      then <[key:=value]> out else out) ∅ base in
  map_fold (λ key value out,
    if decide (Some value ≠ base !! key ∧ base !! key = None)
    then <[key:=VNull]> out else out) restored attr.

(** ** What each operation leaves at a key *)

(** One loop over a map that conditionally inserts at the key it visits. *)
Lemma lookup_map_fold_insert (P : str → Value → Prop) `{∀ k v, Decision (P k v)}
    (f : str → Value → Value) (m out : Attributes) k :
  map_fold (λ key value out, if decide (P key value) then <[key:=f key value]> out else out) out m
    !! k =
  match m !! k with
  | Some v => if decide (P k v) then Some (f k v) else out !! k
  | None => out !! k
  end.
Proof.
  revert k. refine (map_fold_weak_ind (λ r m, ∀ k, r !! k = match m !! k with
    | Some v => if decide (P k v) then Some (f k v) else out !! k | None => out !! k end)
    _ _ _ _ m).
  - intros k. by rewrite lookup_empty.
  - intros i x m' r Hi IH k. destruct (decide (k = i)) as [->|Hne].
    + rewrite lookup_insert_eq. case_decide; [by rewrite lookup_insert_eq|]. rewrite IH. by rewrite Hi.
    + rewrite lookup_insert_ne by done. case_decide; [rewrite lookup_insert_ne by done|]; apply IH.
Qed.

Lemma lookup_non_null (m : Attributes) k :
  filter (λ kv, is_null kv.2 = false) m !! k =
  match m !! k with Some v => if is_null v then None else Some v | None => None end.
Proof. rewrite map_lookup_filter. destruct (m !! k) as [v|]; simpl; [|done].
  destruct (is_null v) eqn:E; case_guard; naive_solver. Qed.

Lemma lookup_attr_compose a b keep_null k :
  attr_compose a b keep_null !! k =
  match b !! k with
  | Some v => if negb keep_null && is_null v then None else Some v
  | None => a !! k
  end.
Proof.
  unfold attr_compose.
  rewrite (lookup_map_fold_insert (λ key _, b !! key = None) (λ _ v, v)).
  destruct keep_null; rewrite ?lookup_non_null;
    destruct (b !! k) as [v|], (a !! k); simpl; try done; by destruct (is_null v).
Qed.

Lemma lookup_attr_transform a b priority k :
  attr_transform a b priority !! k = if priority && bool_decide (is_Some (a !! k)) then None else b !! k.
Proof.
  unfold attr_transform. destruct priority; simpl; [|done].
  rewrite map_lookup_filter. case_bool_decide as Ha; destruct (b !! k) as [v|]; simpl; try done;
    case_guard; try done; simpl in *; destruct (a !! k); naive_solver.
Qed.

Lemma lookup_attr_invert attr base k :
  attr_invert attr base !! k =
  match base !! k, attr !! k with
  | Some v, Some w => if decide (v = w) then None else Some v
  | None, Some _ => Some VNull
  | _, None => None
  end.
Proof.
  unfold attr_invert. rewrite (lookup_map_fold_insert (λ key value, Some value ≠ base !! key ∧ base !! key = None) (λ _ _, VNull)).
  rewrite (lookup_map_fold_insert (λ key _, base !! key ≠ attr !! key ∧ is_Some (attr !! key)) (λ _ v, v)).
  destruct (attr !! k) as [w|] eqn:Ea, (base !! k) as [v|] eqn:Eb; rewrite ?lookup_empty;
    repeat case_decide; naive_solver.
Qed.

Lemma lookup_attr_without_nulls m k :
  attr_without_nulls m !! k =
  match m !! k with Some v => if is_null v then None else Some v | None => None end.
Proof. apply lookup_non_null. Qed.

(** ** Algebra *)

Ltac attr_ext :=
  apply map_eq; intros ?k;
  rewrite ?lookup_attr_compose, ?lookup_attr_transform, ?lookup_attr_invert,
    ?lookup_attr_without_nulls, ?lookup_empty.

Lemma attr_compose_empty_r a keep_null : attr_compose a ∅ keep_null = a.
Proof. attr_ext. done. Qed.

Lemma attr_compose_empty_l b : attr_compose ∅ b true = b.
Proof. attr_ext. by destruct (b !! k). Qed.

Lemma attr_transform_empty_l b priority : attr_transform ∅ b priority = b.
Proof. attr_ext. by destruct priority. Qed.

Lemma attr_transform_empty_r a priority : attr_transform a ∅ priority = ∅.
Proof. attr_ext. by destruct (_ && _). Qed.

(** Formatting twice is formatting once with the composition, whatever the text carried. *)
Lemma attr_compose_assoc d a b keep_null :
  attr_compose (attr_compose d a keep_null) b keep_null =
  attr_compose d (attr_compose a b true) keep_null.
Proof.
  attr_ext. destruct (b !! k) as [v|]; simpl; done.
Qed.

(** Composition sees an insert's own attributes the same way. *)
Lemma attr_compose_assoc_ins d a b :
  attr_compose (attr_compose d a true) b true = attr_compose d (attr_compose a b true) true.
Proof. apply attr_compose_assoc. Qed.

(** The diamond on attribute maps: both orders end with the same formatting. *)
Lemma attr_diamond a b :
  attr_compose a (attr_transform a b true) true = attr_compose b (attr_transform b a false) true.
Proof.
  attr_ext. simpl.
  case_bool_decide as Ha.
  - destruct Ha as [v Ha]. by rewrite Ha.
  - destruct (a !! k); [naive_solver|]. destruct (b !! k); done.
Qed.

Definition no_nulls (m : Attributes) : Prop := ∀ k v, m !! k = Some v → v ≠ VNull.

(** Undoing a change restores the formatting of a run that carries no null attribute. *)
Lemma attr_invert_compose attr base :
  no_nulls base →
  attr_compose (attr_compose base attr false) (attr_invert attr base) false = base.
Proof.
  intros Hn. attr_ext. unfold is_null.
  destruct (base !! k) as [v|] eqn:Eb, (attr !! k) as [w|]; simpl; try done.
  - assert (v ≠ VNull) by by eapply Hn.
    case_decide; subst; by rewrite bool_decide_eq_false_2.
  - by rewrite bool_decide_eq_true_2.
Qed.

Lemma no_nulls_empty : no_nulls ∅.
Proof. intros k v. by rewrite lookup_empty. Qed.

Lemma no_nulls_compose a b : no_nulls a → no_nulls (attr_compose a b false).
Proof.
  intros Ha k v. rewrite lookup_attr_compose. unfold is_null.
  destruct (b !! k) eqn:E; simpl; [case_bool_decide; naive_solver|apply Ha].
Qed.

End attributes.

#[global] Typeclasses Opaque Value.
