(* ===== verification/Text.v ===== *)
(** * UTF-16 text helpers ([crates/gal-ot/src/text.rs])

    Offsets are UTF-16 code units, slices are byte ranges.  A function that slices a string returns
    an [option]: [None] is the panic of slicing off a character boundary. *)

From S2P Require Import Prelude.

(** ** The code *)

Definition utf16_len (s : str) : N := foldr (λ c n, (len_utf16 c + n)%N) 0%N s.

Fixpoint advance_loop (cs : str) (from byte_idx consumed units total : N) : N :=
  match cs with
  | [] => total
  | ch :: rest =>
      if (units <=? consumed)%N then (from + byte_idx)%N
      else advance_loop rest from (byte_idx + len_utf8 ch) (consumed + len_utf16 ch) units total
  end.

Definition advance_utf16 (s : str) (from units : N) : option N :=
  rest ← str_from s from; Some (advance_loop rest from 0 0 units (str_len s)).

Definition utf16_to_byte (s : str) (target : N) : option N := advance_utf16 s 0 target.

Definition utf16_slice (s : str) (start end_ : N) : option str :=
  start_byte ← utf16_to_byte s start;
  end_byte ← advance_utf16 s start_byte (sat_sub end_ start);
  str_slice s start_byte end_byte.

(** ** Specification: cutting a text after a number of code units

    A cut inside a surrogate pair is rounded up to the end of the character. *)

Fixpoint split_units (s : str) (n : N) : str * str :=
  if (n =? 0)%N then ([], s) else
  match s with
  | [] => ([], [])
  | c :: r => let '(a, b) := split_units r (n - len_utf16 c) in (c :: a, b)
  end.

Definition take_units (s : str) (n : N) : str := (split_units s n).1.
Definition drop_units (s : str) (n : N) : str := (split_units s n).2.

(** The cut falls between two characters. *)
Definition unit_boundary (s : str) (n : N) : Prop := ∃ s1 s2, s = s1 ++ s2 ∧ utf16_len s1 = n.

Lemma utf16_len_nil : utf16_len [] = 0%N.
Proof. reflexivity. Qed.

Lemma utf16_len_cons c s : utf16_len (c :: s) = (len_utf16 c + utf16_len s)%N.
Proof. reflexivity. Qed.

#[global] Arguments utf16_len : simpl never.
#[export] Hint Rewrite utf16_len_nil utf16_len_cons : gal.

Lemma utf16_len_app s1 s2 : utf16_len (s1 ++ s2) = (utf16_len s1 + utf16_len s2)%N.
Proof. induction s1; simpl; autorewrite with gal; lia. Qed.

Lemma utf16_len_0 s : utf16_len s = 0%N → s = [].
Proof. destruct s as [|c s]; [done|]. rewrite utf16_len_cons. pose proof (len_utf16_range c). lia. Qed.

Lemma split_units_app s n : take_units s n ++ drop_units s n = s.
Proof.
  unfold take_units, drop_units. revert n. induction s as [|c s IH]; intros n; simpl; ncase; try done.
  specialize (IH (n - len_utf16 c)%N). destruct (split_units _ _). simpl in *. by rewrite IH.
Qed.

Lemma take_units_0 s : take_units s 0 = [].
Proof. by destruct s. Qed.

Lemma take_units_cons c s n :
  (0 < n)%N → take_units (c :: s) n = c :: take_units s (n - len_utf16 c).
Proof. intros. unfold take_units. simpl. ncase. by destruct (split_units _ _). Qed.

Lemma split_units_exact s1 s2 : split_units (s1 ++ s2) (utf16_len s1) = (s1, s2).
Proof.
  induction s1 as [|c s1 IH].
  - by destruct s2.
  - cbn [app split_units]. rewrite utf16_len_cons. pose proof (len_utf16_range c).
    repeat ncase. replace (len_utf16 c + utf16_len s1 - len_utf16 c)%N with (utf16_len s1) in * by lia.
    congruence.
Qed.

Lemma split_units_ge s n : (utf16_len s ≤ n)%N → split_units s n = (s, []).
Proof.
  revert n. induction s as [|c s IH]; intros n; simpl; [by repeat case_match|].
  rewrite utf16_len_cons. pose proof (len_utf16_range c). intros. ncase.
  rewrite IH by lia. done.
Qed.

(** Rounding never gives back fewer units than asked for, unless the text ends. *)
Lemma take_units_len s n : (N.min n (utf16_len s) ≤ utf16_len (take_units s n) ≤ n + 1)%N.
Proof.
  revert n. induction s as [|c s IH]; intros n.
  - unfold take_units. simpl. case_match; simpl; autorewrite with gal; lia.
  - destruct (decide (n = 0)%N) as [->|]; [rewrite take_units_0; autorewrite with gal; lia|].
    rewrite take_units_cons by lia. rewrite !utf16_len_cons. pose proof (len_utf16_range c).
    specialize (IH (n - len_utf16 c)%N). destruct (decide (n < len_utf16 c)%N); [|lia].
    replace (n - len_utf16 c)%N with 0%N in * by lia. rewrite take_units_0 in *. autorewrite with gal in *. lia.
Qed.

Lemma advance_loop_spec s from b c units total :
  total = (from + b + str_len s)%N →
  advance_loop s from b c units total = (from + b + str_len (take_units s (units - c)))%N.
Proof.
  revert b c. induction s as [|ch s IH]; intros b c Ht; simpl.
  - unfold take_units. simpl. ncase; autorewrite with gal in *; lia.
  - ncase.
    + replace (units - c)%N with 0%N by lia. rewrite take_units_0. autorewrite with gal. lia.
    + rewrite IH by (rewrite str_len_cons; lia).
      rewrite take_units_cons by lia. rewrite str_len_cons.
      replace (units - (c + len_utf16 ch))%N with (units - c - len_utf16 ch)%N by lia. lia.
Qed.

(** From a character boundary the scan never panics and stops at the rounded-up cut. *)
Lemma advance_utf16_spec s1 s2 units :
  advance_utf16 (s1 ++ s2) (str_len s1) units = Some (str_len s1 + str_len (take_units s2 units))%N.
Proof.
  unfold advance_utf16. rewrite str_from_prefix. simpl.
  rewrite advance_loop_spec; [|rewrite str_len_app; lia]. f_equal.
  replace (units - 0)%N with units by lia. lia.
Qed.

(** [utf16_slice] never panics: it is the text between the two rounded
    cuts. *)
Lemma utf16_slice_spec s start end_ :
  utf16_slice s start end_ = Some (take_units (drop_units s start) (end_ - start)).
Proof.
  unfold utf16_slice, utf16_to_byte, sat_sub.
  rewrite (advance_utf16_spec [] s). simpl.
  set (a := take_units s start). set (b := drop_units s start).
  replace s with (a ++ b) by apply split_units_app.
  rewrite advance_utf16_spec. simpl.
  set (m := take_units b (end_ - start)).
  replace b with (m ++ drop_units b (end_ - start)) by apply split_units_app.
  apply str_slice_middle.
Qed.

Lemma str_slice_units s1 s2 n :
  str_slice (s1 ++ s2) (str_len s1) (str_len s1 + str_len (take_units s2 n)) = Some (take_units s2 n).
Proof. rewrite <- (split_units_app s2 n) at 1. apply str_slice_middle. Qed.

Lemma drop_units_cons c s n :
  (0 < n)%N → drop_units (c :: s) n = drop_units s (n - len_utf16 c).
Proof. intros. unfold drop_units. simpl. ncase. by destruct (split_units _ _). Qed.
