(* ===== verification/Delta.v ===== *)
(** * Deltas ([crates/gal-ot/src/delta.rs]): the code

    The source's [struct Delta { ops: Vec<Op> }] is the list of its ops.  Every loop over an
    [OpIterator] runs on fuel; the fuel given is the number of ops involved and is proved enough in
    [DeltaLoops.v].  [None] is a panic (a string slice off a character boundary) or missing fuel, and
    is proved impossible there. *)

From S2P Require Import Prelude Json Attributes Text.

Section delta.
Context `{J : Json}.

(** ** Data *)

Inductive Insert : Type :=
| Text (s : str)
| Embed (v : Value).

Inductive OpKind : Type :=
| OInsert (i : Insert)
| ORetain (n : N)
| ODelete (n : N).

Inductive Kind : Type := KInsert | KRetain | KDelete.

Record Op := mkOp { op_kind : OpKind; op_attributes : Attributes }.

Abbreviation Delta := (list Op).

#[global] Instance Insert_eq_dec : EqDecision Insert.
Proof. solve_decision. Defined.
#[global] Instance OpKind_eq_dec : EqDecision OpKind.
Proof. solve_decision. Defined.
#[global] Instance Op_eq_dec : EqDecision Op.
Proof. solve_decision. Defined.
#[global] Instance Kind_eq_dec : EqDecision Kind.
Proof. solve_decision. Defined.

Definition INFINITY : N := usize_max.

(** ** Ops *)

Definition insert_len (i : Insert) : N :=
  match i with Text s => utf16_len s | Embed _ => 1 end.

Definition op_len (op : Op) : N :=
  match op_kind op with
  | OInsert i => insert_len i
  | ORetain n | ODelete n => n
  end.

Definition op_is_empty (op : Op) : bool := (op_len op =? 0)%N.

Definition kind_of (k : OpKind) : Kind :=
  match k with OInsert _ => KInsert | ORetain _ => KRetain | ODelete _ => KDelete end.

Definition kind (op : Op) : Kind := kind_of (op_kind op).

Definition op_text (op : Op) : option str :=
  match op_kind op with OInsert (Text s) => Some s | _ => None end.

Definition op_insert (text : str) : Op := mkOp (OInsert (Text text)) ∅.
Definition op_embed (v : Value) : Op := mkOp (OInsert (Embed v)) ∅.
Definition op_retain (n : N) : Op := mkOp (ORetain n) ∅.
Definition op_delete (n : N) : Op := mkOp (ODelete n) ∅.
Definition with_attributes (op : Op) (attributes : Attributes) : Op := mkOp (op_kind op) attributes.
Definition with_attr (op : Op) (key : str) (value : Value) : Op :=
  mkOp (op_kind op) (<[key:=value]> (op_attributes op)).

(** ** The wire representation of an op *)

Record OpRepr := mkOpRepr {
  repr_insert : option Insert;
  repr_retain : option N;
  repr_delete : option N;
  repr_attributes : option Attributes;
}.

Definition op_of_repr (repr : OpRepr) : result Op str :=
  match repr_insert repr, repr_retain repr, repr_delete repr with
  | Some i, None, None => Ok (mkOp (OInsert i) (default ∅ (repr_attributes repr)))
  | None, Some r, None => Ok (mkOp (ORetain r) (default ∅ (repr_attributes repr)))
  | None, None, Some d => Ok (mkOp (ODelete d) (default ∅ (repr_attributes repr)))
  | None, None, None => Err (lit "op has no insert, retain or delete")
  | _, _, _ => Err (lit "op must have exactly one of insert, retain or delete")
  end.

Definition repr_of_op (op : Op) : OpRepr :=
  let attributes := if decide (op_attributes op = ∅) then None else Some (op_attributes op) in
  match op_kind op with
  | OInsert i => mkOpRepr (Some i) None None attributes
  | ORetain r => mkOpRepr None (Some r) None attributes
  | ODelete d => mkOpRepr None None (Some d) attributes
  end.

(** ** Building *)

Definition set_kind (k : OpKind) (op : Op) : Op := mkOp k (op_attributes op).

Definition push (ops : Delta) (new_op : Op) : Delta :=
  if op_is_empty new_op then ops else
  let index := length ops in
  match ops !! (index - 1)%nat with
  | None => [new_op]
  | Some prev =>
      match op_kind prev, op_kind new_op with
      | ODelete a, ODelete b => <[(index - 1)%nat := set_kind (ODelete (sat_add a b)) prev]> ops
      | _, _ =>
          let moved := bool_decide (kind prev = KDelete ∧ kind new_op = KInsert) in
          let index := if moved then (index - 1)%nat else index in
          if moved && (index =? 0)%nat then insert_at 0 new_op ops else
          match ops !! (index - 1)%nat with
          | None => ops
          | Some prev =>
              if decide (op_attributes prev = op_attributes new_op) then
                match op_text prev, op_text new_op with
                | Some a, Some b => <[(index - 1)%nat := set_kind (OInsert (Text (a ++ b))) prev]> ops
                | _, _ =>
                    match op_kind prev, op_kind new_op with
                    | ORetain a, ORetain b =>
                        <[(index - 1)%nat := set_kind (ORetain (sat_add a b)) prev]> ops
                    | _, _ => insert_at index new_op ops
                    end
                end
              else insert_at index new_op ops
          end
      end
  end.

Definition from_ops (ops : list Op) : Delta := foldl push [] ops.

Definition document (text : str) : Delta := push [] (op_insert text).

Definition is_bare_retain (op : Op) : bool :=
  bool_decide (kind op = KRetain ∧ op_attributes op = ∅).

Definition chop (ops : Delta) : Delta :=
  match list.last ops with
  | Some op => if is_bare_retain op then take (length ops - 1) ops else ops
  | None => ops
  end.

(** ** Measuring *)

Definition sum_lens (ops : list Op) : N := foldl (λ n op, sat_add n (op_len op)) 0%N ops.

Definition delta_len (d : Delta) : N := sum_lens d.
Definition base_length (d : Delta) : N := sum_lens (filter (λ op, kind op ≠ KInsert) d).
Definition target_length (d : Delta) : N := sum_lens (filter (λ op, kind op ≠ KDelete) d).
Definition change_length (d : Delta) : Z := (Z.of_N (target_length d) - Z.of_N (base_length d))%Z.

Definition to_plain_text (d : Delta) : str :=
  foldl (λ out op,
    match op_kind op with
    | OInsert (Text s) => out ++ s
    | OInsert (Embed _) => out ++ [65532%N]
    | _ => out
    end) [] d.

Definition is_document (d : Delta) : bool := forallb (λ op, bool_decide (kind op = KInsert)) d.

(** ** The op iterator *)

Record OpIterator := mkIter {
  it_ops : list Op;
  it_index : nat;
  it_offset : N;
  it_byte_offset : N;
}.

Definition iter_new (ops : list Op) : OpIterator := mkIter ops 0 0 0.

Definition peek_length (it : OpIterator) : N :=
  match it_ops it !! it_index it with
  | Some op => op_len op - it_offset it
  | None => INFINITY
  end.

Definition has_next (it : OpIterator) : bool := (peek_length it <? INFINITY)%N.

Definition peek_kind (it : OpIterator) : Kind :=
  match it_ops it !! it_index it with Some op => kind op | None => KRetain end.

(** The end of [next]: move past a finished op. *)
Definition iter_advance (it : OpIterator) (op_len take byte_offset : N) : OpIterator :=
  let offset := (it_offset it + take)%N in
  if (op_len <=? offset)%N then mkIter (it_ops it) (S (it_index it)) 0 0
  else mkIter (it_ops it) (it_index it) offset byte_offset.

Definition next (it : OpIterator) (length : N) : option (Op * OpIterator) :=
  match it_ops it !! it_index it with
  | None => Some (op_retain INFINITY, it)
  | Some op =>
      let len := op_len op in
      let take := N.min length (len - it_offset it) in
      match op_kind op with
      | ODelete _ => Some (op_delete take, iter_advance it len take (it_byte_offset it))
      | ORetain _ =>
          Some (with_attributes (op_retain take) (op_attributes op),
                iter_advance it len take (it_byte_offset it))
      | OInsert (Embed v) =>
          Some (with_attributes (op_embed v) (op_attributes op),
                iter_advance it len take (it_byte_offset it))
      | OInsert (Text s) =>
          let start := it_byte_offset it in
          end_ ← advance_utf16 s start take;
          piece ← str_slice s start end_;
          Some (with_attributes (op_insert piece) (op_attributes op), iter_advance it len take end_)
      end
  end.

(** ** Slicing a document *)

Fixpoint slice_loop (fuel : nat) (it : OpIterator) (index start end_ : N) (out : Delta)
    : option Delta :=
  if negb ((index <? end_)%N && has_next it) then Some out else
  match fuel with
  | O => None
  | S fuel =>
      if (index <? start)%N then
        '(op, it) ← next it (start - index);
        slice_loop fuel it (wadd index (op_len op)) start end_ out
      else
        '(op, it) ← next it (end_ - index);
        slice_loop fuel it (wadd index (op_len op)) start end_ (push out op)
  end.

Definition slice_run (d : Delta) (start end_ : N) : option Delta :=
  slice_loop (length d + 2) (iter_new d) 0 start end_ [].

Definition slice (d : Delta) (start end_ : N) : Delta := default [] (slice_run d start end_).

(** ** Composition *)

(** What [compose] pushes for two pieces covering the same [length] units. *)
Definition compose_pair (length : N) (op_a op_b : Op) (out : Delta) : Delta :=
  match op_kind op_b with
  | ORetain _ =>
      let keep_null := bool_decide (kind op_a = KRetain) in
      let merged := attr_compose (op_attributes op_a) (op_attributes op_b) keep_null in
      let k := match op_kind op_a with OInsert i => OInsert i | _ => ORetain length end in
      push out (mkOp k merged)
  | ODelete _ => if decide (kind op_a = KRetain) then push out op_b else out
  | OInsert _ => out
  end.

Fixpoint compose_loop (fuel : nat) (ia ib : OpIterator) (out : Delta) : option Delta :=
  if negb (has_next ia || has_next ib) then Some out else
  match fuel with
  | O => None
  | S fuel =>
      if decide (peek_kind ib = KInsert) then
        '(op, ib) ← next ib INFINITY; compose_loop fuel ia ib (push out op)
      else if decide (peek_kind ia = KDelete) then
        '(op, ia) ← next ia INFINITY; compose_loop fuel ia ib (push out op)
      else
        let length := N.min (peek_length ia) (peek_length ib) in
        '(op_a, ia) ← next ia length;
        '(op_b, ib) ← next ib length;
        compose_loop fuel ia ib (compose_pair length op_a op_b out)
  end.

Definition compose_run (a b : Delta) : option Delta :=
  chop <$> compose_loop (length a + length b) (iter_new a) (iter_new b) [].

Definition compose (a b : Delta) : Delta := default [] (compose_run a b).

(** ** Transformation *)

Definition transform_pair (priority : bool) (length : N) (op_a op_b : Op) (out : Delta) : Delta :=
  if decide (kind op_a = KDelete) then out
  else if decide (kind op_b = KDelete) then push out op_b
  else push out (with_attributes (op_retain length)
                  (attr_transform (op_attributes op_a) (op_attributes op_b) priority)).

Fixpoint transform_loop (fuel : nat) (priority : bool) (ia ib : OpIterator) (out : Delta)
    : option Delta :=
  if negb (has_next ia || has_next ib) then Some out else
  match fuel with
  | O => None
  | S fuel =>
      if decide (peek_kind ia = KInsert ∧ (priority = true ∨ peek_kind ib ≠ KInsert)) then
        '(op, ia) ← next ia INFINITY;
        transform_loop fuel priority ia ib (push out (op_retain (op_len op)))
      else if decide (peek_kind ib = KInsert) then
        '(op, ib) ← next ib INFINITY; transform_loop fuel priority ia ib (push out op)
      else
        let length := N.min (peek_length ia) (peek_length ib) in
        '(op_a, ia) ← next ia length;
        '(op_b, ib) ← next ib length;
        transform_loop fuel priority ia ib (transform_pair priority length op_a op_b out)
  end.

Definition transform_run (a b : Delta) (priority : bool) : option Delta :=
  chop <$> transform_loop (length a + length b) priority (iter_new a) (iter_new b) [].

Definition transform (a b : Delta) (priority : bool) : Delta := default [] (transform_run a b priority).

(** ** Cursor positions *)

Fixpoint transform_position_loop (fuel : nat) (it : OpIterator) (index offset : N) (priority : bool)
    : option N :=
  if negb (has_next it && (offset <=? index)%N) then Some index else
  match fuel with
  | O => None
  | S fuel =>
      let length := peek_length it in
      let k := peek_kind it in
      '(_, it) ← next it INFINITY;
      match k with
      | KDelete => transform_position_loop fuel it (index - N.min length (index - offset)) offset priority
      | KInsert =>
          let index := if (offset <? index)%N || negb priority then wadd index length else index in
          transform_position_loop fuel it index (wadd offset length) priority
      | KRetain => transform_position_loop fuel it index (wadd offset length) priority
      end
  end.

Definition transform_position_run (d : Delta) (index : N) (priority : bool) : option N :=
  transform_position_loop (length d) (iter_new d) index 0 priority.

Definition transform_position (d : Delta) (index : N) (priority : bool) : N :=
  default index (transform_position_run d index priority).

(** ** Inversion *)

Definition invert_step (base : Delta) (acc : Delta * N) (op : Op) : Delta * N :=
  let '(inverted, base_index) := acc in
  match op_kind op with
  | OInsert _ => (push inverted (op_delete (op_len op)), base_index)
  | ORetain n =>
      if decide (op_attributes op = ∅) then (push inverted (op_retain n), wadd base_index n)
      else
        (foldl (λ inverted base_op,
           push inverted (with_attributes (op_retain (op_len base_op))
             (attr_invert (op_attributes op) (op_attributes base_op))))
           inverted (slice base base_index (wadd base_index n)),
         wadd base_index n)
  | ODelete n =>
      (foldl push inverted (slice base base_index (wadd base_index n)), wadd base_index n)
  end.

Definition invert (change base : Delta) : Delta :=
  chop (foldl (invert_step base) ([], 0%N) change).1.

(** ** Validation *)

Inductive InvalidChange : Type :=
| PastEnd (needed doc_len : N)
| IC_SplitCharacter (offset : N).

(** The inner loop: [text] is [&text[byte..]]. *)
Fixpoint validate_span (text : str) (remaining cursor doc_len : N) : result (str * N) InvalidChange :=
  if (remaining =? 0)%N then Ok (text, cursor) else
  match text with
  | [] => Err (PastEnd (sat_add cursor remaining) doc_len)
  | ch :: rest =>
      let width := len_utf16 ch in
      if (remaining <? width)%N then Err (IC_SplitCharacter (sat_add cursor remaining))
      else validate_span rest (remaining - width) (cursor + width) doc_len
  end.

Fixpoint validate_ops (change : Delta) (text : str) (cursor doc_len : N) : result unit InvalidChange :=
  match change with
  | [] => Ok tt
  | op :: change =>
      match op_kind op with
      | OInsert _ => validate_ops change text cursor doc_len
      | ORetain n | ODelete n =>
          '(text, cursor) <-? validate_span text n cursor doc_len;
          validate_ops change text cursor doc_len
      end
  end.

Definition validate (change doc : Delta) : result unit InvalidChange :=
  let text := to_plain_text doc in
  validate_ops change text 0 (utf16_len text).

(** ** Diffing two texts *)

Fixpoint common_prefix (a b : str) : N :=
  match a, b with
  | x :: a, y :: b => if decide (x = y) then len_utf16 x + common_prefix a b else 0
  | _, _ => 0
  end.

Fixpoint suffix_loop (a b : str) (suffix max_suffix : N) : N :=
  if (max_suffix <=? suffix)%N then suffix else
  match a, b with
  | x :: a, y :: b =>
      if decide (x = y) then
        if (max_suffix <? suffix + len_utf16 x)%N then suffix
        else suffix_loop a b (suffix + len_utf16 x) max_suffix
      else suffix
  | _, _ => suffix
  end.

Definition diff_text (before after : str) : Delta :=
  if decide (before = after) then [] else
  let before_units := utf16_len before in
  let after_units := utf16_len after in
  let prefix := common_prefix before after in
  let max_suffix := (N.min before_units after_units - prefix)%N in
  let suffix := suffix_loop (reverse before) (reverse after) 0 max_suffix in
  let removed := (before_units - prefix - suffix)%N in
  let inserted := default [] (utf16_slice after prefix (after_units - suffix)) in
  chop (push (push (push [] (op_retain prefix)) (op_delete removed)) (op_insert inserted)).

End delta.

Abbreviation Delta := (list Op).
