(* ===== verification/DeltaSpec.v ===== *)
(** * Deltas: unit-level specification

    A delta is denoted by the list of the single-unit edits it makes, left to right.  On these lists
    composition and transformation are short structural recursions with no iterator, no splitting and
    no merging; [DeltaLoops.v] shows that the loops of [Delta.v] compute them. *)

From S2P Require Import Prelude Json Attributes Text Delta.

Section spec.
Context `{J : Json}.

(** ** Units *)

(** One UTF-16 code unit of content: a character's first unit, its low surrogate, or an embed. *)
Inductive sym : Type :=
| SChar (c : char) (low : bool)
| SEmbed (v : Value).

(** One edit of one unit. *)
Inductive mop : Type :=
| MIns (x : sym) (a : Attributes)
| MRet (a : Attributes)
| MDel.

#[global] Instance sym_eq_dec : EqDecision sym.
Proof. solve_decision. Defined.
#[global] Instance mop_eq_dec : EqDecision mop.
Proof. solve_decision. Defined.

Definition char_syms (c : char) : list sym :=
  if (len_utf16 c =? 1)%N then [SChar c false] else [SChar c false; SChar c true].

Definition text_syms (s : str) : list sym := s ≫= char_syms.

Definition den_op (op : Op) : list mop :=
  match op_kind op with
  | OInsert (Text s) => (λ x, MIns x (op_attributes op)) <$> text_syms s
  | OInsert (Embed v) => [MIns (SEmbed v) (op_attributes op)]
  | ORetain n => replicate (N.to_nat n) (MRet (op_attributes op))
  | ODelete n => replicate (N.to_nat n) MDel
  end.

Definition den (d : Delta) : list mop := d ≫= den_op.

Definition plain (n : nat) : list mop := replicate n (MRet ∅).

(** ** Unit-level composition and transformation *)

Definition comb (x y : mop) : list mop :=
  match x, y with
  | MIns s a, MRet b => [MIns s (attr_compose a b false)]
  | MRet a, MRet b => [MRet (attr_compose a b true)]
  | MRet _, MDel => [MDel]
  | _, _ => []
  end.

Fixpoint mcompose (la : list mop) : list mop → list mop :=
  fix go (lb : list mop) : list mop :=
    match lb with
    | MIns x a :: lb' => MIns x a :: go lb'
    | _ =>
        match la with
        | [] => lb
        | MDel :: la' => MDel :: mcompose la' lb
        | x :: la' =>
            match lb with
            | [] => x :: mcompose la' []
            | y :: lb' => comb x y ++ mcompose la' lb'
            end
        end
    end.

Definition is_ins (x : mop) : bool := match x with MIns _ _ => true | _ => false end.
Definition ins_head (l : list mop) : bool := match l with x :: _ => is_ins x | [] => false end.

Definition tcomb (priority : bool) (x y : mop) : list mop :=
  match x, y with
  | MRet _, MDel => [MDel]
  | MRet a, MRet b => [MRet (attr_transform a b priority)]
  | _, _ => []
  end.

Fixpoint mtransform (priority : bool) (la : list mop) : list mop → list mop :=
  fix go (lb : list mop) : list mop :=
    match la with
    | [] => lb
    | MIns x a :: la' =>
        match lb with
        | MIns y b :: lb' => if priority then MRet ∅ :: mtransform priority la' lb else MIns y b :: go lb'
        | _ => MRet ∅ :: mtransform priority la' lb
        end
    | x :: la' =>
        match lb with
        | MIns y b :: lb' => MIns y b :: go lb'
        | [] => tcomb priority x (MRet ∅) ++ mtransform priority la' []
        | y :: lb' => tcomb priority x y ++ mtransform priority la' lb'
        end
    end.

(** The reference meaning of a change on a document: consume the document left to right. *)
Definition cell : Type := sym * Attributes.

Fixpoint apply_spec (doc : list cell) (l : list mop) : list cell :=
  match l with
  | [] => doc
  | MIns x a :: l => (x, a) :: apply_spec doc l
  | MRet b :: l =>
      match doc with
      | (x, a) :: doc => (x, attr_compose a b false) :: apply_spec doc l
      | [] => apply_spec [] l
      end
  | MDel :: l => match doc with _ :: doc => apply_spec doc l | [] => apply_spec [] l end
  end.

Definition cells_of (l : list mop) : list cell :=
  omap (λ m, match m with MIns x a => Some (x, a) | _ => None end) l.

(** The document a delta of inserts denotes. *)
Definition doc_cells (d : Delta) : list cell := cells_of (den d).

(** ** Unfolding equations *)

Lemma mcompose_nil_l lb : mcompose [] lb = lb.
Proof. induction lb as [|[x a|a|] lb IH]; simpl in *; congruence. Qed.

Lemma mcompose_ins_r la x a lb : mcompose la (MIns x a :: lb) = MIns x a :: mcompose la lb.
Proof. by destruct la. Qed.

Lemma mcompose_nil_r la : mcompose la [] = la.
Proof. induction la as [|[x a|a|] la IH]; simpl in *; by rewrite ?IH. Qed.

Lemma mcompose_del_l la lb :
  ins_head lb = false → mcompose (MDel :: la) lb = MDel :: mcompose la lb.
Proof. by destruct lb as [|[]]. Qed.

Lemma mcompose_cons x y la lb :
  x ≠ MDel → is_ins y = false → mcompose (x :: la) (y :: lb) = comb x y ++ mcompose la lb.
Proof. by destruct x, y. Qed.

Lemma mtransform_nil_l p lb : mtransform p [] lb = lb.
Proof. by destruct lb. Qed.

Lemma mtransform_ins_l p x a la lb :
  p = true ∨ ins_head lb = false → mtransform p (MIns x a :: la) lb = MRet ∅ :: mtransform p la lb.
Proof. destruct lb as [|[]]; simpl; [done|intros [->|]; done|done|done]. Qed.

Lemma mtransform_ins_r p la y b lb :
  p = false ∨ ins_head la = false → mtransform p la (MIns y b :: lb) = MIns y b :: mtransform p la lb.
Proof.
  destruct la as [|[]]; simpl; intros H.
  - by destruct lb.
  - by destruct H as [->|].
  - done.
  - done.
Qed.

Lemma mtransform_cons p x y la lb :
  is_ins x = false → is_ins y = false → mtransform p (x :: la) (y :: lb) = tcomb p x y ++ mtransform p la lb.
Proof. by destruct x, y. Qed.

Lemma mtransform_nil_r p x la :
  is_ins x = false → mtransform p (x :: la) [] = tcomb p x (MRet ∅) ++ mtransform p la [].
Proof. by destruct x. Qed.

End spec.

#[global] Arguments den : simpl never.
#[global] Arguments mcompose : simpl never.
#[global] Arguments mtransform : simpl never.
