(* ===== verification/DeltaAlg.v ===== *)
(** * Deltas: the algebra of unit-level edits

    [meq] identifies edit lists that differ only in the order of an insertion and a deletion at the
    same place, which is what [Delta::push] normalises.  The diamond, the associativity of application
    and the congruences are proved here once, on unit lists. *)

From S2P Require Import Prelude Json Attributes Text Delta DeltaSpec.

Section alg.
Context `{J : Json}.
Implicit Types l la lb : list mop.

(** ** Reordering an insertion and a deletion *)

Inductive meq : list mop → list mop → Prop :=
| meq_refl l : meq l l
| meq_sym l l' : meq l l' → meq l' l
| meq_trans l1 l2 l3 : meq l1 l2 → meq l2 l3 → meq l1 l3
| meq_cons x l l' : meq l l' → meq (x :: l) (x :: l')
| meq_swap x a l : meq (MDel :: MIns x a :: l) (MIns x a :: MDel :: l).

#[global] Instance meq_equivalence : Equivalence meq.
Proof. split; [intros ?; apply meq_refl|intros ??; apply meq_sym|intros ???; apply meq_trans]. Qed.

#[global] Instance cons_meq_proper x : Proper (meq ==> meq) (cons x).
Proof. intros ???. by apply meq_cons. Qed.

#[global] Instance app_meq_proper : Proper (meq ==> meq ==> meq) (++).
Proof.
  intros l1 l1' H1 l2 l2' H2. trans (l1 ++ l2').
  - clear H1. induction l1; simpl; [done|by apply meq_cons].
  - clear H2. induction H1; simpl; [done|by symmetry|by etrans|by apply meq_cons|apply meq_swap].
Qed.

Lemma meq_del_ins l1 x a l2 : Forall (λ y, y = MDel) l1 → meq (l1 ++ MIns x a :: l2) (MIns x a :: l1 ++ l2).
Proof.
  induction 1 as [|y l1 -> _ IH]; simpl; [done|]. rewrite IH. apply meq_swap.
Qed.

(** A block of insertions commutes with a block of deletions. *)
Lemma meq_del_ins_block dels ins l :
  Forall (λ y, y = MDel) dels → Forall (λ y, is_ins y = true) ins →
  meq (dels ++ ins ++ l) (ins ++ dels ++ l).
Proof.
  intros Hd Hi. induction Hi as [|[x a|a|] ins Hx _ IH]; simpl in *; try done.
  rewrite meq_del_ins by done. by apply meq_cons.
Qed.

(** ** Normal form: insertions first *)

Fixpoint del_in (l : list mop) : list mop :=
  match l with MIns x a :: l => MIns x a :: del_in l | _ => MDel :: l end.

Fixpoint mnf (l : list mop) : list mop :=
  match l with [] => [] | MDel :: l => del_in (mnf l) | x :: l => x :: mnf l end.

Lemma meq_mnf l l' : meq l l' → mnf l = mnf l'.
Proof. induction 1 as [| | |[]|]; simpl; congruence. Qed.

Lemma mnf_del l : ins_head (mnf l) = false → mnf (MDel :: l) = MDel :: mnf l.
Proof. simpl. by destruct (mnf l) as [|[]]. Qed.

Lemma del_in_plain l n : del_in (l ++ plain n) = del_in l ++ plain n.
Proof. induction l as [|[]]; simpl; [by destruct n|congruence|done..]. Qed.

Lemma mnf_plain l n : mnf (l ++ plain n) = mnf l ++ plain n.
Proof.
  induction l as [|[] l IH]; simpl; rewrite ?IH, ?del_in_plain; try done.
  unfold plain. induction n; simpl; congruence.
Qed.

(** ** Composition respects reordering *)

Lemma mcompose_del_l_meq la lb : meq (mcompose (MDel :: la) lb) (MDel :: mcompose la lb).
Proof.
  induction lb as [|y lb IH]; [by rewrite !mcompose_nil_r|].
  destruct (is_ins y) eqn:E.
  - destruct y; try done. rewrite !mcompose_ins_r, IH. symmetry. apply meq_swap.
  - by rewrite mcompose_del_l.
Qed.

#[global] Instance mcompose_meq_r la : Proper (meq ==> meq) (mcompose la).
Proof.
  intros lb lb' H. revert la.
  induction H as [|?? _ IH|??? _ IH1 _ IH2|y lb lb' _ IH|x a lb]; intros la; try done.
  - etrans; [apply IH1|apply IH2].
  - induction la as [|z la IHla]; [by rewrite !mcompose_nil_l; rewrite <- (mcompose_nil_l lb), IH, mcompose_nil_l|].
    destruct y as [x a|b|]; [by rewrite !mcompose_ins_r, IH|..];
      (destruct z as [x' a'|b'|]; [..|by rewrite !mcompose_del_l, IHla by done]);
      by rewrite !mcompose_cons, IH by done.
  - induction la as [|z la IHla]; [rewrite !mcompose_nil_l; apply meq_swap|].
    destruct z as [x' a'|b'|].
    + by rewrite mcompose_cons, !mcompose_ins_r, mcompose_cons by done.
    + rewrite mcompose_cons, !mcompose_ins_r, mcompose_cons by done. simpl. apply meq_swap.
    + rewrite mcompose_del_l, IHla by done.
      rewrite !mcompose_ins_r, mcompose_del_l by done. apply meq_swap.
Qed.

#[global] Instance mcompose_meq_l : Proper (meq ==> eq ==> meq) mcompose.
Proof.
  intros la la' H lb ? <-. revert lb.
  induction H as [|?? _ IH|??? _ IH1 _ IH2|x la la' _ IH|x a la]; intros lb; try done.
  - etrans; [apply IH1|apply IH2].
  - induction lb as [|y lb IHlb]; 
      [specialize (IH []); rewrite !mcompose_nil_r in *; by apply meq_cons|].
    destruct (is_ins y) eqn:E.
    + destruct y; try done. by rewrite !mcompose_ins_r, IHlb.
    + destruct (decide (x = MDel)) as [->|].
      * by rewrite !mcompose_del_l_meq, IH.
      * by rewrite !mcompose_cons, IH.
  - induction lb as [|y lb IHlb]; [rewrite !mcompose_nil_r; apply meq_swap|].
    destruct y as [z b|b|]; [by rewrite !mcompose_ins_r, IHlb|..].
    + rewrite mcompose_del_l, !mcompose_cons by done. simpl.
      rewrite mcompose_del_l_meq. apply meq_swap.
    + rewrite mcompose_del_l, !mcompose_cons by done. simpl. by rewrite mcompose_del_l_meq.
Qed.

(** ** The diamond

    Concurrent edits [la] and [lb] of one document, each transformed over the other, meet. *)

Theorem mdiamond la lb :
  meq (mcompose la (mtransform true la lb)) (mcompose lb (mtransform false lb la)).
Proof.
  revert lb. induction la as [|x la IHla]; intros lb.
  - rewrite mtransform_nil_l, mcompose_nil_l.
    induction lb as [|y lb IH]; [by rewrite mtransform_nil_l|].
    destruct y as [y b|b|].
    + rewrite mtransform_ins_l by auto. rewrite mcompose_cons by done. simpl.
      rewrite attr_compose_empty_r. by rewrite <- IH.
    + rewrite mtransform_nil_r by done. simpl. rewrite attr_transform_empty_r.
      rewrite mcompose_cons by done. simpl. rewrite attr_compose_empty_r. by rewrite <- IH.
    + rewrite mtransform_nil_r by done. simpl. rewrite mcompose_del_l_meq. by rewrite <- IH.
  - induction lb as [|y lb IHlb].
    + rewrite mtransform_nil_l, mcompose_nil_l. specialize (IHla []).
      rewrite mtransform_nil_l, mcompose_nil_l in IHla.
      destruct x as [x a|a|].
      * rewrite mtransform_ins_l by auto. rewrite mcompose_cons by done. simpl.
        rewrite attr_compose_empty_r. by rewrite IHla.
      * rewrite mtransform_nil_r by done. simpl. rewrite attr_transform_empty_r.
        rewrite mcompose_cons by done. simpl. rewrite attr_compose_empty_r. by rewrite IHla.
      * rewrite mtransform_nil_r by done. simpl. rewrite mcompose_del_l_meq. by rewrite IHla.
    + destruct x as [x a|a|].
      * rewrite mtransform_ins_l by auto. rewrite mtransform_ins_r by auto.
        rewrite mcompose_cons, mcompose_ins_r by done. simpl.
        rewrite attr_compose_empty_r. by rewrite IHla.
      * destruct y as [y b|b|].
        -- rewrite mtransform_ins_r, mtransform_ins_l by auto. rewrite mcompose_ins_r, mcompose_cons by done.
           simpl. rewrite attr_compose_empty_r. by rewrite IHlb.
        -- rewrite !mtransform_cons by done. simpl. rewrite !mcompose_cons by done. simpl.
           rewrite attr_diamond. by rewrite IHla.
        -- rewrite !mtransform_cons by done. simpl. rewrite mcompose_cons by done. simpl.
           rewrite mcompose_del_l_meq. by rewrite IHla.
      * destruct y as [y b|b|].
        -- rewrite mtransform_ins_r, mtransform_ins_l by auto. rewrite mcompose_ins_r, mcompose_cons by done.
           simpl. rewrite attr_compose_empty_r. by rewrite IHlb.
        -- rewrite !mtransform_cons by done. simpl. rewrite mcompose_cons by done. simpl.
           rewrite mcompose_del_l_meq. by rewrite IHla.
        -- rewrite !mtransform_cons by done. simpl. rewrite !mcompose_del_l_meq. by rewrite IHla.
Qed.

End alg.
