(* ===== verification/DeltaPush.v ===== *)
(** * Deltas: [push], [chop] and the canonical form

    [push] keeps a delta canonical and appends the denotation of its op up to [meq]; a canonical delta
    is determined by its denotation, so equal effect means equal representation. *)

From S2P Require Import Prelude Json Attributes Text Delta DeltaSpec DeltaAlg.

Section push.
Context `{J : Json}.
Implicit Types d out : list Op.

(** ** Sizes *)

Definition total (d : list Op) : N := foldr (λ op n, (op_len op + n)%N) 0%N d.

Lemma total_cons op d : total (op :: d) = (op_len op + total d)%N.
Proof. reflexivity. Qed.
Lemma total_nil : total [] = 0%N.
Proof. reflexivity. Qed.
Lemma total_app d1 d2 : total (d1 ++ d2) = (total d1 + total d2)%N.
Proof. induction d1; simpl; lia. Qed.

Lemma length_text_syms s : length (text_syms s) = N.to_nat (utf16_len s).
Proof.
  unfold text_syms. induction s as [|c s IH]; [done|].
  cbn [mbind list_bind]. rewrite length_app, utf16_len_cons, IH. unfold char_syms, len_utf16.
  repeat ncase.
Qed.

Lemma length_den_op op : length (den_op op) = N.to_nat (op_len op).
Proof.
  unfold den_op, op_len. destruct op as [[[s|v]|n|n] a]; simpl;
    rewrite ?length_fmap, ?length_replicate; try done. apply length_text_syms.
Qed.

Lemma den_app d1 d2 : den (d1 ++ d2) = den d1 ++ den d2.
Proof. apply bind_app. Qed.
Lemma den_cons op d : den (op :: d) = den_op op ++ den d.
Proof. reflexivity. Qed.
Lemma den_single op : den [op] = den_op op.
Proof. unfold den. simpl. by rewrite app_nil_r. Qed.
Lemma text_syms_app s1 s2 : text_syms (s1 ++ s2) = text_syms s1 ++ text_syms s2.
Proof. apply bind_app. Qed.

Lemma den_op_empty op : op_len op = 0%N → den_op op = [].
Proof. intros H. apply length_zero_iff_nil. rewrite length_den_op, H. done. Qed.

(** ** Merging *)

(** What [push] does to two neighbours that are not both deletes. *)
Definition join (p o : Op) : option Op :=
  if decide (op_attributes p = op_attributes o) then
    match op_kind p, op_kind o with
    | OInsert (Text a), OInsert (Text b) => Some (set_kind (OInsert (Text (a ++ b))) p)
    | ORetain a, ORetain b => Some (set_kind (ORetain (sat_add a b)) p)
    | _, _ => None
    end
  else None.

Definition joined (d : list Op) (p o : Op) : list Op :=
  match join p o with Some r => d ++ [r] | None => d ++ [p; o] end.

Lemma lookup_snoc {A} (l : list A) x : (l ++ [x]) !! (length (l ++ [x]) - 1)%nat = Some x.
Proof. apply list_lookup_middle. rewrite length_app. simpl. lia. Qed.

Lemma insert_snoc {A} (l : list A) x y : <[(length (l ++ [x]) - 1)%nat := y]> (l ++ [x]) = l ++ [y].
Proof.
  rewrite length_app. simpl. replace (length l + 1 - 1)%nat with (length l + 0)%nat by lia.
  by rewrite insert_app_r.
Qed.

Lemma push_nil o : op_len o ≠ 0%N → push [] o = [o].
Proof. intros. unfold push, op_is_empty. by ncase. Qed.

Lemma push_empty d o : op_len o = 0%N → push d o = d.
Proof. intros H. unfold push, op_is_empty. by rewrite H. Qed.

(** [push] on a delta seen from its last op. *)
Lemma push_deletes d p o a b :
  op_len o ≠ 0%N → op_kind p = ODelete a → op_kind o = ODelete b →
  push (d ++ [p]) o = d ++ [set_kind (ODelete (sat_add a b)) p].
Proof.
  intros Ho Hp Hk. unfold push, op_is_empty. ncase. rewrite lookup_snoc, Hp, Hk. apply insert_snoc.
Qed.

Lemma push_moved_nil p o :
  op_len o ≠ 0%N → kind p = KDelete → kind o = KInsert → push [p] o = [o; p].
Proof.
  intros Ho Hp Hk. unfold push, op_is_empty, kind in *. ncase.
  destruct (op_kind p), (op_kind o); try done.
Qed.

Lemma push_moved d q p o :
  op_len o ≠ 0%N → kind p = KDelete → kind o = KInsert →
  push (d ++ [q; p]) o = joined d q o ++ [p].
Proof.
  intros Ho Hp Hk. unfold push, op_is_empty. ncase.
  replace (d ++ [q; p]) with ((d ++ [q]) ++ [p]) by by rewrite <- app_assoc.
  rewrite lookup_snoc.
  rewrite (bool_decide_eq_true_2 (kind p = KDelete ∧ kind o = KInsert)) by done.
  unfold kind in *. destruct (op_kind p) eqn:Ep; try done. destruct (op_kind o) eqn:Eo; try done.
  replace (length ((d ++ [q]) ++ [p]) - 1)%nat with (length (d ++ [q])) by (rewrite !length_app; simpl; lia).
  rewrite lookup_app_l by (rewrite length_app; simpl; lia). rewrite lookup_snoc.
  replace (length (d ++ [q]) =? 0)%nat with false
    by (symmetry; apply Nat.eqb_neq; rewrite length_app; simpl; lia).
  unfold joined, join, op_text. simpl. rewrite Eo. rewrite insert_at_app.
  case_decide; [|by rewrite <- !app_assoc].
  destruct (op_kind q) as [[]| |], i;
    rewrite ?insert_app_l, ?insert_snoc by (rewrite length_app; simpl; lia);
    by rewrite <- ?app_assoc.
Qed.

Lemma push_end d p o :
  op_len o ≠ 0%N → kind p ≠ KDelete ∨ kind o = KRetain → push (d ++ [p]) o = joined d p o.
Proof.
  intros Ho Hk. unfold push, op_is_empty. ncase. rewrite lookup_snoc.
  rewrite (bool_decide_eq_false_2 (kind p = KDelete ∧ kind o = KInsert)) by naive_solver congruence.
  simpl. rewrite lookup_snoc, insert_at_end.
  unfold joined, join, op_text, kind in *.
  destruct (op_kind p) as [[]| |] eqn:Ep, (op_kind o) as [[]| |] eqn:Eo; simpl in *;
    try (exfalso; naive_solver); case_decide; rewrite ?insert_snoc; by rewrite <- ?app_assoc.
Qed.

(** ** What [push] denotes *)

Lemma join_den p o r :
  join p o = Some r → (op_len p + op_len o ≤ usize_max)%N →
  den_op r = den_op p ++ den_op o ∧ op_len r = (op_len p + op_len o)%N.
Proof.
  unfold join. intros H Hs. case_decide as Ha; [|done].
  destruct p as [[[s|v]|n|n] a], o as [[[s'|v']|n'|n'] a']; simpl in *; simplify_eq/=;
    unfold den_op, op_len in *; simpl in *.
  - by rewrite text_syms_app, fmap_app, utf16_len_app.
  - rewrite sat_add_small by done. by rewrite N2Nat.inj_add, replicate_add.
Qed.

Lemma joined_den d p o :
  (op_len p + op_len o ≤ usize_max)%N →
  den (joined d p o) = den d ++ den_op p ++ den_op o ∧
  total (joined d p o) = (total d + op_len p + op_len o)%N.
Proof.
  intros Hs. unfold joined. destruct (join p o) as [r|] eqn:E.
  - apply join_den in E as [E1 E2]; [|done].
    rewrite den_app, den_single, E1, total_app. simpl. split; [done|lia].
  - rewrite den_app, total_app. unfold den. simpl. rewrite app_nil_r. split; [done|lia].
Qed.

Lemma den_delete op : kind op = KDelete → Forall (λ y, y = MDel) (den_op op).
Proof. unfold kind, den_op. destruct (op_kind op); try done. intros _. apply Forall_replicate. done. Qed.

Lemma den_insert op : kind op = KInsert → Forall (λ y, is_ins y = true) (den_op op).
Proof.
  unfold kind, den_op. destruct (op_kind op) as [[]| |]; try done; intros _.
  - apply Forall_fmap, Forall_true. done.
  - by constructor.
Qed.

Lemma den_del_ins p o :
  kind p = KDelete → kind o = KInsert → meq (den_op p ++ den_op o) (den_op o ++ den_op p).
Proof.
  intros Hp Ho. rewrite <- (app_nil_r (den_op o)) at 1. rewrite <- (app_nil_r (den_op p)) at 2.
  apply meq_del_ins_block; [by apply den_delete|by apply den_insert].
Qed.

Lemma snoc_case {A} (l : list A) : l = [] ∨ ∃ l' x, l = l' ++ [x].
Proof. destruct l using rev_ind; eauto. Qed.

Lemma push_den d o :
  (total d + op_len o ≤ usize_max)%N →
  meq (den (push d o)) (den d ++ den_op o) ∧ (total (push d o) = total d + op_len o)%N.
Proof.
  intros Hs. destruct (decide (op_len o = 0%N)) as [Ho|Ho].
  { rewrite push_empty, den_op_empty, app_nil_r by done. split; [done|lia]. }
  destruct (snoc_case d) as [->|(d' & p & ->)].
  { rewrite push_nil, den_single by done. simpl. split; [done|lia]. }
  rewrite total_app in *. simpl in *.
  destruct (decide (kind p = KDelete)) as [Hp|Hp].
  - destruct (kind o) eqn:Ek.
    + destruct (snoc_case d') as [->|(d & q & ->)].
      * simpl. rewrite push_moved_nil by done. rewrite den_cons, !den_single. unfold total. simpl.
        split; [|lia]. symmetry. by apply den_del_ins.
      * rewrite <- app_assoc. simpl. rewrite push_moved by done.
        rewrite total_app in Hs. simpl in Hs.
        rewrite den_app, !total_app, den_single.
        destruct (joined_den d q o) as [-> ->]; [lia|]. simpl. split; [|lia].
        rewrite den_app, den_cons, den_single, <- !app_assoc.
        f_equiv. f_equiv. symmetry. by apply den_del_ins.
    + rewrite push_end by auto. destruct (joined_den d' p o) as [-> ->]; [lia|].
      rewrite den_app, den_single, app_assoc. split; [done|lia].
    + unfold kind in Hp, Ek. destruct (op_kind p) eqn:Ep; try done. destruct (op_kind o) eqn:Eo; try done.
      erewrite push_deletes by done. rewrite den_app, total_app, den_single, den_app, den_single.
      simpl. unfold op_len, den_op, set_kind in *. simpl. rewrite Ep, Eo in *.
      rewrite sat_add_small by lia. rewrite N2Nat.inj_add, replicate_add, app_assoc. split; [done|lia].
  - rewrite push_end by auto. destruct (joined_den d' p o) as [-> ->]; [lia|].
    rewrite den_app, den_single, app_assoc. split; [done|lia].
Qed.

End push.
