(* ===== verification/DeltaCanon.v ===== *)
(** * Deltas: the canonical form

    [canonical] is the shape [push] maintains: no empty op, no two neighbours that [push] would have
    merged, and no insertion after a deletion.  A canonical delta is determined by its denotation. *)

From S2P Require Import Prelude Json Attributes Text Delta DeltaSpec DeltaAlg DeltaPush.

Section canon.
Context `{J : Json}.
Implicit Types d : list Op.

(** ** The canonical form *)

(** Two neighbours that [push] keeps apart. *)
Definition apart (p q : Op) : Prop :=
  match op_kind p, op_kind q with
  | ODelete _, ODelete _ => False
  | ODelete _, OInsert _ => False
  | OInsert (Text _), OInsert (Text _) => op_attributes p ≠ op_attributes q
  | ORetain _, ORetain _ => op_attributes p ≠ op_attributes q
  | _, _ => True
  end.

Definition clean (op : Op) : Prop := op_len op ≠ 0%N ∧ (kind op = KDelete → op_attributes op = ∅).

Fixpoint chain (d : list Op) : Prop :=
  match d with
  | p :: d => match d with q :: _ => apart p q | [] => True end ∧ chain d
  | [] => True
  end.

Definition canonical (d : list Op) : Prop := Forall clean d ∧ chain d.

Lemma chain_app d1 p d2 : chain (d1 ++ p :: d2) ↔ chain (d1 ++ [p]) ∧ chain (p :: d2).
Proof.
  induction d1 as [|x d1 IH]; simpl; [tauto|].
  rewrite IH. destruct d1; simpl; tauto.
Qed.

Lemma canonical_nil : canonical [].
Proof. by split. Qed.

Lemma canonical_single p : clean p → canonical [p].
Proof. split; [by constructor|done]. Qed.

Lemma canonical_snoc d p q :
  canonical (d ++ [p; q]) ↔ canonical (d ++ [p]) ∧ clean q ∧ apart p q.
Proof.
  unfold canonical. rewrite chain_app. rewrite !Forall_app, !list.Forall_cons, !list.Forall_nil. simpl. tauto.
Qed.

Lemma canonical_init d p : canonical (d ++ [p]) → canonical d.
Proof.
  destruct (snoc_case d) as [->|(d' & q & ->)]; [by intros; apply canonical_nil|].
  rewrite <- app_assoc. simpl. rewrite canonical_snoc. tauto.
Qed.

Lemma canonical_replace d p r :
  canonical (d ++ [p]) → clean r → (∀ x, apart x p → apart x r) → canonical (d ++ [r]).
Proof.
  destruct (snoc_case d) as [->|(d' & q & ->)]; [intros; by apply canonical_single|].
  rewrite <- !app_assoc. simpl. rewrite !canonical_snoc. naive_solver.
Qed.

Lemma apart_set_kind x p k :
  match op_kind p, k with
  | OInsert (Text _), OInsert (Text _) | ORetain _, ORetain _ | ODelete _, ODelete _ => True
  | _, _ => False
  end → apart x p → apart x (set_kind k p).
Proof.
  unfold apart, set_kind. simpl.
  destruct (op_kind p) as [[]| |], k as [[]| |], (op_kind x) as [[]| |]; simpl; tauto.
Qed.

Lemma join_clean p o r : join p o = Some r → clean p → clean r.
Proof.
  unfold join, clean, op_len, kind. intros H [Hp _]. case_decide; [|done].
  destruct p as [[[s|v]|n|n] a], o as [[[s'|v']|n'|n'] a']; simpl in *; simplify_eq/=; (split; [|done]).
  - rewrite utf16_len_app. lia.
  - unfold sat_add, usize_max. lia.
Qed.

Lemma join_apart p o : join p o = None → kind p ≠ KDelete ∨ kind o = KRetain → apart p o.
Proof.
  unfold join, apart, kind. intros H Hk. case_decide;
    destruct (op_kind p) as [[]| |], (op_kind o) as [[]| |]; simpl in *; try done; naive_solver.
Qed.

Lemma canonical_joined d p o :
  canonical (d ++ [p]) → clean o → kind p ≠ KDelete ∨ kind o = KRetain → canonical (joined d p o).
Proof.
  intros Hc Ho Hk. unfold joined. destruct (join p o) as [r|] eqn:E.
  - apply (canonical_replace d p); [done|..].
    + eapply join_clean; [done|]. destruct Hc as [Hc _]. apply Forall_app in Hc as [_ Hc].
      by inversion Hc.
    + intros x. unfold join in E. case_decide; [|done].
      destruct (op_kind p) as [[]| |] eqn:Ep, (op_kind o) as [[]| |]; simplify_eq;
        apply apart_set_kind; by rewrite Ep.
  - apply canonical_snoc. split_and!; [done..|]. by apply join_apart.
Qed.

Lemma apart_delete p o : kind o = KDelete → kind p ≠ KDelete → apart p o.
Proof. unfold apart, kind. destruct (op_kind p) as [[]| |], (op_kind o); done. Qed.

Lemma joined_kind d q o : kind o = KInsert →
  ∃ d' r, joined d q o = d' ++ [r] ∧ kind r = KInsert.
Proof.
  unfold joined, join, kind. intros H. case_decide; [|by exists (d ++ [q]), o; rewrite <- app_assoc].
  destruct (op_kind q) as [[]| |] eqn:Eq, (op_kind o) as [[]| |] eqn:Eo; try done;
    first [by exists (d ++ [q]), o; rewrite <- app_assoc, Eo
          |eexists d, _; split; [done|done]].
Qed.

(** [push] keeps a delta canonical, whatever it is given (deletes carry no formatting). *)
Lemma push_canonical d o :
  canonical d → (kind o = KDelete → op_attributes o = ∅) → canonical (push d o).
Proof.
  intros Hd Ha. destruct (decide (op_len o = 0%N)) as [Ho|Ho]; [by rewrite push_empty|].
  assert (clean o) as Hcl by done.
  destruct (snoc_case d) as [->|(d' & p & ->)]; [rewrite push_nil by done; by apply canonical_single|].
  destruct (decide (kind p = KDelete)) as [Hp|Hp]; [|rewrite push_end by auto; by apply canonical_joined; auto].
  destruct (kind o) eqn:Ek.
  - destruct (snoc_case d') as [->|(d & q & ->)].
    + simpl. rewrite push_moved_nil by done. apply (canonical_snoc []). simpl.
      split_and!; [by apply canonical_single| |apply apart_delete; congruence].
      destruct Hd as [Hd _]. by inversion Hd.
    + rewrite <- app_assoc in *. simpl in *. rewrite push_moved by done.
      apply canonical_snoc in Hd as (Hd & Hcp & Hqp).
      assert (kind q ≠ KDelete) as Hq.
      { unfold apart, kind in *. destruct (op_kind q) as [[]| |], (op_kind p) as [[]| |]; done. }
      pose proof (canonical_joined d q o Hd Hcl (or_introl Hq)) as Hj.
      destruct (joined_kind d q o) as (d'' & r & E & Hr); [done|]. rewrite E in *.
      rewrite <- app_assoc. simpl. apply canonical_snoc. split_and!; [done..|].
      apply apart_delete; congruence.
  - rewrite push_end by auto. apply canonical_joined; auto.
  - unfold kind in Hp, Ek. destruct (op_kind p) eqn:Ep; try done. destruct (op_kind o) eqn:Eo; try done.
    erewrite push_deletes by done. apply (canonical_replace d' p); [done| |].
    + destruct Hd as [Hd _]. apply Forall_app in Hd as [_ Hd]. inversion Hd as [|?? [Hl Hc] _]; subst.
      unfold clean, op_len, kind in *. simpl. rewrite Ep in *. split; [unfold sat_add, usize_max; lia|auto].
    + intros x. apply apart_set_kind. by rewrite Ep.
Qed.

(** ** A canonical delta is determined by its denotation *)

Definition merge (p q : Op) : option Op :=
  match op_kind p, op_kind q with
  | ODelete a, ODelete b => Some (mkOp (ODelete (a + b)) ∅)
  | ORetain a, ORetain b =>
      if decide (op_attributes p = op_attributes q) then Some (mkOp (ORetain (a + b)) (op_attributes p))
      else None
  | OInsert (Text a), OInsert (Text b) =>
      if decide (op_attributes p = op_attributes q) then Some (mkOp (OInsert (Text (a ++ b))) (op_attributes p))
      else None
  | _, _ => None
  end.

Definition cons_merge (p : Op) (d : list Op) : list Op :=
  match d with
  | q :: d' => match merge p q with Some r => r :: d' | None => p :: d end
  | [] => [p]
  end.

Definition build_step (m : mop) (d : list Op) : list Op :=
  match m with
  | MIns (SChar c false) a => cons_merge (mkOp (OInsert (Text [c])) a) d
  | MIns (SChar c true) a => d
  | MIns (SEmbed v) a => cons_merge (mkOp (OInsert (Embed v)) a) d
  | MRet a => cons_merge (mkOp (ORetain 1) a) d
  | MDel => cons_merge (mkOp (ODelete 1) ∅) d
  end.

Definition build (l : list mop) : list Op := foldr build_step [] l.

(** A block that merges with nothing after it is rebuilt as one op. *)
Definition starts_apart (p : Op) (d : list Op) : Prop :=
  match d with q :: _ => apart p q | [] => True end.

Lemma cons_merge_apart p d :
  (kind p = KDelete → op_attributes p = ∅) → starts_apart p d → cons_merge p d = p :: d.
Proof.
  unfold cons_merge, starts_apart, merge, apart. destruct d as [|q d]; [done|]. intros _ H.
  destruct (op_kind p) as [[]| |], (op_kind q) as [[]| |]; try done; case_decide; done.
Qed.

Lemma build_replicate (k : N → OpKind) m a n d :
  (∀ x y, merge (mkOp (k x) a) (mkOp (k y) a) = Some (mkOp (k (x + y)%N) a)) →
  (∀ d, build_step m d = cons_merge (mkOp (k 1%N) a) d) →
  (∀ x, cons_merge (mkOp (k x) a) d = mkOp (k x) a :: d) →
  n ≠ 0%N → foldr build_step d (replicate (N.to_nat n) m) = mkOp (k n) a :: d.
Proof.
  intros Hm Hs Ha. induction n as [|n IH] using N.peano_ind; [done|]. intros _.
  rewrite N2Nat.inj_succ. simpl. destruct (decide (n = 0)%N) as [->|Hn].
  - simpl. rewrite Hs. apply Ha.
  - rewrite IH, Hs by done. simpl. rewrite Hm. do 3 f_equal. lia.
Qed.

Lemma build_text s a d :
  s ≠ [] → starts_apart (mkOp (OInsert (Text s)) a) d →
  foldr build_step d ((λ x, MIns x a) <$> text_syms s) = mkOp (OInsert (Text s)) a :: d.
Proof.
  induction s as [|c s IH]; [done|]. intros _ Hd.
  assert (∀ l, foldr build_step d ((λ x, MIns x a) <$> (char_syms c ++ l)) =
    cons_merge (mkOp (OInsert (Text [c])) a) (foldr build_step d ((λ x, MIns x a) <$> l))) as Hc.
  { intros l. unfold char_syms. by case_match. }
  change (text_syms (c :: s)) with (char_syms c ++ text_syms s). rewrite Hc.
  destruct s as [|c' s].
  - by apply cons_merge_apart.
  - rewrite IH; [|done|by destruct d]. unfold cons_merge, merge. simpl. by rewrite decide_True.
Qed.

Lemma build_den_op p d : clean p → starts_apart p d → foldr build_step d (den_op p) = p :: d.
Proof.
  intros [Hl Hk] Hd. destruct p as [[[s|v]|n|n] a]; unfold den_op; simpl.
  - apply build_text; [by intros ->|done].
  - by apply cons_merge_apart.
  - apply (build_replicate ORetain); try done.
    + intros x y. unfold merge. simpl. by rewrite decide_True.
    + intros x. apply cons_merge_apart; [done|by destruct d].
  - assert (a = ∅) as -> by by apply Hk.
    apply (build_replicate ODelete); try done.
    intros x. apply cons_merge_apart; [done|by destruct d].
Qed.

Lemma build_den d : canonical d → build (den d) = d.
Proof.
  intros [Hcl Hch]. induction d as [|p d IH]; [done|].
  rewrite den_cons. unfold build. rewrite foldr_app. inversion Hcl; subst. simpl in Hch.
  destruct Hch as [Hp Hch]. fold (build (den d)). rewrite IH by done. by apply build_den_op.
Qed.

(** A canonical delta puts insertions first already. *)
Lemma canonical_head_ins p d :
  clean p → starts_apart p d → kind p = KDelete → Forall clean d → ins_head (den d) = false.
Proof.
  intros _ Hs Hk Hd. destruct d as [|q d]; [done|]. inversion Hd as [|?? [Hl _] _]; subst.
  rewrite den_cons. unfold starts_apart, apart, kind in *. unfold op_len in Hl.
  destruct p as [[| |] ?]; try done. destruct q as [[|m|] a]; try done. unfold den_op. simpl in *.
  destruct (N.to_nat m) eqn:E; [lia|done].
Qed.

Lemma mnf_ins_block ins l : Forall (λ y, is_ins y = true) ins → mnf (ins ++ l) = ins ++ mnf l.
Proof. induction 1 as [|[] ins]; simpl in *; congruence. Qed.

Lemma mnf_del_block n l : ins_head (mnf l) = false → mnf (replicate n MDel ++ l) = replicate n MDel ++ mnf l.
Proof. intros H. induction n as [|k IH]; [done|]. simpl. rewrite IH. destruct k; [|done]. simpl. by destruct (mnf l) as [|[]]. Qed.

Lemma mnf_den d : canonical d → mnf (den d) = den d.
Proof.
  intros [Hcl Hch]. induction d as [|p d IH]; [done|].
  inversion Hcl as [|?? Hp Hd]; subst. simpl in Hch. destruct Hch as [Hap Hch].
  specialize (IH Hd Hch). rewrite den_cons. destruct (kind p) eqn:Ek.
  - rewrite mnf_ins_block by by apply den_insert. by rewrite IH.
  - unfold kind, den_op in *. destruct p as [[| n|] a]; try done. simpl.
    induction (N.to_nat n); simpl; congruence.
  - pose proof (canonical_head_ins p d Hp Hap Ek Hd) as Hh.
    unfold kind, den_op in *. destruct p as [[| |n] a]; try done. simpl.
    rewrite mnf_del_block by by rewrite IH. by rewrite IH.
Qed.

Theorem canonical_unique d1 d2 : canonical d1 → canonical d2 → meq (den d1) (den d2) → d1 = d2.
Proof.
  intros H1 H2 H. apply meq_mnf in H. rewrite !mnf_den in H by done.
  by rewrite <- (build_den d1), <- (build_den d2), H.
Qed.

End canon.
