(* ===== verification/DeltaTotal.v ===== *)
(** * Deltas: termination and freedom from panics

    Every loop over an [OpIterator] ends within the fuel [Delta.v] gives it, and the byte offset an
    iterator carries always falls on a character boundary, so no slice of a text panics.  The only
    hypothesis is the one the type [usize] gives: no op is longer than [usize::MAX]. *)

From S2P Require Import Prelude Json Attributes Text Delta.

Section total.
Context `{J : Json}.
Implicit Types d out : list Op.

(** Every length is a [usize]. *)
Definition sized (d : list Op) : Prop := Forall (λ op, (op_len op ≤ usize_max)%N) d.

(** ** The iterator's invariant *)

Definition it_ok (it : OpIterator) : Prop :=
  sized (it_ops it) ∧
  match it_ops it !! it_index it with
  | Some op =>
      (it_offset it ≤ op_len op)%N ∧
      match op_kind op with
      | OInsert (Text s) => ∃ s1 s2, s = s1 ++ s2 ∧ it_byte_offset it = str_len s1
      | _ => True
      end
  | None => True
  end.

(** The ops an iterator has not finished. *)
Definition it_left (it : OpIterator) : nat := length (it_ops it) - it_index it.

Lemma iter_new_ok d : sized d → it_ok (iter_new d).
Proof.
  intros Hd. split; [done|]. simpl. destruct (d !! 0%nat) as [op|]; [|done]. split; [lia|].
  destruct (op_kind op) as [[s|v]| |]; [|done..]. by exists [], s.
Qed.

Lemma iter_new_left d : it_left (iter_new d) = length d.
Proof. unfold it_left. simpl. lia. Qed.

Lemma it_left_some it op : it_ops it !! it_index it = Some op → (0 < it_left it)%nat.
Proof. intros H%lookup_lt_Some. unfold it_left. lia. Qed.

Lemma iter_advance_ok it op t bo :
  it_ok it → it_ops it !! it_index it = Some op → (it_offset it + t ≤ op_len op)%N →
  match op_kind op with
  | OInsert (Text s) => ∃ s1 s2, s = s1 ++ s2 ∧ bo = str_len s1
  | _ => True
  end →
  it_ok (iter_advance it (op_len op) t bo).
Proof.
  intros [Hs _] Hop Ht Hbo. unfold iter_advance.
  destruct (op_len op <=? it_offset it + t)%N; (split; [done|]); simpl.
  - destruct (it_ops it !! S (it_index it)) as [q|]; [|done]. split; [lia|].
    destruct (op_kind q) as [[s|v]| |]; [|done..]. by exists [], s.
  - by rewrite Hop.
Qed.

Lemma iter_advance_left it l t bo :
  (it_left (iter_advance it l t bo) ≤ it_left it)%nat ∧
  ((l ≤ it_offset it + t)%N → (0 < it_left it)%nat → (it_left (iter_advance it l t bo) < it_left it)%nat).
Proof.
  unfold iter_advance, it_left. destruct (l <=? it_offset it + t)%N eqn:E; bool_to_prop; simpl; lia.
Qed.

(** [next] never panics, and finishes the current op when it asks for all of it. *)
Lemma next_ok it n :
  it_ok it → ∃ op it', next it n = Some (op, it') ∧ it_ok it' ∧ (it_left it' ≤ it_left it)%nat ∧
    ((0 < it_left it)%nat → (peek_length it ≤ n)%N → (it_left it' < it_left it)%nat).
Proof.
  intros Hok. pose proof Hok as [Hs Hcur]. unfold next, peek_length.
  destruct (it_ops it !! it_index it) as [op|] eqn:Hop.
  2: { eexists _, it. split_and!; try done. intros Hl _. unfold it_left in Hl.
       apply lookup_ge_None in Hop. lia. }
  destruct Hcur as [Ho Hbo]. set (t := N.min n (op_len op - it_offset it)).
  assert (it_offset it + t ≤ op_len op)%N as Ht by lia.
  assert (∀ (o : Op) bo,
    match op_kind op with OInsert (Text s) => ∃ s1 s2, s = s1 ++ s2 ∧ bo = str_len s1 | _ => True end →
    ∃ op0 it', Some (o, iter_advance it (op_len op) t bo) = Some (op0, it') ∧ it_ok it' ∧
      (it_left it' ≤ it_left it)%nat ∧
      ((0 < it_left it)%nat → (op_len op - it_offset it ≤ n)%N → (it_left it' < it_left it)%nat)) as Hadv.
  { intros o bo Hb. eexists _, _. split_and!; [done|by apply iter_advance_ok| |];
      destruct (iter_advance_left it (op_len op) t bo) as [H1 H2]; [done|]. intros. apply H2; lia. }
  destruct (op_kind op) as [[s|v]|m|m] eqn:Ek; [|by apply Hadv..].
  destruct Hbo as (s1 & s2 & -> & ->). rewrite advance_utf16_spec. simpl.
  pose proof (split_units_app s2 t) as E.
  rewrite str_slice_units. simpl. apply Hadv.
  exists (s1 ++ take_units s2 t), (drop_units s2 t). rewrite <- app_assoc, E, str_len_app. done.
Qed.

Lemma has_next_left it : has_next it = true → (0 < it_left it)%nat.
Proof.
  unfold has_next, peek_length. destruct (it_ops it !! it_index it) eqn:E.
  - intros _. by eapply it_left_some.
  - unfold INFINITY. by rewrite N.ltb_irrefl.
Qed.

Lemma peek_kind_left it : peek_kind it ≠ KRetain → (0 < it_left it)%nat.
Proof.
  unfold peek_kind. destruct (it_ops it !! it_index it) eqn:E; [|done].
  intros _. by eapply it_left_some.
Qed.

Lemma peek_length_le it : it_ok it → (peek_length it ≤ INFINITY)%N.
Proof.
  intros [Hs _]. unfold peek_length, INFINITY. destruct (it_ops it !! it_index it) eqn:E; [|lia].
  unfold sized in Hs. rewrite Forall_lookup in Hs. specialize (Hs _ _ E). simpl in Hs. lia.
Qed.

(** Draw [next] out of a loop body. *)
Ltac draw it n :=
  let o := fresh "op" in let it' := fresh "it" in
  let E := fresh "E" in let Hok := fresh "Hok" in let Hl := fresh "Hl" in let Hlt := fresh "Hlt" in
  destruct (next_ok it n) as (o & it' & E & Hok & Hl & Hlt); [done|];
  rewrite E; cbn [mbind option_bind].

(** Two iterators that advance by the shorter of their pieces finish one of them. *)
Lemma min_progress ia ib n :
  has_next ia || has_next ib = true → n = N.min (peek_length ia) (peek_length ib) →
  (0 < it_left ia)%nat ∧ (peek_length ia ≤ n)%N ∨ (0 < it_left ib)%nat ∧ (peek_length ib ≤ n)%N.
Proof.
  intros H ->. destruct (decide (peek_length ia ≤ peek_length ib)%N) as [Hle|Hgt].
  - destruct (has_next ia) eqn:Ha; [left; split; [by apply has_next_left|lia]|].
    simpl in H. unfold has_next in *. bool_to_prop. lia.
  - destruct (has_next ib) eqn:Hb; [right; split; [by apply has_next_left|lia]|].
    rewrite orb_false_r in H. unfold has_next in *. bool_to_prop. lia.
Qed.

(** ** The loops *)

Lemma compose_loop_total fuel ia ib out :
  it_ok ia → it_ok ib → (it_left ia + it_left ib ≤ fuel)%nat →
  is_Some (compose_loop fuel ia ib out).
Proof.
  revert ia ib out. induction fuel as [|fuel IH]; intros ia ib out Ha Hb Hf; simpl;
    destruct (has_next ia || has_next ib) eqn:Hn; simpl; try done.
  { apply orb_prop in Hn as [H%has_next_left|H%has_next_left]; lia. }
  case_decide as Hi.
  { draw ib INFINITY. apply IH; [done..|].
    assert (0 < it_left ib)%nat by (apply peek_kind_left; congruence).
    pose proof (peek_length_le ib Hb). lia. }
  case_decide as Hd.
  { draw ia INFINITY. apply IH; [done..|].
    assert (0 < it_left ia)%nat by (apply peek_kind_left; congruence).
    pose proof (peek_length_le ia Ha). lia. }
  set (n := N.min _ _). destruct (min_progress ia ib n Hn eq_refl) as [[]|[]];
    draw ia n; draw ib n; apply IH; try done; lia.
Qed.

Lemma transform_loop_total fuel p ia ib out :
  it_ok ia → it_ok ib → (it_left ia + it_left ib ≤ fuel)%nat →
  is_Some (transform_loop fuel p ia ib out).
Proof.
  revert ia ib out. induction fuel as [|fuel IH]; intros ia ib out Ha Hb Hf; simpl;
    destruct (has_next ia || has_next ib) eqn:Hn; simpl; try done.
  { apply orb_prop in Hn as [H%has_next_left|H%has_next_left]; lia. }
  case_decide as Hi.
  { draw ia INFINITY. apply IH; [done..|].
    assert (0 < it_left ia)%nat by (apply peek_kind_left; destruct Hi; congruence).
    pose proof (peek_length_le ia Ha). lia. }
  case_decide as Hd.
  { draw ib INFINITY. apply IH; [done..|].
    assert (0 < it_left ib)%nat by (apply peek_kind_left; congruence).
    pose proof (peek_length_le ib Hb). lia. }
  set (n := N.min _ _). destruct (min_progress ia ib n Hn eq_refl) as [[]|[]];
    draw ia n; draw ib n; apply IH; try done; lia.
Qed.

Lemma transform_position_loop_total fuel it index offset p :
  it_ok it → (it_left it ≤ fuel)%nat → is_Some (transform_position_loop fuel it index offset p).
Proof.
  revert it index offset. induction fuel as [|fuel IH]; intros it index offset Hok Hf; simpl;
    destruct (has_next it && (offset <=? index)%N) eqn:Hn; simpl; try done;
    apply andb_prop in Hn as [Hn _]; apply has_next_left in Hn; [lia|].
  draw it INFINITY. pose proof (peek_length_le it Hok). destruct (peek_kind it); apply IH; try done; lia.
Qed.

Lemma compose_run_total a b : sized a → sized b → is_Some (compose_run a b).
Proof.
  intros Ha Hb. unfold compose_run. apply fmap_is_Some, compose_loop_total;
    [by apply iter_new_ok..|]. rewrite !iter_new_left. lia.
Qed.

Lemma transform_run_total a b p : sized a → sized b → is_Some (transform_run a b p).
Proof.
  intros Ha Hb. unfold transform_run. apply fmap_is_Some, transform_loop_total;
    [by apply iter_new_ok..|]. rewrite !iter_new_left. lia.
Qed.

Lemma transform_position_run_total d i p : sized d → is_Some (transform_position_run d i p).
Proof.
  intros Hd. unfold transform_position_run. apply transform_position_loop_total;
    [by apply iter_new_ok|]. rewrite iter_new_left. lia.
Qed.

End total.
