(* ===== verification/DeltaIter.v ===== *)
(** * Deltas: the op iterator, seen as the list of pieces left

    [it_rel it l] says that [l] is what [it] has yet to return.  [next] takes a head off that list as
    long as it does not cut a character in half; [fits] says that a change never asks for such a cut. *)

From S2P Require Import Prelude Json Attributes Text Delta DeltaSpec DeltaPush.

Section iter.
Context `{J : Json}.
Implicit Types d l : list Op.

(** ** Cutting an op *)

Definition head_op (n : N) (op : Op) : Op :=
  match op_kind op with
  | OInsert (Text s) => mkOp (OInsert (Text (take_units s n))) (op_attributes op)
  | OInsert (Embed v) => mkOp (OInsert (Embed v)) (op_attributes op)
  | ORetain m => mkOp (ORetain (N.min n m)) (op_attributes op)
  | ODelete m => op_delete (N.min n m)
  end.

Definition rest_op (n : N) (op : Op) : Op :=
  match op_kind op with
  | OInsert (Text s) => mkOp (OInsert (Text (drop_units s n))) (op_attributes op)
  | OInsert (Embed v) => op
  | ORetain m => mkOp (ORetain (m - n)) (op_attributes op)
  | ODelete m => mkOp (ODelete (m - n)) (op_attributes op)
  end.

(** A cut of a text inside it falls between two characters. *)
Definition clean_cut (n : N) (op : Op) : Prop :=
  match op_kind op with
  | OInsert (Text s) => (n < utf16_len s)%N → utf16_len (take_units s n) = n
  | _ => True
  end.

Definition rest_list (n : N) (op : Op) (l : list Op) : list Op :=
  if (op_len op <=? n)%N then l else rest_op n op :: l.

Lemma head_op_kind n op : kind (head_op n op) = kind op.
Proof. unfold head_op, kind. by destruct (op_kind op) as [[]| |]. Qed.

Lemma head_op_attr n op : kind op ≠ KDelete → op_attributes (head_op n op) = op_attributes op.
Proof. unfold head_op, kind. by destruct (op_kind op) as [[]| |]. Qed.

Lemma head_op_delete n op : kind op = KDelete → op_attributes (head_op n op) = ∅.
Proof. unfold head_op, kind. by destruct (op_kind op) as [[]| |]. Qed.

Lemma drop_units_len s n : utf16_len s = (utf16_len (take_units s n) + utf16_len (drop_units s n))%N.
Proof. rewrite <- utf16_len_app. by rewrite split_units_app. Qed.

Lemma take_units_all s n : (utf16_len s ≤ n)%N → take_units s n = s.
Proof. intros. unfold take_units. by rewrite split_units_ge. Qed.

Lemma head_op_all n op : (op_len op ≤ n)%N → den_op (head_op n op) = den_op op ∧ op_len (head_op n op) = op_len op.
Proof.
  unfold head_op, op_len, den_op. destruct op as [[[s|v]|m|m] a]; simpl; intros H; try done.
  - by rewrite take_units_all.
  - by rewrite N.min_r.
  - by rewrite N.min_r.
Qed.

Lemma cut_op n op :
  (0 < n < op_len op)%N → clean_cut n op →
  den_op op = den_op (head_op n op) ++ den_op (rest_op n op) ∧
  op_len (head_op n op) = n ∧ op_len (rest_op n op) = (op_len op - n)%N ∧ kind (rest_op n op) = kind op.
Proof.
  unfold head_op, rest_op, op_len, den_op, clean_cut, kind.
  destruct op as [[[s|v]|m|m] a]; simpl; intros H Hc; try lia.
  - rewrite <- (split_units_app s n) at 1. rewrite text_syms_app, fmap_app.
    pose proof (drop_units_len s n). rewrite Hc in * by lia. split_and!; try done. lia.
  - rewrite <- replicate_add. split_and!; try done; try lia. f_equal. lia.
  - rewrite <- replicate_add. split_and!; try done; try lia. f_equal. lia.
Qed.

(** ** The pieces left *)

Definition cut_at (op : Op) (off bo : N) (r : Op) : Prop :=
  op_len op = (off + op_len r)%N ∧ op_attributes r = op_attributes op ∧
  match op_kind op, op_kind r with
  | OInsert (Text s), OInsert (Text s2) => ∃ s1, s = s1 ++ s2 ∧ bo = str_len s1
  | OInsert (Embed v), OInsert (Embed w) => v = w
  | ORetain _, ORetain _ | ODelete _, ODelete _ => True
  | _, _ => False
  end.

Inductive it_rel : OpIterator → list Op → Prop :=
| it_rel_end ops i off bo : ops !! i = None → it_rel (mkIter ops i off bo) []
| it_rel_at ops i off bo op r :
    ops !! i = Some op → cut_at op off bo r → it_rel (mkIter ops i off bo) (r :: drop (S i) ops).

Lemma cut_at_start op : cut_at op 0 0 op.
Proof. unfold cut_at. split_and!; [lia|done|]. destruct (op_kind op) as [[s|]| |]; try done. by exists []. Qed.

Lemma it_rel_start ops i : it_rel (mkIter ops i 0 0) (drop i ops).
Proof.
  destruct (ops !! i) as [op|] eqn:E.
  - rewrite (drop_S _ op) by done. apply (it_rel_at _ _ _ _ op); [done|apply cut_at_start].
  - rewrite drop_ge by by apply lookup_ge_None. by constructor.
Qed.

Lemma iter_new_rel d : it_rel (iter_new d) d.
Proof. apply (it_rel_start d 0). Qed.

Lemma it_rel_nil it : it_rel it [] → peek_length it = INFINITY ∧ peek_kind it = KRetain ∧
  ∀ n, next it n = Some (op_retain INFINITY, it).
Proof. inversion 1 as [???? H0|]; subst. unfold peek_length, peek_kind, next. simpl. by rewrite H0. Qed.

Lemma it_rel_cons it r l : it_rel it (r :: l) → peek_length it = op_len r ∧ peek_kind it = kind r.
Proof.
  inversion 1 as [|?????? H0 (H1 & H2 & H3)]; subst. unfold peek_length, peek_kind. simpl. rewrite H0.
  split; [lia|]. unfold kind. destruct (op_kind op) as [[]| |], (op_kind r) as [[]| |]; done.
Qed.

Lemma advance_rel ops i off bo op r n bo' :
  ops !! i = Some op → cut_at op off bo r → (n ≤ op_len r)%N →
  ((n < op_len r)%N → cut_at op (off + n) bo' (rest_op n r)) →
  it_rel (iter_advance (mkIter ops i off bo) (op_len op) n bo') (rest_list n r (drop (S i) ops)).
Proof.
  intros Hop (Hl & _ & _) Hn Hc. unfold iter_advance, rest_list. simpl. rewrite Hl.
  destruct (op_len r <=? n)%N eqn:E; bool_to_prop.
  - replace (off + op_len r <=? off + n)%N with true by (symmetry; apply N.leb_le; lia).
    apply it_rel_start.
  - replace (off + op_len r <=? off + n)%N with false by (symmetry; apply N.leb_gt; lia).
    apply (it_rel_at _ _ _ _ op); auto.
Qed.

Lemma rest_list_min n r l : op_len r ≠ 0%N → rest_list (N.min n (op_len r)) r l = rest_list n r l.
Proof.
  intros _. unfold rest_list. destruct (decide (op_len r ≤ n)%N).
  - rewrite N.min_r by done. rewrite N.leb_refl. by rewrite (proj2 (N.leb_le _ _)).
  - by rewrite N.min_l by lia.
Qed.

(** [next] takes a head off the pieces left. *)
Lemma next_rel it r l n :
  it_rel it (r :: l) → (0 < n)%N → op_len r ≠ 0%N → clean_cut n r →
  ∃ it', next it n = Some (head_op n r, it') ∧ it_rel it' (rest_list n r l).
Proof.
  intros Hr Hn Hz Hc. inversion Hr as [|ops i off bo op ? Hop Hcut]; subst.
  pose proof Hcut as (Hl & Ha & Hk). unfold next. simpl. rewrite Hop.
  rewrite <- rest_list_min by done.
  replace (op_len op - off)%N with (op_len r) by lia.
  pose proof (λ b H, advance_rel ops i off bo op r (N.min n (op_len r)) b Hop Hcut (N.le_min_r _ _) H) as Hadv.
  destruct op as [[[s|v]|m|m] a], r as [[[s'|v']|m'|m'] a']; simpl in Ha, Hk; try done; subst;
    unfold head_op; simpl in *.
  - destruct Hk as (s1 & -> & ->). rewrite advance_utf16_spec. simpl. rewrite str_slice_units. simpl.
    unfold op_len, clean_cut in *. simpl in *.
    replace (take_units s' (n `min` utf16_len s')) with (take_units s' n).
    2:{ destruct (decide (utf16_len s' ≤ n)%N); [rewrite N.min_r, !take_units_all by done; done|].
        by rewrite N.min_l by lia. }
    eexists; split; [done|]. apply Hadv. intros Hlt. rewrite N.min_l in * by lia.
    pose proof (drop_units_len s' n) as Hd. rewrite Hc in Hd by lia.
    unfold cut_at, rest_op, op_len in *; simpl in *. split_and!; [lia|done|].
    exists (s1 ++ take_units s' n). rewrite <- app_assoc, split_units_app, str_len_app. done.
  - eexists; split; [done|]. apply Hadv. unfold op_len. simpl. lia.
  - eexists; split; [done|]. apply Hadv. unfold cut_at, rest_op, op_len in *. simpl in *. intros.
    split_and!; [lia|done..].
  - eexists; split; [done|]. apply Hadv. unfold cut_at, rest_op, op_len in *. simpl in *. intros.
    split_and!; [lia|done..].
Qed.

(** Taking the whole piece never cuts. *)
Lemma next_all it r l n :
  it_rel it (r :: l) → op_len r ≠ 0%N → (op_len r ≤ n)%N →
  ∃ it', next it n = Some (head_op n r, it') ∧ it_rel it' l.
Proof.
  intros Hr Hz Hn. replace l with (rest_list n r l); [|unfold rest_list; by rewrite (proj2 (N.leb_le _ _))].
  apply next_rel; [done|lia|done|]. unfold clean_cut, op_len in *.
  destruct (op_kind r) as [[]| |]; simpl in *; lia.
Qed.

(** ** Changes that never split a character *)

(** The content units a list of edits leaves; [None] for a unit of the document. *)
Definition tsyms (l : list mop) : list (option sym) :=
  omap (λ m, match m with MIns x _ => Some (Some x) | MRet _ => Some None | MDel => None end) l.

Definition not_low (t : list (option sym)) : Prop :=
  match t with Some (SChar _ true) :: _ => False | _ => True end.

(** The positions at which the retains and deletes of a delta end. *)
Fixpoint bounds (n : N) (d : list Op) : list N :=
  match d with
  | [] => []
  | op :: d =>
      if decide (kind op = KInsert) then bounds n d
      else (n + op_len op)%N :: bounds (n + op_len op) d
  end.

Definition fits (t : list (option sym)) (d : list Op) : Prop :=
  Forall (λ k, not_low (drop (N.to_nat k) t)) (bounds 0 d).

Lemma bounds_shift n m d : bounds (n + m) d = (λ k, n + k)%N <$> bounds m d.
Proof.
  revert m. induction d as [|op d IH]; intros m; simpl; [done|]. case_decide; [done|].
  simpl. rewrite <- N.add_assoc, IH. done.
Qed.

Lemma fits_insert t op d : kind op = KInsert → fits t (op :: d) ↔ fits t d.
Proof. intros H. unfold fits. simpl. by rewrite decide_True. Qed.

Lemma fits_cons t op d :
  kind op ≠ KInsert →
  fits t (op :: d) ↔ not_low (drop (N.to_nat (op_len op)) t) ∧ fits (drop (N.to_nat (op_len op)) t) d.
Proof.
  intros H. unfold fits. simpl. rewrite decide_False by done. rewrite N.add_0_l.
  rewrite list.Forall_cons. rewrite <- (N.add_0_r (op_len op)) at 2. rewrite bounds_shift, Forall_fmap.
  apply and_iff_compat_l. apply Forall_iff. intros k. simpl. rewrite drop_drop. rewrite N2Nat.inj_add. done.
Qed.

(** Cutting a retain or a delete before its end keeps a change fitting. *)
Lemma fits_rest t n op d :
  kind op ≠ KInsert → (0 < n)%N → fits t (op :: d) → (n ≤ op_len op)%N →
  fits (drop (N.to_nat n) t) (rest_list n op d).
Proof.
  intros Hk Hn Hf Hle. unfold rest_list. apply fits_cons in Hf as [H1 H2]; [|done].
  destruct (op_len op <=? n)%N eqn:E; bool_to_prop.
  - by replace n with (op_len op) by lia.
  - assert (clean_cut n op) as Hc.
    { unfold clean_cut, kind in *. destruct (op_kind op) as [[]| |]; done. }
    destruct (cut_op n op) as (_ & _ & Hr & Hkr); [lia|done|].
    apply fits_cons; [congruence|]. rewrite Hr, drop_drop.
    replace (N.to_nat n + N.to_nat (op_len op - n))%nat with (N.to_nat (op_len op)) by lia. done.
Qed.

Lemma tsyms_app (l1 l2 : list mop) : tsyms (l1 ++ l2) = tsyms l1 ++ tsyms l2.
Proof. apply omap_app. Qed.

Lemma tsyms_text s a : tsyms ((λ x, MIns x a) <$> text_syms s) = Some <$> text_syms s.
Proof. induction (text_syms s) as [|x l IH]; [done|]. cbn. f_equal. apply IH. Qed.

Lemma tsyms_retain n a : tsyms (replicate n (MRet a)) = replicate n None.
Proof. induction n as [|n IH]; [done|]. cbn. f_equal. apply IH. Qed.

Lemma tsyms_delete op : kind op = KDelete → tsyms (den_op op) = [].
Proof.
  unfold kind, den_op. destruct (op_kind op) as [| |n]; try done. intros _.
  by induction (N.to_nat n).
Qed.

Lemma tsyms_len op : kind op ≠ KDelete → length (tsyms (den_op op)) = N.to_nat (op_len op).
Proof.
  intros Hk. rewrite <- length_den_op. unfold kind, den_op in *.
  destruct (op_kind op) as [[s|v]|n|]; try done.
  - by rewrite tsyms_text, !length_fmap.
  - by rewrite tsyms_retain, !length_replicate.
Qed.

Lemma clean_cut_text s n t :
  (n < utf16_len s)%N → not_low (drop (N.to_nat n) ((Some <$> text_syms s) ++ t)) →
  utf16_len (take_units s n) = n.
Proof.
  revert n. induction s as [|c s IH]; intros n; autorewrite with gal; [lia|].
  change (text_syms (c :: s)) with (char_syms c ++ text_syms s).
  destruct (decide (n = 0)%N) as [->|Hn]; [done|].
  rewrite take_units_cons, utf16_len_cons by lia.
  unfold char_syms, len_utf16. destruct (c <? 65536)%N; simpl; intros Hlt Hl.
  - destruct (N.to_nat n) eqn:E; [lia|]. rewrite IH; [lia..|].
    by replace (N.to_nat (n - 1)) with n0 by lia.
  - destruct (N.to_nat n) as [|[|k]] eqn:E; [lia|done|]. rewrite IH; [lia..|].
    by replace (N.to_nat (n - 2)) with k by lia.
Qed.

(** A fitting change cuts the pieces it goes over cleanly. *)
Lemma fits_clean_cut ra la n :
  kind ra ≠ KDelete → not_low (drop (N.to_nat n) (tsyms (den (ra :: la)))) → clean_cut n ra.
Proof.
  rewrite den_cons, tsyms_app. unfold clean_cut, kind, den_op.
  destruct (op_kind ra) as [[s|]| |] eqn:E; try done. intros _. rewrite tsyms_text. intros H Hlt.
  by eapply clean_cut_text.
Qed.

Lemma tsyms_not_low d : not_low (tsyms (den d)).
Proof.
  induction d as [|op d IH]; [done|]. rewrite den_cons, tsyms_app. unfold den_op.
  destruct (op_kind op) as [[s|v]|n|n].
  - rewrite tsyms_text. destruct s as [|c s]; [done|].
    change (text_syms (c :: s)) with (char_syms c ++ text_syms s). unfold char_syms. by case_match.
  - done.
  - by destruct (N.to_nat n).
  - by induction (N.to_nat n).
Qed.

(** What is left after a clean cut is the rest of the content. *)
Lemma tsyms_rest n ra la :
  kind ra ≠ KDelete → (0 < n)%N → clean_cut n ra → (n ≤ op_len ra)%N →
  tsyms (den (rest_list n ra la)) = drop (N.to_nat n) (tsyms (den (ra :: la))).
Proof.
  intros Hk Hn Hc Hle. unfold rest_list. rewrite den_cons, tsyms_app.
  destruct (op_len ra <=? n)%N eqn:E; bool_to_prop.
  - rewrite drop_app_length'; [done|]. rewrite tsyms_len by done. lia.
  - destruct (cut_op n ra) as (-> & Hl & _); [lia|done|]. rewrite tsyms_app, <- app_assoc.
    rewrite drop_app_length'; [by rewrite den_cons, tsyms_app|].
    rewrite tsyms_len by by rewrite head_op_kind. lia.
Qed.

End iter.
