(* ===== verification/DeltaLoops.v ===== *)
(** * Deltas: the loops of [compose] and [transform] compute the unit-level specification

    [produces out l b res] says that a loop's result [res] is [out] extended by the edits [l], still
    canonical and of size at most [b].  One lemma per way round a loop, then the two inductions. *)

From S2P Require Import Prelude Json Attributes Text Delta DeltaSpec DeltaAlg DeltaPush DeltaCanon.
From S2P Require Import DeltaIter.

Section loops.
Context `{J : Json}.
Implicit Types d out : list Op.

Definition nonempty (d : list Op) : Prop := Forall (λ op, op_len op ≠ 0%N) d.

Definition produces (out : list Op) (l : list mop) (b : N) (res : option Delta) : Prop :=
  ∃ out', res = Some out' ∧ meq (den out') (den out ++ l) ∧ canonical out' ∧ (total out' ≤ b)%N.

Lemma produces_push out o l b res :
  canonical out → (total out + op_len o ≤ usize_max)%N →
  produces (push out o) l b res → produces out (den_op o ++ l) b res.
Proof.
  intros Hc Ht (out' & -> & Hm & Hc' & Hb). exists out'. split_and!; try done.
  rewrite Hm, app_assoc. by rewrite (proj1 (push_den _ _ Ht)).
Qed.

Lemma produces_meq out l l' b res : meq l l' → produces out l b res → produces out l' b res.
Proof. intros Hl (out' & -> & Hm & Hc' & Hb). exists out'. split_and!; try done. by rewrite Hm, Hl. Qed.

Lemma produces_le out l b b' res : (b ≤ b')%N → produces out l b res → produces out l b' res.
Proof. intros Hl (out' & -> & Hm & Hc' & Hb). exists out'. split_and!; try done. lia. Qed.

Lemma total_rest n r l : op_len r ≠ 0%N → (0 < n)%N → clean_cut n r →
  (n ≤ op_len r)%N → total (rest_list n r l) = (op_len r + total l - n)%N.
Proof.
  intros. unfold rest_list. destruct (op_len r <=? n)%N eqn:E; bool_to_prop; [lia|].
  rewrite total_cons. destruct (cut_op n r) as (_ & _ & -> & _); [lia|done|]. lia.
Qed.

Lemma nonempty_rest n r l : nonempty (r :: l) → (0 < n)%N → clean_cut n r → nonempty (rest_list n r l).
Proof.
  intros [H1 H2]%list.Forall_cons Hn Hc. unfold rest_list.
  destruct (op_len r <=? n)%N eqn:E; bool_to_prop; [done|]. constructor; [|done].
  destruct (cut_op n r) as (_ & _ & -> & _); [lia|done|]. lia.
Qed.

Lemma den_rest n r l : (0 < n)%N → clean_cut n r → (n ≤ op_len r)%N →
  den (r :: l) = den_op (head_op n r) ++ den (rest_list n r l) ∧ op_len (head_op n r) = n.
Proof.
  intros Hn Hc Hle. unfold rest_list. destruct (op_len r <=? n)%N eqn:E; bool_to_prop.
  - rewrite den_cons. destruct (head_op_all n r) as [-> ->]; [lia|]. split; [done|lia].
  - destruct (cut_op n r) as (H1 & H2 & _); [lia|done|].
    split; [|done]. by rewrite !den_cons, H1, <- app_assoc.
Qed.

Lemma rest_list_finishes n ra la rb lb :
  n = N.min (op_len ra) (op_len rb) →
  (length (rest_list n ra la) + length (rest_list n rb lb) < length (ra :: la) + length (rb :: lb))%nat.
Proof.
  intros ->. unfold rest_list. destruct (decide (op_len ra ≤ op_len rb)%N).
  - rewrite N.min_l by done. rewrite N.leb_refl. case_match; simpl; lia.
  - rewrite N.min_r by lia. rewrite N.leb_refl. case_match; simpl; lia.
Qed.

Lemma has_next_rel it r l : it_rel it (r :: l) → (op_len r < usize_max)%N → has_next it = true.
Proof. intros H Hl. unfold has_next. destruct (it_rel_cons _ _ _ H) as [-> _]. by apply N.ltb_lt. Qed.

Lemma has_next_nil it : it_rel it [] → has_next it = false.
Proof. intros H. unfold has_next. destruct (it_rel_nil _ H) as [-> _]. apply N.ltb_irrefl. Qed.

(** ** Composition, one step at a time *)

Definition zipc (xs ys : list mop) : list mop := concat (zip_with comb xs ys).

Lemma mcompose_block xs ys la lb :
  length xs = length ys → Forall (λ x, x ≠ MDel) xs → Forall (λ y, is_ins y = false) ys →
  mcompose (xs ++ la) (ys ++ lb) = zipc xs ys ++ mcompose la lb.
Proof.
  revert ys. induction xs as [|x xs IH]; intros [|y ys]; try done. simpl.
  intros [=] Hx Hy. inversion Hx; inversion Hy; subst. rewrite mcompose_cons by done.
  unfold zipc in *. simpl. rewrite IH by done. by rewrite app_assoc.
Qed.

Lemma mcompose_dels n la lb : meq (mcompose (replicate n MDel ++ la) lb) (replicate n MDel ++ mcompose la lb).
Proof. induction n as [|n IH]; [done|]. simpl. rewrite mcompose_del_l_meq. by rewrite IH. Qed.

Lemma mcompose_ins xs la lb :
  Forall (λ x, is_ins x = true) xs → mcompose la (xs ++ lb) = xs ++ mcompose la lb.
Proof. induction 1 as [|[] xs Hx _ IH]; simpl in *; try done. by rewrite mcompose_ins_r, IH. Qed.

Lemma zipc_replicate xs n y : length xs = n → zipc xs (replicate n y) = xs ≫= (λ x, comb x y).
Proof. intros <-. unfold zipc. induction xs as [|x xs IH]; [done|]. simpl. by rewrite IH. Qed.

Lemma den_not_del op : kind op ≠ KDelete → Forall (λ x, x ≠ MDel) (den_op op).
Proof.
  unfold kind, den_op. destruct (op_kind op) as [[]| |]; try done; intros _.
  - by apply Forall_fmap, Forall_true.
  - by constructor.
  - by apply Forall_replicate.
Qed.

Lemma den_not_ins op : kind op ≠ KInsert → Forall (λ x, is_ins x = false) (den_op op).
Proof.
  unfold kind, den_op. destruct (op_kind op) as [[]| |]; try done; intros _; by apply Forall_replicate.
Qed.

Lemma bind_replicate_single {A B} (x : A) (y : B) n (f : A → list B) :
  f x = [y] → replicate n x ≫= f = replicate n y.
Proof. intros H. induction n as [|n IH]; [done|]. cbn. rewrite H. simpl. f_equal. apply IH. Qed.

Lemma bind_nil {A B} (l : list A) (f : A → list B) : (∀ x, x ∈ l → f x = []) → l ≫= f = [].
Proof.
  induction l as [|x l IH]; intros H; [done|]. cbn. rewrite H by left. apply IH. intros. apply H. by right.
Qed.

(** What [compose] pushes for a pair of pieces is their unit-by-unit combination. *)
Lemma compose_pair_spec n pa pb out :
  op_len pa = n → op_len pb = n → kind pa ≠ KDelete → kind pb ≠ KInsert →
  ∃ o, compose_pair n pa pb out = push out o ∧ den_op o = zipc (den_op pa) (den_op pb) ∧
    (op_len o ≤ n)%N ∧ (kind o = KDelete → kind pb = KDelete ∧ op_attributes o = op_attributes pb).
Proof.
  intros Ha Hb Hka Hkb. unfold compose_pair.
  pose proof (length_den_op pa) as Hla.
  destruct pb as [[ib|nb|nb] b]; [done|..]; simpl in *; unfold op_len in Hb; simpl in Hb; subst nb.
  - replace (den_op (mkOp (ORetain n) b)) with (replicate (N.to_nat n) (MRet b)) by done.
    rewrite zipc_replicate by (rewrite Hla, Ha; done).
    eexists; split_and!; [done|..].
    + destruct pa as [[[s|v]|m|] a]; try done; unfold den_op, op_len in *; simpl in *; subst.
      * clear Hla. induction (text_syms s) as [|x l IH]; [done|]. cbn. f_equal. apply IH.
      * symmetry. by apply bind_replicate_single.
    + destruct pa as [[i|m|] a]; try done; unfold op_len in *; simpl in *; lia.
    + destruct pa as [[i|m|] a]; done.
  - replace (den_op (mkOp (ODelete n) b)) with (replicate (N.to_nat n) MDel) by done.
    rewrite zipc_replicate by (rewrite Hla, Ha; done).
    destruct pa as [[i|m|] a]; try done; simpl.
    + exists (op_retain 0). split_and!; [by rewrite push_empty| |unfold op_len; simpl; lia|done].
      rewrite bind_nil; [done|]. intros x Hx. unfold den_op in Hx. destruct i; simpl in Hx.
      * by apply list_elem_of_fmap in Hx as (? & -> & _).
      * by apply list_elem_of_singleton in Hx as ->.
    + eexists; split_and!; [done|..|done].
      * unfold op_len in *. simpl in Ha. subst. symmetry. by apply bind_replicate_single.
      * unfold op_len. simpl. lia.
Qed.

Definition compose_ready (ia ib : OpIterator) (la lb : list Op) out : Prop :=
  it_rel ia la ∧ it_rel ib lb ∧ nonempty la ∧ nonempty lb ∧ fits (tsyms (den la)) lb ∧
  (total out + total la + total lb < usize_max)%N ∧ canonical out.

(** The statement the loop satisfies by induction on its fuel. *)
Definition compose_spec (fuel : nat) : Prop := ∀ ia ib la lb out,
  compose_ready ia ib la lb out → (length la + length lb ≤ fuel)%nat →
  produces out (mcompose (den la) (den lb)) (total out + total la + total lb) (compose_loop fuel ia ib out).

Lemma push_budget out o b :
  (total out + op_len o + b < usize_max)%N → total (push out o) = (total out + op_len o)%N.
Proof. intros. apply push_den. lia. Qed.

(** An insertion of the right-hand side. *)
Lemma compose_step_ins fuel ia ib la rb lb out :
  compose_spec fuel → compose_ready ia ib la (rb :: lb) out → kind rb = KInsert →
  (length la + length (rb :: lb) ≤ S fuel)%nat →
  produces out (mcompose (den la) (den (rb :: lb))) (total out + total la + total (rb :: lb))
    (compose_loop (S fuel) ia ib out).
Proof.
  intros IH (Ha & Hb & Hna & Hnb & Hf & Ht & Hc) Hk Hl. rewrite total_cons in *. simpl in Hl.
  apply list.Forall_cons in Hnb as [Hz Hnb]. simpl.
  rewrite (has_next_rel ib rb lb), orb_true_r by (done || lia). simpl.
  destruct (it_rel_cons _ _ _ Hb) as [_ ->]. rewrite decide_True by done.
  destruct (next_all ib rb lb INFINITY) as (ib' & -> & Hb'); [done..|unfold INFINITY; lia|]. simpl.
  destruct (head_op_all INFINITY rb) as [Hd Hlen]; [unfold INFINITY; lia|].
  rewrite den_cons, mcompose_ins by by apply den_insert. rewrite <- Hd.
  apply produces_push; [done|lia|]. rewrite <- Hlen.
  pose proof (push_budget out (head_op INFINITY rb) (total la + total lb)) as Hp.
  eapply produces_le; [|apply IH; [|lia]]; [rewrite Hp by lia; lia|].
  split_and!; try done.
  - by apply fits_insert in Hf.
  - rewrite Hp by lia. lia.
  - apply push_canonical; [done|]. rewrite head_op_kind. congruence.
Qed.

(** A deletion of the left-hand side. *)
Lemma compose_step_del fuel ia ib ra la lb out :
  compose_spec fuel → compose_ready ia ib (ra :: la) lb out → kind ra = KDelete →
  peek_kind ib ≠ KInsert → (length (ra :: la) + length lb ≤ S fuel)%nat →
  produces out (mcompose (den (ra :: la)) (den lb)) (total out + total (ra :: la) + total lb)
    (compose_loop (S fuel) ia ib out).
Proof.
  intros IH (Ha & Hb & Hna & Hnb & Hf & Ht & Hc) Hk Hkb Hl. rewrite total_cons in *. simpl in Hl.
  apply list.Forall_cons in Hna as [Hz Hna]. simpl.
  rewrite (has_next_rel ia ra la) by (done || lia). simpl.
  destruct (it_rel_cons _ _ _ Ha) as [_ ->]. rewrite decide_False, decide_True by done.
  destruct (next_all ia ra la INFINITY) as (ia' & -> & Ha'); [done..|unfold INFINITY; lia|]. simpl.
  destruct (head_op_all INFINITY ra) as [Hd Hlen]; [unfold INFINITY; lia|].
  assert (den_op ra = replicate (N.to_nat (op_len ra)) MDel) as Hr.
  { unfold kind, den_op, op_len in *. by destruct (op_kind ra). }
  eapply produces_meq.
  { rewrite den_cons, Hr. symmetry. apply mcompose_dels. }
  rewrite <- Hr, <- Hd. apply produces_push; [done|lia|]. 
  pose proof (push_budget out (head_op INFINITY ra) (total la + total lb)) as Hp.
  eapply produces_le; [|apply IH; [|lia]]; [rewrite Hp by lia; lia|].
  split_and!; try done.
  - rewrite den_cons, tsyms_app, tsyms_delete in Hf by done. done.
  - rewrite Hp by lia. lia.
  - apply push_canonical; [done|]. intros _. by apply head_op_delete.
Qed.

(** Two pieces of the same length. *)
Lemma compose_step_pair fuel ia ib ra la rb lb out :
  compose_spec fuel → compose_ready ia ib (ra :: la) (rb :: lb) out →
  kind ra ≠ KDelete → kind rb ≠ KInsert → (length (ra :: la) + length (rb :: lb) ≤ S fuel)%nat →
  produces out (mcompose (den (ra :: la)) (den (rb :: lb)))
    (total out + total (ra :: la) + total (rb :: lb)) (compose_loop (S fuel) ia ib out).
Proof.
  intros IH (Ha & Hb & Hna & Hnb & Hf & Ht & Hc) Hka Hkb Hl. rewrite !total_cons in *.
  pose proof Hna as [Hza _]%list.Forall_cons. pose proof Hnb as [Hzb _]%list.Forall_cons. simpl.
  rewrite (has_next_rel ia ra la) by (done || lia). simpl.
  destruct (it_rel_cons _ _ _ Ha) as [-> ->], (it_rel_cons _ _ _ Hb) as [-> ->].
  rewrite !decide_False by done. set (n := N.min (op_len ra) (op_len rb)).
  assert (clean_cut n rb) as Hcb.
  { unfold clean_cut, kind in *. destruct (op_kind rb) as [[]| |]; done. }
  assert (clean_cut n ra) as Hca.
  { destruct (decide (op_len ra ≤ op_len rb)%N).
    - unfold clean_cut, op_len in *. destruct (op_kind ra) as [[]| |]; simpl in *; lia.
    - apply fits_cons in Hf as [Hf _]; [|done].
      apply (fits_clean_cut ra la); [done|]. by replace n with (op_len rb) by lia. }
  destruct (next_rel ia ra la n) as (ia' & -> & Ha'); [done|lia|done..|]. simpl.
  destruct (next_rel ib rb lb n) as (ib' & -> & Hb'); [done|lia|done..|]. simpl.
  destruct (den_rest n ra la) as [-> Hla]; [lia|done|lia|].
  destruct (den_rest n rb lb) as [-> Hlb]; [lia|done|lia|].
  rewrite mcompose_block.
  2: by rewrite !length_den_op, Hla, Hlb.
  2: by apply den_not_del; rewrite head_op_kind.
  2: by apply den_not_ins; rewrite head_op_kind.
  destruct (compose_pair_spec n (head_op n ra) (head_op n rb) out) as (o & -> & <- & Ho & Hdel);
    [done|done|by rewrite head_op_kind..|].
  apply produces_push; [done|lia|].
  pose proof (push_budget out o (total la + total lb)) as Hp.
  pose proof (total_rest n ra la Hza ltac:(lia) Hca ltac:(lia)) as Hta.
  pose proof (total_rest n rb lb Hzb ltac:(lia) Hcb ltac:(lia)) as Htb.
  pose proof (rest_list_finishes n ra la rb lb eq_refl).
  eapply produces_le; [|apply IH; [|lia]]; [rewrite Hp, Hta, Htb by lia; lia|].
  split_and!; [done..|by apply nonempty_rest; try lia|by apply nonempty_rest; try lia| | |].
  - rewrite tsyms_rest by (done || lia). apply fits_rest; [done|lia|done|lia].
  - rewrite Hp, Hta, Htb by lia. lia.
  - apply push_canonical; [done|]. intros Hk. destruct (Hdel Hk) as [Hd ->].
    rewrite head_op_kind in Hd. by apply head_op_delete.
Qed.

(** One side has ended: the other is copied. *)
Lemma compose_pair_left n pb out :
  op_len pb = n → kind pb ≠ KInsert →
  ∃ o, compose_pair n (op_retain INFINITY) pb out = push out o ∧ den_op o = den_op pb ∧
    op_len o = n ∧ (kind o = KDelete → kind pb = KDelete ∧ op_attributes o = op_attributes pb).
Proof.
  unfold compose_pair, op_len, kind, den_op. destruct pb as [[|m|m] b]; simpl; try done; intros <- _.
  - rewrite attr_compose_empty_l. by eexists.
  - by eexists (mkOp (ODelete _) _).
Qed.

Lemma compose_pair_right n pa out :
  op_len pa = n → kind pa ≠ KDelete →
  ∃ o, compose_pair n pa (op_retain INFINITY) out = push out o ∧ den_op o = den_op pa ∧
    op_len o = n ∧ (kind o = KDelete → op_attributes o = ∅).
Proof.
  unfold compose_pair, op_len, kind, den_op. destruct pa as [[i|m|] a]; simpl; try done; intros <- _;
    rewrite attr_compose_empty_r; by eexists.
Qed.

Lemma compose_step_left fuel ia ib rb lb out :
  compose_spec fuel → compose_ready ia ib [] (rb :: lb) out → kind rb ≠ KInsert →
  (length (rb :: lb) ≤ S fuel)%nat →
  produces out (mcompose [] (den (rb :: lb))) (total out + total (rb :: lb)) (compose_loop (S fuel) ia ib out).
Proof.
  intros IH (Ha & Hb & Hna & Hnb & Hf & Ht & Hc) Hkb Hl. rewrite !total_cons, total_nil in *. simpl in Hl.
  apply list.Forall_cons in Hnb as [Hz Hnb]. simpl.
  rewrite (has_next_rel ib rb lb), orb_true_r by (done || lia). simpl.
  destruct (it_rel_nil _ Ha) as (-> & -> & Hnext), (it_rel_cons _ _ _ Hb) as [-> ->].
  rewrite !decide_False, Hnext by done. simpl.
  replace (N.min INFINITY (op_len rb)) with (op_len rb) by (unfold INFINITY; lia).
  destruct (next_all ib rb lb (op_len rb)) as (ib' & -> & Hb'); [done..|]. simpl.
  destruct (head_op_all (op_len rb) rb) as [Hd Hlen]; [done|].
  destruct (compose_pair_left (op_len rb) (head_op (op_len rb) rb) out) as (o & -> & Ho & Hol & Hdel);
    [done|by rewrite head_op_kind|].
  rewrite mcompose_nil_l, den_cons, <- Hd, <- Ho. apply produces_push; [done|lia|].
  pose proof (push_budget out o (total lb)) as Hp. rewrite <- (mcompose_nil_l (den lb)).
  eapply produces_le; [|apply (IH ia ib' [] lb); [|simpl; lia]]; [rewrite Hp, total_nil by lia; lia|].
  split_and!; try done.
  - apply fits_cons in Hf as [_ Hf]; [|done]. change (tsyms (den [])) with (@nil (option sym)) in *.
    by rewrite drop_nil in Hf.
  - rewrite Hp, total_nil by lia. lia.
  - apply push_canonical; [done|]. intros Hk. destruct (Hdel Hk) as [Hkd ->].
    rewrite head_op_kind in Hkd. by apply head_op_delete.
Qed.

Lemma compose_step_right fuel ia ib ra la out :
  compose_spec fuel → compose_ready ia ib (ra :: la) [] out → kind ra ≠ KDelete →
  (length (ra :: la) ≤ S fuel)%nat →
  produces out (mcompose (den (ra :: la)) []) (total out + total (ra :: la)) (compose_loop (S fuel) ia ib out).
Proof.
  intros IH (Ha & Hb & Hna & Hnb & Hf & Ht & Hc) Hka Hl. rewrite !total_cons, total_nil in *. simpl in Hl.
  apply list.Forall_cons in Hna as [Hz Hna]. simpl.
  rewrite (has_next_rel ia ra la) by (done || lia). simpl.
  destruct (it_rel_nil _ Hb) as (-> & -> & Hnext), (it_rel_cons _ _ _ Ha) as [-> ->].
  rewrite !decide_False by done.
  replace (N.min (op_len ra) INFINITY) with (op_len ra) by (unfold INFINITY; lia).
  destruct (next_all ia ra la (op_len ra)) as (ia' & -> & Ha'); [done..|]. simpl. rewrite Hnext. simpl.
  destruct (head_op_all (op_len ra) ra) as [Hd Hlen]; [done|].
  destruct (compose_pair_right (op_len ra) (head_op (op_len ra) ra) out) as (o & -> & Ho & Hol & Hdel);
    [done|by rewrite head_op_kind|].
  rewrite mcompose_nil_r, den_cons, <- Hd, <- Ho. apply produces_push; [done|lia|].
  pose proof (push_budget out o (total la)) as Hp. rewrite <- (mcompose_nil_r (den la)).
  eapply produces_le; [|apply (IH ia' ib la []); [|simpl; lia]]; [rewrite Hp, total_nil by lia; lia|].
  split_and!; try done.
  - by constructor.
  - rewrite Hp, total_nil by lia. lia.
  - by apply push_canonical.
Qed.

Lemma compose_loop_den fuel : compose_spec fuel.
Proof.
  induction fuel as [|fuel IH]; intros ia ib la lb out Hr Hl; pose proof Hr as (Ha & Hb & _).
  all: destruct lb as [|rb lb]; [destruct la as [|ra la]|].
  all: try (simpl in Hl; lia).
  1,2: simpl; rewrite (has_next_nil ia), (has_next_nil ib) by done; simpl; exists out;
    change (den []) with (@nil mop); rewrite mcompose_nil_r, app_nil_r; destruct Hr as (_ & _ & _ & _ & _ & _ & Hc); split_and!; [done..|lia].
  - eapply produces_le; [|destruct (decide (kind ra = KDelete)) as [Hk|Hk]].
    2: apply compose_step_del; try done; by destruct (it_rel_nil _ Hb) as (_ & -> & _).
    + rewrite total_nil. lia.
    + eapply produces_le; [|apply compose_step_right; [done..|]]; [lia|]. simpl in *. lia.
  - destruct (it_rel_cons _ _ _ Hb) as [_ Hkb].
    destruct (decide (kind rb = KInsert)); [by apply compose_step_ins|].
    destruct la as [|ra la].
    + eapply produces_le; [|apply compose_step_left; done]. rewrite total_nil. lia.
    + destruct (decide (kind ra = KDelete)); [apply compose_step_del; try done; congruence|by apply compose_step_pair].
Qed.

End loops.
