(* ===== verification/DeltaTransform.v ===== *)
(** * Deltas: the loop of [transform]

    The loop computes [mtransform], and where its retains and deletes end is tracked along the way
    ([track]), which is what later shows that a transformed change still never splits a character. *)

From S2P Require Import Prelude Json Attributes Text Delta DeltaSpec DeltaAlg DeltaPush DeltaCanon.
From S2P Require Import DeltaIter DeltaLoops.

Section transform.
Context `{J : Json}.
Implicit Types d out : list Op.

(** ** Where the ops of a pushed delta end *)

(** The length of the document a delta reads. *)
Fixpoint blen (d : list Op) : N :=
  match d with
  | [] => 0
  | op :: d => (if decide (kind op = KInsert) then 0 else op_len op) + blen d
  end.

Lemma blen_app d1 d2 : blen (d1 ++ d2) = (blen d1 + blen d2)%N.
Proof. induction d1; simpl; lia. Qed.

Lemma bounds_app n d1 d2 : bounds n (d1 ++ d2) = bounds n d1 ++ bounds (n + blen d1) d2.
Proof.
  revert n. induction d1 as [|op d1 IH]; intros n; simpl; [by rewrite N.add_0_r|].
  case_decide; rewrite IH; simpl; [by rewrite N.add_0_l|]. by rewrite N.add_assoc.
Qed.

Lemma bounds_single n o : bounds n [o] = if decide (kind o = KInsert) then [] else [(n + op_len o)%N].
Proof. reflexivity. Qed.

Lemma blen_single o : blen [o] = if decide (kind o = KInsert) then 0%N else op_len o.
Proof. simpl. lia. Qed.

Lemma kind_insert_text o s : op_text o = Some s → kind o = KInsert.
Proof. unfold op_text, kind. by destruct (op_kind o) as [[]| |]. Qed.

Lemma joined_bounds (P : N → Prop) d p o :
  (op_len p + op_len o ≤ usize_max)%N →
  Forall P (bounds 0 (d ++ [p])) →
  (kind o ≠ KInsert → P (blen (d ++ [p]) + op_len o)%N) →
  Forall P (bounds 0 (joined d p o)) ∧ blen (joined d p o) = (blen (d ++ [p]) + blen [o])%N.
Proof.
  intros Hs Hp Ho. unfold joined. destruct (join p o) as [r|] eqn:E.
  - rewrite bounds_app in Hp. rewrite bounds_app, !blen_app in *. apply Forall_app in Hp as [Hd Hp].
    unfold join in E. case_decide; [|done].
    destruct p as [[[s|v]|m|m] a], o as [[[s'|v']|m'|m'] a']; simplify_eq/=.
    + split; [|lia]. rewrite app_nil_r. done.
    + unfold op_len, kind in *. simpl in *. rewrite sat_add_small by done. split; [|lia].
      apply Forall_app. split; [done|]. constructor; [|done].
      refine (eq_ind _ P (Ho ltac:(done)) _ _). lia.
  - replace (d ++ [p; o]) with ((d ++ [p]) ++ [o]) by by rewrite <- app_assoc.
    rewrite bounds_app, (blen_app (d ++ [p])). split; [|done]. apply Forall_app. split; [done|].
    rewrite bounds_single. case_decide; [done|]. constructor; [|done]. rewrite N.add_0_l. by apply Ho.
Qed.

(** [push] ends at most one more op, where the new op ends. *)
Lemma push_bounds (P : N → Prop) d o :
  (total d + op_len o ≤ usize_max)%N →
  Forall P (bounds 0 d) → (op_len o ≠ 0%N → kind o ≠ KInsert → P (blen d + op_len o)%N) →
  Forall P (bounds 0 (push d o)) ∧ blen (push d o) = (blen d + blen [o])%N.
Proof.
  intros Hs Hd Ho. destruct (decide (op_len o = 0%N)) as [Hz|Hz].
  { rewrite push_empty by done. split; [done|]. simpl. case_decide; lia. }
  specialize (Ho Hz). destruct (snoc_case d) as [->|(d' & p & ->)].
  { rewrite push_nil by done. split; [|simpl; lia]. rewrite bounds_single.
    case_decide; [done|]. constructor; [|done]. by apply Ho. }
  rewrite total_app in Hs. simpl in Hs.
  destruct (decide (kind p = KDelete)) as [Hp|Hp].
  2:{ rewrite push_end by auto. apply joined_bounds; [lia|done..]. }
  destruct (kind o) eqn:Ek.
  - destruct (snoc_case d') as [->|(d & q & ->)].
    + simpl. rewrite push_moved_nil by done. simpl in *. rewrite Ek, Hp in *. simpl in *. split; [done|lia].
    + rewrite <- app_assoc in *. simpl in *. rewrite push_moved by done.
      replace (d ++ [q; p]) with ((d ++ [q]) ++ [p]) in * by by rewrite <- app_assoc.
      rewrite bounds_app in Hd. apply Forall_app in Hd as [Hd1 Hd2]. rewrite !total_app in Hs. simpl in Hs.
      destruct (joined_bounds P d q o) as [Hj1 Hj2]; [lia|done|by rewrite Ek|].
      rewrite bounds_app, !blen_app, Hj2. split.
      * apply Forall_app. split; [done|]. rewrite blen_single, Ek, decide_True, N.add_0_r by done. done.
      * rewrite !blen_app, (blen_single o). lia.
  - rewrite push_end by auto. apply joined_bounds; [lia|done|]. intros _. by apply Ho.
  - unfold kind in Hp, Ek. destruct (op_kind p) as [| |m] eqn:Ep; try done.
    destruct (op_kind o) as [| |m'] eqn:Eo; try done.
    erewrite push_deletes by done. rewrite bounds_app in *. rewrite !blen_app in *.
    apply Forall_app in Hd as [Hd1 _].
    unfold op_len, kind, set_kind in *. simpl in *. unfold kind, op_len in *. rewrite Ep, Eo in *. simpl in *.
    rewrite sat_add_small by lia. split; [|lia]. apply Forall_app. split; [done|]. constructor; [|done].
    refine (eq_ind _ P (Ho ltac:(done)) _ _). lia.
Qed.

(** ** Transformation, one step at a time *)

Lemma mtransform_block p xs ys la lb :
  length xs = length ys → Forall (λ x, is_ins x = false) xs → Forall (λ y, is_ins y = false) ys →
  mtransform p (xs ++ la) (ys ++ lb) = concat (zip_with (tcomb p) xs ys) ++ mtransform p la lb.
Proof.
  revert ys. induction xs as [|x xs IH]; intros [|y ys]; try done. simpl.
  intros [=] Hx Hy. inversion Hx; inversion Hy; subst. rewrite mtransform_cons by done.
  rewrite IH by done. by rewrite app_assoc.
Qed.

Lemma mtransform_block_nil p xs la :
  Forall (λ x, is_ins x = false) xs →
  mtransform p (xs ++ la) [] = (xs ≫= λ x, tcomb p x (MRet ∅)) ++ mtransform p la [].
Proof.
  induction xs as [|x xs IH]; [done|]. intros [Hx Hxs]%list.Forall_cons. simpl.
  rewrite mtransform_nil_r, IH by done. by rewrite app_assoc.
Qed.

Lemma mtransform_ins_block_l p xs la lb :
  Forall (λ x, is_ins x = true) xs → p = true ∨ ins_head lb = false →
  mtransform p (xs ++ la) lb = replicate (length xs) (MRet ∅) ++ mtransform p la lb.
Proof.
  intros Hx Hp. induction Hx as [|[] xs Hx _ IH]; simpl in *; try done.
  by rewrite mtransform_ins_l, IH.
Qed.

Lemma mtransform_ins_block_r p ys la lb :
  Forall (λ y, is_ins y = true) ys → p = false ∨ ins_head la = false →
  mtransform p la (ys ++ lb) = ys ++ mtransform p la lb.
Proof.
  intros Hy Hp. induction Hy as [|[] ys Hy _ IH]; simpl in *; try done.
  by rewrite mtransform_ins_r, IH.
Qed.

Lemma ins_head_den op d : op_len op ≠ 0%N → kind op ≠ KInsert → ins_head (den (op :: d)) = false.
Proof.
  intros Hz Hk. rewrite den_cons. unfold op_len, kind, den_op in *.
  destruct (op_kind op) as [|n|n]; try done; destruct (N.to_nat n) eqn:E; try done; lia.
Qed.

Lemma zip_with_replicate {A B C} (f : A → B → C) n x y :
  zip_with f (replicate n x) (replicate n y) = replicate n (f x y).
Proof. induction n; simpl; congruence. Qed.

Lemma concat_replicate {A} n (x : A) : concat (replicate n [x]) = replicate n x.
Proof. induction n; simpl; congruence. Qed.

Lemma concat_replicate_nil {A} n : concat (replicate n (@nil A)) = [].
Proof. by induction n. Qed.

(** What a pair of pieces contributes; [kept] is how far it moves in the transformed document. *)
Lemma transform_pair_spec p n pa pb out :
  op_len pa = n → op_len pb = n → kind pa ≠ KInsert → kind pb ≠ KInsert →
  ∃ o, transform_pair p n pa pb out = push out o ∧
    den_op o = concat (zip_with (tcomb p) (den_op pa) (den_op pb)) ∧ kind o ≠ KInsert ∧
    op_len o = (if decide (kind pa = KDelete) then 0%N else n) ∧
    (kind o = KDelete → kind pb = KDelete ∧ op_attributes o = op_attributes pb).
Proof.
  unfold transform_pair, op_len, kind, den_op.
  destruct pa as [[|m|m] a], pb as [[|m'|m'] b]; simpl; try done; intros -> -> _ _;
    rewrite zip_with_replicate; simpl.
  - eexists. split_and!; [done|by rewrite concat_replicate|done..].
  - eexists. split_and!; [done|by rewrite concat_replicate|done..].
  - exists (op_retain 0). split_and!; [by rewrite push_empty|by rewrite concat_replicate_nil|done..].
  - exists (op_retain 0). split_and!; [by rewrite push_empty|by rewrite concat_replicate_nil|done..].
Qed.

Lemma transform_pair_left p n pb out :
  op_len pb = n → kind pb ≠ KInsert →
  ∃ o, transform_pair p n (op_retain INFINITY) pb out = push out o ∧ den_op o = den_op pb ∧
    kind o ≠ KInsert ∧ op_len o = n ∧ (kind o = KDelete → kind pb = KDelete ∧ op_attributes o = op_attributes pb).
Proof.
  unfold transform_pair, op_len, kind, den_op. destruct pb as [[|m|m] b]; simpl; try done; intros <- _.
  - rewrite attr_transform_empty_l. by eexists.
  - by eexists.
Qed.

Lemma transform_pair_right p n pa out :
  op_len pa = n → kind pa ≠ KInsert →
  ∃ o, transform_pair p n pa (op_retain INFINITY) out = push out o ∧
    den_op o = (den_op pa ≫= λ x, tcomb p x (MRet ∅)) ∧
    kind o = KRetain ∧ op_len o = (if decide (kind pa = KDelete) then 0%N else n).
Proof.
  unfold transform_pair, op_len, kind, den_op. destruct pa as [[|m|m] a]; simpl; try done; intros <- _.
  - rewrite attr_transform_empty_r. eexists. split_and!; [done| |done..]. simpl.
    symmetry. apply bind_replicate_single. simpl. by rewrite attr_transform_empty_r.
  - exists (op_retain 0). split_and!; [by rewrite push_empty| |done..]. simpl. symmetry.
    apply bind_nil. by intros x ->%elem_of_replicate_inv.
Qed.

(** ** Tracking where the output's ops end

    [R k la lb] holds when the output has covered [k] units of the document [a] leaves and [la], [lb]
    are the pieces left; [P] is what is wanted of every position at which an op ends. *)
Record track (R : N → list Op → list Op → Prop) (P : N → Prop) : Prop := {
  track_ins_a k ra la lb : kind ra = KInsert → R k (ra :: la) lb →
    R (k + op_len ra)%N la lb ∧ P (k + op_len ra)%N;
  track_ins_b k la rb lb : kind rb = KInsert → R k la (rb :: lb) → R k la lb;
  track_pair k ra la rb lb n : kind ra ≠ KInsert → kind rb ≠ KInsert → R k (ra :: la) (rb :: lb) →
    op_len ra ≠ 0%N → op_len rb ≠ 0%N → n = N.min (op_len ra) (op_len rb) →
    let k' := (k + if decide (kind ra = KDelete) then 0 else n)%N in
    R k' (rest_list n ra la) (rest_list n rb lb) ∧ (kind ra ≠ KDelete → P k');
  track_left k rb lb : kind rb ≠ KInsert → R k [] (rb :: lb) →
    R (k + op_len rb)%N [] lb ∧ P (k + op_len rb)%N;
  track_right k ra la : kind ra ≠ KInsert → R k (ra :: la) [] →
    let k' := (k + if decide (kind ra = KDelete) then 0 else op_len ra)%N in
    R k' la [] ∧ (kind ra ≠ KDelete → P k');
}.

Section tracked.
Context (R : N → list Op → list Op → Prop) (P : N → Prop) (Htrack : track R P) (priority : bool).
#[local] Set Default Proof Using "Type*".

Definition tproduces out (l : list mop) (b : N) (res : option Delta) : Prop :=
  produces out l b res ∧ ∀ out', res = Some out' → Forall P (bounds 0 out').

Definition transform_ready (ia ib : OpIterator) (la lb : list Op) out : Prop :=
  it_rel ia la ∧ it_rel ib lb ∧ nonempty la ∧ nonempty lb ∧
  (total out + total la + total lb < usize_max)%N ∧ canonical out ∧
  R (blen out) la lb ∧ Forall P (bounds 0 out).

Definition transform_spec (fuel : nat) : Prop := ∀ ia ib la lb out,
  transform_ready ia ib la lb out → (length la + length lb ≤ fuel)%nat →
  tproduces out (mtransform priority (den la) (den lb)) (total out + total la + total lb)
    (transform_loop fuel priority ia ib out).

Lemma tproduces_le out l b b' res : (b ≤ b')%N → tproduces out l b res → tproduces out l b' res.
Proof. intros Hl [H1 H2]. split; [by eapply produces_le|done]. Qed.

(** One push, then the rest of the loop: what every branch has in common. *)
Lemma transform_push fuel ia ib la lb out o b l :
  transform_spec fuel →
  it_rel ia la → it_rel ib lb → nonempty la → nonempty lb → canonical out → Forall P (bounds 0 out) →
  (total out + op_len o + total la + total lb < usize_max)%N → (length la + length lb ≤ fuel)%nat →
  (kind o = KDelete → op_attributes o = ∅) →
  R (blen out + blen [o])%N la lb → (op_len o ≠ 0%N → kind o ≠ KInsert → P (blen out + op_len o)%N) →
  (total out + op_len o + total la + total lb ≤ b)%N → l = den_op o ++ mtransform priority (den la) (den lb) →
  tproduces out l b (transform_loop fuel priority ia ib (push out o)).
Proof.
  intros IH Ha Hb Hna Hnb Hc Hf Ht Hl Hd HR HP Hle ->.
  pose proof (push_budget out o (total la + total lb) ltac:(lia)) as Hp.
  destruct (push_bounds P out o) as [Hf' Hbl]; [lia|done..|].
  destruct (IH ia ib la lb (push out o)) as [H1 H2]; [|done|].
  { split_and!; try done; [rewrite Hp; lia|by apply push_canonical|by rewrite Hbl]. }
  split; [|done]. apply produces_push; [done|lia|]. eapply produces_le; [|done]. rewrite Hp. lia.
Qed.

Lemma den_retain n : den_op (op_retain n) = plain (N.to_nat n).
Proof. reflexivity. Qed.

Lemma op_len_retain n : op_len (op_retain n) = n.
Proof. reflexivity. Qed.

Lemma transform_step_ins_a fuel ia ib ra la lb out :
  transform_spec fuel → transform_ready ia ib (ra :: la) lb out → kind ra = KInsert →
  priority = true ∨ peek_kind ib ≠ KInsert → (length (ra :: la) + length lb ≤ S fuel)%nat →
  tproduces out (mtransform priority (den (ra :: la)) (den lb)) (total out + total (ra :: la) + total lb)
    (transform_loop (S fuel) priority ia ib out).
Proof.
  intros IH (Ha & Hb & Hna & Hnb & Ht & Hc & HR & Hf) Hk Hp Hl. rewrite total_cons in *. simpl in Hl.
  apply list.Forall_cons in Hna as [Hz Hna]. simpl.
  rewrite (has_next_rel ia ra la) by (done || lia). simpl.
  destruct (it_rel_cons _ _ _ Ha) as [_ ->]. rewrite decide_True by done.
  destruct (next_all ia ra la INFINITY) as (ia' & -> & Ha'); [done..|unfold INFINITY; lia|]. simpl.
  destruct (head_op_all INFINITY ra) as [Hd Hlen]; [unfold INFINITY; lia|]. rewrite Hlen.
  destruct (track_ins_a R P Htrack _ _ _ _ Hk HR) as [HR' HP].
  eapply transform_push; try done; rewrite ?op_len_retain; try lia.
  - by rewrite blen_single, op_len_retain.
  - rewrite den_cons, den_retain, mtransform_ins_block_l; [by rewrite length_den_op|by apply den_insert|].
    destruct Hp as [Hp|Hp]; [by left|right]. destruct lb as [|rb lb]; [done|].
    destruct (it_rel_cons _ _ _ Hb) as [_ Hkb]. apply list.Forall_cons in Hnb as [Hzb _].
    apply ins_head_den; congruence.
Qed.

Lemma transform_step_ins_b fuel ia ib la rb lb out :
  transform_spec fuel → transform_ready ia ib la (rb :: lb) out → kind rb = KInsert →
  ¬ (peek_kind ia = KInsert ∧ (priority = true ∨ peek_kind ib ≠ KInsert)) →
  (length la + length (rb :: lb) ≤ S fuel)%nat →
  tproduces out (mtransform priority (den la) (den (rb :: lb))) (total out + total la + total (rb :: lb))
    (transform_loop (S fuel) priority ia ib out).
Proof.
  intros IH (Ha & Hb & Hna & Hnb & Ht & Hc & HR & Hf) Hk Hp Hl. rewrite total_cons in *. simpl in Hl.
  apply list.Forall_cons in Hnb as [Hz Hnb]. simpl.
  rewrite (has_next_rel ib rb lb), orb_true_r by (done || lia). simpl.
  rewrite decide_False by done.
  destruct (it_rel_cons _ _ _ Hb) as [_ Hkb]. rewrite decide_True by congruence.
  destruct (next_all ib rb lb INFINITY) as (ib' & -> & Hb'); [done..|unfold INFINITY; lia|]. simpl.
  destruct (head_op_all INFINITY rb) as [Hd Hlen]; [unfold INFINITY; lia|].
  pose proof (head_op_kind INFINITY rb) as Hhk. rewrite Hk in Hhk.
  pose proof (track_ins_b R P Htrack _ _ _ _ Hk HR) as HR'.
  eapply transform_push; try done; [rewrite Hlen; lia|lia|congruence| |rewrite Hlen; lia|].
  - rewrite blen_single, decide_True by done. by rewrite N.add_0_r.
  - rewrite den_cons, Hd, mtransform_ins_block_r; [done|by apply den_insert|].
    destruct la as [|ra la]; [by right|]. destruct (it_rel_cons _ _ _ Ha) as [_ Hka].
    apply list.Forall_cons in Hna as [Hza _].
    destruct (decide (kind ra = KInsert)); [left; destruct priority; naive_solver congruence|right].
    by apply ins_head_den.
Qed.

Lemma transform_step_pair fuel ia ib ra la rb lb out :
  transform_spec fuel → transform_ready ia ib (ra :: la) (rb :: lb) out →
  kind ra ≠ KInsert → kind rb ≠ KInsert → (length (ra :: la) + length (rb :: lb) ≤ S fuel)%nat →
  tproduces out (mtransform priority (den (ra :: la)) (den (rb :: lb)))
    (total out + total (ra :: la) + total (rb :: lb)) (transform_loop (S fuel) priority ia ib out).
Proof.
  intros IH (Ha & Hb & Hna & Hnb & Ht & Hc & HR & Hf) Hka Hkb Hl. rewrite !total_cons in *.
  pose proof Hna as [Hza _]%list.Forall_cons. pose proof Hnb as [Hzb _]%list.Forall_cons. simpl.
  rewrite (has_next_rel ia ra la) by (done || lia). simpl.
  destruct (it_rel_cons _ _ _ Ha) as [-> ->], (it_rel_cons _ _ _ Hb) as [-> ->].
  rewrite !decide_False by tauto. set (n := N.min (op_len ra) (op_len rb)).
  assert (∀ r, kind r ≠ KInsert → clean_cut n r) as Hcc.
  { intros r. unfold clean_cut, kind. by destruct (op_kind r) as [[]| |]. }
  destruct (next_rel ia ra la n) as (ia' & -> & Ha'); [done|lia|auto..|]. simpl.
  destruct (next_rel ib rb lb n) as (ib' & -> & Hb'); [done|lia|auto..|]. simpl.
  destruct (den_rest n ra la) as [Hda Hla]; [lia|auto|lia|].
  destruct (den_rest n rb lb) as [Hdb Hlb]; [lia|auto|lia|].
  destruct (transform_pair_spec priority n (head_op n ra) (head_op n rb) out)
    as (o & -> & Ho & Hok & Hol & Hdel); [done|done|by rewrite head_op_kind..|].
  rewrite head_op_kind in Hol.
  pose proof (total_rest n ra la Hza ltac:(lia) ltac:(auto) ltac:(lia)) as Hta.
  pose proof (total_rest n rb lb Hzb ltac:(lia) ltac:(auto) ltac:(lia)) as Htb.
  pose proof (rest_list_finishes n ra la rb lb eq_refl).
  destruct (track_pair R P Htrack _ _ _ _ _ n Hka Hkb HR) as [HR' HP]; [done..|].
  assert (op_len o ≤ n)%N by (rewrite Hol; case_decide; lia).
  eapply transform_push; try done; try (rewrite Hta, Htb; lia); try lia;
    try (apply nonempty_rest; auto; lia).
  - intros Hk. destruct (Hdel Hk) as [Hd ->]. rewrite head_op_kind in Hd. by apply head_op_delete.
  - rewrite blen_single, decide_False, Hol by done. done.
  - rewrite Hol. intros Hnz _. apply HP. by case_decide.
  - rewrite Hda, Hdb, mtransform_block, Ho; [done|by rewrite !length_den_op, Hla, Hlb|..];
      by apply den_not_ins; rewrite head_op_kind.
Qed.

Lemma transform_step_left fuel ia ib rb lb out :
  transform_spec fuel → transform_ready ia ib [] (rb :: lb) out → kind rb ≠ KInsert →
  (length (rb :: lb) ≤ S fuel)%nat →
  tproduces out (mtransform priority (den []) (den (rb :: lb))) (total out + total [] + total (rb :: lb))
    (transform_loop (S fuel) priority ia ib out).
Proof.
  intros IH (Ha & Hb & Hna & Hnb & Ht & Hc & HR & Hf) Hkb Hl. rewrite !total_cons, total_nil in *. simpl in Hl.
  apply list.Forall_cons in Hnb as [Hz Hnb]. simpl.
  rewrite (has_next_rel ib rb lb), orb_true_r by (done || lia). simpl.
  destruct (it_rel_nil _ Ha) as (-> & -> & Hnext), (it_rel_cons _ _ _ Hb) as [-> ->].
  rewrite !decide_False, Hnext by naive_solver. simpl.
  replace (N.min INFINITY (op_len rb)) with (op_len rb) by (unfold INFINITY; lia).
  destruct (next_all ib rb lb (op_len rb)) as (ib' & -> & Hb'); [done..|]. simpl.
  destruct (head_op_all (op_len rb) rb) as [Hd Hlen]; [done|].
  destruct (transform_pair_left priority (op_len rb) (head_op (op_len rb) rb) out)
    as (o & -> & Ho & Hok & Hol & Hdel); [done|by rewrite head_op_kind|].
  destruct (track_left R P Htrack _ _ _ Hkb HR) as [HR' HP].
  eapply transform_push; try done; try (rewrite total_nil, Hol; lia); try (simpl; lia).
  - intros Hk. destruct (Hdel Hk) as [Hkd ->]. rewrite head_op_kind in Hkd. by apply head_op_delete.
  - rewrite blen_single, decide_False, Hol by done. done.
  - by rewrite Hol.
  - change (den []) with (@nil mop). by rewrite !mtransform_nil_l, den_cons, Ho, Hd.
Qed.

Lemma transform_step_right fuel ia ib ra la out :
  transform_spec fuel → transform_ready ia ib (ra :: la) [] out → kind ra ≠ KInsert →
  (length (ra :: la) ≤ S fuel)%nat →
  tproduces out (mtransform priority (den (ra :: la)) (den [])) (total out + total (ra :: la) + total [])
    (transform_loop (S fuel) priority ia ib out).
Proof.
  intros IH (Ha & Hb & Hna & Hnb & Ht & Hc & HR & Hf) Hka Hl. rewrite !total_cons, total_nil in *. simpl in Hl.
  apply list.Forall_cons in Hna as [Hz Hna]. simpl.
  rewrite (has_next_rel ia ra la) by (done || lia). simpl.
  destruct (it_rel_nil _ Hb) as (-> & -> & Hnext), (it_rel_cons _ _ _ Ha) as [-> ->].
  rewrite !decide_False by naive_solver.
  replace (N.min (op_len ra) INFINITY) with (op_len ra) by (unfold INFINITY; lia).
  destruct (next_all ia ra la (op_len ra)) as (ia' & -> & Ha'); [done..|]. simpl. rewrite Hnext. simpl.
  destruct (head_op_all (op_len ra) ra) as [Hd Hlen]; [done|].
  destruct (transform_pair_right priority (op_len ra) (head_op (op_len ra) ra) out)
    as (o & -> & Ho & Hok & Hol); [done|by rewrite head_op_kind|]. rewrite head_op_kind in Hol.
  destruct (track_right R P Htrack _ _ _ Hka HR) as [HR' HP].
  assert (op_len o ≤ op_len ra)%N by (rewrite Hol; case_decide; lia).
  eapply transform_push; try done; try (rewrite total_nil; lia); try (simpl; lia).
  - congruence.
  - rewrite blen_single, decide_False, Hol by congruence. done.
  - rewrite Hol. intros Hnz _. apply HP. by case_decide.
  - change (den []) with (@nil mop). rewrite den_cons, mtransform_block_nil by by apply den_not_ins.
    by rewrite Ho, Hd.
Qed.

Lemma transform_loop_den fuel : transform_spec fuel.
Proof.
  induction fuel as [|fuel IH]; intros ia ib la lb out Hr Hl; pose proof Hr as (Ha & Hb & _).
  all: destruct la as [|ra la], lb as [|rb lb].
  all: try (simpl in Hl; lia).
  1,2: simpl; rewrite (has_next_nil ia), (has_next_nil ib) by done; simpl;
    destruct Hr as (_ & _ & _ & _ & _ & Hc & _ & Hf);
    (split; [|by intros ? [= <-]]); exists out; change (den []) with (@nil mop);
    rewrite mtransform_nil_l, app_nil_r; split_and!; [done..|lia].
  - destruct (it_rel_nil _ Ha) as (_ & Hka & _).
    destruct (decide (kind rb = KInsert)).
    + apply transform_step_ins_b; try done. naive_solver congruence.
    + apply transform_step_left; try done.
  - destruct (it_rel_nil _ Hb) as (_ & Hkb & _).
    destruct (decide (kind ra = KInsert)).
    + apply transform_step_ins_a; try done. right. congruence.
    + apply transform_step_right; try done. simpl in *. lia.
  - destruct (it_rel_cons _ _ _ Ha) as [_ Hka], (it_rel_cons _ _ _ Hb) as [_ Hkb].
    destruct (decide (kind ra = KInsert ∧ (priority = true ∨ kind rb ≠ KInsert))) as [[H1 H2]|Hn].
    + apply transform_step_ins_a; try done. by rewrite Hkb.
    + destruct (decide (kind rb = KInsert)) as [H1|H1].
      * apply transform_step_ins_b; try done. by rewrite Hka, Hkb.
      * apply transform_step_pair; try done. naive_solver.
Qed.

End tracked.

End transform.
