(* ===== verification/DeltaTheory.v ===== *)
(** * Deltas: what [compose] and [transform] do

    The loops' refinement lemmas, put together: [compose] and [transform] denote the unit-level
    [mcompose] and [mtransform], up to trailing plain retains that [chop] drops. *)

From S2P Require Import Prelude Json Attributes Text Delta DeltaSpec DeltaAlg DeltaPush DeltaCanon.
From S2P Require Import DeltaTotal DeltaIter DeltaLoops DeltaTransform.

Section theory.
Context `{J : Json}.
Implicit Types a b d : list Op.

(** ** [chop] *)

(** A canonical delta that does not end in a bare retain. *)
Definition chopped (d : list Op) : Prop :=
  canonical d ∧ ∀ d' op, d = d' ++ [op] → is_bare_retain op = false.

Lemma last_snoc_op d (op : Op) : list.last (d ++ [op]) = Some op.
Proof. apply last_snoc. Qed.

Lemma bare_retain_den op : is_bare_retain op = true → den_op op = plain (N.to_nat (op_len op)).
Proof.
  unfold is_bare_retain, kind, den_op, op_len. rewrite bool_decide_eq_true. intros [Hk Ha].
  destruct (op_kind op); try done. by rewrite Ha.
Qed.

Lemma bare_retain_apart p q : is_bare_retain p = true → is_bare_retain q = true → ¬ apart p q.
Proof.
  unfold is_bare_retain, apart, kind. rewrite !bool_decide_eq_true. intros [Hp Ea] [Hq Eb].
  destruct (op_kind p), (op_kind q); try done. rewrite Ea, Eb. naive_solver.
Qed.

Lemma chop_snoc d op : chop (d ++ [op]) = if is_bare_retain op then d else d ++ [op].
Proof.
  unfold chop. rewrite last_snoc_op, length_app. simpl. case_match; [|done].
  replace (length d + 1 - 1)%nat with (length d) by lia. apply take_app_length.
Qed.

Lemma chop_spec d :
  canonical d →
  chopped (chop d) ∧ (∃ k, den d = den (chop d) ++ plain k) ∧ (total (chop d) ≤ total d)%N ∧
  (∃ t, d = chop d ++ t).
Proof.
  intros Hc. destruct (snoc_case d) as [->|(d' & op & ->)].
  { split_and!; [split; [done|by intros []]|by exists 0%nat|done|by exists []]. }
  rewrite chop_snoc. destruct (is_bare_retain op) eqn:E.
  - split_and!.
    + split; [by eapply canonical_init|]. intros d'' q ->. apply not_true_is_false. intros Hq.
      rewrite <- app_assoc in Hc. apply canonical_snoc in Hc as (_ & _ & Hap). by apply (bare_retain_apart q op).
    + rewrite den_app, den_single, (bare_retain_den op) by done. eauto.
    + rewrite total_app. lia.
    + eauto.
  - split_and!.
    + split; [done|]. intros d'' q Eq. apply app_inj_2 in Eq as [_ [= ->]]; done.
    + exists 0%nat. by rewrite app_nil_r.
    + lia.
    + exists []. by rewrite app_nil_r.
Qed.

Lemma chopped_den_last d x l : chopped d → den d = l ++ [x] → x ≠ MRet ∅.
Proof.
  intros [Hc Hl] Hd ->. destruct (snoc_case d) as [->|(d' & op & ->)]; [by destruct l|].
  specialize (Hl d' op eq_refl). apply not_true_iff_false in Hl. apply Hl.
  unfold is_bare_retain. rewrite bool_decide_eq_true.
  destruct Hc as [Hcl _]. apply Forall_app in Hcl as [_ [[Hz _] _]%list.Forall_cons].
  rewrite den_app, den_single in Hd. destruct (snoc_case (den_op op)) as [E|(l' & y & E)].
  { apply (f_equal length) in E. rewrite length_den_op in E. simpl in E. lia. }
  rewrite E, app_assoc in Hd. apply app_inj_2 in Hd as [_ [= ->]]; [|done].
  unfold kind, den_op in *. destruct (op_kind op) as [[s|v]|n|n].
  - assert (MRet ∅ ∈ (λ x, MIns x (op_attributes op)) <$> text_syms s) as H by (rewrite E; set_solver).
    by apply list_elem_of_fmap in H as (? & ? & _).
  - by destruct l' as [|? []].
  - assert (MRet ∅ ∈ replicate (N.to_nat n) (MRet (op_attributes op))) as H by (rewrite E; set_solver).
    by apply elem_of_replicate_inv in H as [= <-].
  - assert (MRet ∅ ∈ replicate (N.to_nat n) MDel) as H by (rewrite E; set_solver).
    by apply elem_of_replicate_inv in H.
Qed.

Lemma app_replicate_inj {A} (x : A) l1 l2 n1 n2 :
  (∀ l, l1 ≠ l ++ [x]) → (∀ l, l2 ≠ l ++ [x]) → l1 ++ replicate n1 x = l2 ++ replicate n2 x → l1 = l2.
Proof.
  revert n2. induction n1 as [|n1 IH]; intros n2 H1 H2.
  - destruct n2 as [|n2]; rewrite app_nil_r; [by rewrite app_nil_r|].
    rewrite replicate_S_end, app_assoc. intros E. by destruct (H1 _ E).
  - destruct n2 as [|n2].
    + rewrite app_nil_r, replicate_S_end, app_assoc. intros E. by destruct (H2 _ (eq_sym E)).
    + rewrite !replicate_S_end, !app_assoc. intros Eq. apply app_inj_2 in Eq as [Eq _]; [|done]. by eapply IH.
Qed.

(** Chopped deltas with the same effect are the same delta. *)
Lemma chopped_unique d1 d2 k1 k2 :
  chopped d1 → chopped d2 → meq (den d1 ++ plain k1) (den d2 ++ plain k2) → d1 = d2.
Proof.
  intros H1 H2 H%meq_mnf. pose proof H1 as [Hc1 _]. pose proof H2 as [Hc2 _].
  rewrite !mnf_plain, !mnf_den in H by done. apply app_replicate_inj in H.
  - by rewrite <- (build_den d1), <- (build_den d2), H.
  - intros l E. by eapply (chopped_den_last d1).
  - intros l E. by eapply (chopped_den_last d2).
Qed.

(** ** [compose] and [transform] *)

Lemma nonempty_sized d : (total d ≤ usize_max)%N → sized d.
Proof.
  induction d as [|op d IH]; [by constructor|]. rewrite total_cons. intros. constructor; [simpl; lia|].
  apply IH. lia.
Qed.

Lemma compose_den a b :
  nonempty a → nonempty b → fits (tsyms (den a)) b → (total a + total b < usize_max)%N →
  chopped (compose a b) ∧ (total (compose a b) ≤ total a + total b)%N ∧
  ∃ k, meq (den (compose a b) ++ plain k) (mcompose (den a) (den b)).
Proof.
  intros Ha Hb Hf Ht.
  destruct (compose_loop_den (length a + length b) (iter_new a) (iter_new b) a b []) as (c & E & Hm & Hc & Hl);
    [|done|].
  { split_and!; try done; try apply iter_new_rel; try apply canonical_nil; rewrite total_nil; lia. }
  unfold compose, compose_run. rewrite E. simpl in *.
  destruct (chop_spec c Hc) as (Hch & [k Hk] & Ht' & _). split_and!; [done|lia|].
  exists k. by rewrite <- Hk, Hm.
Qed.

Lemma transform_den (R : N → list Op → list Op → Prop) (P : N → Prop) a b p :
  track R P → R 0%N a b →
  nonempty a → nonempty b → (total a + total b < usize_max)%N →
  chopped (transform a b p) ∧ (total (transform a b p) ≤ total a + total b)%N ∧
  (∃ k, meq (den (transform a b p) ++ plain k) (mtransform p (den a) (den b))) ∧
  Forall P (bounds 0 (transform a b p)).
Proof.
  intros HT HR Ha Hb Ht.
  destruct (transform_loop_den R P HT p (length a + length b) (iter_new a) (iter_new b) a b [])
    as [(c & E & Hm & Hc & Hl) HP]; [|done|].
  { split_and!; try done; try apply iter_new_rel; try apply canonical_nil; rewrite total_nil; lia. }
  unfold transform, transform_run. specialize (HP _ E). rewrite E. simpl in *.
  destruct (chop_spec c Hc) as (Hch & [k Hk] & Ht' & [t Ht2]). split_and!; [done|lia| |].
  - exists k. by rewrite <- Hk, Hm.
  - rewrite Ht2, bounds_app in HP. by apply Forall_app in HP as [HP _].
Qed.

(** The positions a change transformed over [a] touches never split what [a] inserted. *)
Lemma track_tsyms a :
  track (λ k la lb, drop (N.to_nat k) (tsyms (den a)) = tsyms (den la))
    (λ k, not_low (drop (N.to_nat k) (tsyms (den a)))).
Proof.
  assert (∀ k la, drop (N.to_nat k) (tsyms (den a)) = tsyms (den la) →
    not_low (drop (N.to_nat k) (tsyms (den a)))) as HP.
  { intros k la ->. apply tsyms_not_low. }
  assert (∀ k ra la, kind ra ≠ KDelete → drop (N.to_nat k) (tsyms (den a)) = tsyms (den (ra :: la)) →
    drop (N.to_nat (k + op_len ra)) (tsyms (den a)) = tsyms (den la)) as Hstep.
  { intros k ra la Hk E. rewrite N2Nat.inj_add, <- drop_drop, E, den_cons, tsyms_app.
    apply drop_app_length'. by rewrite tsyms_len. }
  split.
  - intros k ra la lb Hk E. assert (kind ra ≠ KDelete) by congruence. eauto.
  - auto.
  - intros k ra la rb lb n Hka Hkb E Hza Hzb Hn. simpl.
    assert (clean_cut n ra) as Hc. { unfold clean_cut, kind in *. by destruct (op_kind ra) as [[]| |]. }
    case_decide as Hd.
    + split; [|done]. rewrite N.add_0_r, E. unfold rest_list. rewrite den_cons, tsyms_app, tsyms_delete by done.
      case_match; bool_to_prop; [done|]. destruct (cut_op n ra) as (_ & _ & _ & Hk); [lia|done|].
      rewrite den_cons, tsyms_app, tsyms_delete by congruence. done.
    + assert (drop (N.to_nat (k + n)) (tsyms (den a)) = tsyms (den (rest_list n ra la))) as Hr; [|eauto].
      rewrite N2Nat.inj_add, <- drop_drop, E, tsyms_rest by (done || lia). done.
  - intros k rb lb Hkb E. split; [|apply (HP _ []) ]; rewrite N2Nat.inj_add, <- drop_drop, E; apply drop_nil.
  - intros k ra la Hka E. simpl. case_decide as Hd.
    + split; [|done]. rewrite N.add_0_r, E, den_cons, tsyms_app, tsyms_delete by done. done.
    + eauto.
Qed.

Lemma transform_fits a b p :
  nonempty a → nonempty b → (total a + total b < usize_max)%N → fits (tsyms (den a)) (transform a b p).
Proof.
  intros Ha Hb Ht. by destruct (transform_den _ _ a b p (track_tsyms a)) as (_ & _ & _ & H).
Qed.

Lemma chopped_nonempty d : chopped d → nonempty d.
Proof. intros [[H _] _]. unfold nonempty. eapply Forall_impl; [|exact H]. intros x [Hx _]. exact Hx. Qed.

Lemma transform_nonempty a b p :
  nonempty a → nonempty b → (total a + total b < usize_max)%N → nonempty (transform a b p).
Proof.
  intros Ha Hb Ht. apply chopped_nonempty.
  by destruct (transform_den _ _ a b p (track_tsyms a)) as (H & _).
Qed.

Lemma mcompose_plain_r la n : ∃ m, mcompose la (plain n) = la ++ plain m.
Proof.
  revert n. induction la as [|x la IH]; intros n; [rewrite mcompose_nil_l; by exists n|].
  destruct n as [|n]; [change (plain 0) with (@nil mop); exists 0%nat; by rewrite mcompose_nil_r, app_nil_r|].
  destruct (decide (x = MDel)) as [->|Hx].
  - destruct (IH (S n)) as [m E]. exists m. rewrite mcompose_del_l by done. by rewrite E.
  - destruct (IH n) as [m E]. exists m. change (plain (S n)) with (MRet ∅ :: plain n).
    rewrite mcompose_cons, E by done.
    destruct x; try done; simpl; by rewrite attr_compose_empty_r.
Qed.

Lemma mcompose_plain la l n : ∃ m, mcompose la (l ++ plain n) = mcompose la l ++ plain m.
Proof.
  revert l. induction la as [|x la IH]; intros l; [rewrite !mcompose_nil_l; by exists n|].
  induction l as [|y l IHl]; [rewrite mcompose_nil_r; apply mcompose_plain_r|].
  destruct (is_ins y) eqn:Ey.
  - destruct y; try done. destruct IHl as [m E]. exists m. simpl. by rewrite !mcompose_ins_r, E.
  - destruct (decide (x = MDel)) as [->|Hx].
    + destruct (IH (y :: l)) as [m E]. exists m. simpl in *. by rewrite !mcompose_del_l, E.
    + destruct (IH l) as [m E]. exists m. simpl. by rewrite !mcompose_cons, E, app_assoc.
Qed.

(** Convergence: two concurrent changes end in the same delta whichever is applied first. *)
Lemma converge a b :
  nonempty a → nonempty b → (2 * (total a + total b) < usize_max)%N →
  compose a (transform a b true) = compose b (transform b a false).
Proof.
  intros Ha Hb Ht.
  assert (∀ x y p, nonempty x → nonempty y → (2 * (total x + total y) < usize_max)%N →
    chopped (compose x (transform x y p)) ∧
    ∃ k, meq (den (compose x (transform x y p)) ++ plain k) (mcompose (den x) (mtransform p (den x) (den y)))) as H.
  { intros x y p Hx Hy Hxy.
    destruct (transform_den _ _ x y p (track_tsyms x)) as (Hc & Ht' & [k Hk] & Hf); [done..|lia|].
    destruct (compose_den x (transform x y p)) as (Hc2 & _ & [k2 Hk2]); [done| |done|lia|].
    { by apply chopped_nonempty. }
    split; [done|]. destruct (mcompose_plain (den x) (den (transform x y p)) k) as [m Hm].
    exists (k2 + m)%nat. unfold plain in *. rewrite replicate_add, app_assoc, Hk2, <- Hm. by rewrite Hk. }
  destruct (H a b true) as (H1 & k1 & E1); [done..|].
  destruct (H b a false) as (H2 & k2 & E2); [done|done|lia|].
  eapply chopped_unique; [done..|]. rewrite E1, E2. apply mdiamond.
Qed.

End theory.
