(* ===== verification/DeltaApply.v ===== *)
(** * Deltas: applying a change to a document

    A document is a delta of insertions.  A change is valid for it when it stays inside it and never
    ends an op in the middle of a character; [validate] decides that, [compose] then applies the
    change cell by cell, and transforming over another valid change keeps validity. *)

From S2P Require Import Prelude Json Attributes Text Delta DeltaSpec DeltaAlg DeltaPush DeltaCanon.
From S2P Require Import DeltaTotal DeltaIter DeltaLoops DeltaTransform DeltaTheory.

Section apply.
Context `{J : Json}.
Implicit Types a b d doc : list Op.
Implicit Types l la lb D : list mop.

(** ** Documents and valid changes *)

Definition document_ops (d : list Op) : Prop := Forall (λ op, kind op = KInsert) d.

Definition valid (change doc : list Op) : Prop :=
  fits (tsyms (den doc)) change ∧ (blen change ≤ total doc)%N.

Definition all_ins l : Prop := Forall (λ m, is_ins m = true) l.

Lemma is_document_ops d : is_document d = true ↔ document_ops d.
Proof.
  unfold is_document, document_ops. induction d as [|op d IH]; simpl; [done|].
  rewrite list.Forall_cons, <- IH. rewrite andb_true_iff, bool_decide_eq_true. done.
Qed.

Lemma all_ins_app l1 l2 : all_ins (l1 ++ l2) ↔ all_ins l1 ∧ all_ins l2.
Proof. apply Forall_app. Qed.

Lemma document_all_ins d : document_ops d → all_ins (den d).
Proof.
  induction 1 as [|op d Hk _ IH]; [by constructor|]. rewrite den_cons. apply all_ins_app.
  split; [by apply den_insert|done].
Qed.

Lemma all_ins_document d : nonempty d → all_ins (den d) → document_ops d.
Proof.
  induction 1 as [|op d Hz _ IH]; [by constructor|]. rewrite den_cons, all_ins_app. intros [H1 H2].
  constructor; [|by apply IH]. unfold kind, den_op, op_len in *.
  destruct (op_kind op) as [i|n|n]; try done;
    destruct (N.to_nat n) eqn:E; simpl in H1; try lia; by inversion H1.
Qed.

Lemma length_den d : length (den d) = N.to_nat (total d).
Proof.
  induction d as [|op d IH]; [done|]. rewrite den_cons, length_app, length_den_op, IH, total_cons. lia.
Qed.

Lemma meq_perm l l' : meq l l' → l ≡ₚ l'.
Proof. induction 1; [done|by symmetry|by etrans|by constructor|by constructor]. Qed.

(** ** Measures on edits *)

(** Units of the document an edit list reads. *)
Fixpoint nbase (l : list mop) : nat :=
  match l with [] => 0 | m :: l => (if is_ins m then 0 else 1) + nbase l end.

Lemma nbase_app l1 l2 : nbase (l1 ++ l2) = nbase l1 + nbase l2.
Proof. induction l1; simpl; lia. Qed.

Lemma nbase_perm l l' : l ≡ₚ l' → nbase l = nbase l'.
Proof. induction 1; simpl; lia. Qed.

Lemma nbase_none l : all_ins l → nbase l = 0.
Proof. induction 1 as [|m l Hm _ IH]; simpl; [done|]. by rewrite Hm, IH. Qed.

Lemma nbase_all l : Forall (λ m, is_ins m = false) l → nbase l = length l.
Proof. induction 1 as [|m l Hm _ IH]; simpl; [done|]. by rewrite Hm, IH. Qed.

Lemma blen_nbase d : N.to_nat (blen d) = nbase (den d).
Proof.
  induction d as [|op d IH]; [done|]. rewrite den_cons, nbase_app. simpl. case_decide as Hk.
  - rewrite nbase_none by by apply den_insert. lia.
  - rewrite nbase_all, length_den_op by by apply den_not_ins. lia.
Qed.

Lemma tsyms_all_ins D : all_ins D → length (tsyms D) = length D.
Proof. induction 1 as [|[] D Hm _ IH]; simpl in *; try done. cbn. f_equal. apply IH. Qed.

Lemma tsyms_drop D n : all_ins D → drop n (tsyms D) = tsyms (drop n D).
Proof.
  intros H. revert n. induction H as [|[] D Hm _ IH]; intros [|n]; simpl in *; try done.
Qed.

Lemma all_ins_drop D n : all_ins D → all_ins (drop n D).
Proof. apply Forall_drop. Qed.

(** ** Application, unit by unit *)

Lemma cells_app l1 l2 : cells_of (l1 ++ l2) = cells_of l1 ++ cells_of l2.
Proof. apply omap_app. Qed.

Lemma cells_meq l l' : meq l l' → cells_of l = cells_of l'.
Proof.
  induction 1 as [| | |x l l' _ IH|]; [done..|congruence| |done].
  destruct x; cbn; [f_equal|..]; apply IH.
Qed.

Lemma cells_ins (x : sym) (a : Attributes) l : cells_of (MIns x a :: l) = (x, a) :: cells_of l.
Proof. reflexivity. Qed.

Lemma cells_plain n : cells_of (plain n) = [].
Proof. by induction n. Qed.

Lemma cells_nil_doc l : cells_of l = apply_spec [] l.
Proof. induction l as [|[] l IH]; cbn; [done|f_equal|..]; apply IH. Qed.

Lemma cells_mcompose la lb : all_ins la → cells_of (mcompose la lb) = apply_spec (cells_of la) lb.
Proof.
  intros Ha. revert la Ha. induction lb as [|y lb IH]; intros la Ha; [by rewrite mcompose_nil_r|].
  destruct la as [|x la]; [by rewrite mcompose_nil_l, cells_nil_doc|].
  pose proof Ha as [Hx Ha']%list.Forall_cons. destruct x as [x a| |]; try done.
  destruct y as [y b|b|].
  - rewrite mcompose_ins_r, cells_ins. cbn [apply_spec]. by rewrite IH.
  - rewrite mcompose_cons, cells_ins by done. cbn [comb app apply_spec]. by rewrite cells_ins, IH.
  - rewrite mcompose_cons, cells_ins by done. cbn [comb app apply_spec]. by rewrite IH.
Qed.

Lemma all_ins_mcompose la lb : all_ins la → (nbase lb ≤ length la)%nat → all_ins (mcompose la lb).
Proof.
  intros Ha. revert la Ha. induction lb as [|y lb IH]; intros la Ha Hn; [by rewrite mcompose_nil_r|].
  simpl in Hn. destruct y as [y b|b|].
  - rewrite mcompose_ins_r. constructor; [done|]. by apply IH.
  - destruct la as [|x la]; [simpl in *; lia|]. apply list.Forall_cons in Ha as [Hx Ha].
    destruct x; try done. rewrite mcompose_cons by done. simpl in *. constructor; [done|]. apply IH; [done|lia].
  - destruct la as [|x la]; [simpl in *; lia|]. apply list.Forall_cons in Ha as [Hx Ha].
    destruct x; try done. rewrite mcompose_cons by done. simpl in *. apply IH; [done|lia].
Qed.

Lemma mnf_all_ins l : all_ins l → mnf l = l.
Proof. induction 1 as [|[] l Hx _ IH]; simpl in *; congruence. Qed.

(** A document's denotation is exact: there is nothing to reorder and no tail to drop. *)
Lemma all_ins_exact d l k : chopped d → all_ins l → meq (den d ++ plain k) l → den d = l.
Proof.
  intros [Hc _] Hl Hm. pose proof (meq_mnf _ _ Hm) as E.
  rewrite mnf_plain, mnf_den, (mnf_all_ins l) in E by done. subst.
  apply all_ins_app in Hl as [_ Hp]. destruct k; [by rewrite app_nil_r|]. by inversion Hp.
Qed.

(** Applying a valid change: the result is a document, cell for cell what the change says. *)
Lemma compose_apply doc c :
  document_ops doc → nonempty doc → nonempty c → valid c doc → (total doc + total c < usize_max)%N →
  den (compose doc c) = mcompose (den doc) (den c) ∧ document_ops (compose doc c) ∧
  chopped (compose doc c) ∧ doc_cells (compose doc c) = apply_spec (doc_cells doc) (den c).
Proof.
  intros Hd Hnd Hnc [Hf Hl] Ht.
  destruct (compose_den doc c) as (Hch & _ & [k Hk]); [done..|].
  assert (all_ins (mcompose (den doc) (den c))) as Hai.
  { apply all_ins_mcompose; [by apply document_all_ins|]. rewrite <- blen_nbase, length_den. lia. }
  pose proof (all_ins_exact _ _ _ Hch Hai Hk) as E. split_and!; [done| |done|].
  - apply all_ins_document; [by apply chopped_nonempty|]. by rewrite E.
  - unfold doc_cells. rewrite E. apply cells_mcompose. by apply document_all_ins.
Qed.

Lemma apply_spec_mcompose (doc : list cell) la lb :
  (nbase la ≤ length doc)%nat → apply_spec doc (mcompose la lb) = apply_spec (apply_spec doc la) lb.
Proof.
  revert doc lb. induction la as [|x la IH]; intros doc lb Hn; [by rewrite mcompose_nil_l|].
  revert doc Hn. induction lb as [|y lb IHlb]; intros doc Hn; [by rewrite mcompose_nil_r|].
  destruct (is_ins y) eqn:Ey.
  { destruct y; try done. rewrite mcompose_ins_r. simpl. by rewrite IHlb. }
  destruct (decide (x = MDel)) as [->|Hx].
  - rewrite mcompose_del_l by done. destruct doc as [|cell doc]; simpl in *; [lia|]. apply IH. lia.
  - rewrite mcompose_cons by done. destruct x as [z a|a|]; try done.
    + destruct y; try done; simpl in *; by rewrite IH.
    + destruct doc as [|[z b] doc]; simpl in *; [lia|].
      destruct y; try done; simpl; rewrite IH by lia; [by rewrite attr_compose_assoc|done].
Qed.

(** A change that fits what [a] leaves fits the characters [a] inserted. *)
Lemma not_low_mcompose D la k :
  all_ins D → not_low (drop k (tsyms (mcompose D la))) → not_low (drop k (tsyms la)).
Proof.
  intros HD. revert D k HD. induction la as [|x la IH]; intros D k HD; [by destruct k|].
  destruct x as [x a|a|].
  - rewrite mcompose_ins_r. destruct k as [|k]; [by destruct x as [c []|]|]. apply IH. done.
  - destruct D as [|m D]; [by rewrite mcompose_nil_l|]. apply list.Forall_cons in HD as [Hm HD].
    destruct m; try done. rewrite mcompose_cons by done. destruct k as [|k]; [done|]. by apply IH.
  - destruct D as [|m D]; [by rewrite mcompose_nil_l|]. apply list.Forall_cons in HD as [Hm HD].
    destruct m; try done. rewrite mcompose_cons by done. by apply IH.
Qed.

Lemma valid_fits_change doc a b :
  document_ops doc → nonempty doc → nonempty a → valid a doc → (total doc + total a < usize_max)%N →
  valid b (compose doc a) → fits (tsyms (den a)) b.
Proof.
  intros Hd Hnd Hna Hva Ht [Hf _]. destruct (compose_apply doc a) as (E & _); [done..|].
  unfold fits in *. eapply Forall_impl; [|exact Hf]. intros k. simpl. rewrite E.
  apply not_low_mcompose. by apply document_all_ins.
Qed.

(** ** Validity survives transformation *)

Lemma mcompose_ret_block D (n : nat) (a : Attributes) l :
  all_ins D → drop n (tsyms (mcompose D (replicate n (MRet a) ++ l))) = tsyms (mcompose (drop n D) l).
Proof.
  intros HD. revert n. induction HD as [|m D Hm _ IH]; intros n.
  - rewrite drop_nil, !mcompose_nil_l, tsyms_app, tsyms_retain.
    rewrite drop_app_length'; [done|by rewrite length_replicate].
  - destruct n as [|n]; [done|]. destruct m; try done. apply IH.
Qed.

Lemma mcompose_del_block D (n : nat) l :
  all_ins D → tsyms (mcompose D (replicate n MDel ++ l)) = tsyms (mcompose (drop n D) l).
Proof.
  intros HD. revert n. induction HD as [|m D Hm _ IH]; intros n.
  - rewrite drop_nil, !mcompose_nil_l, tsyms_app. by induction n.
  - destruct n as [|n]; [done|]. destruct m; try done. apply IH.
Qed.

Lemma delete_den op : kind op = KDelete → den_op op = replicate (N.to_nat (op_len op)) MDel.
Proof. unfold kind, den_op, op_len. by destruct (op_kind op). Qed.

Lemma retain_den op : kind op = KRetain → den_op op = replicate (N.to_nat (op_len op)) (MRet (op_attributes op)).
Proof. unfold kind, den_op, op_len. by destruct (op_kind op). Qed.

Lemma not_low_applied D (la : list Op) :
  all_ins D → not_low (tsyms D) → fits (tsyms D) la → not_low (tsyms (mcompose D (den la))).
Proof.
  revert D. induction la as [|op la IH]; intros D HD Hl Hf.
  { change (den []) with (@nil mop). by rewrite mcompose_nil_r. }
  rewrite den_cons. destruct (kind op) eqn:Ek.
  - apply fits_insert in Hf; [|done]. rewrite mcompose_ins, tsyms_app by by apply den_insert.
    pose proof (tsyms_not_low [op]) as H. rewrite den_single in H.
    destruct (tsyms (den_op op)) as [|y t]; [by apply IH|]. done.
  - rewrite retain_den by done. destruct (N.to_nat (op_len op)) eqn:En.
    + apply fits_cons in Hf as [_ Hf]; [|congruence]. rewrite En in Hf. by apply IH.
    + destruct D as [|m D]; [by rewrite mcompose_nil_l|]. apply list.Forall_cons in HD as [Hm _].
      by destruct m.
  - rewrite delete_den, mcompose_del_block by done. apply fits_cons in Hf as [H1 H2]; [|congruence].
    rewrite tsyms_drop in * by done. apply IH; [by apply all_ins_drop|done..].
Qed.

(** What the transformed change still has to read of the document that [a] leaves. *)
Definition residual (t : list (option sym)) (k : N) (la lb : list Op) : Prop :=
  ∃ D, all_ins D ∧ drop (N.to_nat k) t = tsyms (mcompose D (den la)) ∧
    fits (tsyms D) la ∧ fits (tsyms D) lb ∧ not_low (tsyms D).

Lemma residual_not_low t k (la lb : list Op) : residual t k la lb → not_low (drop (N.to_nat k) t).
Proof. intros (D & HD & -> & Ha & _ & Hl). by apply not_low_applied. Qed.

(** Both changes read [n] units of the document. *)
Lemma residual_step t k ra (la lb lb' : list Op) n :
  residual t k (ra :: la) lb → kind ra ≠ KInsert → (0 < n ≤ op_len ra)%N →
  (∀ D, all_ins D → fits (tsyms D) (ra :: la) → fits (tsyms D) lb →
     fits (drop (N.to_nat n) (tsyms D)) lb' ∧ not_low (drop (N.to_nat n) (tsyms D))) →
  let k' := (k + if decide (kind ra = KDelete) then 0 else n)%N in
  residual t k' (rest_list n ra la) lb'.
Proof.
  intros (D & HD & Et & Ha & Hb & Hl) Hk Hn Hnext. simpl.
  assert (clean_cut n ra) as Hc. { unfold clean_cut, kind in *. by destruct (op_kind ra) as [[]| |]. }
  destruct (Hnext D) as [Hb' Hl']; [done..|]. exists (drop (N.to_nat n) D).
  rewrite <- tsyms_drop by done. split_and!; try done.
  - by apply all_ins_drop.
  - destruct (den_rest n ra la) as [E En]; [lia|done|lia|]. rewrite E in Et.
    case_decide as Hd.
    + rewrite N.add_0_r, Et, delete_den, En, mcompose_del_block by (done || by rewrite head_op_kind). done.
    + rewrite N2Nat.inj_add, <- drop_drop, Et, retain_den, En.
      * by apply mcompose_ret_block.
      * rewrite head_op_kind. by destruct (kind ra).
  - apply fits_rest; [done|lia|done|lia].
Qed.

Lemma track_residual t : track (residual t) (λ k, not_low (drop (N.to_nat k) t)).
Proof.
  split.
  - intros k ra la lb Hk (D & HD & Et & Ha & Hb & Hl).
    assert (residual t (k + op_len ra) la lb) as H; [|split; [done|by eapply residual_not_low]].
    exists D. apply fits_insert in Ha; [|done]. split_and!; try done.
    rewrite N2Nat.inj_add, <- drop_drop, Et, den_cons, mcompose_ins, tsyms_app by by apply den_insert.
    apply drop_app_length'. rewrite tsyms_len; congruence.
  - intros k la rb lb Hk (D & HD & Et & Ha & Hb & Hl). exists D. by apply fits_insert in Hb.
  - intros k ra la rb lb n Hka Hkb HR Hza Hzb Hn.
    pose proof (residual_step t k ra la (rb :: lb) (rest_list n rb lb) n HR Hka ltac:(lia)) as H.
    simpl in *. match type of H with ?Q → _ => assert Q as HQ end.
    + intros D HD Ha Hb. split; [apply fits_rest; [done|lia|done|lia]|].
      destruct (decide (n = op_len ra)) as [->|Hne].
      * apply fits_cons in Ha as [Ha _]; done.
      * apply fits_cons in Hb as [Hb _]; [|done]. by replace n with (op_len rb) by lia.
    + specialize (H HQ). split; [done|]. intros _. by eapply residual_not_low.
  - intros k rb lb Hkb (D & HD & Et & Ha & Hb & Hl).
    assert (residual t (k + op_len rb) [] lb) as H; [|split; [done|by eapply residual_not_low]].
    apply fits_cons in Hb as [Hb1 Hb2]; [|done]. exists (drop (N.to_nat (op_len rb)) D).
    change (den []) with (@nil mop) in *. rewrite mcompose_nil_r in *. rewrite <- tsyms_drop by done.
    split_and!; try done; [by apply all_ins_drop| |by constructor].
    by rewrite N2Nat.inj_add, <- drop_drop, Et.
  - intros k ra la Hka HR. simpl.
    destruct (decide (op_len ra = 0%N)) as [Hz|Hz].
    + destruct HR as (D & HD & Et & Ha & Hb & Hl).
      assert (residual t k la []) as HR'.
      { exists D. apply fits_cons in Ha as [_ Ha]; [|done]. rewrite Hz in Ha.
        rewrite den_cons, den_op_empty in Et by done. done. }
      rewrite Hz. replace (k + _)%N with k by (case_decide; lia). split; [done|].
      intros _. by eapply residual_not_low.
    + pose proof (residual_step t k ra la [] [] (op_len ra) HR Hka ltac:(lia)) as H. simpl in H.
      unfold rest_list in H. rewrite N.leb_refl in H.
      match type of H with ?Q → _ => assert Q as HQ end.
      * intros D HD Ha _. split; [by constructor|]. by apply fits_cons in Ha as [Ha _].
      * specialize (H HQ). split; [done|]. intros _. by eapply residual_not_low.
Qed.

Lemma nbase_mtransform p la lb :
  nbase (mtransform p la lb) = length (tsyms la) + (nbase lb - nbase la).
Proof.
  revert lb. induction la as [|x la IH]; intros lb; [rewrite mtransform_nil_l; simpl; lia|].
  induction lb as [|y lb IHlb].
  - destruct x as [x a|a|].
    + rewrite mtransform_ins_l by auto. simpl. rewrite IH. simpl. lia.
    + rewrite mtransform_nil_r by done. simpl. rewrite IH. simpl. lia.
    + rewrite mtransform_nil_r by done. simpl. rewrite IH. simpl. lia.
  - destruct (decide (is_ins x = true ∧ (p = true ∨ is_ins y = false))) as [[Hx Hp]|Hn].
    { destruct x as [x a|a|]; try done. rewrite mtransform_ins_l by done. simpl. rewrite IH. simpl. lia. }
    destruct (is_ins y) eqn:Hy.
    { destruct y as [y b|b|]; try done. rewrite mtransform_ins_r; [simpl; by rewrite IHlb|].
      simpl. destruct (is_ins x), p; naive_solver. }
    assert (is_ins x = false) as Hx by (apply not_true_is_false; naive_solver).
    rewrite mtransform_cons, nbase_app, IH by done. simpl. rewrite Hx, Hy.
    destruct x, y; try done; simpl; lia.
Qed.

Lemma length_mcompose D la :
  all_ins D → (nbase la ≤ length D)%nat →
  length (mcompose D la) = length (tsyms la) + (length D - nbase la).
Proof.
  intros HD. revert D HD. induction la as [|x la IH]; intros D HD Hn; [rewrite mcompose_nil_r; simpl; lia|].
  destruct x as [x a|a|]; simpl in *; [rewrite mcompose_ins_r; simpl; by rewrite IH| |];
    (destruct D as [|m D]; [simpl in *; lia|]); apply list.Forall_cons in HD as [Hm HD];
    (destruct m; try done); rewrite mcompose_cons by done; simpl in *; rewrite IH by (done || lia); lia.
Qed.

(** A change valid for the same document as [a] is, transformed over [a], valid for what [a] leaves. *)
Lemma transform_valid doc a b p :
  document_ops doc → nonempty doc → nonempty a → nonempty b → valid a doc → valid b doc →
  (total doc + total a < usize_max)%N → (total a + total b < usize_max)%N →
  valid (transform a b p) (compose doc a).
Proof.
  intros Hd Hnd Hna Hnb Ha Hb Ht Ht'. pose proof Ha as [Hfa Hla]. pose proof Hb as [Hfb Hlb].
  destruct (compose_apply doc a) as (E & _); [done..|].
  pose proof (document_all_ins doc Hd) as HD.
  destruct (transform_den _ _ a b p (track_residual (tsyms (den (compose doc a)))))
    as (_ & _ & [k Hk] & HP); [|done..|].
  { exists (den doc). rewrite E. split_and!; try done. apply tsyms_not_low. }
  split; [done|].
  apply meq_perm, nbase_perm in Hk. rewrite nbase_app, nbase_mtransform in Hk.
  assert (length (den (compose doc a)) = length (tsyms (den a)) + (length (den doc) - nbase (den a))) as El.
  { rewrite E. apply length_mcompose; [done|]. rewrite <- blen_nbase, length_den. lia. }
  rewrite !length_den, <- blen_nbase in El. rewrite <- !blen_nbase in Hk. lia.
Qed.

End apply.
