(* ===== verification/DeltaValidate.v ===== *)
(** * Deltas: [validate] decides validity

    [validate] reports the first position at which the change leaves the document or cuts a
    character; it accepts exactly the valid changes. *)

From S2P Require Import Prelude Json Attributes Text Delta DeltaSpec DeltaPush DeltaIter DeltaTransform.
From S2P Require Import DeltaApply.

Section validate.
Context `{J : Json}.
Implicit Types d doc change : list Op.

(** [k] falls between the two units of a character of [t]. *)
Definition inside (t : str) (k : N) : Prop := utf16_len (take_units t k) ≠ k.

#[global] Instance inside_dec t k : Decision (inside t k).
Proof. unfold inside. apply _. Defined.

(** What a walk over the positions [ks] reports. *)
Fixpoint first_bad (t : str) (ks : list N) : result unit InvalidChange :=
  match ks with
  | [] => Ok tt
  | k :: ks =>
      if (utf16_len t <? k)%N then Err (PastEnd (N.min k usize_max) (utf16_len t))
      else if decide (inside t k) then Err (IC_SplitCharacter (N.min k usize_max))
      else first_bad t ks
  end.

Lemma take_units_app s1 s2 n :
  take_units (s1 ++ s2) (utf16_len s1 + n) = s1 ++ take_units s2 n.
Proof.
  revert n. induction s1 as [|c s1 IH]; intros n; autorewrite with gal; [done|].
  pose proof (len_utf16_range c). cbn [app]. rewrite take_units_cons by lia.
  replace (len_utf16 c + utf16_len s1 + n - len_utf16 c)%N with (utf16_len s1 + n)%N by lia. by rewrite IH.
Qed.

Lemma inside_app s1 s2 n : inside (s1 ++ s2) (utf16_len s1 + n) ↔ inside s2 n.
Proof. unfold inside. rewrite take_units_app, utf16_len_app. lia. Qed.

Lemma inside_0 s : ¬ inside s 0.
Proof. unfold inside. rewrite take_units_0. auto. Qed.

Lemma inside_cons c s n : (0 < n)%N → inside (c :: s) n ↔ utf16_len (take_units s (n - len_utf16 c)) ≠ (n - len_utf16 c)%N ∨ (n < len_utf16 c)%N.
Proof.
  intros. unfold inside. rewrite take_units_cons, utf16_len_cons by done.
  destruct (decide (n < len_utf16 c)%N); [|lia].
  replace (n - len_utf16 c)%N with 0%N by lia. rewrite take_units_0, utf16_len_nil. lia.
Qed.

Lemma validate_span_spec pre text n :
  validate_span text n (utf16_len pre) (utf16_len (pre ++ text)) =
  let k := (utf16_len pre + n)%N in
  if (utf16_len (pre ++ text) <? k)%N
  then Err (PastEnd (N.min k usize_max) (utf16_len (pre ++ text)))
  else if decide (inside (pre ++ text) k) then Err (IC_SplitCharacter (N.min k usize_max))
  else Ok (drop_units text n, k).
Proof.
  revert pre n. induction text as [|c text IH]; intros pre n; simpl.
  - rewrite app_nil_r. destruct (n =? 0)%N eqn:E; bool_to_prop.
    + subst. rewrite N.add_0_r, N.ltb_irrefl. rewrite decide_False; [done|].
      unfold inside. rewrite take_units_all; auto.
    + by rewrite (proj2 (N.ltb_lt _ _)) by lia.
  - pose proof (len_utf16_range c). destruct (n =? 0)%N eqn:E; bool_to_prop.
    + subst. rewrite utf16_len_app. rewrite (proj2 (N.ltb_ge _ _)) by lia.
      rewrite decide_False; [by rewrite N.add_0_r|]. rewrite inside_app. apply inside_0.
    + destruct (n <? len_utf16 c)%N eqn:El; bool_to_prop.
      * rewrite utf16_len_app, utf16_len_cons. rewrite (proj2 (N.ltb_ge _ _)) by lia.
        rewrite decide_True; [done|]. rewrite inside_app. apply inside_cons; lia.
      * specialize (IH (pre ++ [c]) (n - len_utf16 c)%N). rewrite <- app_assoc in IH. cbn [app] in IH.
        rewrite utf16_len_app, utf16_len_cons, utf16_len_nil, N.add_0_r in IH.
        replace (utf16_len pre + len_utf16 c + (n - len_utf16 c))%N with (utf16_len pre + n)%N in IH by lia.
        rewrite IH. by rewrite drop_units_cons by lia.
Qed.

Lemma validate_ops_spec change pre text :
  validate_ops change text (utf16_len pre) (utf16_len (pre ++ text)) =
  first_bad (pre ++ text) (bounds (utf16_len pre) change).
Proof.
  revert pre text. induction change as [|op change IH]; intros pre text; [done|].
  assert (∀ n, ('(rest, cursor) <-? validate_span text n (utf16_len pre) (utf16_len (pre ++ text));
      validate_ops change rest cursor (utf16_len (pre ++ text))) =
    first_bad (pre ++ text) ((utf16_len pre + n)%N :: bounds (utf16_len pre + n) change)) as Hn.
  { intros n. rewrite validate_span_spec. cbn [first_bad]. cbv zeta.
    destruct (_ <? _)%N eqn:El; [done|]. case_decide as Hi; [done|]. cbn [result_bind]. bool_to_prop.
    rewrite inside_app in Hi. apply dec_stable in Hi.
    specialize (IH (pre ++ take_units text n) (drop_units text n)).
    rewrite <- app_assoc, split_units_app, utf16_len_app in IH.
    replace (utf16_len pre + utf16_len (take_units text n))%N with (utf16_len pre + n)%N in IH by lia. done. }
  cbn [validate_ops bounds]. unfold kind, op_len. destruct (op_kind op) as [i|n|n]; simpl.
  - apply IH.
  - apply Hn.
  - apply Hn.
Qed.

(** [validate] reports the first bad position. *)
Lemma validate_first_bad change doc :
  validate change doc = first_bad (to_plain_text doc) (bounds 0 change).
Proof. apply (validate_ops_spec change []). Qed.

(** ** The text of a document and its units *)

Definition op_plain (op : Op) : str :=
  match op_kind op with OInsert (Text s) => s | OInsert (Embed _) => [65532%N] | _ => [] end.

Lemma to_plain_text_app d acc :
  foldl (λ out op, match op_kind op with
    | OInsert (Text s) => out ++ s | OInsert (Embed _) => out ++ [65532%N] | _ => out end) acc d
  = acc ++ (d ≫= op_plain).
Proof.
  revert acc. induction d as [|op d IH]; intros acc; simpl; [by rewrite app_nil_r|].
  rewrite IH. unfold op_plain at 2. destruct (op_kind op) as [[]| |]; by rewrite <- ?app_assoc.
Qed.

Lemma to_plain_text_bind d : to_plain_text d = d ≫= op_plain.
Proof. apply (to_plain_text_app d []). Qed.

Lemma plain_text_len doc : document_ops doc → utf16_len (to_plain_text doc) = total doc.
Proof.
  rewrite to_plain_text_bind. induction 1 as [|op d Hk _ IH]; [done|].
  change ((op :: d) ≫= op_plain) with (op_plain op ++ (d ≫= op_plain)).
  rewrite utf16_len_app, IH, total_cons. f_equal. unfold op_plain, op_len, kind in *.
  by destruct (op_kind op) as [[]| |].
Qed.

Definition low (x : option sym) : bool := match x with Some (SChar _ b) => b | _ => false end.

Lemma not_low_low t : not_low t ↔ head (low <$> t) ≠ Some true.
Proof. by destruct t as [|[[c []|v]|] t]. Qed.

Lemma low_doc doc :
  document_ops doc → low <$> tsyms (den doc) = low <$> (Some <$> text_syms (to_plain_text doc)).
Proof.
  rewrite to_plain_text_bind. induction 1 as [|op d Hk _ IH]; [done|].
  change ((op :: d) ≫= op_plain) with (op_plain op ++ (d ≫= op_plain)).
  rewrite den_cons, tsyms_app, text_syms_app, !fmap_app, IH. f_equal.
  unfold kind, op_plain, den_op in *. destruct (op_kind op) as [[s|v]| |]; try done. by rewrite tsyms_text.
Qed.

Lemma inside_low s k :
  (k ≤ utf16_len s)%N → inside s k ↔ ¬ not_low (drop (N.to_nat k) (Some <$> text_syms s)).
Proof.
  unfold inside. revert k. induction s as [|c s IH]; intros k; autorewrite with gal; intros Hk.
  { assert (k = 0)%N as -> by lia. simpl. split; [done|tauto]. }
  change (text_syms (c :: s)) with (char_syms c ++ text_syms s).
  destruct (decide (k = 0)%N) as [->|Hn].
  { rewrite take_units_0. unfold char_syms. case_match; simpl; split; try done; tauto. }
  rewrite take_units_cons, utf16_len_cons by lia. unfold char_syms, len_utf16 in *.
  destruct (c <? 65536)%N; simpl.
  - destruct (N.to_nat k) eqn:E; [lia|]. simpl. specialize (IH (k - 1)%N ltac:(lia)).
    replace (N.to_nat (k - 1)) with n in IH by lia. rewrite <- IH. lia.
  - destruct (N.to_nat k) as [|[|n]] eqn:E; [lia|..]; simpl.
    + replace (k - 2)%N with 0%N by lia. rewrite take_units_0, utf16_len_nil. split; [tauto|lia].
    + specialize (IH (k - 2)%N ltac:(lia)). replace (N.to_nat (k - 2)) with n in IH by lia.
      rewrite <- IH. lia.
Qed.

Lemma inside_doc doc k :
  document_ops doc → (k ≤ total doc)%N →
  inside (to_plain_text doc) k ↔ ¬ not_low (drop (N.to_nat k) (tsyms (den doc))).
Proof.
  intros Hd Hk. rewrite inside_low by by rewrite plain_text_len.
  rewrite !not_low_low, !fmap_drop. by rewrite low_doc.
Qed.

Lemma first_bad_ok t ks :
  first_bad t ks = Ok tt ↔ Forall (λ k, (k ≤ utf16_len t)%N ∧ ¬ inside t k) ks.
Proof.
  induction ks as [|k ks IH]; simpl; [done|]. rewrite list.Forall_cons, <- IH.
  destruct (_ <? _)%N eqn:E; bool_to_prop; [split; [done|lia]|]. case_decide; naive_solver.
Qed.

Lemma bounds_le n d : Forall (λ k, (n ≤ k ≤ n + blen d)%N) (bounds n d).
Proof.
  revert n. induction d as [|op d IH]; intros n; simpl; [done|]. case_decide.
  - apply IH.
  - constructor; [simpl; lia|]. eapply Forall_impl; [|apply IH]. intros k; simpl; lia.
Qed.

Lemma bounds_last n d : (blen d ≠ 0)%N → (n + blen d)%N ∈ bounds n d.
Proof.
  revert n. induction d as [|op d IH]; intros n; simpl; [done|]. case_decide as Hk.
  - intros. by apply IH.
  - intros Hb. destruct (decide (blen d = 0)%N) as [->|Hn]; [rewrite N.add_0_r; left|]. right.
    rewrite N.add_assoc. by apply IH.
Qed.

Lemma validate_valid change doc : document_ops doc → validate change doc = Ok tt ↔ valid change doc.
Proof.
  intros Hd. rewrite validate_first_bad, first_bad_ok, plain_text_len by done. unfold valid, fits. split.
  - intros H. split.
    + eapply Forall_impl; [|exact H]. intros k [Hle Hi]. rewrite inside_doc in Hi by done.
      destruct (drop _ _) as [|[[c []|v]|]] in *; simpl in *; tauto.
    + destruct (decide (blen change = 0)%N) as [->|Hn]; [lia|].
      pose proof (bounds_last 0 change Hn) as Hin. rewrite list.Forall_forall in H. by apply H in Hin as [? _].
  - intros [Hf Hl]. pose proof (bounds_le 0 change) as Hb.
    rewrite list.Forall_forall in *. intros k Hk. specialize (Hf k Hk). specialize (Hb k Hk). simpl in *.
    split; [lia|]. rewrite inside_doc by (done || lia). tauto.
Qed.

End validate.
