(* ===== verification/DeltaSlice.v ===== *)
(** * Deltas: slicing a document

    [slice] returns the units between two positions, with no panic and within its fuel, whenever
    neither position cuts a character. *)

From S2P Require Import Prelude Json Attributes Text Delta DeltaSpec DeltaAlg DeltaPush DeltaCanon.
From S2P Require Import DeltaIter DeltaLoops DeltaTransform DeltaTheory DeltaApply.

Section slice.
Context `{J : Json}.
Implicit Types d out : list Op.

Lemma document_cons op d : document_ops (op :: d) ↔ kind op = KInsert ∧ document_ops d.
Proof. unfold document_ops. by rewrite list.Forall_cons. Qed.

Lemma not_delete op : kind op = KInsert → kind op ≠ KDelete.
Proof. congruence. Qed.

Lemma rest_document n op d :
  document_ops (op :: d) → (0 < n)%N → clean_cut n op → document_ops (rest_list n op d).
Proof.
  intros [H1 H2]%document_cons Hn Hc. unfold rest_list. case_match; bool_to_prop; [done|].
  apply document_cons. split; [|done]. destruct (cut_op n op) as (_ & _ & _ & ->); [lia|done|done].
Qed.

(** One draw of [n] units, at most what is left before the end. *)
Lemma draw_document it r l n :
  it_rel it (r :: l) → document_ops (r :: l) → nonempty (r :: l) → (0 < n)%N →
  not_low (drop (N.to_nat n) (tsyms (den (r :: l)))) →
  let m := N.min n (op_len r) in
  ∃ it', next it n = Some (head_op n r, it') ∧ it_rel it' (rest_list m r l) ∧
    op_len (head_op n r) = m ∧ (0 < m)%N ∧ clean_cut m r ∧
    den (r :: l) = den_op (head_op n r) ++ den (rest_list m r l).
Proof.
  intros Hr [Hk Hd]%document_cons [Hz Hn]%list.Forall_cons Hpos Hl m.
  assert (clean_cut n r) as Hc by (by eapply fits_clean_cut; [apply not_delete|]).
  destruct (next_rel it r l n) as (it' & E & Hr'); [done..|]. exists it'.
  rewrite <- (rest_list_min n r l Hz) in Hr'. fold m in Hr'.
  assert (den_op (head_op n r) = den_op (head_op m r) ∧ op_len (head_op n r) = op_len (head_op m r)) as [Eh Ehl].
  { destruct (decide (op_len r ≤ n)%N).
    - unfold m. rewrite N.min_r by done. destruct (head_op_all n r) as [-> ->]; [done|].
      by destruct (head_op_all (op_len r) r) as [-> ->].
    - unfold m. by rewrite N.min_l by lia. }
  assert (clean_cut m r) as Hcm.
  { destruct (decide (op_len r ≤ n)%N).
    - unfold m, clean_cut, op_len in *. destruct (op_kind r) as [[]| |]; simpl in *; lia.
    - unfold m. by rewrite N.min_l by lia. }
  destruct (den_rest m r l) as [Ed El]; [lia|done|lia|].
  rewrite Ehl, Eh. split_and!; try done. lia.
Qed.

(** Past the start: the loop copies up to the end. *)
Lemma slice_copy fuel it l index start end_ out :
  it_rel it l → document_ops l → nonempty l → ((index < end_)%N → (length l ≤ fuel)%nat) →
  (start ≤ index ≤ end_)%N → (end_ ≤ usize_max)%N → (total l < usize_max)%N →
  (total out + (end_ - index) ≤ usize_max)%N → canonical out →
  not_low (drop (N.to_nat (end_ - index)) (tsyms (den l))) →
  produces out (take (N.to_nat (end_ - index)) (den l)) (total out + (end_ - index))
    (slice_loop fuel it index start end_ out).
Proof.
  intros Hr Hd Hn Hf Hi He Hs Ht Hc Hl.
  destruct (decide (index = end_)) as [->|Hne].
  { exists out. rewrite N.sub_diag, app_nil_r. split_and!; [|done..|lia].
    destruct fuel; simpl; by rewrite N.ltb_irrefl. }
  specialize (Hf ltac:(lia)).
  revert it l index out Hr Hd Hn Hf Hi Hs Ht Hc Hl Hne.
  induction fuel as [|fuel IH]; intros it l index out Hr Hd Hn Hf Hi Hs Ht Hc Hl Hne;
    destruct l as [|r l]; try (simpl in Hf; lia).
  1,2: simpl; rewrite (has_next_nil it), andb_false_r by done; simpl; exists out;
    change (den []) with (@nil mop); rewrite take_nil, app_nil_r; split_and!; [done..|lia].
  simpl. rewrite total_cons in *. rewrite (has_next_rel it r l), andb_true_r by (done || lia).
  rewrite (proj2 (N.ltb_lt _ _)), (proj2 (N.ltb_ge _ _)) by lia. simpl.
  destruct (draw_document it r l (end_ - index)) as (it' & -> & Hr' & Hlen & Hpos & Hcm & Eden);
    [done|done|done|lia|done|].
  simpl. set (m := N.min (end_ - index) (op_len r)) in *. rewrite Hlen, wadd_small by lia.
  assert (N.to_nat (end_ - index) =
    (length (den_op (head_op (end_ - index) r)) + N.to_nat (end_ - (index + m)))%nat) as En.
  { rewrite length_den_op, Hlen. lia. }
  rewrite En, Eden, take_app_add. apply produces_push; [done|lia|].
  destruct (push_den out (head_op (end_ - index) r)) as [_ Hp]; [lia|].
  pose proof Hd as [Hk _]%document_cons. pose proof Hn as [Hz _]%list.Forall_cons.
  assert (canonical (push out (head_op (end_ - index) r))) as Hcp.
  { apply push_canonical; [done|]. rewrite head_op_kind. congruence. }
  destruct (decide (index + m = end_)%N) as [->|Hne'].
  { eexists. rewrite N.sub_diag, app_nil_r. split_and!; [|done|done|lia].
    destruct fuel; simpl; by rewrite N.ltb_irrefl. }
  eapply produces_le; [|apply IH; try done].
  - lia.
  - by apply rest_document; try lia.
  - by apply nonempty_rest; try lia.
  - unfold rest_list. rewrite (proj2 (N.leb_le _ _)) by lia. simpl in Hf. lia.
  - lia.
  - rewrite total_rest; lia || done.
  - lia.
  - rewrite tsyms_rest by (done || lia || by apply not_delete). rewrite drop_drop.
    by replace (N.to_nat m + N.to_nat (end_ - (index + m)))%nat with (N.to_nat (end_ - index)) by lia.
Qed.

(** Before the start: the loop skips whole ops, and one part of an op. *)
Lemma slice_skip fuel it l index start end_ :
  it_rel it l → document_ops l → nonempty l → (length l + 1 ≤ fuel)%nat →
  (index < start)%N → (start ≤ end_)%N → (end_ ≤ usize_max)%N → (total l < usize_max)%N →
  not_low (drop (N.to_nat (start - index)) (tsyms (den l))) →
  not_low (drop (N.to_nat (end_ - index)) (tsyms (den l))) →
  produces [] (take (N.to_nat (end_ - start)) (drop (N.to_nat (start - index)) (den l))) (end_ - start)
    (slice_loop fuel it index start end_ []).
Proof.
  revert it l index. induction fuel as [|fuel IH]; intros it l index Hr Hd Hn Hf Hi Hse He Hs Hl1 Hl2; [lia|].
  destruct l as [|r l].
  { simpl. rewrite (has_next_nil it), andb_false_r by done. simpl. exists [].
    change (den []) with (@nil mop). rewrite drop_nil, take_nil. split_and!; [done..|apply canonical_nil|].
    rewrite total_nil. lia. }
  simpl. rewrite total_cons in *. rewrite (has_next_rel it r l), andb_true_r by (done || lia).
  rewrite !(proj2 (N.ltb_lt _ _)) by lia. simpl.
  destruct (draw_document it r l (start - index)) as (it' & -> & Hr' & Hlen & Hpos & Hcm & Eden);
    [done|done|done|lia|done|].
  simpl. set (m := N.min (start - index) (op_len r)) in *. rewrite Hlen, wadd_small by lia.
  assert (N.to_nat (start - index) =
    (length (den_op (head_op (start - index) r)) + N.to_nat (start - (index + m)))%nat) as En.
  { rewrite length_den_op, Hlen. lia. }
  pose proof Hd as [Hk _]%document_cons. pose proof Hn as [Hz _]%list.Forall_cons.
  assert (document_ops (rest_list m r l)) as Hd' by by apply rest_document; try lia.
  assert (nonempty (rest_list m r l)) as Hn' by by apply nonempty_rest; try lia.
  assert (total (rest_list m r l) < usize_max)%N as Hs' by (rewrite total_rest; lia || done).
  assert (∀ e, (start ≤ e)%N → not_low (drop (N.to_nat (e - index)) (tsyms (den (r :: l)))) →
    not_low (drop (N.to_nat (e - (index + m))) (tsyms (den (rest_list m r l))))) as Hl'.
  { intros e He' Hle. rewrite tsyms_rest by (done || lia || by apply not_delete). rewrite drop_drop.
    by replace (N.to_nat m + N.to_nat (e - (index + m)))%nat with (N.to_nat (e - index)) by lia. }
  rewrite En, Eden, drop_app_add.
  destruct (decide (index + m = start)%N) as [Em|Hne].
  - rewrite Em in *. rewrite N.sub_diag. simpl. eapply produces_le; [|apply slice_copy; try done].
    + rewrite total_nil. lia.
    + intros _. simpl in Hf. unfold rest_list. case_match; simpl; lia.
    + rewrite total_nil. lia.
    + apply Hl'; [lia|done].
  - apply IH; try done; [|lia|apply Hl'; [lia|done]|apply Hl'; [lia|done]].
    unfold rest_list. rewrite (proj2 (N.leb_le _ _)) by lia. simpl in Hf. lia.
Qed.

(** [slice] is the part of the document between two positions. *)
Lemma slice_den d start end_ :
  document_ops d → nonempty d → (total d < usize_max)%N → (start ≤ end_ ≤ total d)%N →
  not_low (drop (N.to_nat start) (tsyms (den d))) → not_low (drop (N.to_nat end_) (tsyms (den d))) →
  is_Some (slice_run d start end_) ∧ document_ops (slice d start end_) ∧ canonical (slice d start end_) ∧
  den (slice d start end_) = take (N.to_nat (end_ - start)) (drop (N.to_nat start) (den d)).
Proof.
  intros Hd Hn Hs Hse Hl1 Hl2.
  assert (produces [] (take (N.to_nat (end_ - start)) (drop (N.to_nat start) (den d))) (end_ - start)
    (slice_run d start end_)) as (out & E & Hm & Hc & _).
  { unfold slice_run. destruct (decide (start = 0)%N) as [->|Hne].
    - rewrite N.sub_0_r in *. eapply produces_le.
      2: pose proof (slice_copy (length d + 2) (iter_new d) d 0 0 end_ []) as H; rewrite N.sub_0_r in H;
        (apply H; try done; try apply iter_new_rel; try (rewrite total_nil; lia); try lia; intros; lia).
      rewrite total_nil. lia.
    - replace (N.to_nat start) with (N.to_nat (start - 0)) by lia.
      apply slice_skip; try done; try lia; [apply iter_new_rel|by rewrite N.sub_0_r|by rewrite N.sub_0_r]. }
  unfold slice. rewrite E. simpl in *.
  assert (all_ins (take (N.to_nat (end_ - start)) (drop (N.to_nat start) (den d)))) as Ha.
  { apply Forall_take, Forall_drop. by apply document_all_ins. }
  apply meq_mnf in Hm. rewrite mnf_den, mnf_all_ins in Hm by done.
  split_and!; [done| |done|done]. apply all_ins_document; [|by rewrite Hm].
  destruct Hc as [Hcl _]. eapply Forall_impl; [|exact Hcl]. by intros x [].
Qed.

End slice.
