(* ===== verification/DeltaInvert.v ===== *)
(** * Deltas: [invert] undoes

    [minvert] is the unit-level inverse of a change on a document; [invert] computes it from slices of
    the document, and composing it after the change restores the document exactly, as long as no run
    of the document carries a null attribute. *)

From S2P Require Import Prelude Json Attributes Text Delta DeltaSpec DeltaAlg DeltaPush DeltaCanon.
From S2P Require Import DeltaIter DeltaLoops DeltaTransform DeltaTheory DeltaApply DeltaSlice.

Section invert.
Context `{J : Json}.
Implicit Types c d base out : list Op.

(** ** The inverse, unit by unit *)

Fixpoint minvert (doc : list cell) (l : list mop) : list mop :=
  match l with
  | [] => []
  | MIns x a :: l => MDel :: minvert doc l
  | MRet b :: l =>
      match doc with
      | (x, a) :: doc => MRet (attr_invert b a) :: minvert doc l
      | [] => []
      end
  | MDel :: l =>
      match doc with
      | (x, a) :: doc => MIns x a :: minvert doc l
      | [] => []
      end
  end.

Definition cells_clean (doc : list cell) : Prop := Forall (λ c : cell, no_nulls c.2) doc.

Lemma minvert_undoes (doc : list cell) (l : list mop) :
  cells_clean doc → (nbase l ≤ length doc)%nat → apply_spec (apply_spec doc l) (minvert doc l) = doc.
Proof.
  revert doc. induction l as [|m l IH]; intros doc Hc Hn; [done|].
  destruct m as [x a|b|]; simpl in *; [by apply IH| |];
    (destruct doc as [|[x a] doc]; simpl in *; [lia|]); apply list.Forall_cons in Hc as [Hx Hc];
    simpl; rewrite IH by (done || lia); [|done].
  by rewrite attr_invert_compose.
Qed.

Lemma nbase_minvert (doc : list cell) (l : list mop) :
  (nbase l ≤ length doc)%nat → nbase (minvert doc l) = length (tsyms l).
Proof.
  revert doc. induction l as [|m l IH]; intros doc Hn; [done|].
  destruct m as [x a|b|]; simpl in *; [by rewrite IH| |];
    (destruct doc as [|[x a] doc]; simpl in *; [lia|]); by rewrite IH by lia.
Qed.

Lemma length_minvert (doc : list cell) (l : list mop) :
  (nbase l ≤ length doc)%nat → length (minvert doc l) = length l.
Proof.
  revert doc. induction l as [|m l IH]; intros doc Hn; [done|].
  destruct m as [x a|b|]; simpl in *; [by rewrite IH| |];
    (destruct doc as [|[x a] doc]; simpl in *; [lia|]); by rewrite IH by lia.
Qed.

Lemma apply_spec_meq (doc : list cell) (l l' : list mop) : meq l l' → apply_spec doc l = apply_spec doc l'.
Proof.
  intros H. revert doc. induction H as [| |? ? ? _ IH1 _ IH2|m l l' _ IH|]; intros doc; try done.
  - by rewrite IH1.
  - by destruct m; simpl; [rewrite IH|destruct doc as [|[]]; by rewrite IH|destruct doc; by rewrite IH].
  - by destruct doc.
Qed.

Lemma apply_spec_plain (doc : list cell) (l : list mop) n : apply_spec doc (l ++ plain n) = apply_spec doc l.
Proof.
  revert doc. induction l as [|m l IH]; intros doc.
  - simpl. revert doc. induction n as [|n IH]; intros doc; [done|]. destruct doc as [|[x a] doc]; simpl.
    + by rewrite IH.
    + by rewrite attr_compose_empty_r, IH.
  - destruct m; simpl; [by rewrite IH|destruct doc as [|[]]; by rewrite IH|destruct doc; by rewrite IH].
Qed.

(** A document is determined by its cells. *)
Lemma cells_all_ins (l : list mop) : all_ins l → l = (λ c : cell, MIns c.1 c.2) <$> cells_of l.
Proof.
  induction 1 as [|m l Hm _ IH]; [done|]. destruct m; try done. rewrite cells_ins. cbn. f_equal. exact IH.
Qed.

Lemma cells_drop (l : list mop) n : all_ins l → cells_of (drop n l) = drop n (cells_of l).
Proof.
  intros H. revert n. induction H as [|m l Hm _ IH]; intros [|n]; try done. destruct m; try done. apply IH.
Qed.

Lemma length_cells (l : list mop) : all_ins l → length (cells_of l) = length l.
Proof.
  induction 1 as [|m l Hm _ IH]; [done|]. destruct m; try done. rewrite cells_ins. simpl. by rewrite IH.
Qed.

Lemma minvert_ret_block (D l : list mop) (b : Attributes) n :
  all_ins D → (n ≤ length D)%nat →
  minvert (cells_of D) (replicate n (MRet b) ++ l) =
  ((λ c : cell, MRet (attr_invert b c.2)) <$> cells_of (take n D)) ++ minvert (cells_of (drop n D)) l.
Proof.
  intros HD. revert n. induction HD as [|m D Hm _ IH]; intros n Hn.
  - simpl in Hn. assert (n = 0%nat) as -> by lia. done.
  - destruct n as [|n]; [done|]. destruct m; try done. rewrite cells_ins. simpl in *.
    rewrite IH by lia. done.
Qed.

Lemma minvert_del_block (D l : list mop) n :
  all_ins D → (n ≤ length D)%nat →
  minvert (cells_of D) (replicate n MDel ++ l) = take n D ++ minvert (cells_of (drop n D)) l.
Proof.
  intros HD. revert n. induction HD as [|m D Hm _ IH]; intros n Hn.
  - simpl in Hn. assert (n = 0%nat) as -> by lia. done.
  - destruct n as [|n]; [done|]. destruct m; try done. rewrite cells_ins. simpl in *.
    rewrite IH by lia. done.
Qed.

Lemma minvert_ins_block (doc : list cell) (l ins : list mop) :
  all_ins ins → minvert doc (ins ++ l) = replicate (length ins) MDel ++ minvert doc l.
Proof. induction 1 as [|m ins Hm _ IH]; [done|]. destruct m; try done. simpl. by rewrite IH. Qed.

Lemma attr_invert_empty (base : Attributes) : attr_invert ∅ base = ∅.
Proof.
  apply map_eq. intros k. rewrite lookup_attr_invert, lookup_empty. by destruct (base !! k).
Qed.

(** ** Building the inverse *)

(** [out] grows by the edits [l], stays canonical, and ends its ops only where [P] allows. *)
Definition grows (P : N → Prop) (out out' : list Op) (l : list mop) : Prop :=
  meq (den out') (den out ++ l) ∧ canonical out' ∧ (total out' = total out + N.of_nat (length l))%N ∧
  Forall P (bounds 0 out') ∧ blen out' = (blen out + N.of_nat (nbase l))%N.

Lemma grows_refl P out : canonical out → Forall P (bounds 0 out) → grows P out out [].
Proof. intros. unfold grows. rewrite app_nil_r. split_and!; try done; simpl; lia. Qed.

Lemma grows_trans P out1 out2 out3 l1 l2 :
  grows P out1 out2 l1 → grows P out2 out3 l2 → grows P out1 out3 (l1 ++ l2).
Proof.
  intros (M1 & C1 & T1 & P1 & B1) (M2 & C2 & T2 & P2 & B2). unfold grows.
  rewrite length_app, nbase_app. split_and!; try done; [by rewrite M2, M1, app_assoc|lia|lia].
Qed.

Lemma grows_push (P : N → Prop) out o :
  canonical out → Forall P (bounds 0 out) → (total out + op_len o ≤ usize_max)%N →
  (kind o = KDelete → op_attributes o = ∅) →
  (op_len o ≠ 0%N → kind o ≠ KInsert → P (blen out + op_len o)%N) →
  grows P out (push out o) (den_op o).
Proof.
  intros Hc HP Ht Ha Ho. destruct (push_den out o Ht) as [Hm Htot].
  destruct (push_bounds P out o) as [Hb Hl]; [done..|].
  unfold grows. rewrite length_den_op. split_and!; [done|by apply push_canonical|lia|done|].
  rewrite Hl. f_equal. rewrite <- (den_single o), <- blen_nbase. lia.
Qed.

(** Pushing a list of insertions. *)
Lemma grows_document (P : N → Prop) out ps :
  document_ops ps → canonical out → Forall P (bounds 0 out) → (total out + total ps ≤ usize_max)%N →
  grows P out (foldl push out ps) (den ps).
Proof.
  intros Hd. revert out. induction Hd as [|p ps Hk _ IH]; intros out Hc HP Ht.
  - by apply grows_refl.
  - rewrite total_cons in Ht. rewrite den_cons. simpl.
    assert (grows P out (push out p) (den_op p)) as Hg.
    { apply grows_push; try done; [lia|congruence]. }
    pose proof Hg as (_ & Hc' & Ht' & HP' & _). rewrite length_den_op in Ht'.
    eapply grows_trans; [done|]. apply IH; try done. lia.
Qed.

Definition inverse_piece (b : Attributes) (op : Op) : Op :=
  with_attributes (op_retain (op_len op)) (attr_invert b (op_attributes op)).

Lemma inverse_piece_den b op :
  kind op = KInsert →
  den_op (inverse_piece b op) = (λ c : cell, MRet (attr_invert b c.2)) <$> cells_of (den_op op).
Proof.
  unfold inverse_piece, kind, den_op, op_len. destruct op as [[[s|v]|n|n] a]; try done. intros _. simpl.
  rewrite <- length_text_syms. by induction (text_syms s) as [|x l IH]; [|cbn; f_equal].
Qed.

(** Retains that restore the formatting of each piece. *)
Lemma grows_retains (P : N → Prop) out ps b :
  document_ops ps → canonical out → Forall P (bounds 0 out) → (total out + total ps ≤ usize_max)%N →
  (∀ ps1 p ps2, ps = ps1 ++ p :: ps2 → P (blen out + total (ps1 ++ [p]))%N) →
  grows P out (foldl (λ inv p, push inv (inverse_piece b p)) out ps)
    ((λ c : cell, MRet (attr_invert b c.2)) <$> cells_of (den ps)).
Proof.
  intros Hd. revert out. induction Hd as [|p ps Hk _ IH]; intros out Hc HP Ht Hpos.
  - by apply grows_refl.
  - rewrite total_cons in Ht. rewrite den_cons, cells_app, fmap_app. simpl.
    rewrite <- inverse_piece_den by done.
    assert (grows P out (push out (inverse_piece b p)) (den_op (inverse_piece b p))) as Hg.
    { apply grows_push; try done; [change (op_len (inverse_piece b p)) with (op_len p); lia|].
      intros _ _. specialize (Hpos [] p ps eq_refl). simpl in Hpos.
      by rewrite N.add_0_r in Hpos. }
    pose proof Hg as (_ & Hc' & Ht' & HP' & Hb). rewrite length_den_op in Ht'.
    change (op_len (inverse_piece b p)) with (op_len p) in Ht'.
    eapply grows_trans; [done|]. apply IH; try done; [lia|].
    intros ps1 q ps2 ->. specialize (Hpos (p :: ps1) q ps2 eq_refl).
    refine (eq_ind _ P Hpos _ _). rewrite Hb, <- (den_single (inverse_piece b p)), <- blen_nbase. simpl.
    change (op_len (inverse_piece b p)) with (op_len p). lia.
Qed.

(** ** The loop of [invert] *)

Section undo.
Context (base : list Op) (t : list (option sym)).
Context (Hbase : document_ops base) (Hne : nonempty base) (Hsmall : (total base < usize_max)%N).
#[local] Set Default Proof Using "Type*".

Let left (idx : N) : list mop := drop (N.to_nat idx) (den base).
Let P (k : N) : Prop := not_low (drop (N.to_nat k) t).

(** At [k] units into the changed document [t] and [idx] into [base], [c] is left to undo. *)
Definition undo_at (k idx : N) (c : list Op) : Prop :=
  drop (N.to_nat k) t = tsyms (mcompose (left idx) (den c)) ∧
  fits (tsyms (left idx)) c ∧ not_low (tsyms (left idx)) ∧ (idx + blen c ≤ total base)%N.

Lemma left_all_ins idx : all_ins (left idx).
Proof. apply all_ins_drop. by apply document_all_ins. Qed.

Lemma left_add idx n : left (idx + n) = drop (N.to_nat n) (left idx).
Proof. unfold left. rewrite drop_drop. f_equal. lia. Qed.

Lemma left_low idx : not_low (tsyms (left idx)) → not_low (drop (N.to_nat idx) (tsyms (den base))).
Proof. unfold left. by rewrite tsyms_drop by by apply document_all_ins. Qed.

Lemma length_left idx : length (left idx) = (N.to_nat (total base) - N.to_nat idx)%nat.
Proof. unfold left. by rewrite length_drop, length_den. Qed.

Lemma undo_pos k idx c : undo_at k idx c → P k.
Proof. intros (E & Hf & Hl & _). unfold P. rewrite E. apply not_low_applied; [apply left_all_ins|done..]. Qed.

Lemma undo_insert k idx op c :
  kind op = KInsert → undo_at k idx (op :: c) → undo_at (k + op_len op) idx c.
Proof.
  intros Hk (E & Hf & Hl & Hb). apply fits_insert in Hf; [|done]. simpl in Hb. rewrite decide_True in Hb by done.
  split_and!; try done. rewrite N2Nat.inj_add, <- drop_drop, E, den_cons, mcompose_ins, tsyms_app by by apply den_insert.
  apply drop_app_length'. rewrite tsyms_len by congruence. done.
Qed.

Lemma undo_rest k idx op c n :
  kind op ≠ KInsert → (n ≤ op_len op)%N → not_low (tsyms (left (idx + n))) →
  undo_at k idx (op :: c) →
  undo_at (k + if decide (kind op = KDelete) then 0 else n)%N (idx + n)%N (rest_list n op c).
Proof.
  intros Hk Hn Hl' (E & Hf & Hl & Hb). destruct (decide (n = 0%N)) as [->|Hz].
  { rewrite N.add_0_r. replace (k + _)%N with k by (case_decide; lia).
    unfold rest_list. destruct (op_len op <=? 0)%N eqn:E0; bool_to_prop.
    - assert (op_len op = 0%N) as Ez by lia. apply fits_cons in Hf as [_ Hf]; [|done]. rewrite Ez in Hf.
      simpl in Hb. rewrite den_cons, den_op_empty in E by done.
      split_and!; try done. case_decide; lia.
    - replace (rest_op 0 op) with op; [done|]. unfold rest_op, kind in *. destruct op as [[|m|m] a]; try done;
        simpl; by rewrite N.sub_0_r. }
  assert (clean_cut n op) as Hc. { unfold clean_cut, kind in *. by destruct (op_kind op) as [[]| |]. }
  destruct (den_rest n op c) as [Ed En]; [lia|done|lia|].
  split_and!; try done.
  - rewrite Ed in E. rewrite left_add. pose proof (left_all_ins idx). case_decide as Hd.
    + rewrite N.add_0_r, E, delete_den, En, mcompose_del_block by (done || by rewrite head_op_kind). done.
    + rewrite N2Nat.inj_add, <- drop_drop, E, retain_den, En.
      * by apply mcompose_ret_block.
      * rewrite head_op_kind. by destruct (kind op).
  - rewrite left_add, <- tsyms_drop by apply left_all_ins. apply fits_rest; [done|lia|done|lia].
  - assert (blen (op :: c) = n + blen (rest_list n op c))%N; [|lia].
    apply N2Nat.inj. rewrite N2Nat.inj_add, !blen_nbase, Ed, nbase_app. f_equal.
    rewrite nbase_all by (apply den_not_ins; by rewrite head_op_kind). rewrite length_den_op. lia.
Qed.

(** A retain or delete, undone. *)
Lemma undo_step k idx op c :
  kind op ≠ KInsert → undo_at k idx (op :: c) →
  undo_at (k + if decide (kind op = KDelete) then 0 else op_len op)%N (idx + op_len op)%N c ∧
  (idx + op_len op ≤ total base)%N ∧ not_low (tsyms (left (idx + op_len op))).
Proof.
  intros Hk Hu. pose proof Hu as (E & Hf & Hl & Hb).
  apply fits_cons in Hf as [Hf1 _]; [|done]. rewrite tsyms_drop, <- left_add in Hf1 by apply left_all_ins.
  pose proof (undo_rest k idx op c (op_len op) Hk ltac:(lia) Hf1 Hu) as H.
  unfold rest_list in H. rewrite N.leb_refl in H. simpl in Hb. rewrite decide_False in Hb by done.
  split_and!; [done|lia|done].
Qed.

Lemma undo_slice idx n :
  (idx + n ≤ total base)%N → not_low (tsyms (left idx)) → not_low (tsyms (left (idx + n))) →
  document_ops (slice base idx (idx + n)) ∧ total (slice base idx (idx + n)) = n ∧
  den (slice base idx (idx + n)) = take (N.to_nat n) (left idx).
Proof.
  intros Hle H1%left_low H2%left_low.
  destruct (slice_den base idx (idx + n)) as (_ & Hd & _ & E); [done..|lia|done|done|].
  replace (idx + n - idx)%N with n in E by lia. split_and!; [done| |done].
  apply N2Nat.inj. rewrite <- length_den, E, length_take, length_drop, length_den. lia.
Qed.

Definition undo_part (idx : N) (op : Op) : list mop := minvert (cells_of (left idx)) (den_op op).

(** What one step of the loop establishes. *)
Definition undone (inv : list Op) (idx : N) (op : Op) (c : list Op) (res : list Op * N) : Prop :=
  undo_at (blen res.1) res.2 c ∧ grows P inv res.1 (undo_part idx op) ∧
  length (undo_part idx op) = N.to_nat (op_len op) ∧
  minvert (cells_of (left idx)) (den (op :: c)) = undo_part idx op ++ minvert (cells_of (left res.2)) (den c).

Definition undo_ready (inv : list Op) (idx : N) (op : Op) (c : list Op) : Prop :=
  undo_at (blen inv) idx (op :: c) ∧ canonical inv ∧ Forall P (bounds 0 inv) ∧
  (total inv + op_len op ≤ usize_max)%N ∧ op_len op ≠ 0%N.

Lemma grows_blen out out' l k : grows P out out' l → nbase l = N.to_nat k → blen out' = (blen out + k)%N.
Proof. intros (_ & _ & _ & _ & ->) E. rewrite E. lia. Qed.

Lemma invert_step_insert inv idx op c :
  undo_ready inv idx op c → kind op = KInsert → undone inv idx op c (invert_step base (inv, idx) op).
Proof.
  intros (Hu & Hc & HP & Ht & Hz) Ek. unfold undone, undo_part. rewrite den_cons.
  pose proof (undo_insert _ _ _ _ Ek Hu) as Hu'. pose proof (den_insert op Ek) as Hins.
  replace (invert_step base (inv, idx) op) with (push inv (op_delete (op_len op)), idx)
    by (unfold invert_step, kind in *; by destruct (op_kind op)). simpl.
  assert (minvert (cells_of (left idx)) (den_op op) = den_op (op_delete (op_len op))) as ->.
  { pose proof (minvert_ins_block (cells_of (left idx)) [] (den_op op) Hins) as Em.
    rewrite !app_nil_r in Em. rewrite Em, length_den_op. done. }
  assert (grows P inv (push inv (op_delete (op_len op))) (den_op (op_delete (op_len op)))) as Hg.
  { apply grows_push; try done. intros _ _. by apply undo_pos in Hu'. }
  rewrite (grows_blen _ _ _ (op_len op) Hg).
  2:{ rewrite nbase_all, length_den_op by by apply den_not_ins. done. }
  split_and!; [done|done|by rewrite length_den_op|].
  rewrite minvert_ins_block by done. f_equal. by rewrite length_den_op.
Qed.

Lemma minvert_nil (doc : list cell) : minvert doc [] = [].
Proof. by destruct doc. Qed.

Lemma invert_step_delete inv idx op c :
  undo_ready inv idx op c → kind op = KDelete → undone inv idx op c (invert_step base (inv, idx) op).
Proof.
  intros (Hu & Hc & HP & Ht & Hz) Ek. unfold undone, undo_part. rewrite den_cons.
  pose proof (left_all_ins idx) as Hai. pose proof Hu as (_ & _ & Hl & _).
  destruct (undo_step (blen inv) idx op c ltac:(congruence) Hu) as (Hu' & Hle & Hl'). rewrite decide_True, N.add_0_r in Hu' by done.
  destruct (undo_slice idx (op_len op)) as (Hd & Hts & Eps); [done..|].
  assert (N.to_nat (op_len op) ≤ length (left idx))%nat as Hlen by (rewrite length_left; lia).
  replace (invert_step base (inv, idx) op) with
    (foldl push inv (slice base idx (idx + op_len op)), (idx + op_len op)%N).
  2:{ unfold invert_step, kind, op_len in *. destruct (op_kind op); try done. simpl in *.
      by rewrite wadd_small by lia. }
  cbn [fst snd]. rewrite delete_den by done.
  assert (minvert (cells_of (left idx)) (replicate (N.to_nat (op_len op)) MDel) =
    den (slice base idx (idx + op_len op))) as ->.
  { rewrite Eps, <- (app_nil_r (replicate _ _)), minvert_del_block, minvert_nil by done. by rewrite app_nil_r. }
  assert (grows P inv (foldl push inv (slice base idx (idx + op_len op))) (den (slice base idx (idx + op_len op)))) as Hg.
  { apply grows_document; try done. by rewrite Hts. }
  rewrite (grows_blen _ _ _ 0 Hg), N.add_0_r.
  2:{ rewrite Eps. apply nbase_none. by apply Forall_take. }
  split_and!; [done|done|by rewrite length_den, Hts|].
  by rewrite minvert_del_block, Eps, left_add.
Qed.

Lemma attr_retain_fold b inv ps :
  foldl (λ inverted base_op, push inverted (with_attributes (op_retain (op_len base_op))
    (attr_invert b (op_attributes base_op)))) inv ps =
  foldl (λ inv p, push inv (inverse_piece b p)) inv ps.
Proof. reflexivity. Qed.

Lemma cells_retain_plain (l : list mop) :
  all_ins l → (λ c : cell, MRet (attr_invert ∅ c.2)) <$> cells_of l = plain (length l).
Proof.
  induction 1 as [|m l Hm _ IH]; [done|]. destruct m; try done. rewrite cells_ins. cbn.
  rewrite attr_invert_empty. f_equal. exact IH.
Qed.

Lemma invert_step_retain inv idx op c :
  undo_ready inv idx op c → kind op = KRetain → undone inv idx op c (invert_step base (inv, idx) op).
Proof.
  intros (Hu & Hc & HP & Ht & Hz) Ek. unfold undone, undo_part. rewrite den_cons.
  pose proof (left_all_ins idx) as Hai. pose proof Hu as (_ & _ & Hl & _).
  destruct (undo_step (blen inv) idx op c ltac:(congruence) Hu) as (Hu' & Hle & Hl'). rewrite decide_False in Hu' by congruence.
  destruct (undo_slice idx (op_len op)) as (Hd & Hts & Eps); [done..|].
  assert (N.to_nat (op_len op) ≤ length (left idx))%nat as Hlen by (rewrite length_left; lia).
  set (b := op_attributes op) in *. rewrite retain_den by done. fold b.
  set (X := (λ x : cell, MRet (attr_invert b x.2)) <$> cells_of (take (N.to_nat (op_len op)) (left idx))).
  assert (all_ins (take (N.to_nat (op_len op)) (left idx))) as Hat by by apply Forall_take.
  assert (minvert (cells_of (left idx)) (replicate (N.to_nat (op_len op)) (MRet b)) = X) as ->.
  { rewrite <- (app_nil_r (replicate _ _)), minvert_ret_block, minvert_nil by done. by rewrite app_nil_r. }
  assert (length X = N.to_nat (op_len op)) as HX.
  { unfold X. rewrite length_fmap, length_cells, length_take by done. lia. }
  assert (nbase X = N.to_nat (op_len op)) as HbX.
  { rewrite nbase_all; [done|]. apply Forall_fmap, Forall_true. done. }
  assert (∃ inv', invert_step base (inv, idx) op = (inv', (idx + op_len op)%N) ∧ grows P inv inv' X) as (inv' & -> & Hg).
  { unfold invert_step, kind, op_len in *. destruct (op_kind op) as [|n|] eqn:Eo; try done. simpl in *.
    rewrite wadd_small by lia. destruct (decide (op_attributes op = ∅)) as [Eb|Eb].
    - eexists; split; [done|]. replace X with (den_op (op_retain n)).
      { apply grows_push; try done. intros _ _. by eapply undo_pos. }
      unfold X, b. rewrite Eb, cells_retain_plain, length_take by done. unfold den_op. simpl. unfold plain. f_equal. lia.
    - eexists; split; [done|]. rewrite attr_retain_fold. unfold X. rewrite <- Eps.
      apply grows_retains; try done; [by rewrite Hts|]. intros ps1 p ps2 Ep.
      set (j := total (ps1 ++ [p])).
      assert (j + total ps2 = n)%N as Hj.
      { rewrite <- Hts, Ep. unfold j. rewrite !total_app. simpl. lia. }
      assert (not_low (tsyms (left (idx + j)))) as Hlj.
      { rewrite left_add. rewrite <- (take_drop (N.to_nat n) (left idx)), <- Eps, Ep.
        replace (ps1 ++ p :: ps2) with ((ps1 ++ [p]) ++ ps2) by by rewrite <- app_assoc.
        rewrite den_app, <- app_assoc, drop_app_length', tsyms_app by by rewrite length_den.
        destruct (tsyms (den ps2)) as [|y ts] eqn:Ey; [by rewrite <- left_add|].
        pose proof (tsyms_not_low ps2) as Hlow. rewrite Ey in Hlow. done. }
      pose proof (undo_rest (blen inv) idx op c j ltac:(unfold kind; by rewrite Eo)
        ltac:(unfold op_len; rewrite Eo; lia) Hlj Hu) as Hur.
      rewrite decide_False in Hur by (unfold kind; by rewrite Eo). by eapply undo_pos. }
  cbn [fst snd]. rewrite (grows_blen _ _ _ (op_len op) Hg) by done.
  split_and!; [done..|]. by rewrite minvert_ret_block, left_add.
Qed.

Lemma invert_step_undone inv idx op c :
  undo_ready inv idx op c → undone inv idx op c (invert_step base (inv, idx) op).
Proof.
  intros H. destruct (kind op) eqn:Ek;
    [by apply invert_step_insert|by apply invert_step_retain|by apply invert_step_delete].
Qed.

(** The whole loop. *)
Lemma invert_fold c inv idx :
  undo_at (blen inv) idx c → canonical inv → Forall P (bounds 0 inv) → nonempty c →
  (total inv + total c ≤ usize_max)%N →
  grows P inv (foldl (invert_step base) (inv, idx) c).1 (minvert (cells_of (left idx)) (den c)).
Proof.
  revert inv idx. induction c as [|op c IH]; intros inv idx Hu Hc HP Hn Ht; [by apply grows_refl|].
  apply list.Forall_cons in Hn as [Hz Hn]. rewrite total_cons in Ht.
  destruct (invert_step_undone inv idx op c) as (Hu' & Hg & Hlen & ->); [split_and!; try done; lia|].
  cbn [foldl]. destruct (invert_step base (inv, idx) op) as [inv' idx']. simpl in *.
  pose proof Hg as (_ & Hc' & Ht' & HP' & _). eapply grows_trans; [done|]. apply IH; try done. lia.
Qed.

End undo.

(** [invert] denotes the inverse, and is itself a valid change of what it undoes. *)
Lemma invert_den c base :
  document_ops base → nonempty base → nonempty c → valid c base → (total base + total c < usize_max)%N →
  chopped (invert c base) ∧ (total (invert c base) ≤ total c)%N ∧ valid (invert c base) (compose base c) ∧
  ∃ k, meq (den (invert c base) ++ plain k) (minvert (doc_cells base) (den c)).
Proof.
  intros Hb Hnb Hnc [Hf Hl] Ht.
  destruct (compose_apply base c) as (E & _); [done..|].
  pose proof (document_all_ins base Hb) as Hai.
  destruct (invert_fold base (tsyms (den (compose base c))) Hb Hnb ltac:(lia) c [] 0)
    as (Hm & Hc & Htot & HP & Hbl); [|apply canonical_nil|constructor|done|rewrite total_nil; lia|].
  { split_and!; try done; [by rewrite E|apply tsyms_not_low]. }
  unfold invert. set (r := (foldl _ _ _).1) in *. simpl in *.
  change (drop (N.to_nat 0) (den base)) with (den base) in *.
  destruct (chop_spec r Hc) as (Hch & [k Hk] & Htc & [tl Htl]).
  assert (nbase (den c) ≤ length (doc_cells base))%nat as Hlb.
  { unfold doc_cells. rewrite length_cells, length_den by done. rewrite <- blen_nbase. lia. }
  pose proof (nbase_minvert _ _ Hlb) as Hnm. pose proof (length_minvert _ _ Hlb) as Hlm.
  rewrite length_den in Hlm. unfold doc_cells in *.
  split_and!; [done|lia| |].
  - split; [by rewrite Htl, bounds_app in HP; apply Forall_app in HP as [HP _]|].
    assert (blen (chop r) ≤ blen r)%N by (rewrite Htl at 2; rewrite blen_app; lia).
    assert (length (den (compose base c)) = length (tsyms (den c)) + (length (den base) - nbase (den c))) as El.
    { rewrite E. apply length_mcompose; [done|]. by rewrite <- (length_cells (den base)). }
    rewrite !length_den in El. lia.
  - exists k. rewrite <- Hk, Hm. done.
Qed.

(** Undo is exact. *)
Lemma invert_undoes c base :
  document_ops base → canonical base → cells_clean (doc_cells base) → nonempty c → valid c base →
  (total base + 2 * total c < usize_max)%N →
  compose (compose base c) (invert c base) = base.
Proof.
  intros Hb Hcb Hcl Hnc Hv Ht.
  assert (nonempty base) as Hnb.
  { destruct Hcb as [H _]. eapply Forall_impl; [|exact H]. by intros x []. }
  destruct (compose_apply base c) as (E & Hd & Hch & Hcells); [done..|lia|].
  destruct (compose_den base c) as (_ & Hlen & _); [done|done|apply Hv|lia|].
  destruct (invert_den c base) as (Hci & Hti & Hvi & [k Hk]); [done..|lia|].
  destruct (compose_apply (compose base c) (invert c base)) as (_ & Hd2 & [Hc2 _] & Hcells2);
    [done|by apply chopped_nonempty|by apply chopped_nonempty|done|lia|].
  apply canonical_unique; [done..|].
  rewrite (cells_all_ins (den base)) by by apply document_all_ins.
  rewrite (cells_all_ins (den (compose _ _))) by by apply document_all_ins.
  fold (doc_cells (compose (compose base c) (invert c base))) (doc_cells base).
  rewrite Hcells2, Hcells, <- (apply_spec_plain _ _ k), (apply_spec_meq _ _ _ Hk), minvert_undoes; [done|done|].
  unfold doc_cells. rewrite length_cells, length_den by by apply document_all_ins.
  destruct Hv as [_ Hl]. rewrite <- blen_nbase. lia.
Qed.

End invert.
