(* ===== verification/DeltaDiff.v ===== *)
(** * Deltas: [diff_text] and [transform_position]

    The minimal edit between two texts turns one into the other; a caret moved over a change is moved
    past exactly the units the change puts before it. *)

From S2P Require Import Prelude Json Attributes Text Delta DeltaSpec DeltaAlg DeltaPush DeltaCanon.
From S2P Require Import DeltaIter DeltaLoops DeltaTransform DeltaTheory DeltaApply DeltaValidate.
From S2P Require Import DeltaInvert.

Section diff.
Context `{J : Json}.

(** ** Common prefix and suffix *)

Lemma common_prefix_spec (a b : str) :
  ∃ pre a' b', a = pre ++ a' ∧ b = pre ++ b' ∧ common_prefix a b = utf16_len pre.
Proof.
  revert b. induction a as [|x a IH]; intros b; [by exists [], [], b|].
  destruct b as [|y b]; [by exists [], (x :: a), []|]. simpl.
  case_decide; [subst|by exists [], (x :: a), (y :: b)].
  destruct (IH b) as (pre & a' & b' & -> & -> & ->). by exists (y :: pre), a', b'.
Qed.

Lemma suffix_loop_spec (a b : str) k m :
  ∃ suf a' b', a = suf ++ a' ∧ b = suf ++ b' ∧ suffix_loop a b k m = (k + utf16_len suf)%N ∧
    ((k ≤ m)%N → (k + utf16_len suf ≤ m)%N).
Proof.
  revert b k. induction a as [|x a IH]; intros b k; simpl.
  { exists [], [], b. autorewrite with gal. split_and!; try done; [case_match; lia|lia]. }
  assert (∃ suf a' b', x :: a = suf ++ a' ∧ b = suf ++ b' ∧ k = (k + utf16_len suf)%N ∧
    ((k ≤ m)%N → (k + utf16_len suf ≤ m)%N)) as Hstop.
  { exists [], (x :: a), b. autorewrite with gal. split_and!; try done; lia. }
  destruct (m <=? k)%N; [done|]. destruct b as [|y b]; [done|]. case_decide; [subst|done].
  destruct (m <? k + len_utf16 y)%N eqn:E; bool_to_prop; [done|].
  destruct (IH b (k + len_utf16 y)%N) as (suf & a' & b' & -> & -> & -> & Hle).
  exists (y :: suf), a', b'. autorewrite with gal. split_and!; try done; lia.
Qed.

Lemma utf16_len_reverse s : utf16_len (reverse s) = utf16_len s.
Proof.
  induction s as [|c s IH]; [done|]. rewrite reverse_cons, utf16_len_app, IH. autorewrite with gal. lia.
Qed.

(** A shorter prefix of a text is a prefix of a longer one. *)
Lemma prefix_of_longer (p1 r1 p2 r2 : str) :
  p1 ++ r1 = p2 ++ r2 → (utf16_len p1 ≤ utf16_len p2)%N → ∃ m, p2 = p1 ++ m.
Proof.
  revert p2. induction p1 as [|c p1 IH]; intros p2 E Hl; [by exists p2|].
  destruct p2 as [|c' p2].
  - autorewrite with gal in Hl. pose proof (len_utf16_range c). lia.
  - simpl in E. injection E as -> E. autorewrite with gal in Hl.
    destruct (IH p2 E) as [m ->]; [lia|]. by exists m.
Qed.

(** The three parts [diff_text] finds. *)
Definition diff_prefix (a b : str) : N := common_prefix a b.
Definition diff_suffix (a b : str) : N :=
  suffix_loop (reverse a) (reverse b) 0 (N.min (utf16_len a) (utf16_len b) - common_prefix a b).

Lemma diff_split (a b : str) :
  ∃ pre ma mb suf, a = pre ++ ma ++ suf ∧ b = pre ++ mb ++ suf ∧
    diff_prefix a b = utf16_len pre ∧ diff_suffix a b = utf16_len suf.
Proof.
  unfold diff_prefix, diff_suffix.
  destruct (common_prefix_spec a b) as (pre & a' & b' & Ea & Eb & Ep).
  destruct (suffix_loop_spec (reverse a) (reverse b) 0
    (N.min (utf16_len a) (utf16_len b) - common_prefix a b)) as (suf & xa & xb & Ra & Rb & Es & Hle).
  rewrite Ep in *. specialize (Hle ltac:(lia)). rewrite Es, N.add_0_l in *.
  apply (f_equal reverse) in Ra, Rb. rewrite reverse_involutive, reverse_app in Ra, Rb.
  assert (∀ s s' x, s = pre ++ s' → s = reverse x ++ reverse suf →
    (utf16_len suf ≤ utf16_len s - utf16_len pre)%N → ∃ m, s = pre ++ m ++ reverse suf) as H.
  { intros s s' x E1 E2 Hs. destruct (prefix_of_longer pre s' (reverse x) (reverse suf)) as [m Em].
    - by rewrite <- E1.
    - assert (utf16_len s = utf16_len (reverse x) + utf16_len suf)%N as El.
      { rewrite E2, utf16_len_app, (utf16_len_reverse suf). done. }
      assert (utf16_len s = utf16_len pre + utf16_len s')%N by (by rewrite E1, utf16_len_app).
      lia.
    - exists m. by rewrite app_assoc, <- Em. }
  destruct (H a a' xa Ea Ra) as [ma Ema]; [lia|]. destruct (H b b' xb Eb Rb) as [mb Emb]; [lia|].
  exists pre, ma, mb, (reverse suf). rewrite utf16_len_reverse. done.
Qed.

Lemma diff_text_eq (a b : str) :
  a ≠ b → diff_text a b =
  chop (push (push (push [] (op_retain (diff_prefix a b)))
    (op_delete (utf16_len a - diff_prefix a b - diff_suffix a b)))
    (op_insert (default [] (utf16_slice b (diff_prefix a b) (utf16_len b - diff_suffix a b))))).
Proof. intros. unfold diff_text. by rewrite decide_False. Qed.

Lemma text_not_low s : not_low (Some <$> text_syms s).
Proof.
  destruct s as [|c s]; [done|]. change (text_syms (c :: s)) with (char_syms c ++ text_syms s).
  unfold char_syms. by case_match.
Qed.

Lemma text_drop_not_low s1 s2 : not_low (drop (N.to_nat (utf16_len s1)) (Some <$> text_syms (s1 ++ s2))).
Proof.
  rewrite text_syms_app, fmap_app, drop_app_length'; [apply text_not_low|].
  by rewrite length_fmap, length_text_syms.
Qed.

Definition text_mops (s : str) : list mop := (λ x, MIns x ∅) <$> text_syms s.

Lemma document_den s : den (document s) = text_mops s.
Proof.
  unfold document. destruct (decide (utf16_len s = 0)%N) as [E|E].
  - rewrite push_empty by done. apply utf16_len_0 in E as ->. done.
  - by rewrite push_nil, den_single by done.
Qed.

Lemma document_chopped s : chopped (document s) ∧ document_ops (document s) ∧ total (document s) = utf16_len s.
Proof.
  unfold document. destruct (decide (utf16_len s = 0)%N) as [E|E].
  - rewrite push_empty by done. split_and!; [split; [done|by intros []]|constructor|by rewrite E].
  - rewrite push_nil by done. split_and!.
    + split; [by apply canonical_single|]. intros d' op Ed. apply (app_inj_2 [] d' [_] [op]) in Ed as [_ [= <-]]; done.
    + by constructor.
    + rewrite total_cons, total_nil. unfold op_len. simpl. lia.
Qed.

(** The middle of a text between two character positions. *)
Lemma utf16_slice_middle s1 s2 s3 :
  utf16_slice (s1 ++ s2 ++ s3) (utf16_len s1) (utf16_len s1 + utf16_len s2) = Some s2.
Proof.
  rewrite utf16_slice_spec. unfold drop_units. rewrite split_units_exact. simpl.
  replace (utf16_len s1 + utf16_len s2 - utf16_len s1)%N with (utf16_len s2) by lia.
  unfold take_units. by rewrite split_units_exact.
Qed.

(** The edit [diff_text] builds: keep the prefix, drop the old middle, insert the new one. *)
Lemma diff_text_den (pre ma mb suf : str) :
  (utf16_len pre + utf16_len ma + utf16_len mb ≤ usize_max)%N →
  let d := chop (push (push (push [] (op_retain (utf16_len pre))) (op_delete (utf16_len ma))) (op_insert mb)) in
  chopped d ∧ valid d (document (pre ++ ma ++ suf)) ∧
  (total d ≤ utf16_len pre + utf16_len ma + utf16_len mb)%N ∧
  ∃ k, meq (den d ++ plain k)
    (plain (N.to_nat (utf16_len pre)) ++ replicate (N.to_nat (utf16_len ma)) MDel ++ text_mops mb).
Proof.
  intros Ht. set (doc := document (pre ++ ma ++ suf)).
  set (P k := not_low (drop (N.to_nat k) (tsyms (den doc)))).
  assert (tsyms (den doc) = Some <$> text_syms (pre ++ ma ++ suf)) as Et.
  { unfold doc. rewrite document_den. apply tsyms_text. }
  assert (P (utf16_len pre)) as P1 by (unfold P; rewrite Et; apply text_drop_not_low).
  assert (P (utf16_len pre + utf16_len ma)%N) as P2.
  { unfold P. rewrite Et, app_assoc, <- utf16_len_app. apply text_drop_not_low. }
  assert (op_len (op_insert mb) = utf16_len mb) as Emb by done.
  assert (grows P [] (push [] (op_retain (utf16_len pre))) (plain (N.to_nat (utf16_len pre)))) as G1.
  { apply (grows_push P [] (op_retain (utf16_len pre))); try done. simpl. unfold op_len. simpl. lia. }
  pose proof G1 as (_ & C1 & T1 & F1 & B1). unfold plain in T1, B1. rewrite length_replicate, total_nil in T1.
  rewrite nbase_all, length_replicate in B1 by by apply Forall_replicate. simpl in B1.
  set (d1 := push [] _) in *.
  assert (grows P d1 (push d1 (op_delete (utf16_len ma))) (replicate (N.to_nat (utf16_len ma)) MDel)) as G2.
  { apply (grows_push P d1 (op_delete (utf16_len ma))); try done; unfold op_len; simpl; [lia|].
    intros _ _. rewrite B1. refine (eq_ind _ P P2 _ _). lia. }
  pose proof G2 as (_ & C2 & T2 & F2 & B2). rewrite length_replicate in T2.
  set (d2 := push d1 _) in *.
  assert (grows P d2 (push d2 (op_insert mb)) (text_mops mb)) as G3.
  { apply (grows_push P d2 (op_insert mb)); try done. rewrite Emb. lia. }
  pose proof (grows_trans _ _ _ _ _ _ G1 (grows_trans _ _ _ _ _ _ G2 G3)) as (Hm & Hc & Htot & HP & Hbl).
  simpl in Hm. destruct (chop_spec _ Hc) as (Hch & [k Hk] & Htc & [tl Htl]).
  cbn zeta. rewrite !length_app, length_replicate, total_nil in Htot. unfold plain, text_mops in Htot.
  rewrite length_replicate, length_fmap, length_text_syms in Htot.
  set (d3 := push d2 _) in *. split_and!; [done| |lia|exists k; by rewrite <- Hk, Hm].
  split; [rewrite Htl, bounds_app in HP; by apply Forall_app in HP as [HP _]|].
  destruct (document_chopped (pre ++ ma ++ suf)) as (_ & _ & Hdt).
  fold doc in Hdt. rewrite Hdt, !utf16_len_app.
  assert (blen (chop d3) ≤ blen d3)%N by (rewrite Htl at 2; rewrite blen_app; lia).
  rewrite !nbase_app, (nbase_none (text_mops mb)), !nbase_all in Hbl
    by (try apply Forall_replicate; try done; apply Forall_fmap, Forall_true; done).
  unfold plain in Hbl. rewrite !length_replicate in Hbl. simpl in Hbl. lia.
Qed.

(** Applying a prefix of plain retains, deletions and insertions to a text. *)
Lemma apply_replace (pre ma mb suf : str) :
  apply_spec (cells_of (text_mops (pre ++ ma ++ suf)))
    (plain (N.to_nat (utf16_len pre)) ++ replicate (N.to_nat (utf16_len ma)) MDel ++ text_mops mb)
  = cells_of (text_mops (pre ++ mb ++ suf)).
Proof.
  unfold text_mops. rewrite !text_syms_app, !fmap_app, !cells_app. rewrite <- !length_text_syms.
  induction (text_syms pre) as [|x l IH]; simpl.
  - induction (text_syms ma) as [|y la IHa]; simpl; [|exact IHa].
    induction (text_syms mb) as [|z lb IHb]; simpl; [by destruct (cells_of _)|]. cbn. f_equal. exact IHb.
  - cbn. rewrite attr_compose_empty_r. f_equal. exact IH.
Qed.

Lemma diff_text_applies (a b : str) :
  (2 * utf16_len a + utf16_len b < usize_max)%N → compose (document a) (diff_text a b) = document b.
Proof.
  intros Ht. destruct (document_chopped a) as (Hca & Hda & Hta), (document_chopped b) as (Hcb & Hdb & Htb).
  destruct (decide (a = b)) as [<-|Hne].
  - unfold diff_text. rewrite decide_True by done.
    destruct (compose_apply (document a) []) as (E & Hd & Hch & _);
      [done|by apply chopped_nonempty|by constructor|split; [by constructor|simpl; lia]|rewrite total_nil; lia|].
    change (den []) with (@nil mop) in E. rewrite mcompose_nil_r in E.
    apply canonical_unique; [apply Hch|apply Hca|by rewrite E].
  - rewrite diff_text_eq by done.
    destruct (diff_split a b) as (pre & ma & mb & suf & Ea & Eb & -> & ->).
    assert (utf16_len a - utf16_len pre - utf16_len suf = utf16_len ma)%N as ->.
    { rewrite Ea, !utf16_len_app. lia. }
    assert (utf16_len b - utf16_len suf = utf16_len pre + utf16_len mb)%N as ->.
    { rewrite Eb, !utf16_len_app. lia. }
    replace (default [] (utf16_slice b _ _)) with mb by by rewrite Eb, utf16_slice_middle.
    assert (utf16_len a = utf16_len pre + utf16_len ma + utf16_len suf)%N by (rewrite Ea, !utf16_len_app; lia).
    assert (utf16_len b = utf16_len pre + utf16_len mb + utf16_len suf)%N by (rewrite Eb, !utf16_len_app; lia).
    destruct (diff_text_den pre ma mb suf) as (Hc & Hv & Htd & [k Hk]); [lia|]. rewrite <- Ea in Hv.
    set (d := chop _) in *.
    destruct (compose_apply (document a) d) as (E & Hd & Hch & Hcells);
      [done|by apply chopped_nonempty|by apply chopped_nonempty|done|lia|].
    apply canonical_unique; [apply Hch|apply Hcb|].
    rewrite (cells_all_ins (den (document b))), (cells_all_ins (den (compose _ _))) by by apply document_all_ins.
    fold (doc_cells (compose (document a) d)). rewrite Hcells, <- (apply_spec_plain _ _ k), (apply_spec_meq _ _ _ Hk).
    unfold doc_cells. rewrite !document_den, Ea, Eb, apply_replace. done.
Qed.

(** ** Moving a caret *)

(** Units of the new document before a caret that stood [i] units into what is left. *)
Fixpoint mposition (priority : bool) (l : list mop) (i : nat) : nat :=
  match l, i with
  | [], i => i
  | MIns _ _ :: l, O => if priority then 0 else S (mposition priority l 0)
  | MIns _ _ :: l, S _ => S (mposition priority l i)
  | MRet _ :: _, O => 0
  | MRet _ :: l, S i => S (mposition priority l i)
  | MDel :: l, O => mposition priority l 0
  | MDel :: l, S i => mposition priority l i
  end.

Lemma mposition_ins p l ins i :
  all_ins ins → p = false ∨ (0 < i)%nat → mposition p (ins ++ l) i = (length ins + mposition p l i)%nat.
Proof.
  intros H Hi. induction H as [|m ins Hm _ IH]; [done|]. destruct m; try done. simpl.
  destruct i; [|by rewrite IH]. destruct Hi as [->|]; [by rewrite IH|lia].
Qed.

Lemma mposition_ret p l a n i :
  mposition p (replicate n (MRet a) ++ l) i =
  if (i <? n)%nat then i else (n + mposition p l (i - n))%nat.
Proof.
  revert i. induction n as [|n IH]; intros i; simpl; [by rewrite Nat.sub_0_r|].
  destruct i as [|i]; [done|]. rewrite IH. simpl. change (S i <? S n)%nat with (i <? n)%nat.
  by case_match.
Qed.

Lemma mposition_del p l n i : mposition p (replicate n MDel ++ l) i = mposition p l (i - n).
Proof.
  revert i. induction n as [|n IH]; intros i; simpl; [by rewrite Nat.sub_0_r|].
  destruct i as [|i]; [by rewrite IH|]. by rewrite IH.
Qed.

Lemma transform_position_loop_spec fuel it l index offset p :
  it_rel it l → nonempty l → (length l ≤ fuel)%nat → (offset ≤ index)%N →
  (index + total l < usize_max)%N →
  transform_position_loop fuel it index offset p =
    Some (offset + N.of_nat (mposition p (den l) (N.to_nat (index - offset))))%N.
Proof.
  revert it l index offset. induction fuel as [|fuel IH]; intros it l index offset Hr Hn Hf Ho Ht;
    destruct l as [|r l]; try (simpl in Hf; lia).
  1,2: simpl; rewrite (has_next_nil it) by done; simpl; f_equal; lia.
  apply list.Forall_cons in Hn as [Hz Hn]. rewrite total_cons in Ht. simpl.
  rewrite (has_next_rel it r l) by (done || lia). rewrite (proj2 (N.leb_le _ _)) by done. simpl.
  destruct (it_rel_cons _ _ _ Hr) as [-> ->].
  destruct (next_all it r l INFINITY) as (it' & -> & Hr'); [done..|unfold INFINITY; lia|]. simpl.
  simpl in Hf. rewrite den_cons. destruct (kind r) eqn:Ek.
  - pose proof (den_insert r Ek) as Hins. pose proof (length_den_op r) as Hlen.
    destruct (decide (offset < index ∨ p = false)%N) as [Hm|Hm].
    + replace ((offset <? index)%N || negb p) with true.
      2:{ symmetry. destruct Hm as [Hm|Hm]; [|by rewrite Hm, orb_true_r]. by rewrite (proj2 (N.ltb_lt _ _)). }
      rewrite !wadd_small, (IH it' l) by (done || lia). f_equal.
      replace (index + op_len r - (offset + op_len r))%N with (index - offset)%N by lia.
      rewrite mposition_ins, Hlen by (done || (destruct Hm; [right; lia|by left])). lia.
    + replace ((offset <? index)%N || negb p) with false.
      2:{ symmetry. apply orb_false_iff. split; [apply N.ltb_ge; lia|]. destruct p; [done|tauto]. }
      assert (p = true) as -> by (destruct p; tauto). assert (index = offset) as -> by lia.
      rewrite wadd_small by lia. rewrite N.sub_diag. simpl.
      assert (∀ it, transform_position_loop fuel it offset (offset + op_len r) true = Some offset) as Hstop.
      { intros it''. destruct fuel; simpl; rewrite (proj2 (N.leb_gt _ _)), andb_false_r by lia; done. }
      rewrite Hstop. f_equal. destruct (den_op r) as [|m ms]; [simpl in Hlen; lia|].
      inversion Hins; subst. destruct m; try done. simpl. lia.
  - rewrite wadd_small by lia. rewrite retain_den, mposition_ret by done.
    destruct (N.to_nat (index - offset) <? N.to_nat (op_len r))%nat eqn:E.
    + apply Nat.ltb_lt in E.
      assert (∀ it, transform_position_loop fuel it index (offset + op_len r) p = Some index) as Hstop.
      { intros it''. destruct fuel; simpl; rewrite (proj2 (N.leb_gt _ _)), andb_false_r by lia; done. }
      rewrite Hstop. f_equal. lia.
    + apply Nat.ltb_ge in E. rewrite (IH it' l) by (done || lia). f_equal.
      replace (N.to_nat (index - (offset + op_len r))) with (N.to_nat (index - offset) - N.to_nat (op_len r))%nat by lia.
      lia.
  - rewrite (IH it' l) by (done || lia). f_equal. rewrite delete_den, mposition_del by done.
    replace (N.to_nat (index - N.min (op_len r) (index - offset) - offset))
      with (N.to_nat (index - offset) - N.to_nat (op_len r))%nat by lia. done.
Qed.

Lemma transform_position_den (d : list Op) index p :
  nonempty d → (index + total d < usize_max)%N →
  transform_position_run d index p = Some (N.of_nat (mposition p (den d) (N.to_nat index))).
Proof.
  intros Hn Ht. unfold transform_position_run.
  rewrite (transform_position_loop_spec _ _ d); [|apply iter_new_rel|done|done|lia|done].
  by rewrite N.sub_0_r, N.add_0_l.
Qed.

End diff.
