(* ===== verification/OtGuarantees.v ===== *)
(** * What operational transformation guarantees ([crates/gal-ot])

    The headline properties of deltas: convergence, the meaning of composition, transformation,
    inversion, slicing, validation and diffing, and that none of the loops panics or runs on. *)

From S2P Require Import Prelude Json Attributes Text Delta DeltaSpec DeltaAlg DeltaPush DeltaCanon.
From S2P Require Import DeltaTotal DeltaIter DeltaLoops DeltaTransform DeltaTheory DeltaApply.
From S2P Require Import DeltaValidate DeltaSlice DeltaInvert DeltaDiff.

Section guarantees.
Context `{J : Json}.
Implicit Types d doc c a b base : list Op.

(** C12: two changes made at the same time converge.  Whatever the two deltas are (inserts, retains
    with attributes, deletes, on text with surrogate pairs), applying [a] and then [b] transformed over
    it is the very same delta as applying [b] and then [a] transformed over it, when one side is given
    priority.  The bound keeps every length inside [usize]. *)
Theorem transform_converges a b :
  nonempty a → nonempty b → (2 * (total a + total b) < usize_max)%N →
  compose a (transform a b true) = compose b (transform b a false).
Proof. apply converge. Qed.


(** Composing two changes is doing one and then the other: on every sequence of units long enough
    for the first, the composed delta has the effect of the two applied in turn. *)
Theorem compose_sequences a b (cells : list cell) :
  nonempty a → nonempty b → fits (tsyms (den a)) b → (total a + total b < usize_max)%N →
  (blen a ≤ N.of_nat (length cells))%N →
  apply_spec cells (den (compose a b)) = apply_spec (apply_spec cells (den a)) (den b).
Proof.
  intros Ha Hb Hf Ht Hl. destruct (compose_den a b) as (_ & _ & k & Hk); [done..|].
  rewrite <- (apply_spec_plain cells (den (compose a b)) k), (apply_spec_meq _ _ _ Hk).
  apply apply_spec_mcompose. rewrite <- blen_nbase. lia.
Qed.

(** C36: [validate] accepts exactly the changes that fit (no longer than the document, every retain and
    delete ending between two characters, never inside a surrogate pair), and otherwise reports the
    first offence in order: [PastEnd] with the length needed, or [SplitCharacter] with the offset. *)
Theorem validate_exact change doc :
  (validate change doc = Ok tt ↔
   Forall (λ k, (k ≤ utf16_len (to_plain_text doc))%N ∧ ¬ inside (to_plain_text doc) k) (bounds 0 change)) ∧
  validate change doc = first_bad (to_plain_text doc) (bounds 0 change).
Proof. by rewrite validate_first_bad, first_bad_ok. Qed.

(** Transformation keeps a change valid: two changes valid on one document, the second transformed
    over the first is accepted by [validate] on the document the first produces. *)
Theorem transform_keeps_valid doc a b p :
  document_ops doc → nonempty doc → nonempty a → nonempty b →
  validate a doc = Ok tt → validate b doc = Ok tt →
  (total doc + total a < usize_max)%N → (total a + total b < usize_max)%N →
  validate (transform a b p) (compose doc a) = Ok tt.
Proof.
  intros Hd Hn Ha Hb Va Vb Ht1 Ht2.
  apply validate_valid in Va; [|done]. apply validate_valid in Vb; [|done].
  destruct (compose_apply doc a) as (_ & Hd' & _); [done..|].
  apply validate_valid; [done|]. by apply transform_valid.
Qed.


(** [slice] cuts out exactly the units between two positions that do not split a character, and
    the loop neither panics nor runs on. *)
Theorem slice_cuts d start end_ :
  document_ops d → nonempty d → (total d < usize_max)%N → (start ≤ end_ ≤ total d)%N →
  not_low (drop (N.to_nat start) (tsyms (den d))) → not_low (drop (N.to_nat end_) (tsyms (den d))) →
  is_Some (slice_run d start end_) ∧ is_document (slice d start end_) = true ∧
  den (slice d start end_) = take (N.to_nat (end_ - start)) (drop (N.to_nat start) (den d)).
Proof. intros. destruct (slice_den d start end_) as (? & ? & _ & ?); try done. by rewrite is_document_ops. Qed.

(** The delta [diff_text] computes turns the one text into the other. *)
Theorem diff_text_edits before after :
  (2 * utf16_len before + utf16_len after < usize_max)%N →
  compose (document before) (diff_text before after) = document after.
Proof. apply diff_text_applies. Qed.

(** A cursor follows the text: [transform_position] gives the position [mposition] computes unit by
    unit (moved right by inserts before it, left by deletes, never inside what was deleted), and its
    loop ends without a panic. *)
Theorem transform_position_follows d index p :
  nonempty d → (index + total d < usize_max)%N →
  transform_position_run d index p = Some (N.of_nat (mposition p (den d) (N.to_nat index))).
Proof. apply transform_position_den. Qed.

(** C35: composition, transformation and cursor transformation always return: on any deltas whose
    op lengths fit [usize] (however the ops were built, empty and overlong ones included) no loop
    runs out of ops to draw and no string slice panics. *)
Theorem transformations_total a b index p :
  sized a → sized b →
  is_Some (compose_run a b) ∧ is_Some (transform_run a b p) ∧ is_Some (transform_position_run a index p).
Proof.
  intros Ha Hb. split_and!; [by apply compose_run_total|by apply transform_run_total|].
  by apply transform_position_run_total.
Qed.

Lemma from_ops_snoc ops op : from_ops (ops ++ [op]) = push (from_ops ops) op.
Proof. unfold from_ops. by rewrite foldl_app. Qed.

Lemma from_ops_spec ops :
  Forall (λ op, kind op = KDelete → op_attributes op = ∅) ops → (total ops ≤ usize_max)%N →
  canonical (from_ops ops) ∧ meq (den (from_ops ops)) (den ops) ∧ (total (from_ops ops) ≤ total ops)%N.
Proof.
  induction ops as [|op ops IH] using rev_ind; intros Hk Ht; [done|].
  apply Forall_app in Hk as [Hk [Ho _]%list.Forall_cons]. rewrite total_app in *. simpl in *.
  destruct IH as (Hc & Hm & Hl); [done|lia|]. rewrite from_ops_snoc.
  destruct (push_den (from_ops ops) op) as [Hd Hl']; [lia|].
  split_and!; [by apply push_canonical|by rewrite Hd, Hm, den_app, den_single|lia].
Qed.

(** C40: building a delta with [push] puts it in canonical form without changing its meaning, and the
    form is unique: two op sequences with the same effect build the very same delta (inserts before
    deletes, neighbours merged, nothing empty). *)
Theorem push_normalises ops1 ops2 :
  Forall (λ op, kind op = KDelete → op_attributes op = ∅) (ops1 ++ ops2) →
  (total (ops1 ++ ops2) ≤ usize_max)%N →
  canonical (from_ops ops1) ∧ meq (den (from_ops ops1)) (den ops1) ∧
  (meq (den ops1) (den ops2) → from_ops ops1 = from_ops ops2).
Proof.
  intros [H1 H2]%Forall_app. rewrite total_app. intros Ht.
  destruct (from_ops_spec ops1) as (C1 & M1 & _); [done|lia|].
  destruct (from_ops_spec ops2) as (C2 & M2 & _); [done|lia|].
  split_and!; [done..|]. intros E. apply canonical_unique; [done..|]. by rewrite M1, M2.
Qed.

(** How many of the fields are present. *)
Definition given {A} (o : option A) : nat := match o with Some _ => 1 | None => 0 end.

(** An op survives the wire: decoding the representation written for it gives it back, and a
    representation is refused unless it has exactly one of [insert], [retain] and [delete]. *)
Theorem op_wire_roundtrip op r :
  op_of_repr (repr_of_op op) = Ok op ∧
  (is_ok (op_of_repr r) = true ↔
   (given (repr_insert r) + given (repr_retain r) + given (repr_delete r) = 1)%nat).
Proof.
  split.
  - destruct op as [k a]. unfold repr_of_op, op_of_repr. simpl. case_decide; subst; by destruct k.
  - destruct r as [i rt dl at_]. unfold op_of_repr. simpl. by destruct i, rt, dl.
Qed.

(** [utf16_slice] never panics, whatever the offsets: it returns the text between the two cuts,
    a cut inside a surrogate pair being rounded up to the end of its character. *)
Theorem utf16_slice_total s start end_ :
  utf16_slice s start end_ = Some (take_units (drop_units s start) (end_ - start)).
Proof. apply utf16_slice_spec. Qed.

(** Attributes obey the same algebra: merging is associative, the two transformed sets converge,
    and the inverse set restores what was there. *)
Theorem attributes_algebra (x y z : Attributes) (keep_null : bool) :
  attr_compose (attr_compose x y keep_null) z keep_null = attr_compose x (attr_compose y z true) keep_null ∧
  attr_compose x (attr_transform x y true) true = attr_compose y (attr_transform y x false) true ∧
  (no_nulls x → attr_compose (attr_compose x y false) (attr_invert y x) false = x).
Proof.
  split_and!; [apply attr_compose_assoc|apply attr_diamond|apply attr_invert_compose].
Qed.

End guarantees.

(** ** Concrete instances

    A face (two code units), an [a] and a [b]; one change makes the face bold and deletes the [a],
    another deletes the face and types a [c]. *)

Definition sample_doc : Delta := document [128512; 97; 98]%N.
Definition sample_a : Delta :=
  from_ops [with_attr (op_retain 2) (lit "bold") (JBool true); op_delete 1; op_insert (lit "d")].
Definition sample_b : Delta := from_ops [op_delete 2; op_insert (lit "c"); op_retain 1].

Ltac concrete := repeat constructor; (done || (vm_compute; intuition congruence)).

Lemma sample_nonempty : nonempty sample_a ∧ nonempty sample_b ∧ nonempty sample_doc.
Proof. split_and!; concrete. Defined.

Lemma sample_document : document_ops sample_doc ∧ canonical sample_doc ∧ cells_clean (doc_cells sample_doc).
Proof. split_and!; [concrete|apply document_chopped|]. repeat constructor; apply no_nulls_empty. Defined.

Lemma transform_converges_witness :
  nonempty sample_a ∧ nonempty sample_b ∧
  compose sample_a (transform sample_a sample_b true) = compose sample_b (transform sample_b sample_a false).
Proof.
  destruct sample_nonempty as (Ha & Hb & _). split_and!; [done..|].
  by apply transform_converges.
Defined.


Lemma compose_sequences_witness :
  apply_spec (doc_cells sample_doc) (den (compose sample_a sample_b)) =
  apply_spec (apply_spec (doc_cells sample_doc) (den sample_a)) (den sample_b).
Proof.
  destruct sample_nonempty as (Ha & Hb & _).
  apply compose_sequences; [done|done|concrete|done|done].
Defined.

Lemma transform_keeps_valid_witness :
  validate (transform sample_a sample_b true) (compose sample_doc sample_a) = Ok tt.
Proof.
  destruct sample_nonempty as (Ha & Hb & Hn). destruct sample_document as (Hd & _).
  by apply transform_keeps_valid.
Defined.


Lemma slice_cuts_witness :
  is_Some (slice_run sample_doc 2 3) ∧ is_document (slice sample_doc 2 3) = true ∧
  den (slice sample_doc 2 3) = take 1 (drop 2 (den sample_doc)).
Proof.
  destruct sample_nonempty as (_ & _ & Hn). destruct sample_document as (Hd & _).
  by apply slice_cuts.
Defined.

Lemma diff_text_edits_witness :
  compose (document (lit "kitten")) (diff_text (lit "kitten") (lit "sitting")) = document (lit "sitting").
Proof. by apply (diff_text_edits (lit "kitten") (lit "sitting")). Defined.

Lemma transform_position_follows_witness :
  transform_position_run sample_b 3 false = Some 2%N.
Proof.
  destruct sample_nonempty as (_ & Hb & _). by rewrite (transform_position_follows sample_b 3 false).
Defined.

Lemma transformations_total_witness :
  is_Some (compose_run sample_a sample_b) ∧ is_Some (transform_run sample_a sample_b true) ∧
  is_Some (transform_position_run sample_a 1 true).
Proof. apply transformations_total; concrete. Defined.

Lemma push_normalises_witness :
  canonical sample_a ∧ meq (den sample_a) (den [with_attr (op_retain 2) (lit "bold") (JBool true); op_delete 1; op_insert (lit "d")])
  ∧ (meq (den [with_attr (op_retain 2) (lit "bold") (JBool true); op_delete 1; op_insert (lit "d")])
         (den [with_attr (op_retain 2) (lit "bold") (JBool true); op_insert (lit "d"); op_delete 1]) →
     sample_a = from_ops [with_attr (op_retain 2) (lit "bold") (JBool true); op_insert (lit "d"); op_delete 1]).
Proof. apply push_normalises; [concrete|done]. Defined.
