(* ===== verification/ServerDoc.v ===== *)
(** * The server's document ([crates/gal-ot/src/lib.rs])

    [ServerDoc] is the authoritative content with the last ops committed to it.  An op written against
    an earlier revision is transformed over everything committed since, validated, and applied; the
    inverse kept with each committed op gives rollback and earlier revisions. *)

From S2P Require Import Prelude Json Attributes Text Delta.

Section server_doc.
Context `{J : Json}.

Definition MAX_HISTORY : nat := 2048.

Inductive OtError : Type :=
| RevisionInFuture (requested current : N)
| RevisionTooOld (requested oldest : N)
| LengthMismatch (op_base doc_len : N)
| SplitCharacter (offset : N)
| NotADocument.

Record Revision := mkRevision {
  rev_revision : N;
  rev_delta : Delta;
  rev_undo : Delta;
  rev_author : str;
}.

Record ServerDoc := mkDoc {
  doc_content : Delta;
  doc_revision : N;
  doc_history : list Revision;
}.

Definition doc_new : ServerDoc := mkDoc [] 0 [].

Definition from_snapshot (content : Delta) (revision : N) : result ServerDoc OtError :=
  if negb (is_document content) then Err NotADocument else Ok (mkDoc content revision []).

Definition doc_len (sd : ServerDoc) : N := delta_len (doc_content sd).

(** [r.revision - 1] on the first entry kept. *)
Definition oldest_retained (sd : ServerDoc) : N :=
  match doc_history sd with r :: _ => rev_revision r - 1 | [] => doc_revision sd end.

Definition history_since (sd : ServerDoc) (since : N) : list Revision :=
  filter (λ r, (since < rev_revision r)%N) (doc_history sd).

(** The rebasing loop of [apply]. *)
Definition rebase (history : list Revision) (delta : Delta) : Delta :=
  foldl (λ rebased committed, transform (rev_delta committed) rebased true) delta history.

Definition ot_error (e : InvalidChange) : OtError :=
  match e with
  | PastEnd needed doc_len => LengthMismatch needed doc_len
  | IC_SplitCharacter offset => SplitCharacter offset
  end.

(** [while self.history.len() > MAX_HISTORY { self.history.pop_front(); }] *)
Definition trim_history (history : list Revision) : list Revision :=
  drop (length history - MAX_HISTORY) history.

Definition apply (sd : ServerDoc) (client_revision : N) (delta : Delta) (author : str)
    : result (Revision * ServerDoc) OtError :=
  if (doc_revision sd <? client_revision)%N then Err (RevisionInFuture client_revision (doc_revision sd))
  else
    let oldest := oldest_retained sd in
    if (client_revision <? oldest)%N then Err (RevisionTooOld client_revision oldest)
    else
      let rebased := rebase (history_since sd client_revision) delta in
      _ <-? map_err ot_error (validate rebased (doc_content sd));
      let undo := invert rebased (doc_content sd) in
      let revision := wadd (doc_revision sd) 1 in
      let entry := mkRevision revision rebased undo author in
      Ok (entry, mkDoc (compose (doc_content sd) rebased) revision
                   (trim_history (doc_history sd ++ [entry]))).

Definition rollback_last (sd : ServerDoc) : bool * ServerDoc :=
  match list.last (doc_history sd) with
  | None => (false, sd)
  | Some entry =>
      (true, mkDoc (compose (doc_content sd) (rev_undo entry)) (doc_revision sd - 1)
               (take (length (doc_history sd) - 1) (doc_history sd)))
  end.

(** The loop of [at_revision], newest entry first. *)
Fixpoint undo_to (newest_first : list Revision) (revision : N) (doc : Delta) : Delta :=
  match newest_first with
  | [] => doc
  | entry :: rest =>
      if (rev_revision entry <=? revision)%N then doc
      else undo_to rest revision (compose doc (rev_undo entry))
  end.

Definition at_revision (sd : ServerDoc) (revision : N) : option Delta :=
  if (revision =? doc_revision sd)%N then Some (doc_content sd)
  else if (doc_revision sd <? revision)%N || (revision <? oldest_retained sd)%N then None
  else Some (undo_to (reverse (doc_history sd)) revision (doc_content sd)).

Definition replay (ops : list Delta) (up_to : nat) : Delta := foldl compose [] (take up_to ops).

End server_doc.
