(* ===== verification/ServerDocTheory.v ===== *)
(** * The server's document: convergence, acceptance, rollback

    The invariant [doc_ok] says that the history kept is a run of valid changes leading from an older
    document to the current one.  From it: an op valid where its author wrote it is always accepted,
    replicas converge, rollback and earlier revisions are exact. *)

From S2P Require Import Prelude Json Attributes Text Delta DeltaSpec DeltaAlg DeltaPush DeltaCanon.
From S2P Require Import DeltaIter DeltaLoops DeltaTransform DeltaTheory DeltaApply DeltaValidate.
From S2P Require Import DeltaInvert ServerDoc.

Section server_doc.
Context `{J : Json}.
Implicit Types d doc c a b base : list Op.
Implicit Types h : list Revision.

(** ** Documents and changes without null attributes *)

Definition clean_mops (l : list mop) : Prop :=
  Forall (λ m, match m with MIns _ a => no_nulls a | _ => True end) l.

Definition good_doc d : Prop := document_ops d ∧ canonical d ∧ cells_clean (doc_cells d).

(** A change that may be applied to [d], and leaves room for what is done with it. *)
Definition good_change c d : Prop :=
  nonempty c ∧ valid c d ∧ clean_mops (den c) ∧ (total d + 2 * total c < usize_max)%N.

Lemma good_nonempty d : good_doc d → nonempty d.
Proof. intros (_ & [H _] & _). eapply Forall_impl; [|exact H]. by intros x []. Qed.

Lemma cells_clean_apply (cells : list cell) (l : list mop) :
  cells_clean cells → clean_mops l → cells_clean (apply_spec cells l).
Proof.
  intros Hc Hl. revert cells Hc. induction Hl as [|m l Hm _ IH]; intros cells Hc; [done|].
  destruct m as [x a|b|]; simpl.
  - constructor; [done|by apply IH].
  - destruct cells as [|[x a] cells]; [by apply IH|]. apply list.Forall_cons in Hc as [Hx Hc].
    constructor; [by apply no_nulls_compose|by apply IH].
  - destruct cells as [|[x a] cells]; [by apply IH|]. apply list.Forall_cons in Hc as [Hx Hc]. by apply IH.
Qed.

Lemma good_apply d c : good_doc d → good_change c d → good_doc (compose d c).
Proof.
  intros Hd (Hn & Hv & Hcl & Ht). pose proof (good_nonempty d Hd) as Hnd. destruct Hd as (Hdo & Hcan & Hcc).
  destruct (compose_apply d c) as (_ & Hdo' & [Hc' _] & Hcells); [done..|lia|].
  split_and!; [done..|]. rewrite Hcells. by apply cells_clean_apply.
Qed.

Lemma clean_mops_app l1 l2 : clean_mops (l1 ++ l2) ↔ clean_mops l1 ∧ clean_mops l2.
Proof. apply Forall_app. Qed.

Lemma clean_mtransform p (la lb : list mop) : clean_mops lb → clean_mops (mtransform p la lb).
Proof.
  revert lb. induction la as [|x la IH]; intros lb Hb; [by rewrite mtransform_nil_l|].
  induction Hb as [|y lb Hy Hb IHb].
  - destruct x as [x a|a|].
    + rewrite mtransform_ins_l by auto. constructor; [done|by apply IH; constructor].
    + rewrite mtransform_nil_r by done. constructor; [done|by apply IH; constructor].
    + rewrite mtransform_nil_r by done. simpl. by apply IH; constructor.
  - destruct (decide (is_ins x = true ∧ (p = true ∨ is_ins y = false))) as [[Hx Hp]|Hn].
    { destruct x as [x a|a|]; try done. rewrite mtransform_ins_l by done.
      constructor; [done|]. apply IH. by constructor. }
    destruct (is_ins y) eqn:Ey.
    { destruct y as [y b|b|]; try done. rewrite mtransform_ins_r; [by constructor|].
      simpl. destruct (is_ins x), p; naive_solver. }
    assert (is_ins x = false) as Hx by (apply not_true_is_false; naive_solver).
    rewrite mtransform_cons by done. apply clean_mops_app. split; [|by apply IH].
    destruct x, y; try done; simpl; by repeat constructor.
Qed.

Lemma transform_clean a b p :
  nonempty a → nonempty b → (total a + total b < usize_max)%N → clean_mops (den b) →
  clean_mops (den (transform a b p)).
Proof.
  intros Ha Hb Ht Hc. destruct (transform_den _ _ a b p (track_tsyms a)) as (_ & _ & [k Hk] & _); [done..|].
  assert (clean_mops (den (transform a b p) ++ plain k)) as H; [|by apply clean_mops_app in H as [H _]].
  unfold clean_mops. rewrite (meq_perm _ _ Hk). by apply clean_mtransform.
Qed.

(** ** The diamond on documents *)

Lemma apply_transform d a b p :
  good_doc d → nonempty a → nonempty b → valid a d → valid b d →
  (total d + total a < usize_max)%N → (total d + 2 * total a + total b < usize_max)%N →
  doc_cells (compose (compose d a) (transform a b p)) =
    apply_spec (doc_cells d) (mcompose (den a) (mtransform p (den a) (den b))) ∧
  document_ops (compose (compose d a) (transform a b p)) ∧
  canonical (compose (compose d a) (transform a b p)).
Proof.
  intros Hd Hna Hnb Ha Hb Ht1 Ht2. pose proof (good_nonempty d Hd) as Hnd. destruct Hd as (Hdo & Hcan & _).
  destruct (compose_apply d a) as (E & Hdo' & Hch & Hcells); [done..|].
  destruct (compose_den d a) as (_ & Hlen & _); [done|done|apply Ha|lia|].
  pose proof (transform_valid d a b p Hdo Hnd Hna Hnb Ha Hb ltac:(lia) ltac:(lia)) as Hv.
  destruct (transform_den _ _ a b p (track_tsyms a)) as (Hct & Htt & [k Hk] & _); [done..|lia|].
  destruct (compose_apply (compose d a) (transform a b p)) as (_ & Hdo2 & [Hc2 _] & Hcells2);
    [done|by apply chopped_nonempty|by apply chopped_nonempty|done|lia|].
  split_and!; [|done..]. rewrite Hcells2, Hcells, apply_spec_mcompose.
  - rewrite <- (apply_spec_plain _ _ k). by apply apply_spec_meq.
  - unfold doc_cells. rewrite length_cells, length_den by by apply document_all_ins.
    destruct Ha as [_ Ha]. rewrite <- blen_nbase. lia.
Qed.

Lemma document_unique d1 d2 :
  document_ops d1 → document_ops d2 → canonical d1 → canonical d2 → doc_cells d1 = doc_cells d2 → d1 = d2.
Proof.
  intros H1 H2 C1 C2 E. apply canonical_unique; [done..|].
  rewrite (cells_all_ins (den d1)), (cells_all_ins (den d2)) by by apply document_all_ins.
  unfold doc_cells in E. by rewrite E.
Qed.

(** Two valid changes of one document, in either order, give the same document. *)
Lemma doc_diamond d a b :
  good_doc d → good_change a d → good_change b d →
  (total d + 2 * total a + 2 * total b < usize_max)%N →
  compose (compose d a) (transform a b true) = compose (compose d b) (transform b a false).
Proof.
  intros Hd (Hna & Ha & _) (Hnb & Hb & _) Ht.
  destruct (apply_transform d a b true) as (E1 & D1 & C1); [done..|lia|lia|].
  destruct (apply_transform d b a false) as (E2 & D2 & C2); [done..|lia|lia|].
  apply document_unique; try done. rewrite E1, E2. apply apply_spec_meq, mdiamond.
Qed.

(** ** The history *)

(** [h] leads from [base] to [content], one committed change after the other. *)
Fixpoint hist_ok h base (rev : N) content : Prop :=
  match h with
  | [] => content = base
  | r :: h =>
      rev_revision r = (rev + 1)%N ∧ good_change (rev_delta r) base ∧
      rev_undo r = invert (rev_delta r) base ∧
      hist_ok h (compose base (rev_delta r)) (rev + 1) content
  end.

Definition doc_ok (sd : ServerDoc) : Prop :=
  ∃ base rev, good_doc base ∧ hist_ok (doc_history sd) base rev (doc_content sd) ∧
    doc_revision sd = (rev + N.of_nat (length (doc_history sd)))%N ∧
    (length (doc_history sd) ≤ MAX_HISTORY)%nat.

Lemma hist_good h base rev content : good_doc base → hist_ok h base rev content → good_doc content.
Proof.
  revert base rev. induction h as [|r h IH]; intros base rev Hb; simpl; [by intros ->|].
  intros (_ & Hc & _ & Hh). eapply IH; [|done]. by apply good_apply.
Qed.

Lemma doc_ok_good sd : doc_ok sd → good_doc (doc_content sd).
Proof. intros (base & rev & Hb & Hh & _). by eapply hist_good. Qed.

Lemma hist_app h1 h2 base rev content :
  hist_ok (h1 ++ h2) base rev content ↔
  ∃ mid, hist_ok h1 base rev mid ∧ hist_ok h2 mid (rev + N.of_nat (length h1)) content.
Proof.
  revert base rev. induction h1 as [|r h1 IH]; intros base rev; simpl.
  - rewrite N.add_0_r. naive_solver.
  - rewrite IH. replace (rev + N.of_nat (S (length h1)))%N with (rev + 1 + N.of_nat (length h1))%N by lia.
    naive_solver.
Qed.

(** The entries after a revision are the tail of the history. *)
Lemma hist_revisions h base rev content i r :
  hist_ok h base rev content → h !! i = Some r → rev_revision r = (rev + 1 + N.of_nat i)%N.
Proof.
  revert base rev i. induction h as [|q h IH]; intros base rev i; [done|]. simpl. intros (Hq & _ & _ & Hh).
  destruct i as [|i]; simpl; [intros [= <-]; lia|]. intros Hi. specialize (IH _ _ _ Hh Hi). lia.
Qed.

Lemma history_since_drop h base rev content since :
  hist_ok h base rev content → (rev ≤ since)%N →
  filter (λ r, (since < rev_revision r)%N) h = drop (N.to_nat (since - rev)) h.
Proof.
  revert base rev. induction h as [|r h IH]; intros base rev; [by rewrite drop_nil|].
  simpl. intros (Hr & _ & _ & Hh) Hs.
  destruct (decide (since = rev)) as [->|Hne].
  - rewrite N.sub_diag. simpl. rewrite filter_cons_True by lia. f_equal.
    assert (∀ x, x ∈ h → (rev < rev_revision x)%N) as Hall.
    { intros x [i Hi]%list_elem_of_lookup. pose proof (hist_revisions _ _ _ _ _ _ Hh Hi). lia. }
    clear -Hall. induction h as [|x h IH]; [done|]. rewrite filter_cons_True by (apply Hall; left).
    f_equal. apply IH. intros y Hy. apply Hall. by right.
  - rewrite filter_cons_False by lia. rewrite (IH _ _ Hh) by lia.
    replace (N.to_nat (since - rev)) with (S (N.to_nat (since - (rev + 1)))) by lia. done.
Qed.

Definition hist_total h : N := foldr (λ r n, (total (rev_delta r) + n)%N) 0%N h.

(** Room for a change of [n] units to be carried over the history [h] from [base]. *)
Definition room h base (n : N) : Prop := (total base + 2 * n + 4 * hist_total h < usize_max)%N.

Lemma total_compose d c : good_doc d → good_change c d → (total (compose d c) ≤ total d + total c)%N.
Proof.
  intros Hd (Hn & [Hf _] & _ & Ht). destruct (compose_den d c) as (_ & H & _); [|done..|lia|done].
  by apply good_nonempty.
Qed.

(** Rebasing over the history keeps a change good. *)
Lemma rebase_step d r delta :
  good_doc d → good_change (rev_delta r) d → nonempty delta → valid delta d → clean_mops (den delta) →
  (total d + 2 * total (rev_delta r) + 2 * total delta < usize_max)%N →
  let delta' := transform (rev_delta r) delta true in
  nonempty delta' ∧ valid delta' (compose d (rev_delta r)) ∧ clean_mops (den delta') ∧
  (total delta' ≤ total (rev_delta r) + total delta)%N.
Proof.
  intros Hd Hr Hn Hv Hc Ht. pose proof (good_nonempty d Hd) as Hnd. pose proof Hd as (Hdo & _).
  pose proof Hr as (Hnr & Hvr & _). simpl. split_and!.
  - apply transform_nonempty; [done..|lia].
  - apply transform_valid; [done..|lia|lia].
  - apply transform_clean; [done..|lia|done].
  - destruct (transform_den _ _ (rev_delta r) delta true (track_tsyms (rev_delta r))) as (_ & H & _); [done..|lia|done].
Qed.

Lemma rebase_good h base rev content delta :
  good_doc base → hist_ok h base rev content →
  nonempty delta → valid delta base → clean_mops (den delta) → room h base (total delta) →
  good_change (rebase h delta) content.
Proof.
  revert base rev delta. induction h as [|r h IH]; intros base rev delta Hb Hh Hn Hv Hc Hr; unfold room in Hr; simpl in *.
  - subst. split_and!; [done..|lia].
  - destruct Hh as (_ & Hg & _ & Hh).
    destruct (rebase_step base r delta) as (Hn' & Hv' & Hc' & Ht'); [done..|lia|].
    pose proof (total_compose base (rev_delta r) Hb Hg).
    eapply (IH (compose base (rev_delta r))); try done; [by apply good_apply|]. unfold room. lia.
Qed.

(** What a replica does that has applied its own [delta] and then receives the committed ops. *)
Fixpoint catch_up h delta (doc : list Op) : list Op :=
  match h with
  | [] => doc
  | r :: h => catch_up h (transform (rev_delta r) delta true) (compose doc (transform delta (rev_delta r) false))
  end.

Lemma catch_up_converges h base rev content delta :
  good_doc base → hist_ok h base rev content →
  nonempty delta → valid delta base → clean_mops (den delta) → room h base (total delta) →
  catch_up h delta (compose base delta) = compose content (rebase h delta).
Proof.
  revert base rev delta. induction h as [|r h IH]; intros base rev delta Hb Hh Hn Hv Hc Hr; unfold room in Hr; simpl in *.
  - by subst.
  - destruct Hh as (_ & Hg & _ & Hh).
    destruct (rebase_step base r delta) as (Hn' & Hv' & Hc' & Ht'); [done..|lia|].
    pose proof (total_compose base (rev_delta r) Hb Hg).
    rewrite <- (doc_diamond base (rev_delta r) delta); [|done|done|split_and!; [done..|lia]|lia].
    eapply (IH (compose base (rev_delta r))); try done; [by apply good_apply|]. unfold room. lia.
Qed.

(** ** Earlier revisions *)

Lemma undo_one r d : good_doc d → good_change (rev_delta r) d → rev_undo r = invert (rev_delta r) d →
  compose (compose d (rev_delta r)) (rev_undo r) = d.
Proof. intros (Hdo & Hc & Hcl) (Hn & Hv & _ & Ht) ->. by apply invert_undoes. Qed.

Lemma undo_to_stop h base rev content k doc :
  hist_ok h base rev content → (rev + N.of_nat (length h) ≤ k)%N → undo_to (reverse h) k doc = doc.
Proof.
  intros Hh Hk. destruct (snoc_case h) as [->|(h' & r & ->)]; [done|].
  rewrite reverse_snoc. simpl. rewrite length_app in Hk. simpl in Hk.
  assert ((h' ++ [r]) !! length h' = Some r) as Hl by (by rewrite list_lookup_middle).
  pose proof (hist_revisions _ _ _ _ _ _ Hh Hl). rewrite (proj2 (N.leb_le _ _)) by lia. done.
Qed.

Lemma undo_to_spec h1 h2 base rev mid content :
  good_doc base → hist_ok h1 base rev mid → hist_ok h2 mid (rev + N.of_nat (length h1)) content →
  undo_to (reverse (h1 ++ h2)) (rev + N.of_nat (length h1)) content = mid.
Proof.
  intros Hb H1. pose proof (hist_good _ _ _ _ Hb H1) as Hm.
  revert content. induction h2 as [|r h2 IH] using rev_ind; intros content H2.
  - simpl in H2. subst. rewrite app_nil_r. by eapply undo_to_stop.
  - rewrite app_assoc, reverse_snoc. simpl.
    apply hist_app in H2 as (prev & Hp & Hr & Hg & Hu & Hc). simpl in Hc. subst content.
    rewrite (proj2 (N.leb_gt _ _)) by lia.
    rewrite undo_one; [by apply IH| |done|done]. by eapply hist_good.
Qed.

Lemma oldest_retained_base sd base rev :
  hist_ok (doc_history sd) base rev (doc_content sd) →
  doc_revision sd = (rev + N.of_nat (length (doc_history sd)))%N → oldest_retained sd = rev.
Proof.
  unfold oldest_retained. destruct (doc_history sd) as [|r h]; simpl; [lia|]. intros (-> & _) _. lia.
Qed.

(** An earlier revision splits the history where it stood. *)
Lemma at_revision_split sd k d :
  doc_ok sd → at_revision sd k = Some d →
  ∃ base rev h1, good_doc base ∧ k = (rev + N.of_nat (length h1))%N ∧
    doc_history sd = h1 ++ history_since sd k ∧ oldest_retained sd = rev ∧ (k ≤ doc_revision sd)%N ∧
    hist_ok h1 base rev d ∧ hist_ok (history_since sd k) d k (doc_content sd).
Proof.
  intros (base & rev & Hb & Hh & Hr & _) Ha. pose proof (oldest_retained_base _ _ _ Hh Hr) as Ho.
  assert (rev ≤ k ≤ doc_revision sd)%N as Hk.
  { unfold at_revision in Ha. rewrite Ho in Ha.
    destruct (k =? doc_revision sd)%N eqn:E1; bool_to_prop; [lia|].
    destruct (doc_revision sd <? k)%N eqn:E2, (k <? rev)%N eqn:E3; simpl in Ha; try done; bool_to_prop. lia. }
  exists base, rev, (take (N.to_nat (k - rev)) (doc_history sd)).
  assert (length (take (N.to_nat (k - rev)) (doc_history sd)) = N.to_nat (k - rev)) as Hl.
  { rewrite length_take. lia. }
  unfold history_since. rewrite (history_since_drop _ _ _ _ _ Hh) by lia.
  rewrite <- (take_drop (N.to_nat (k - rev)) (doc_history sd)) in Hh.
  apply hist_app in Hh as (mid & H1 & H2). rewrite Hl in *.
  replace (rev + N.of_nat (N.to_nat (k - rev)))%N with k in * by lia.
  assert (mid = d) as ->; [|split_and!; try done; [by rewrite take_drop|lia]].
  unfold at_revision in Ha. destruct (k =? doc_revision sd)%N eqn:E1; bool_to_prop.
  - simplify_eq. rewrite drop_ge in H2 by lia. by simpl in H2.
  - destruct (_ || _); [done|]. injection Ha as <-.
    rewrite <- (take_drop (N.to_nat (k - rev)) (doc_history sd)).
    pose proof (λ h2 c, undo_to_spec _ h2 _ _ _ c Hb H1) as Hu. rewrite Hl in Hu.
    replace (rev + N.of_nat (N.to_nat (k - rev)))%N with k in Hu by lia. by rewrite Hu.
Qed.

Lemma at_revision_some sd k :
  doc_ok sd → (oldest_retained sd ≤ k ≤ doc_revision sd)%N → is_Some (at_revision sd k).
Proof.
  intros _ Hk. unfold at_revision. destruct (_ =? _)%N; [done|].
  rewrite !(proj2 (N.ltb_ge _ _)) by lia. done.
Qed.

(** ** [apply] *)

Lemma trim_ok h base rev content :
  good_doc base → hist_ok h base rev content → ∃ base' rev', good_doc base' ∧
    hist_ok (trim_history h) base' rev' content ∧
    (rev' + N.of_nat (length (trim_history h)) = rev + N.of_nat (length h))%N ∧
    (length (trim_history h) ≤ MAX_HISTORY)%nat.
Proof.
  intros Hb Hh. unfold trim_history. set (n := (length h - MAX_HISTORY)%nat).
  rewrite <- (take_drop n h) in Hh. apply hist_app in Hh as (mid & H1 & H2).
  exists mid, (rev + N.of_nat (length (take n h)))%N. split_and!.
  - by eapply hist_good.
  - done.
  - rewrite length_take, length_drop. unfold n. lia.
  - rewrite length_drop. unfold n. lia.
Qed.

Lemma validate_result change doc : validate change doc = Ok tt ∨ ∃ e, validate change doc = Err e.
Proof. destruct (validate change doc) as [[]|e]; eauto. Qed.

(** A successful [apply] commits a validated change. *)
Lemma apply_inv sd k delta author entry sd' :
  apply sd k delta author = Ok (entry, sd') →
  let rebased := rebase (history_since sd k) delta in
  (oldest_retained sd ≤ k ≤ doc_revision sd)%N ∧ validate rebased (doc_content sd) = Ok tt ∧
  entry = mkRevision (wadd (doc_revision sd) 1) rebased (invert rebased (doc_content sd)) author ∧
  sd' = mkDoc (compose (doc_content sd) rebased) (wadd (doc_revision sd) 1)
          (trim_history (doc_history sd ++ [entry])).
Proof.
  unfold apply. destruct (_ <? _)%N eqn:E1; [done|]. destruct (k <? _)%N eqn:E2; [done|]. bool_to_prop.
  destruct (validate_result (rebase (history_since sd k) delta) (doc_content sd)) as [E|[e E]]; rewrite E; simpl.
  - intros [= <- <-]. split_and!; done.
  - done.
Qed.

(** Committing a good change keeps the invariant. *)
Lemma commit_ok sd rebased author :
  doc_ok sd → good_change rebased (doc_content sd) → (doc_revision sd < usize_max)%N →
  let revision := wadd (doc_revision sd) 1 in
  let entry := mkRevision revision rebased (invert rebased (doc_content sd)) author in
  doc_ok (mkDoc (compose (doc_content sd) rebased) revision (trim_history (doc_history sd ++ [entry]))).
Proof.
  intros (base & rev & Hb & Hh & Hr & Hl) Hg Hmax revision entry.
  assert (revision = doc_revision sd + 1)%N as Erev by (apply wadd_small; lia).
  assert (hist_ok (doc_history sd ++ [entry]) base rev (compose (doc_content sd) rebased)) as Hh'.
  { apply hist_app. exists (doc_content sd). split; [done|]. simpl. rewrite Erev. split_and!; try done. lia. }
  destruct (trim_ok _ _ _ _ Hb Hh') as (base' & rev' & Hb' & Ht & Hlen & Hmaxl).
  exists base', rev'. split_and!; try done. simpl. rewrite Hlen, Erev, length_app. simpl. lia.
Qed.

(** Rebasing never produces an empty op, valid change or not. *)
Lemma rebase_nonempty h delta :
  Forall (λ r, nonempty (rev_delta r)) h → nonempty delta →
  (total delta + hist_total h < usize_max)%N →
  clean_mops (den delta) →
  nonempty (rebase h delta) ∧ clean_mops (den (rebase h delta)) ∧
  (total (rebase h delta) ≤ total delta + hist_total h)%N.
Proof.
  intros Hh. revert delta. induction Hh as [|r h Hr _ IH]; intros delta Hn Ht Hc; simpl in *.
  - split_and!; [done..|lia].
  - destruct (transform_den _ _ (rev_delta r) delta true (track_tsyms (rev_delta r)))
      as (Hch & Htt & _); [done..|lia|].
    destruct (IH (transform (rev_delta r) delta true)) as (H1 & H2 & H3);
      [by apply chopped_nonempty|lia|apply transform_clean; [done..|lia|done]|].
    split_and!; [done..|]. lia.
Qed.

Lemma hist_nonempty h base rev content : hist_ok h base rev content → Forall (λ r, nonempty (rev_delta r)) h.
Proof.
  revert base rev. induction h as [|r h IH]; intros base rev; simpl; [by constructor|].
  intros (_ & (Hn & _) & _ & Hh). constructor; [done|by eapply IH].
Qed.

Lemma hist_total_filter h (P : Revision → Prop) `{∀ r, Decision (P r)} :
  (hist_total (filter P h) ≤ hist_total h)%N.
Proof. induction h as [|r h IH]; [done|]. rewrite filter_cons. simpl. case_decide; simpl; lia. Qed.

Lemma incl_filter_stdpp h (P : Revision → Prop) `{∀ r, Decision (P r)} : incl (filter P h) h.
Proof. intros x Hx%list_elem_of_In. apply list_elem_of_In. by apply list_elem_of_filter in Hx as [_ Hx]. Qed.

(** Whatever [apply] accepts is good, if the submitted op has no empty piece and no null attribute. *)
Lemma apply_ok_good sd k delta author entry sd' :
  doc_ok sd → nonempty delta → clean_mops (den delta) →
  (total (doc_content sd) + 2 * (total delta + hist_total (doc_history sd)) < usize_max)%N →
  apply sd k delta author = Ok (entry, sd') →
  good_change (rev_delta entry) (doc_content sd) ∧
  entry = mkRevision (wadd (doc_revision sd) 1) (rev_delta entry) (invert (rev_delta entry) (doc_content sd)) author ∧
  sd' = mkDoc (compose (doc_content sd) (rev_delta entry)) (wadd (doc_revision sd) 1)
          (trim_history (doc_history sd ++ [entry])).
Proof.
  intros Hok Hn Hc Ht H%apply_inv. destruct H as (_ & Hv & -> & ->). simpl.
  pose proof (doc_ok_good _ Hok) as (Hdo & _). apply validate_valid in Hv; [|done].
  destruct Hok as (base & rev & Hb & Hh & Hr & _).
  pose proof (hist_total_filter (doc_history sd) (λ r, (k < rev_revision r)%N)).
  destruct (rebase_nonempty (history_since sd k) delta) as (H1 & H2 & H3);
    [eapply incl_Forall; [apply incl_filter_stdpp|by eapply hist_nonempty]|done|unfold history_since; lia|done|].
  unfold history_since in *. split_and!; try done. split_and!; [done..|lia].
Qed.

End server_doc.
