(* ===== verification/DeltaSequence.v ===== *)
(** * Deltas: changes made one after the other

    Composing two changes, the second valid for what the first leaves, gives a change that is valid for the document
    and has the effect of both in turn.  Units inserted are counted, since they bound the size of everything. *)

From S2P Require Import Prelude Json Attributes Text Delta DeltaSpec DeltaAlg DeltaPush DeltaCanon.
From S2P Require Import DeltaTotal DeltaIter DeltaLoops DeltaTransform DeltaTheory DeltaApply DeltaInvert ServerDoc ServerDocTheory.

Section sequence.
Context `{J : Json}.
Implicit Types a b c d doc : list Op.
Implicit Types l la lb D : list mop.

(** ** Units inserted *)

Fixpoint ninserts l : nat :=
  match l with [] => 0 | m :: l => (if is_ins m then 1 else 0) + ninserts l end.

Definition inserted d : N := N.of_nat (ninserts (den d)).

Lemma ninserts_app l1 l2 : ninserts (l1 ++ l2) = (ninserts l1 + ninserts l2)%nat.
Proof. induction l1 as [|m l1 IH]; simpl; [done|]. rewrite IH. lia. Qed.

Lemma ninserts_perm l l' : l ≡ₚ l' → ninserts l = ninserts l'.
Proof. induction 1; simpl; lia. Qed.

Lemma ninserts_plain n : ninserts (plain n) = 0%nat.
Proof. unfold plain. by induction n. Qed.

Lemma length_split l : length l = (nbase l + ninserts l)%nat.
Proof. induction l as [|[] l IH]; simpl; lia. Qed.

Lemma total_split d : total d = (blen d + inserted d)%N.
Proof. pose proof (length_split (den d)) as H. rewrite length_den, <- blen_nbase in H. unfold inserted. lia. Qed.

Lemma valid_total c d : valid c d → (total c ≤ total d + inserted c)%N.
Proof. intros [_ H]. rewrite total_split. lia. Qed.

Lemma ninserts_mtransform p la lb : ninserts (mtransform p la lb) = ninserts lb.
Proof.
  revert lb. induction la as [|x la IH]; intros lb; [by rewrite mtransform_nil_l|]. induction lb as [|y lb IHlb].
  - destruct x; [rewrite mtransform_ins_l by auto|rewrite mtransform_nil_r by done..]; simpl; by rewrite IH.
  - destruct (decide (is_ins x = true ∧ (p = true ∨ is_ins y = false))) as [[Hx Hp]|Hn].
    { destruct x as [x a|a|]; try done. rewrite mtransform_ins_l by done. simpl. by rewrite IH. }
    destruct (is_ins y) eqn:Hy.
    { destruct y as [y b|b|]; try done. rewrite mtransform_ins_r; [simpl; by rewrite IHlb|].
      simpl. destruct (is_ins x), p; naive_solver. }
    assert (is_ins x = false) as Hx by (apply not_true_is_false; naive_solver).
    rewrite mtransform_cons, ninserts_app, IH by done. simpl. rewrite Hy. by destruct x, y.
Qed.

(** The two ways of going through a composition. *)
Lemma mcompose_ind (P : list mop → list mop → list mop → Prop) :
  (∀ lb, P [] lb lb) → (∀ la, P la [] la) →
  (∀ la x (at_ : Attributes) lb l, P la lb l → P la (MIns x at_ :: lb) (MIns x at_ :: l)) →
  (∀ la y lb l, is_ins y = false → P la (y :: lb) l → mcompose la (y :: lb) = l → P (MDel :: la) (y :: lb) (MDel :: l)) →
  (∀ x la y lb l, x ≠ MDel → is_ins y = false → P la lb l → P (x :: la) (y :: lb) (comb x y ++ l)) →
  ∀ la lb, P la lb (mcompose la lb).
Proof.
  intros Hl Hr Hi Hd Hc la. induction la as [|x la IH]; intros lb; [rewrite mcompose_nil_l; apply Hl|].
  induction lb as [|y lb IHlb]; [rewrite mcompose_nil_r; apply Hr|]. destruct (is_ins y) eqn:Ey.
  - destruct y; try done. rewrite mcompose_ins_r. by apply Hi.
  - destruct (decide (x = MDel)) as [->|Hx]; [rewrite mcompose_del_l by done; by apply Hd|].
    rewrite mcompose_cons by done. by apply Hc.
Qed.

Lemma ninserts_mcompose la lb : (ninserts (mcompose la lb) ≤ ninserts la + ninserts lb)%nat.
Proof.
  apply (mcompose_ind (λ la lb l, (ninserts l ≤ ninserts la + ninserts lb)%nat)); simpl; intros; try lia.
  rewrite ninserts_app. destruct x, y; simpl in *; lia.
Qed.

Lemma nbase_mcompose la lb : nbase (mcompose la lb) = (nbase la + (nbase lb - length (tsyms la)))%nat.
Proof.
  apply (mcompose_ind (λ la lb l, nbase l = (nbase la + (nbase lb - length (tsyms la)))%nat)); cbn [nbase is_ins].
  - intros lb'. cbn. lia.
  - intros la'. lia.
  - intros la' x a lb' l ->. lia.
  - intros la' y lb' l Hy -> _. rewrite Hy. change (tsyms (MDel :: la')) with (tsyms la'). lia.
  - intros x la' y lb' l Hx Hy IH. rewrite nbase_app, IH, Hy. destruct x, y; try done; cbn; lia.
Qed.

Lemma inserted_transform a b p :
  nonempty a → nonempty b → (total a + total b < usize_max)%N → inserted (transform a b p) = inserted b.
Proof.
  intros Ha Hb Ht. destruct (transform_den _ _ a b p (track_tsyms a)) as (_ & _ & [k Hk] & _); [done..|].
  apply meq_perm, ninserts_perm in Hk. rewrite ninserts_app, ninserts_plain, ninserts_mtransform in Hk.
  unfold inserted. lia.
Qed.

Lemma inserted_compose a b :
  nonempty a → nonempty b → fits (tsyms (den a)) b → (total a + total b < usize_max)%N →
  (inserted (compose a b) ≤ inserted a + inserted b)%N.
Proof.
  intros Ha Hb Hf Ht. destruct (compose_den a b) as (_ & _ & k & Hk); [done..|].
  apply meq_perm, ninserts_perm in Hk. rewrite ninserts_app, ninserts_plain in Hk.
  pose proof (ninserts_mcompose (den a) (den b)). unfold inserted. lia.
Qed.

Lemma clean_mcompose la lb : clean_mops la → clean_mops lb → clean_mops (mcompose la lb).
Proof.
  apply (mcompose_ind (λ la lb l, clean_mops la → clean_mops lb → clean_mops l)); try done.
  - intros la' x a lb' l IH Ha [Hx Hb]%list.Forall_cons. constructor; [done|by apply IH].
  - intros la' y lb' l _ IH _ [_ Ha]%list.Forall_cons Hb. constructor; [done|by apply IH].
  - intros x la' y lb' l _ Hy IH [Hx Ha]%list.Forall_cons [_ Hb]%list.Forall_cons. apply clean_mops_app.
    split; [|by apply IH]. destruct x, y; try done; simpl; repeat constructor; try done. by apply no_nulls_compose.
Qed.

Lemma clean_compose a b :
  nonempty a → nonempty b → fits (tsyms (den a)) b → (total a + total b < usize_max)%N →
  clean_mops (den a) → clean_mops (den b) → clean_mops (den (compose a b)).
Proof.
  intros Ha Hb Hf Ht Hca Hcb. destruct (compose_den a b) as (_ & _ & k & Hk); [done..|].
  assert (clean_mops (den (compose a b) ++ plain k)) as H; [|by apply clean_mops_app in H as [H _]].
  unfold clean_mops. rewrite (meq_perm _ _ Hk). by apply clean_mcompose.
Qed.

(** ** Cuts

    A change leaves position [k] uncut when it does the same to the units on its two sides, and nothing between. *)

Fixpoint uncut (k : nat) l : Prop :=
  match l with
  | [] => True
  | MIns _ _ :: l => uncut k l
  | x :: l => match k with 0 => True | 1 => head l = Some x | S k => uncut k l end
  end.

#[local] Arguments uncut : simpl never.

Lemma uncut_nil k : uncut k [].
Proof. done. Qed.

Lemma uncut_cons_ins (x : sym) (at_ : Attributes) l k : uncut k (MIns x at_ :: l) ↔ uncut k l.
Proof. done. Qed.

Lemma uncut_base x l k : is_ins x = false → (1 ≤ k)%nat → uncut (S k) (x :: l) ↔ uncut k l.
Proof. intros Hx Hk. by destruct x, k; try done; try lia. Qed.

Lemma uncut_head x l : is_ins x = false → uncut 1 (x :: l) ↔ head l = Some x.
Proof. by destruct x. Qed.

Lemma uncut_ins l1 l2 k : all_ins l1 → uncut k (l1 ++ l2) ↔ uncut k l2.
Proof. induction 1 as [|[] l1 Hm _ IH]; try done. Qed.

(** A run of equal units is cut nowhere inside, and at its end unless it goes on. *)
Lemma uncut_run x n l k :
  is_ins x = false → (1 ≤ k)%nat →
  uncut k (replicate n x ++ l) ↔ (k < n)%nat ∨ (n = k ∧ head l = Some x) ∨ (n < k)%nat ∧ uncut (k - n) l.
Proof.
  intros Hx. revert k. induction n as [|n IH]; intros k Hk.
  { simpl. rewrite Nat.sub_0_r. split; [intros; right; right; split; [lia|done]|]. intros [?|[[? _]|[_ ?]]]; [lia..|done]. }
  simpl. destruct k as [|[|k]]; [lia|..].
  - rewrite uncut_head by done. destruct n as [|n]; simpl.
    + split; [auto|]. intros [?|[[_ ?]|[? _]]]; [lia|done|lia].
    + split; [intros; left; lia|done].
  - rewrite uncut_base, IH by (done || lia). replace (S (S k) - S n)%nat with (S k - n)%nat by lia.
    split; intros [?|[[? ?]|[? ?]]]; [left; lia|right; left; split; [lia|done]|right; right; split; [lia|done]|
      left; lia|right; left; split; [lia|done]|right; right; split; [lia|done]].
Qed.

Lemma uncut_mnf l k : (1 ≤ k)%nat → uncut k l → uncut k (mnf l).
Proof.
  assert (∀ l k, (1 ≤ k)%nat → uncut k l → uncut (S k) (del_in l)) as Hdel.
  { intros l0. induction l0 as [|[] l0 IH]; intros j Hj Hu; cbn [del_in]; [by apply uncut_base|by apply uncut_cons_ins, IH|by apply uncut_base..]. }
  assert (∀ l, uncut 1 (del_in (del_in l))) as Hdel2 by (intros l0; by induction l0 as [|[] l0 IH]).
  revert k. induction l as [|x l IH]; intros k Hk; [done|]. destruct x as [x a|a|]; [by apply IH|..].
  - destruct k as [|[|k]]; [lia|..]; cbn [mnf].
    + rewrite !uncut_head by done. by destruct l as [|y l]; [|intros [= ->]].
    + rewrite !uncut_base by (done || lia). apply IH. lia.
  - destruct k as [|[|k]]; [lia|..]; cbn [mnf].
    + rewrite uncut_head by done. destruct l as [|y l]; [done|]. intros [= ->]. apply Hdel2.
    + rewrite uncut_base by (done || lia). intros H. apply Hdel; [lia|]. apply IH; [lia|done].
Qed.

Lemma uncut_plain l n k :
  (∀ l' x, l = l' ++ [x] → x ≠ MRet ∅) → uncut k (l ++ plain n) → uncut k l.
Proof.
  revert k. induction l as [|x l IH]; intros k Hlast; [done|].
  assert (l ≠ [] → ∀ l' y, l = l' ++ [y] → y ≠ MRet ∅) as Hl by (intros _ l' y ->; by apply (Hlast (x :: l'))).
  destruct (decide (l = [])) as [->|Hne].
  - pose proof (Hlast [] x eq_refl) as Hx. destruct x as [x a|a|]; [done|..];
      (destruct k as [|[|k]]; [done| |by intros]); destruct n; unfold uncut; cbn; congruence.
  - specialize (Hl Hne). destruct x as [x a|a|]; [by apply IH|..];
      (destruct k as [|[|k]]; [done|by destruct l|by apply IH]).
Qed.

(** Where an op of a delta in canonical form ends, the document is cut. *)
Lemma canonical_cuts c k : canonical c → k ∈ bounds 0 c → (1 ≤ k)%N ∧ ¬ uncut (N.to_nat k) (den c).
Proof.
  revert k. induction c as [|op c IH]; intros k; [by intros _ ?%elem_of_nil|].
  intros [[[Hz Hk] Hcl]%list.Forall_cons Hch]. simpl.
  assert (canonical c) as Hc by (split; [done|]; destruct Hch as [_ Hch]; done).
  rewrite den_cons. case_decide as Ei.
  { intros [? Hn]%IH; [|done]. split; [done|]. rewrite uncut_ins; [done|]. by apply den_insert. }
  assert (∃ x, den_op op = replicate (N.to_nat (op_len op)) x ∧ is_ins x = false ∧ head (den c) ≠ Some x) as (x & -> & Hx & Hh).
  { destruct Hch as [Hap _]. destruct c as [|q c].
    { unfold kind, den_op, op_len in *. destruct (op_kind op); try done; eexists; split_and!; try done. }
    rewrite den_cons. apply list.Forall_cons in Hcl as [[Hq _] _]. unfold kind, den_op, op_len, apart in *.
    destruct (op_kind op) as [[]|n|n] eqn:Eo; try done; (eexists; split_and!; [done..|]);
      destruct (op_kind q) as [[s|v]|m|m] eqn:Eq; try done; try (destruct (N.to_nat m) eqn:Em; [lia|simpl; congruence]).
    all: destruct (text_syms s) as [|y t] eqn:Et; [|done]; intros _; apply Hq;
      apply (f_equal length) in Et; rewrite length_text_syms in Et; cbn in *; lia. }
  set (n := op_len op) in *. rewrite N.add_0_l. intros [->|Hin]%elem_of_cons.
  - split; [lia|]. rewrite uncut_run by (done || lia). intros [?|[[_ ?]|[? _]]]; [lia|done|lia].
  - replace n with (n + 0)%N in Hin by lia. rewrite bounds_shift in Hin. apply list_elem_of_fmap in Hin as (j & -> & Hj).
    apply IH in Hj as [Hj Hn]; [|done]. split; [lia|]. rewrite uncut_run by (done || lia).
    intros [?|[[? _]|[_ Hu]]]; [lia|lia|]. apply Hn. by replace (N.to_nat j) with (N.to_nat (n + j) - N.to_nat n)%nat by lia.
Qed.

Definition low_at (t : list (option sym)) (k : nat) : Prop := ¬ not_low (drop k t).

Lemma not_low_dec t : not_low t ∨ ¬ not_low t.
Proof. destruct t as [|[[c []|v]|] t]; [by left|by right; intros []|by left..]. Qed.

Lemma low_at_unit D k : all_ins D → low_at (tsyms D) k ↔ ∃ x (a : Attributes), D !! k = Some (MIns (SChar x true) a).
Proof.
  intros HD. revert k. induction HD as [|m D Hm _ IH]; intros k.
  { split; [|by intros (? & ? & ?)]. intros H. exfalso. apply H. change (tsyms []) with (@nil (option sym)). by rewrite drop_nil. }
  destruct m as [[x lo|v] a|a|]; try done; (destruct k as [|k]; [|apply IH]); unfold low_at; cbn.
  - destruct lo; split; [eauto|by intros _ []|done|by intros (? & ? & ?)].
  - split; [done|by intros (? & ? & ?)].
Qed.

(** A change that fits leaves the middle of every pair uncut. *)
Lemma fits_uncut t c k : fits t c → (1 ≤ k)%nat → low_at t k → uncut k (den c).
Proof.
  revert t k. induction c as [|op c IH]; intros t k Hf Hk Hlow; [done|]. rewrite den_cons.
  destruct (decide (kind op = KInsert)) as [Ei|Ei].
  { rewrite uncut_ins by by apply den_insert. apply fits_insert in Hf; [|done]. by eapply IH. }
  apply fits_cons in Hf as [Hend Hf]; [|done].
  assert (∃ x, den_op op = replicate (N.to_nat (op_len op)) x ∧ is_ins x = false) as (x & -> & Hx).
  { unfold kind, den_op, op_len in *. destruct (op_kind op); try done; eauto. }
  apply uncut_run; [done..|]. set (n := N.to_nat (op_len op)) in *.
  destruct (lt_eq_lt_dec k n) as [[Hl|Hl]|Hl]; [by left|by rewrite Hl in Hlow|]. right. right. split; [done|].
  eapply IH; [done|lia|]. unfold low_at in *. rewrite drop_drop. by replace (n + (k - n))%nat with k by lia.
Qed.

(** ** Through a first change *)

(** Where position [k] of a document is after a change, when the pair around it is kept. *)
Fixpoint carried la (k : nat) : option nat :=
  match la with
  | [] => Some k
  | MIns _ _ :: la => S <$> carried la k
  | MRet _ :: la => match k with 0 => Some 0 | 1 => Some 1 | S k => S <$> carried la k end
  | MDel :: la => match k with 0 | 1 => None | S k => carried la k end
  end%nat.

Lemma carried_pos la k k' : (1 ≤ k)%nat → carried la k = Some k' → (1 ≤ k')%nat.
Proof.
  revert k k'. induction la as [|[x a|a|] la IH]; intros k k' Hk; cbn; [by intros [= <-]|..].
  - intros (j & _ & ->)%fmap_Some. lia.
  - destruct k as [|[|k]]; [lia|by intros [= <-]|]. intros (j & _ & ->)%fmap_Some. lia.
  - destruct k as [|[|k]]; [done..|]. apply IH. lia.
Qed.

Lemma uncut_mcompose la lb k :
  (1 ≤ k)%nat → uncut k la → (∀ k', carried la k = Some k' → uncut k' lb) → uncut k (mcompose la lb).
Proof.
  revert lb k. induction la as [|x la IH]; intros lb k Hk Ha Hb; [rewrite mcompose_nil_l; by apply Hb|].
  induction lb as [|y lb IHlb]; [by rewrite mcompose_nil_r|]. destruct (is_ins y) eqn:Ey.
  { destruct y; try done. rewrite mcompose_ins_r. by apply uncut_cons_ins, IHlb. }
  destruct x as [x a|a|].
  - rewrite mcompose_cons by done. assert (uncut k (mcompose la lb)) as H.
    { apply IH; [done..|]. intros k' E. specialize (Hb (S k')). cbn in Hb. rewrite E in Hb.
      apply (uncut_base y lb k'); [done|by eapply carried_pos|by apply Hb]. }
    by destruct y.
  - rewrite mcompose_cons by done. assert (∃ z, comb (MRet a) y = [z] ∧ is_ins z = false) as (z & Ez & Hz) by (destruct y; try done; eauto).
    rewrite Ez. cbn [app]. destruct k as [|[|k]]; [lia|..].
    + apply uncut_head in Ha; [|done]. destruct la as [|x2 la]; [done|]. injection Ha as ->.
      pose proof (Hb 1%nat eq_refl) as H1. apply uncut_head in H1; [|done]. destruct lb as [|y2 lb]; [done|]. injection H1 as ->.
      rewrite mcompose_cons by done. rewrite Ez. by apply uncut_head.
    + apply uncut_base; [done|lia|]. apply IH; [lia|by apply (uncut_base (MRet a)); [|lia|]|].
      intros k' E. specialize (Hb (S k')). cbn in Hb. rewrite E in Hb.
      apply (uncut_base y lb k'); [done|eapply carried_pos; [|done]; lia|by apply Hb].
  - rewrite mcompose_del_l by done. destruct k as [|[|k]]; [lia|..].
    + apply uncut_head in Ha; [|done]. destruct la as [|x2 la]; [done|]. injection Ha as ->.
      rewrite mcompose_del_l by done. by apply uncut_head.
    + apply uncut_base; [done|lia|]. apply IH; [lia|by apply (uncut_base MDel); [|lia|]|]. intros k' E. by apply Hb.
Qed.

Lemma carried_unit D la (k k' : nat) (x : sym) (a : Attributes) :
  all_ins D → (1 ≤ k)%nat → uncut k la → carried la k = Some k' → D !! k = Some (MIns x a) →
  ∃ a' : Attributes, mcompose D la !! k' = Some (MIns x a').
Proof.
  intros HD. revert D k k' HD. induction la as [|m la IH]; intros D k k' HD Hk Hu Hc Hl.
  { injection Hc as <-. rewrite mcompose_nil_r. eauto. }
  destruct m as [y b|b|].
  - apply fmap_Some in Hc as (j & Hc & ->). rewrite mcompose_ins_r. by eapply IH.
  - destruct HD as [|d D Hd HD]; [done|]. destruct d as [z e|e|]; try done. rewrite mcompose_cons by done.
    destruct k as [|[|k]]; [lia|..].
    + injection Hc as <-. apply uncut_head in Hu; [|done]. destruct la as [|m2 la]; [done|]. injection Hu as ->.
      destruct D as [|d2 D]; [done|]. injection Hl as ->. rewrite mcompose_cons by done. cbn. eauto.
    + apply fmap_Some in Hc as (j & Hc & ->). cbn. eapply IH; [done| | |done..]; [lia|].
      by apply (uncut_base (MRet b)); [|lia|].
  - destruct HD as [|d D Hd HD]; [done|]. destruct d as [z e|e|]; try done. rewrite mcompose_cons by done. cbn.
    destruct k as [|[|k]]; [done..|]. eapply IH; [done| | |done..]; [lia|]. by apply (uncut_base MDel); [|lia|].
Qed.

(** ** Two changes in one *)

Lemma compose_valid d a b :
  document_ops d → nonempty d → nonempty a → nonempty b → valid a d → valid b (compose d a) →
  (total d + total a < usize_max)%N → (total a + total b < usize_max)%N → valid (compose a b) d.
Proof.
  intros Hd Hnd Hna Hnb Ha Hb Ht1 Ht2. pose proof (document_all_ins d Hd) as HD.
  destruct (compose_apply d a) as (E & Hd' & _); [done..|]. pose proof (document_all_ins _ Hd') as HD'.
  destruct (compose_den a b) as (Hch & _ & n & Hn); [done|done|by apply (valid_fits_change d)|done|].
  pose proof Ha as [Hfa Hla]. pose proof Hb as [Hfb Hlb]. split.
  - apply list.Forall_forall. intros k Hk. apply canonical_cuts in Hk as [Hk Hcut]; [|apply Hch].
    destruct (not_low_dec (drop (N.to_nat k) (tsyms (den d)))) as [|Hlow]; [done|]. exfalso. apply Hcut.
    assert (uncut (N.to_nat k) (den a)) as Hua by (eapply fits_uncut; [done|lia|done]).
    assert (uncut (N.to_nat k) (mcompose (den a) (den b))) as Hu.
    { apply uncut_mcompose; [lia|done|]. intros k' Hk'. eapply fits_uncut; [done|eapply carried_pos; [|done]; lia|].
      apply low_at_unit in Hlow as (x & at_ & Hx); [|done]. apply low_at_unit; [done|]. rewrite E.
      destruct (carried_unit (den d) (den a) (N.to_nat k) k' _ _ HD ltac:(lia) Hua Hk' Hx) as [a' Ha']. eauto. }
    apply uncut_mnf in Hu; [|lia]. rewrite <- (meq_mnf _ _ Hn), mnf_plain, mnf_den in Hu by apply Hch.
    eapply uncut_plain; [|exact Hu]. intros l' x. by apply chopped_den_last.
  - apply meq_perm, nbase_perm in Hn. rewrite nbase_app, nbase_mcompose in Hn.
    assert (length (den (compose d a)) = length (tsyms (den a)) + (length (den d) - nbase (den a)))%nat as El.
    { rewrite E. apply length_mcompose; [done|]. rewrite <- blen_nbase, length_den. lia. }
    rewrite !length_den, <- blen_nbase in El. rewrite <- !blen_nbase in Hn. lia.
Qed.

Lemma compose_assoc d a b :
  good_doc d → nonempty a → nonempty b → valid a d → valid b (compose d a) →
  (total d + 2 * total a + total b < usize_max)%N →
  compose (compose d a) b = compose d (compose a b).
Proof.
  intros Hg Hna Hnb Ha Hb Ht. pose proof (good_nonempty d Hg) as Hnd. destruct Hg as (Hdo & Hcan & _).
  destruct (compose_apply d a) as (_ & Hdo1 & Hch1 & Hc1); [done..|lia|].
  destruct (compose_den d a) as (_ & Hlen & _); [done|done|apply Ha|lia|].
  destruct (compose_apply (compose d a) b) as (_ & Hdo2 & Hch2 & Hc2); [done|by apply chopped_nonempty|done..|lia|].
  assert (fits (tsyms (den a)) b) as Hf by (eapply (valid_fits_change d); [done..|lia|done]).
  destruct (compose_den a b) as (Hch & Hlen2 & k & Hk); [done|done|done|lia|].
  pose proof (compose_valid d a b Hdo Hnd Hna Hnb Ha Hb ltac:(lia) ltac:(lia)) as Hv.
  destruct (compose_apply d (compose a b)) as (_ & Hdo3 & Hch3 & Hc3); [done|done|by apply chopped_nonempty|done|lia|].
  apply document_unique; [done|done|apply Hch2|apply Hch3|].
  rewrite Hc2, Hc3, Hc1. rewrite <- (apply_spec_plain _ (den (compose a b)) k), (apply_spec_meq _ _ _ Hk).
  symmetry. apply apply_spec_mcompose. unfold doc_cells. rewrite length_cells, length_den by by apply document_all_ins.
  destruct Ha as [_ Ha]. rewrite <- blen_nbase. lia.
Qed.

End sequence.
