(* ===== verification/DocGuarantees.v ===== *)
(** * What the server's document guarantees ([crates/gal-ot/src/lib.rs])

    The headline properties of [ServerDoc]: a client's op is accepted and converges, the bounded history
    gives exact rollback and exact earlier revisions, and the log replays to the document. *)

From S2P Require Import Prelude Json Attributes Text Delta DeltaSpec DeltaAlg DeltaPush DeltaCanon.
From S2P Require Import DeltaIter DeltaLoops DeltaTransform DeltaTheory DeltaApply DeltaValidate.
From S2P Require Import DeltaInvert DeltaDiff ServerDoc ServerDocTheory.

Section guarantees.
Context `{J : Json}.
Implicit Types d doc c a b base delta : list Op.
Implicit Types sd : ServerDoc.

(** What a submission must look like: no empty op, no null attribute inserted, room in [usize]. *)
Definition submittable sd delta : Prop :=
  nonempty delta ∧ clean_mops (den delta) ∧
  (total (doc_content sd) + 2 * (total delta + hist_total (doc_history sd)) < usize_max)%N ∧
  (doc_revision sd < usize_max)%N.

Lemma apply_step sd k delta author entry sd' :
  doc_ok sd → submittable sd delta → apply sd k delta author = Ok (entry, sd') →
  doc_ok sd' ∧ good_change (rev_delta entry) (doc_content sd) ∧
  rev_undo entry = invert (rev_delta entry) (doc_content sd) ∧ rev_author entry = author ∧
  rev_revision entry = (doc_revision sd + 1)%N ∧ doc_revision sd' = (doc_revision sd + 1)%N ∧
  doc_content sd' = compose (doc_content sd) (rev_delta entry) ∧
  doc_history sd' = trim_history (doc_history sd ++ [entry]).
Proof.
  intros Hok (Hn & Hc & Ht & Hr) Ha.
  destruct (apply_ok_good _ _ _ _ _ _ Hok Hn Hc Ht Ha) as (Hg & He & ->).
  pose proof (commit_ok sd (rev_delta entry) author Hok Hg Hr) as Hok'. cbv zeta in Hok'. rewrite <- He in Hok'.
  assert (wadd (doc_revision sd) 1 = doc_revision sd + 1)%N as Hw by (apply wadd_small; lia).
  split_and!; [done..| | | | | |]; try (rewrite He; done); by rewrite ?He, ?Hw.
Qed.


(** Whatever is accepted, valid or not where it was written, keeps the document in order: the
    content stays a canonical document without null attributes, the history a run of at most
    [MAX_HISTORY] valid changes leading to it, each with its exact inverse. *)
Theorem apply_keeps_document_ok sd k delta author entry sd' :
  doc_ok sd → submittable sd delta → apply sd k delta author = Ok (entry, sd') →
  doc_ok sd' ∧ good_doc (doc_content sd') ∧ (length (doc_history sd') ≤ MAX_HISTORY)%nat.
Proof.
  intros Hok Hs Ha. destruct (apply_step _ _ _ _ _ _ Hok Hs Ha) as (Hok' & _).
  split_and!; [done|by apply doc_ok_good|]. by destruct Hok' as (? & ? & _ & _ & _ & ?).
Qed.

(** C33: [apply] refuses for exactly three reasons, tested in this order: a revision from the future, one
    older than what is retained, or a rebased change that does not fit the content, reported with its
    first offence.  It never answers [NotADocument]. *)
Theorem apply_refusals sd k delta author e :
  apply sd k delta author = Err e ↔
  ((doc_revision sd < k)%N ∧ e = RevisionInFuture k (doc_revision sd)) ∨
  ((k ≤ doc_revision sd)%N ∧ (k < oldest_retained sd)%N ∧ e = RevisionTooOld k (oldest_retained sd)) ∨
  ((oldest_retained sd ≤ k ≤ doc_revision sd)%N ∧ ∃ bad,
     first_bad (to_plain_text (doc_content sd)) (bounds 0 (rebase (history_since sd k) delta)) = Err bad ∧
     e = ot_error bad).
Proof.
  unfold apply. rewrite validate_first_bad.
  destruct (first_bad _ _) as [[]|bad]; simpl;
    (destruct (doc_revision sd <? k)%N eqn:E1; [|destruct (k <? oldest_retained sd)%N eqn:E2]);
    bool_to_prop; split; try naive_solver lia.
  all: intros [(? & ->)|[(? & ? & ->)|(? & bad' & ? & ->)]]; simplify_eq; try lia; done.
Qed.

(** [rollback_last] undoes the last [apply]. *)
Lemma rollback_undoes sd k delta author entry sd' :
  doc_ok sd → submittable sd delta → apply sd k delta author = Ok (entry, sd') →
  ∃ sd'', rollback_last sd' = (true, sd'') ∧ doc_content sd'' = doc_content sd ∧
    doc_revision sd'' = doc_revision sd ∧
    doc_history sd'' = drop (length (doc_history sd) - (MAX_HISTORY - 1)) (doc_history sd) ∧
    ((length (doc_history sd) < MAX_HISTORY)%nat → sd'' = sd).
Proof.
  intros Hok Hs Ha. destruct (apply_step _ _ _ _ _ _ Hok Hs Ha) as (_ & Hg & Hu & _ & _ & Hr & Hc & Hh).
  set (n := (length (doc_history sd) - (MAX_HISTORY - 1))%nat).
  assert (doc_history sd' = drop n (doc_history sd) ++ [entry]) as Hh'.
  { rewrite Hh. unfold trim_history. rewrite length_app. simpl.
    rewrite drop_app_le; [|destruct Hok as (? & ? & _ & _ & _ & ?)]; unfold n, MAX_HISTORY in *; [|lia].
    do 2 f_equal. lia. }
  unfold rollback_last. rewrite Hh', last_snoc. eexists. split; [done|]. simpl.
  rewrite length_app. simpl. rewrite Nat.add_sub, take_app_length, Hc, Hr.
  rewrite undo_one by (done || by apply doc_ok_good).
  split_and!; [done|lia|done|]. intros Hl. replace n with 0%nat by (unfold n, MAX_HISTORY in *; lia).
  rewrite drop_0. destruct sd; simpl. f_equal. lia.
Qed.


(** ** Logs *)

(** The documents reached from a fresh one by accepted submissions, with the log of what was committed. *)
Inductive reached : ServerDoc → list Revision → Prop :=
| reached_new : reached doc_new []
| reached_apply sd log k delta author entry sd' :
    reached sd log → submittable sd delta → apply sd k delta author = Ok (entry, sd') →
    reached sd' (log ++ [entry]).

Lemma doc_new_ok : doc_ok doc_new.
Proof. exists [], 0%N. split_and!; simpl; try done; [|lia]. split_and!; [by constructor|done|by constructor]. Qed.

Lemma replay_snoc (log : list Revision) entry n :
  (n ≤ length log)%nat → replay (rev_delta <$> log ++ [entry]) n = replay (rev_delta <$> log) n.
Proof. intros H. unfold replay. by rewrite fmap_app, take_app_le by (by rewrite length_fmap). Qed.

Lemma replay_all (log : list Revision) entry :
  replay (rev_delta <$> log ++ [entry]) (length (log ++ [entry])) =
  compose (replay (rev_delta <$> log) (length log)) (rev_delta entry).
Proof.
  unfold replay. rewrite !firstn_all2 by (by rewrite length_fmap). by rewrite fmap_app, foldl_app.
Qed.

(** The log counts the revisions and replays to the content. *)
Lemma reached_log sd log :
  reached sd log →
  doc_ok sd ∧ doc_revision sd = N.of_nat (length log) ∧
  doc_content sd = replay (rev_delta <$> log) (length log).
Proof.
  induction 1 as [|sd log k delta author entry sd' _ (Hok & Hrev & Hc) Hs Ha]; [by pose proof doc_new_ok|].
  destruct (apply_step _ _ _ _ _ _ Hok Hs Ha) as (Hok' & Hg & Hu & _ & _ & Hr' & Hc' & _).
  split_and!; [done|rewrite length_app; simpl; lia|by rewrite replay_all, <- Hc].
Qed.

Lemma undo_to_app l l' k doc :
  Forall (λ r, (rev_revision r ≤ k)%N) l' → undo_to (l ++ l') k doc = undo_to l k doc.
Proof.
  intros H. revert doc. induction l as [|r l IH]; intros doc; simpl.
  - destruct H as [|r l' Hr]; [done|]. simpl. by rewrite (proj2 (N.leb_le _ _)).
  - by rewrite IH.
Qed.

Lemma at_revision_undo sd k :
  doc_ok sd → (oldest_retained sd ≤ k ≤ doc_revision sd)%N →
  at_revision sd k = Some (undo_to (reverse (doc_history sd)) k (doc_content sd)).
Proof.
  intros (base & rev & Hb & Hh & Hr & _) Hk. unfold at_revision.
  destruct (k =? doc_revision sd)%N eqn:E; bool_to_prop.
  - rewrite (undo_to_stop _ _ _ _ _ _ Hh) by lia. done.
  - rewrite !(proj2 (N.ltb_ge _ _)) by lia. done.
Qed.

Lemma oldest_le sd : doc_ok sd → (oldest_retained sd ≤ doc_revision sd)%N.
Proof. intros (base & rev & _ & Hh & Hr & _). rewrite (oldest_retained_base _ _ _ Hh Hr). lia. Qed.

(** Committing a change leaves the earlier revisions that are still retained as they were. *)
Lemma at_revision_stable sd k delta author entry sd' j :
  doc_ok sd → submittable sd delta → apply sd k delta author = Ok (entry, sd') →
  (oldest_retained sd' ≤ j ≤ doc_revision sd)%N →
  (oldest_retained sd ≤ j)%N ∧ at_revision sd' j = at_revision sd j.
Proof.
  intros Hok Hs Ha Hj.
  destruct (apply_step _ _ _ _ _ _ Hok Hs Ha) as (Hok' & Hg & Hu & _ & He & Hr & Hc & Hh).
  set (n := (length (doc_history sd ++ [entry]) - MAX_HISTORY)%nat).
  assert (n ≤ length (doc_history sd))%nat as Hn.
  { unfold n. rewrite length_app. simpl. destruct Hok as (? & ? & _ & _ & _ & ?). unfold MAX_HISTORY in *. lia. }
  assert (doc_history sd' = drop n (doc_history sd) ++ [entry]) as Hh'.
  { rewrite Hh. unfold trim_history. fold n. by rewrite drop_app_le. }
  pose proof Hok as (base & rev & Hb & Hhist & Hrev & _).
  pose proof (oldest_retained_base _ _ _ Hhist Hrev) as Ho.
  rewrite <- (take_drop n (doc_history sd)) in Hhist.
  pose proof Hhist as (mid & H1 & H2)%hist_app. rewrite length_take_le in H2 by done.
  assert (oldest_retained sd' = rev + N.of_nat n)%N as Ho'.
  { unfold oldest_retained. rewrite Hh'. destruct (drop n (doc_history sd)) as [|r h] eqn:E; simpl.
    - apply (f_equal length) in E. rewrite length_drop in E. simpl in E. lia.
    - destruct H2 as (-> & _). lia. }
  split; [lia|]. rewrite !at_revision_undo by (done || lia). f_equal.
  rewrite Hh', reverse_snoc. simpl. rewrite (proj2 (N.leb_gt _ _)) by lia.
  rewrite Hc, undo_one by (done || by apply doc_ok_good).
  rewrite <- (take_drop n (doc_history sd)) at 2. rewrite reverse_app. symmetry. apply undo_to_app.
  apply list.Forall_forall. intros r Hin. rewrite elem_of_reverse in Hin. apply list_elem_of_lookup in Hin as [i Hi].
  pose proof (hist_revisions _ _ _ _ _ _ H1 Hi). apply lookup_lt_Some in Hi.
  rewrite length_take_le in Hi by done. lia.
Qed.


End guarantees.

(** ** Concrete instances

    A document typed in two steps; then a client that has only seen the first step types too. *)

Ltac concrete := repeat constructor; (done || (vm_compute; intuition congruence)).

Definition typed : Delta := from_ops [op_insert (lit "hello")].
Definition edit1 : Delta := from_ops [op_retain 5; op_insert (lit "!")].
Definition edit2 : Delta := from_ops [op_delete 1; op_insert (lit "J")].

Definition commit (sd : ServerDoc) (k : N) (delta : Delta) : ServerDoc :=
  match apply sd k delta (lit "u_a") with Ok (_, sd) => sd | Err _ => sd end.
Definition entry_of (sd : ServerDoc) (k : N) (delta : Delta) : Revision :=
  match apply sd k delta (lit "u_a") with Ok (e, _) => e | Err _ => mkRevision 0 [] [] [] end.

Definition sd1 : ServerDoc := commit doc_new 0 typed.
Definition sd2 : ServerDoc := commit sd1 1 edit1.
Definition sd3 : ServerDoc := commit sd2 1 edit2.

Lemma clean_plain (d : Delta) : Forall (λ op, op_attributes op = ∅) d → clean_mops (den d).
Proof.
  intros H. unfold clean_mops. apply list.Forall_forall. intros m [op [Hm Hop]]%list_elem_of_bind.
  apply list.Forall_forall with (x := op) in H; [|done]. unfold den_op in Hm. rewrite H in Hm.
  destruct (op_kind op) as [[s|v]|n|n].
  - apply list_elem_of_fmap in Hm as (x & -> & _). apply no_nulls_empty.
  - apply list_elem_of_singleton in Hm as ->. apply no_nulls_empty.
  - by apply elem_of_replicate_inv in Hm as ->.
  - by apply elem_of_replicate_inv in Hm as ->.
Defined.

Lemma submittable_typed : submittable doc_new typed.
Proof. split_and!; [concrete|apply clean_plain; concrete|done|done]. Defined.
Lemma submittable_edit1 : submittable sd1 edit1.
Proof. split_and!; [concrete|apply clean_plain; concrete|done|done]. Defined.
Lemma submittable_edit2 : submittable sd2 edit2.
Proof. split_and!; [concrete|apply clean_plain; concrete|done|done]. Defined.

Lemma reached_sd2 : reached sd2 [entry_of doc_new 0 typed; entry_of sd1 1 edit1].
Proof.
  apply (reached_apply sd1 [_] 1 edit1 (lit "u_a")); [|apply submittable_edit1|done].
  apply (reached_apply doc_new [] 0 typed (lit "u_a")); [apply reached_new|apply submittable_typed|done].
Defined.

Lemma doc_ok_sd2 : doc_ok sd2.
Proof. by destruct (reached_log _ _ reached_sd2). Defined.


Lemma apply_keeps_document_ok_witness :
  doc_ok sd3 ∧ good_doc (doc_content sd3) ∧ (length (doc_history sd3) ≤ MAX_HISTORY)%nat.
Proof.
  apply (apply_keeps_document_ok sd2 1 edit2 (lit "u_a") (entry_of sd2 1 edit2));
    [apply doc_ok_sd2|apply submittable_edit2|done].
Defined.


