(* ===== verification/Model.v ===== *)
(** * The domain model ([crates/gal-core/src/model.rs])

    Identifiers are strings, timestamps and sequence numbers are integers.  [now()] and
    [uuid::Uuid::new_v4()] are inputs: every function that mints an id or reads the clock takes them
    as arguments. *)

From S2P Require Import Prelude Strings Json Attributes Text Delta.

Abbreviation Timestamp := Z (only parsing).
Abbreviation UserId := str (only parsing).
Abbreviation WaveId := str (only parsing).
Abbreviation WaveletId := str (only parsing).
Abbreviation BlipId := str (only parsing).
Abbreviation CommentId := str (only parsing).
Abbreviation AttachmentId := str (only parsing).

(** ** Identifiers *)

(** [$name::new()]: a prefix and the simple form of a fresh UUID. *)
Definition id_new (prefix uuid : str) : str := prefix ++ uuid.

Definition ID_MAX_LEN : N := 64.

Definition id_well_formed (prefix id : str) : bool :=
  match strip_prefix id prefix with
  | None => false
  | Some rest =>
      negb (bool_decide (rest = [])) && (str_len id <=? ID_MAX_LEN)%N
      && forallb is_ascii_alphanumeric rest
  end.

Definition user_id_is_well_formed (id : UserId) : bool := id_well_formed (lit "u-") id.
Definition comment_id_is_well_formed (id : CommentId) : bool := id_well_formed (lit "c-") id.

Definition COMMENT_ATTRIBUTE : str := lit "comment".
Definition MENTION_ATTRIBUTE : str := lit "mention".

(** ** Users *)

Record User := mkUser {
  user_id : UserId;
  user_name : str;
  user_display_name : str;
  user_email : str;
  user_password_hash : str;
  user_color : N;
  user_created_at : Timestamp;
}.

Record PublicUser := mkPublicUser {
  pu_id : UserId;
  pu_name : str;
  pu_display_name : str;
  pu_color : N;
}.

Definition public (u : User) : PublicUser :=
  mkPublicUser (user_id u) (user_name u) (user_display_name u) (user_color u).

(** FNV-1a over the bytes, folded into the hue circle; [u64] arithmetic wraps. *)
Definition fnv_step (hash byte : N) : N := (N.lxor hash byte * 1099511628211 mod two64)%N.

Definition color_for (name : str) : N :=
  (foldl fnv_step 14695981039346656037 (as_bytes name) mod 360)%N.

(** ** Waves *)

Inductive WaveMode := Document | Chat | Announcement | Notepad | Frozen.

#[global] Instance WaveMode_eq_dec : EqDecision WaveMode.
Proof. solve_decision. Defined.

Definition WaveMode_ALL : list WaveMode := [Document; Chat; Announcement; Notepad; Frozen].

Definition mode_as_str (m : WaveMode) : str :=
  match m with
  | Document => lit "document"
  | Chat => lit "chat"
  | Announcement => lit "announcement"
  | Notepad => lit "notepad"
  | Frozen => lit "frozen"
  end.

Definition mode_parse (value : str) : option WaveMode :=
  snd <$> list_find (λ m, mode_as_str m = value) WaveMode_ALL.

Definition mode_label (m : WaveMode) : str :=
  match m with
  | Document => lit "Document"
  | Chat => lit "Chat"
  | Announcement => lit "Announcement"
  | Notepad => lit "Notepad"
  | Frozen => lit "Frozen"
  end.

Definition is_frozen (m : WaveMode) : bool := bool_decide (m = Frozen).

Definition allows_new_message (m : WaveMode) (is_creator : bool) : bool :=
  match m with
  | Document | Chat => true
  | Announcement => is_creator
  | Notepad | Frozen => false
  end.

Definition allows_replies (m : WaveMode) : bool :=
  match m with Document | Announcement => true | _ => false end.

Definition allows_edit (m : WaveMode) (is_author : bool) : bool :=
  match m with
  | Document | Notepad => true
  | Chat | Announcement => is_author
  | Frozen => false
  end.

Definition allows_delete (m : WaveMode) : bool :=
  match m with Document | Chat | Announcement => true | _ => false end.

Definition allows_retitle (m : WaveMode) (is_creator : bool) : bool :=
  match m with
  | Document | Chat | Notepad => true
  | Announcement => is_creator
  | Frozen => false
  end.

Definition allows_comments (m : WaveMode) : bool := match m with Notepad => true | _ => false end.

Definition allows_resolve (m : WaveMode) : bool := negb (is_frozen m).

Definition allows_private_reply (m : WaveMode) : bool :=
  match m with Document | Chat | Announcement => true | _ => false end.

Definition is_flat (m : WaveMode) : bool := match m with Chat | Notepad => true | _ => false end.

Record Wave := mkWave {
  wave_id : WaveId;
  wave_creator : UserId;
  wave_created_at : Timestamp;
  wave_mode : WaveMode;
}.

Inductive WaveletKind := Conversation | PrivateReplyKind.

#[global] Instance WaveletKind_eq_dec : EqDecision WaveletKind.
Proof. solve_decision. Defined.

Record Wavelet := mkWavelet {
  wl_id : WaveletId;
  wl_wave_id : WaveId;
  wl_kind : WaveletKind;
  wl_title : str;
  wl_participants : list UserId;
  wl_anchor_blip : option BlipId;
  wl_created_at : Timestamp;
  wl_last_modified : Timestamp;
}.

Definition has_participant (w : Wavelet) (user : UserId) : bool :=
  existsb (λ p, str_eqb p user) (wl_participants w).

(** ** Blips *)

Section blip.
Context `{J : Json}.

Record Blip := mkBlip {
  blip_id : BlipId;
  blip_wavelet_id : WaveletId;
  blip_wave_id : WaveId;
  blip_parent : option BlipId;
  blip_comment : option CommentId;
  blip_seq : Z;
  blip_author : UserId;
  blip_contributors : list UserId;
  blip_created_at : Timestamp;
  blip_last_modified : Timestamp;
  blip_content : Delta;
  blip_revision : N;
  blip_deleted : bool;
}.

Definition blip_new (uuid : str) (ts : Timestamp) (wave_id : WaveId) (wavelet_id : WaveletId)
    (author : UserId) (parent : option BlipId) (seq : Z) : Blip :=
  mkBlip (id_new (lit "b-") uuid) wavelet_id wave_id parent None seq author [author] ts ts [] 0 false.

Definition with_contributors (b : Blip) (contributors : list UserId) (ts : Timestamp) : Blip :=
  mkBlip (blip_id b) (blip_wavelet_id b) (blip_wave_id b) (blip_parent b) (blip_comment b) (blip_seq b)
    (blip_author b) contributors (blip_created_at b) ts (blip_content b) (blip_revision b) (blip_deleted b).

Definition record_contributor (ts : Timestamp) (b : Blip) (user : UserId) : Blip :=
  let contributors :=
    if existsb (λ c, str_eqb c user) (blip_contributors b) then blip_contributors b
    else blip_contributors b ++ [user] in
  with_contributors b contributors ts.

Definition preview (b : Blip) (max_chars : nat) : str :=
  let text := to_plain_text (blip_content b) in
  let line := default [] (snd <$> list_find (λ l, trim l ≠ []) (lines text)) in
  let trimmed := trim line in
  if (length trimmed <=? max_chars)%nat then trimmed
  else trim_end (take max_chars trimmed) ++ [8230%N].

End blip.

Record CommentThread := mkThread {
  ct_id : CommentId;
  ct_wavelet_id : WaveletId;
  ct_blip_id : BlipId;
  ct_author : UserId;
  ct_created_at : Timestamp;
  ct_resolved_by : option UserId;
  ct_resolved_at : option Timestamp;
}.

Definition ct_resolved (t : CommentThread) : bool :=
  match ct_resolved_by t with Some _ => true | None => false end.

Record ReadMark := mkReadMark { rm_user_id : UserId; rm_blip_id : BlipId; rm_revision : N }.

Record WaveFlags := mkFlags { fl_archived : bool; fl_muted : bool }.

Definition flags_default : WaveFlags := mkFlags false false.

Record Attachment := mkAttachment {
  at_id : AttachmentId;
  at_wavelet_id : WaveletId;
  at_name : str;
  at_mime : str;
  at_size : N;
  at_uploader : UserId;
  at_created_at : Timestamp;
}.

(** ** Lemmas *)

Lemma str_eqb_spec a b : str_eqb a b = true ↔ a = b.
Proof. apply bool_decide_eq_true. Qed.

Lemma has_participant_spec w u : has_participant w u = true ↔ u ∈ wl_participants w.
Proof.
  unfold has_participant. rewrite existsb_exists. setoid_rewrite str_eqb_spec.
  rewrite list_elem_of_In. naive_solver.
Qed.

Lemma mode_as_str_inj m n : mode_as_str m = mode_as_str n → m = n.
Proof. by destruct m, n. Qed.

Lemma mode_parse_as_str m : mode_parse (mode_as_str m) = Some m.
Proof. by destruct m. Qed.

Lemma mode_parse_some v m : mode_parse v = Some m → v = mode_as_str m.
Proof.
  unfold mode_parse. intros ([i m'] & E & H)%fmap_Some. apply list_find_Some in E as (_ & E & _).
  simpl in *. congruence.
Qed.

Lemma id_well_formed_spec prefix id :
  id_well_formed prefix id = true ↔
  ∃ rest, id = prefix ++ rest ∧ rest ≠ [] ∧ (str_len id ≤ ID_MAX_LEN)%N ∧
    Forall (λ c, is_ascii_alphanumeric c = true) rest.
Proof.
  unfold id_well_formed. destruct (strip_prefix id prefix) as [rest|] eqn:E.
  - apply strip_prefix_spec in E as ->. rewrite !andb_true_iff, negb_true_iff, bool_decide_eq_false, N.leb_le.
    rewrite forallb_forall. split.
    + intros [[H1 H2] H3]. exists rest. split_and!; try done. apply Forall_forall. done.
    + intros (r & Er%app_inv_head & H1 & H2 & H3). subst. split_and!; try done. by apply Forall_forall.
  - split; [done|]. intros (r & -> & _). assert (strip_prefix (prefix ++ r) prefix = Some r) by by apply strip_prefix_spec.
    congruence.
Qed.

Lemma color_for_range name : (color_for name < 360)%N.
Proof. unfold color_for. by apply N.mod_lt. Qed.
