(* ===== verification/Protocol.v ===== *)
(** * The wire protocol ([crates/gal-core/src/protocol.rs])

    The messages are the values the server decodes and encodes; their JSON is produced by [serde] and
    is not modelled.  [cost] is a double in the source, with integral values; it is a rational here. *)

From Stdlib Require Import QArith.
From S2P Require Import Prelude Json Attributes Text Delta Model.

Section protocol.
Context `{J : Json}.

(** ** Views *)

Record BlipView := mkBlipView {
  bv_id : BlipId;
  bv_wavelet_id : WaveletId;
  bv_parent : option BlipId;
  bv_comment : option CommentId;
  bv_seq : Z;
  bv_author : UserId;
  bv_contributors : list UserId;
  bv_created_at : Timestamp;
  bv_last_modified : Timestamp;
  bv_content : Delta;
  bv_revision : N;
  bv_unread : bool;
}.

Record WaveletView := mkWaveletView {
  wv_id : WaveletId;
  wv_wave_id : WaveId;
  wv_kind : WaveletKind;
  wv_title : str;
  wv_participants : list PublicUser;
  wv_anchor_blip : option BlipId;
  wv_created_at : Timestamp;
  wv_last_modified : Timestamp;
  wv_blips : list BlipView;
  wv_comments : list CommentThread;
}.

Record WaveView := mkWaveView {
  view_id : WaveId;
  view_creator : UserId;
  view_created_at : Timestamp;
  view_wavelets : list WaveletView;
  view_flags : WaveFlags;
  view_mode : WaveMode;
}.

Record WaveSummary := mkSummary {
  su_id : WaveId;
  su_title : str;
  su_participants : list PublicUser;
  su_last_modified : Timestamp;
  su_snippet : str;
  su_snippet_author : option UserId;
  su_blip_count : N;
  su_unread_count : N;
  su_flags : WaveFlags;
}.

Record PresenceEntry := mkPresence { pe_user : PublicUser; pe_editing : option BlipId }.

Record PlaybackFrame := mkFrame {
  pf_blip_id : BlipId;
  pf_revision : N;
  pf_author : UserId;
  pf_timestamp : Timestamp;
  pf_delta : Delta;
  pf_created : bool;
}.

Record SearchHit := mkHit {
  sh_wave_id : WaveId;
  sh_blip_id : BlipId;
  sh_title : str;
  sh_snippet : str;
  sh_author : UserId;
  sh_timestamp : Timestamp;
}.

(** ** Client to server *)

Inductive ClientMessage : Type :=
| Open (wave_id : WaveId)
| Close (wave_id : WaveId)
| CreateWave (title : str) (participants : list str) (content : option Delta) (mode : option WaveMode)
| Submit (blip_id : BlipId) (revision : N) (delta : Delta) (op_id : option str)
| CreateBlip (wavelet_id : WaveletId) (parent : option BlipId) (content : option Delta)
| DeleteBlip (blip_id : BlipId)
| SetTitle (wavelet_id : WaveletId) (title : str)
| SetMode (wave_id : WaveId) (mode : WaveMode)
| AddParticipant (wavelet_id : WaveletId) (name : str)
| RemoveParticipant (wavelet_id : WaveletId) (user_id : UserId)
| CreateComment (wavelet_id : WaveletId) (blip_id : BlipId) (comment_id : CommentId) (content : option Delta)
| ReplyToComment (comment_id : CommentId) (content : option Delta)
| ResolveComment (comment_id : CommentId) (resolved : bool)
| PrivateReply (wavelet_id : WaveletId) (anchor : BlipId) (participants : list str)
| Cursor (wave_id : WaveId) (blip_id : BlipId) (index length : N)
| MarkRead (wave_id : WaveId)
| SetFlags (wave_id : WaveId) (flags : WaveFlags)
| RequestPlayback (wave_id : WaveId)
| Search (query : str)
| Ping.

Definition name (m : ClientMessage) : str :=
  match m with
  | Open _ => lit "open"
  | Close _ => lit "close"
  | CreateWave _ _ _ _ => lit "createWave"
  | Submit _ _ _ _ => lit "submit"
  | CreateBlip _ _ _ => lit "createBlip"
  | DeleteBlip _ => lit "deleteBlip"
  | SetTitle _ _ => lit "setTitle"
  | SetMode _ _ => lit "setMode"
  | AddParticipant _ _ => lit "addParticipant"
  | RemoveParticipant _ _ => lit "removeParticipant"
  | CreateComment _ _ _ _ => lit "createComment"
  | ReplyToComment _ _ => lit "replyToComment"
  | ResolveComment _ _ => lit "resolveComment"
  | PrivateReply _ _ _ => lit "privateReply"
  | Cursor _ _ _ _ => lit "cursor"
  | MarkRead _ => lit "markRead"
  | SetFlags _ _ => lit "setFlags"
  | RequestPlayback _ => lit "requestPlayback"
  | Search _ => lit "search"
  | Ping => lit "ping"
  end.

Definition cost (m : ClientMessage) : Q :=
  match m with
  | RequestPlayback _ => 60
  | Search _ => 20
  | CreateWave _ _ _ _ | PrivateReply _ _ _ => 20
  | CreateBlip _ _ _ | CreateComment _ _ _ _ | AddParticipant _ _ | RemoveParticipant _ _ => 5
  | DeleteBlip _ | ReplyToComment _ _ | ResolveComment _ _ | SetTitle _ _ | SetMode _ _
  | SetFlags _ _ | Open _ => 3
  | Submit _ _ _ _ | Cursor _ _ _ _ | MarkRead _ | Close _ | Ping => 1
  end.

(** ** Server to client *)

Inductive ErrorCode := NotFound | BadRequest | Resync | Forbidden | TooManyRequests | Internal.

#[global] Instance ErrorCode_eq_dec : EqDecision ErrorCode.
Proof. solve_decision. Defined.

Inductive ServerMessage : Type :=
| Welcome (user : PublicUser) (inbox : list WaveSummary)
| WaveState (wave : WaveView)
| SOp (wave_id : WaveId) (blip_id : BlipId) (revision : N) (author : UserId) (delta : Delta)
| Ack (wave_id : WaveId) (blip_id : BlipId) (revision : N) (delta : Delta) (op_id : option str)
| BlipAdded (wave_id : WaveId) (blip : BlipView)
| BlipRemoved (wave_id : WaveId) (blip_id : BlipId)
| CommentAdded (wave_id : WaveId) (comment : CommentThread) (blip : BlipView)
| CommentResolved (wave_id : WaveId) (comment_id : CommentId) (resolved_by : option UserId)
    (resolved_at : option Timestamp)
| ModeChanged (wave_id : WaveId) (mode : WaveMode)
| TitleChanged (wave_id : WaveId) (wavelet_id : WaveletId) (title : str)
| ParticipantAdded (wave_id : WaveId) (wavelet_id : WaveletId) (user : PublicUser)
| ParticipantRemoved (wave_id : WaveId) (wavelet_id : WaveletId) (user_id : UserId)
| WaveletAdded (wave_id : WaveId) (wavelet : WaveletView)
| InboxUpdated (summary : WaveSummary)
| WaveRemoved (wave_id : WaveId)
| Presence (wave_id : WaveId) (users : list PresenceEntry)
| SCursor (wave_id : WaveId) (blip_id : BlipId) (user_id : UserId) (index length : N)
| Playback (wave_id : WaveId) (frames : list PlaybackFrame)
| SearchResults (query : str) (hits : list SearchHit)
| SError (code : ErrorCode) (message : str) (blip_id : option BlipId)
| Pong.

Definition error (code : ErrorCode) (message : str) : ServerMessage := SError code message None.
Definition resync (blip_id : BlipId) (message : str) : ServerMessage := SError Resync message (Some blip_id).

End protocol.
