(* ===== verification/Content.v ===== *)
(** * What the server accepts inside a document ([crates/gal-server/src/ws.rs], helpers)

    Seed content, attributes, embeds and titles are checked here before anything is stored. *)

From stdpp Require Import sorting.
From S2P Require Import Prelude Strings Json Attributes Text Delta Model Protocol.

(** ** Limits *)

Definition MAX_BLIP_UNITS : N := 262144.
Definition MAX_BLIP_RUNS : N := 16384.
Definition MAX_EMBED_BYTES : N := 1024.
Definition MAX_LINK_BYTES : N := 1024.

Definition FLAG_ATTRIBUTES : list str :=
  [lit "bold"; lit "italic"; lit "underline"; lit "strike"; lit "code"].

(** The dash the messages use. *)
Definition em_dash : str := [8212%N].

Section content.
Context `{J : Json}.

Abbreviation Refusal := (result unit ServerMessage).

Definition not_found : ServerMessage := error NotFound (lit "That wave is not available.").
Definition internal : ServerMessage := error Internal (lit "Something went wrong on the server.").

(** [name_blip]: attach a blip to a refusal. *)
Definition name_blip (refusal : ServerMessage) (blip_id : BlipId) : ServerMessage :=
  match refusal with SError code message _ => SError code message (Some blip_id) | m => m end.

(** One attribute of a run. *)
Definition attribute_ok (key : str) (value : Value) : bool :=
  if bool_decide (key ∈ FLAG_ATTRIBUTES) then value_is_boolean value
  else if decide (key = lit "link") then
    match value_as_str value with Some url => (str_len url <=? MAX_LINK_BYTES)%N | None => false end
  else if decide (key = COMMENT_ATTRIBUTE) then
    match value_as_str value with Some id => comment_id_is_well_formed id | None => false end
  else if decide (key = MENTION_ATTRIBUTE) then
    match value_as_str value with Some id => user_id_is_well_formed id | None => false end
  else false.

Definition accepted (kv : str * Value) : bool := is_null kv.2 || attribute_ok kv.1 kv.2.

(** A [BTreeMap] is walked in key order. *)
Definition key_le (x y : str * Value) : Prop := str_le x.1 y.1.

#[global] Instance key_le_dec x y : Decision (key_le x y).
Proof. unfold key_le. apply _. Defined.

Definition sorted_entries (a : Attributes) : list (str * Value) := merge_sort key_le (map_to_list a).

Fixpoint check_entries (l : list (str * Value)) : Refusal :=
  match l with
  | [] => Ok tt
  | (key, value) :: l =>
      if accepted (key, value) then check_entries l
      else Err (error BadRequest
        (lit "That formatting is not something this server accepts: " ++ key ++ lit "."))
  end.

Fixpoint check_attributes (delta : Delta) : Refusal :=
  match delta with
  | [] => Ok tt
  | op :: delta => _ <-? check_entries (sorted_entries (op_attributes op)); check_attributes delta
  end.

Definition embed_ok (op : Op) : bool :=
  match op_kind op with
  | OInsert (Embed value) => value_is_object value && (value_json_len value <=? MAX_EMBED_BYTES)%N
  | _ => true
  end.

Fixpoint check_embeds (delta : Delta) : Refusal :=
  match delta with
  | [] => Ok tt
  | op :: delta =>
      if embed_ok op then check_embeds delta
      else Err (error BadRequest (lit "That embedded object is not something this server accepts."))
  end.

Definition seed_content (content : option Delta) : result (option Delta) ServerMessage :=
  match content with
  | None | Some [] => Ok None
  | Some content =>
      if negb (is_document content) then
        Err (error BadRequest (lit "Initial content must consist only of insertions."))
      else if ((MAX_BLIP_UNITS <? delta_len content) || (MAX_BLIP_RUNS <? N.of_nat (length content)))%N then
        Err (error BadRequest (lit "That message is too large."))
      else
        _ <-? check_embeds content;
        _ <-? check_attributes content;
        Ok (Some content)
  end.

Definition normalise_title (title : str) : str :=
  let cleaned := filter (λ c, is_control c = false) (trim title) in
  let cleaned := if decide (cleaned = []) then lit "Untitled wave" else cleaned in
  take 200 cleaned.

(** ** What passes the checks *)

Definition attributes_ok (a : Attributes) : Prop := map_Forall (λ k v, accepted (k, v) = true) a.

Lemma check_entries_ok l : check_entries l = Ok tt ↔ Forall (λ kv, accepted kv = true) l.
Proof.
  induction l as [|[k v] l IH]; simpl; [done|]. rewrite list.Forall_cons, <- IH.
  destruct (accepted (k, v)); naive_solver.
Qed.

Lemma sorted_entries_perm a : sorted_entries a ≡ₚ map_to_list a.
Proof. apply merge_sort_Permutation. Qed.

Lemma check_entries_sorted a : check_entries (sorted_entries a) = Ok tt ↔ attributes_ok a.
Proof.
  rewrite check_entries_ok, sorted_entries_perm. unfold attributes_ok. rewrite map_Forall_to_list.
  apply Forall_iff. by intros [k v].
Qed.

Lemma result_unit {E} (r : result unit E) : r = Ok tt ∨ ∃ e, r = Err e.
Proof. destruct r as [[]|e]; eauto. Qed.

Lemma check_attributes_ok d : check_attributes d = Ok tt ↔ Forall (λ op, attributes_ok (op_attributes op)) d.
Proof.
  induction d as [|op d IH]; simpl; [done|]. rewrite list.Forall_cons, <- IH, <- check_entries_sorted.
  destruct (result_unit (check_entries (sorted_entries (op_attributes op)))) as [E|[e E]]; rewrite E; naive_solver.
Qed.

Lemma check_embeds_ok d : check_embeds d = Ok tt ↔ Forall (λ op, embed_ok op = true) d.
Proof.
  induction d as [|op d IH]; simpl; [done|]. rewrite list.Forall_cons, <- IH. destruct (embed_ok op); naive_solver.
Qed.

(** Everything a check refuses is refused with an error message. *)
Definition is_error (m : ServerMessage) : Prop := match m with SError _ _ _ => True | _ => False end.

Lemma check_attributes_err d e : check_attributes d = Err e → is_error e.
Proof.
  induction d as [|op d IH]; simpl; [done|].
  assert (∀ l e, check_entries l = Err e → is_error e) as H.
  { induction l as [|[k v] l IHl]; simpl; [done|]. intros e'. destruct (accepted _); [apply IHl|by intros [= <-]]. }
  destruct (result_unit (check_entries (sorted_entries (op_attributes op)))) as [E|[e' E]]; rewrite E; simpl; [done|].
  intros [= <-]. by eapply H.
Qed.

Lemma seed_content_some c d :
  seed_content c = Ok (Some d) ↔
  c = Some d ∧ d ≠ [] ∧ is_document d = true ∧ (delta_len d ≤ MAX_BLIP_UNITS)%N ∧
  (N.of_nat (length d) ≤ MAX_BLIP_RUNS)%N ∧ Forall (λ op, embed_ok op = true) d ∧
  Forall (λ op, attributes_ok (op_attributes op)) d.
Proof.
  rewrite <- check_embeds_ok, <- check_attributes_ok. unfold seed_content.
  destruct c as [[|op l]|]; [naive_solver|..|naive_solver].
  assert (op :: l ≠ []) as Hne by done. revert Hne. generalize (op :: l). clear op l. intros x Hne.
  destruct x as [|op l] eqn:Ex; [done|]. rewrite <- Ex in *.
  destruct (is_document x) eqn:E1; simpl; [|split; [done|intros ([= <-] & _ & H & _); congruence]].
  destruct ((MAX_BLIP_UNITS <? delta_len x) || (MAX_BLIP_RUNS <? N.of_nat (length x)))%N eqn:E2.
  - split; [done|]. intros ([= <-] & _ & _ & H1 & H2 & _). apply orb_true_iff in E2.
    rewrite !N.ltb_lt in E2. lia.
  - apply orb_false_iff in E2 as [H1%N.ltb_ge H2%N.ltb_ge].
    destruct (result_unit (check_embeds x)) as [E3|[e E3]], (result_unit (check_attributes x)) as [E4|[e' E4]];
      rewrite E3; simpl; rewrite ?E4; simpl; (split; [intros [= <-]|intros ([= <-] & Hrest)]);
      by first [split_and!|destruct Hrest as (_ & _ & _ & _ & ? & ?); congruence|idtac].
Qed.

Lemma normalise_title_spec t :
  normalise_title t ≠ [] ∧ (length (normalise_title t) ≤ 200)%nat ∧
  Forall (λ c, is_control c = false) (normalise_title t).
Proof.
  unfold normalise_title. set (f := filter _ (trim t)).
  assert (Forall (λ c, is_control c = false) f) as Hf.
  { apply list.Forall_forall. intros c Hc. subst f. by apply list_elem_of_filter in Hc as [? _]. }
  split_and!.
  - case_decide; [done|]. destruct f; [done|]. done.
  - rewrite length_take. lia.
  - apply Forall_take. case_decide; [|done]. vm_compute. repeat constructor.
Qed.

End content.
