(* ===== verification/DocBounds.v ===== *)
(** * Documents within the server's limits

    A stored text is a good document of at most [MAX_BLIP_UNITS] units; a resident document has, besides,
    a history of changes no longer than two such texts.  Within these limits nothing the server computes
    on documents comes near the width of a [usize], so a well-formed submission is always [submittable]. *)

From S2P Require Import Prelude Json Attributes Text Delta DeltaSpec DeltaAlg DeltaPush DeltaCanon.
From S2P Require Import DeltaIter DeltaLoops DeltaTransform DeltaTheory DeltaApply DeltaValidate.
From S2P Require Import DeltaInvert DeltaDiff ServerDoc ServerDocTheory DocGuarantees Model Protocol Content.

Section bounds.
Context `{J : Json}.
Implicit Types d c delta : list Op.
Implicit Types sd : ServerDoc.

Definition good_text d : Prop := good_doc d ∧ (total d ≤ MAX_BLIP_UNITS)%N.

Definition small (r : Revision) : Prop := (total (rev_delta r) ≤ 2 * MAX_BLIP_UNITS)%N.

Definition doc_fit sd : Prop := doc_ok sd ∧ Forall small (doc_history sd).

(** A change as a client encodes it: no empty op, no null attribute inserted, of a size that can be sent. *)
Definition wire_change delta : Prop := nonempty delta ∧ clean_mops (den delta) ∧ (total delta ≤ 2 ^ 53)%N.

Lemma sum_lens_total acc d : foldl (λ n op, sat_add n (op_len op)) acc d = N.min usize_max (acc + total d) ∨ (usize_max < acc)%N.
Proof.
  revert acc. induction d as [|op d IH]; intros acc; simpl; [lia|].
  destruct (IH (sat_add acc (op_len op))) as [->|H]; unfold sat_add in *; lia.
Qed.

Lemma delta_len_total d : delta_len d = N.min usize_max (total d).
Proof. unfold delta_len, sum_lens. destruct (sum_lens_total 0 d) as [->|H]; [done|unfold usize_max in H; lia]. Qed.

Lemma delta_len_small d : (delta_len d ≤ MAX_BLIP_UNITS)%N → (total d ≤ MAX_BLIP_UNITS)%N.
Proof. rewrite delta_len_total. unfold usize_max, MAX_BLIP_UNITS. lia. Qed.

Lemma good_text_document d : good_text d → is_document d = true.
Proof. intros [(H & _) _]. by apply is_document_ops. Qed.

Lemma good_text_nil : good_text [].
Proof. split; [|done]. split_and!; [constructor|by split|constructor]. Qed.

Lemma good_text_total d : good_doc d → (delta_len d ≤ MAX_BLIP_UNITS)%N → good_text d.
Proof. intros H Hl. split; [done|by apply delta_len_small]. Qed.

Lemma doc_fit_new d rev : good_text d → doc_fit (mkDoc d rev []).
Proof.
  intros [Hg _]. split; [|constructor]. exists d, rev. split_and!; [done..|simpl; lia|simpl; lia].
Qed.

Lemma hist_total_small h : Forall small h → (hist_total h ≤ N.of_nat (length h) * (2 * MAX_BLIP_UNITS))%N.
Proof. induction 1 as [|r h Hr _ IH]; [done|]. cbn [hist_total foldr length] in *. unfold small in Hr. fold (hist_total h). lia. Qed.

Lemma fit_submittable sd delta :
  doc_fit sd → good_text (doc_content sd) → wire_change delta → (doc_revision sd < usize_max)%N →
  submittable sd delta.
Proof.
  intros [Hok Hs] [_ Ht] (Hn & Hc & Hd) Hr. split_and!; [done..| |done].
  apply hist_total_small in Hs. destruct Hok as (? & ? & _ & _ & _ & Hl).
  unfold MAX_BLIP_UNITS, usize_max, MAX_HISTORY in *.
  assert (N.of_nat (length (doc_history sd)) ≤ 2048)%N by lia. nia.
Qed.

(** Plain text makes a good document. *)
Lemma document_good s : good_doc (document s).
Proof.
  destruct (document_chopped s) as ([Hc _] & Hd & _). split_and!; [done..|].
  unfold doc_cells. rewrite document_den. unfold text_mops. induction (text_syms s) as [|x l IH]; [constructor|].
  simpl. constructor; [apply no_nulls_empty|done].
Qed.

(** What a change reads and what it leaves bound its length. *)
Fixpoint nins (l : list mop) : nat :=
  match l with [] => 0 | m :: l => (if is_ins m then 1 else 0) + nins l end.

Lemma nins_nbase l : (nins l + nbase l = length l)%nat.
Proof. induction l as [|m l IH]; [done|]. simpl. destruct (is_ins m); lia. Qed.

Lemma nins_apply cells l : (nins l ≤ length (apply_spec cells l))%nat.
Proof.
  revert cells. induction l as [|m l IH]; intros cells; [simpl; lia|].
  destruct m as [x a|b|]; simpl; [specialize (IH cells); lia| |]; (destruct cells as [|[x a] cells]; [done|]); simpl.
  - specialize (IH cells). lia.
  - done.
Qed.

Lemma change_length d c :
  good_doc d → good_change c d → (total c ≤ total d + total (compose d c))%N.
Proof.
  intros Hd (Hn & [Hf Hb] & Hcl & Ht). pose proof (good_nonempty d Hd) as Hnd. destruct Hd as (Hdo & _).
  destruct (compose_apply d c) as (_ & Hdo' & _ & E); [done..|lia|].
  pose proof (nins_apply (doc_cells d) (den c)) as H. rewrite <- E in H.
  unfold doc_cells in H. rewrite length_cells, length_den in H by by apply document_all_ins.
  pose proof (nins_nbase (den c)) as H'. rewrite length_den, <- blen_nbase in H'. lia.
Qed.

(** An accepted change that keeps the text within the limit. *)
Lemma fit_apply sd k delta author entry sd' :
  doc_fit sd → good_text (doc_content sd) → submittable sd delta → apply sd k delta author = Ok (entry, sd') →
  (delta_len (doc_content sd') ≤ MAX_BLIP_UNITS)%N →
  doc_fit sd' ∧ good_text (doc_content sd').
Proof.
  intros [Hok Hs] [Hg Ht] Hsub Ha Hl%delta_len_small.
  destruct (apply_step _ _ _ _ _ _ Hok Hsub Ha) as (Hok' & Hc & _ & _ & _ & _ & E & Eh).
  split; [|split; [by apply doc_ok_good|done]]. split; [done|].
  rewrite Eh. unfold trim_history. apply Forall_drop, Forall_app. split; [done|]. constructor; [|done].
  pose proof (change_length _ _ Hg Hc). rewrite E in Hl. unfold small. lia.
Qed.

(** Taking back an accepted change. *)
Lemma fit_rollback sd k delta author entry sd' :
  doc_fit sd → submittable sd delta → apply sd k delta author = Ok (entry, sd') →
  doc_fit (rollback_last sd').2 ∧ doc_content (rollback_last sd').2 = doc_content sd ∧
  doc_revision (rollback_last sd').2 = doc_revision sd ∧
  ∃ k, doc_history (rollback_last sd').2 = drop k (doc_history sd).
Proof.
  intros [Hok Hs] Hsub Ha. destruct (rollback_undoes _ _ _ _ _ _ Hok Hsub Ha) as (sd'' & Hr & E1 & E2 & Eh & _).
  rewrite Hr. simpl. split_and!; [|done..|by eexists]. split; [|rewrite Eh; by apply Forall_drop].
  destruct Hok as (base & rev & Hb & Hh & Hrev & Hlen). set (n := (length (doc_history sd) - (MAX_HISTORY - 1))%nat) in *.
  rewrite <- (take_drop n (doc_history sd)) in Hh. apply hist_app in Hh as (mid & H1 & H2).
  exists mid, (rev + N.of_nat (length (take n (doc_history sd))))%N. rewrite Eh, E1, E2.
  split_and!; [by eapply hist_good|done| |]; rewrite ?length_take, ?length_drop; lia.
Qed.

End bounds.
