(* ===== verification/LiveWave.v ===== *)
(** * A resident wave ([crates/gal-server/src/state.rs], [LiveWave])

    The documents and watchers of one open wave, the access rule, the mode rule and delivery.  A
    connection's bounded queue and its [Notify] are one [Channel]; the queues are a store keyed by
    connection, because a wave's subscribers and the connection table share them. *)

From stdpp Require Import sorting.
From S2P Require Import Prelude Tables Strings Json Attributes Text Delta Model Protocol ServerDoc Content.

Section live_wave.
Context `{J : Json}.

Abbreviation ConnId := N.

(** ** Delivery *)

Record Channel := mkChannel {
  ch_room : N;                    (** free slots of the bounded queue *)
  ch_sent : list ServerMessage;   (** what has been queued, oldest first *)
  ch_kill : bool;                 (** a stored [notify_one] permit *)
}.

Record Outbound := mkOutbound {
  out_channels : gmap ConnId Channel;
  out_slow_disconnects : N;       (** [ws_slow_client_disconnects] *)
}.

(** [mpsc::Sender::try_send]: fails when the queue is full or its receiver is gone. *)
Definition try_send (out : Outbound) (tx : ConnId) (message : ServerMessage) : option Outbound :=
  match out_channels out !! tx with
  | Some ch =>
      if (ch_room ch =? 0)%N then None
      else Some (mkOutbound (<[tx := mkChannel (ch_room ch - 1) (ch_sent ch ++ [message]) (ch_kill ch)]>
                               (out_channels out)) (out_slow_disconnects out))
  | None => None
  end.

(** [kill.notify_one()]. *)
Definition notify_one (out : Outbound) (tx : ConnId) : Outbound :=
  mkOutbound (alter (λ ch, mkChannel (ch_room ch) (ch_sent ch) true) tx (out_channels out))
    (out_slow_disconnects out).

Definition count_slow (out : Outbound) : Outbound :=
  mkOutbound (out_channels out) (wadd (out_slow_disconnects out) 1).

(** ** Blips and subscribers *)

Record LiveBlip := mkLiveBlip { lb_meta : Blip; lb_doc : ServerDoc }.

Definition live_blip_new (blip : Blip) : LiveBlip :=
  mkLiveBlip blip
    match from_snapshot (blip_content blip) (blip_revision blip) with Ok doc => doc | Err _ => doc_new end.

Definition set_content (b : Blip) (content : Delta) (revision : N) : Blip :=
  mkBlip (blip_id b) (blip_wavelet_id b) (blip_wave_id b) (blip_parent b) (blip_comment b) (blip_seq b)
    (blip_author b) (blip_contributors b) (blip_created_at b) (blip_last_modified b) content revision
    (blip_deleted b).

Definition sync (lb : LiveBlip) : LiveBlip :=
  mkLiveBlip (set_content (lb_meta lb) (doc_content (lb_doc lb)) (doc_revision (lb_doc lb))) (lb_doc lb).

Record Subscriber := mkSubscriber {
  sub_user_id : UserId;
  sub_tx : ConnId;
  sub_editing : option BlipId;
}.

Record LiveWave := mkLiveWave {
  lw_wave : Wave;
  lw_wavelets : list Wavelet;
  lw_blips : gmap BlipId LiveBlip;
  lw_comments : gmap CommentId CommentThread;
  lw_subscribers : gmap ConnId Subscriber;
  lw_user_cache : gmap UserId PublicUser;
  lw_evicted : bool;
}.

Definition set_wave (w : Wave) (l : LiveWave) : LiveWave :=
  mkLiveWave w (lw_wavelets l) (lw_blips l) (lw_comments l) (lw_subscribers l) (lw_user_cache l) (lw_evicted l).
Definition set_wavelets (ws : list Wavelet) (l : LiveWave) : LiveWave :=
  mkLiveWave (lw_wave l) ws (lw_blips l) (lw_comments l) (lw_subscribers l) (lw_user_cache l) (lw_evicted l).
Definition set_blips (bs : gmap BlipId LiveBlip) (l : LiveWave) : LiveWave :=
  mkLiveWave (lw_wave l) (lw_wavelets l) bs (lw_comments l) (lw_subscribers l) (lw_user_cache l) (lw_evicted l).
Definition set_comments (cs : gmap CommentId CommentThread) (l : LiveWave) : LiveWave :=
  mkLiveWave (lw_wave l) (lw_wavelets l) (lw_blips l) cs (lw_subscribers l) (lw_user_cache l) (lw_evicted l).
Definition set_subscribers (ss : gmap ConnId Subscriber) (l : LiveWave) : LiveWave :=
  mkLiveWave (lw_wave l) (lw_wavelets l) (lw_blips l) (lw_comments l) ss (lw_user_cache l) (lw_evicted l).
Definition set_user_cache (us : gmap UserId PublicUser) (l : LiveWave) : LiveWave :=
  mkLiveWave (lw_wave l) (lw_wavelets l) (lw_blips l) (lw_comments l) (lw_subscribers l) us (lw_evicted l).
Definition set_evicted (e : bool) (l : LiveWave) : LiveWave :=
  mkLiveWave (lw_wave l) (lw_wavelets l) (lw_blips l) (lw_comments l) (lw_subscribers l) (lw_user_cache l) e.

(** ** Lookup and access *)

Definition find_list {A} (p : A → bool) (l : list A) : option A := snd <$> list_find (λ x, p x = true) l.

Definition wavelet (l : LiveWave) (id : WaveletId) : option Wavelet :=
  find_list (λ w, str_eqb (wl_id w) id) (lw_wavelets l).

(** [wavelet_mut]: run an update on the wavelet found, if there is one. *)
Definition wavelet_mut (id : WaveletId) (f : Wavelet → Wavelet) (l : LiveWave) : LiveWave :=
  set_wavelets (update_first (λ w, str_eqb (wl_id w) id) f (lw_wavelets l)) l.

Definition root (l : LiveWave) : option Wavelet :=
  find_list (λ w, bool_decide (wl_kind w = Conversation)) (lw_wavelets l).

Definition title (l : LiveWave) : str := match root l with Some w => wl_title w | None => [] end.

Definition may_access (l : LiveWave) (user : UserId) (wavelet_id : WaveletId) : bool :=
  match wavelet l wavelet_id with Some w => has_participant w user | None => false end.

Definition visible_wavelets (l : LiveWave) (user : UserId) : list Wavelet :=
  filter (λ w, has_participant w user = true) (lw_wavelets l).

Definition may_view (l : LiveWave) (user : UserId) : bool :=
  existsb (λ w, has_participant w user) (lw_wavelets l).

(** ** The mode rule *)

Inductive Action :=
| NewMessage
| Reply
| Edit (is_author : bool)
| Delete
| Retitle
| StartPrivateReply
| AComment
| AResolveComment
| ASetMode.

Definition action_allowed (mode : WaveMode) (is_creator : bool) (action : Action) : bool :=
  match action with
  | NewMessage => allows_new_message mode is_creator
  | Reply => allows_replies mode
  | Edit is_author => allows_edit mode is_author
  | Delete => allows_delete mode
  | Retitle => allows_retitle mode is_creator
  | StartPrivateReply => allows_private_reply mode
  | AComment => allows_comments mode
  | AResolveComment => allows_resolve mode
  | ASetMode => is_creator
  end.

Definition refusal_text (mode : WaveMode) (action : Action) : str :=
  match mode, action with
  | _, ASetMode => lit "Only the person who started this wave can change its mode."
  | Frozen, _ => lit "This wave is frozen. Unfreeze it to make changes."
  | _, AComment => lit "Comments belong to a notepad. Here you can reply instead."
  | Chat, Edit _ => lit "In a chat you can only edit your own messages."
  | Announcement, Edit _ => lit "Only the author can edit this."
  | Announcement, NewMessage => lit "Only the person who started this wave can post here. You can reply."
  | Chat, Reply => lit "This wave is a chat, so messages are not threaded."
  | Notepad, _ => lit "This wave is a single shared page " ++ em_dash ++ lit " edit it directly."
  | _, _ => lit "That is not allowed in " ++ mode_label mode ++ lit " mode."
  end.

Definition permit (l : LiveWave) (user : UserId) (action : Action) : result unit ServerMessage :=
  let mode := wave_mode (lw_wave l) in
  let is_creator := str_eqb (wave_creator (lw_wave l)) user in
  if action_allowed mode is_creator action then Ok tt
  else Err (error Forbidden (refusal_text mode action)).

(** ** New messages *)

(** The largest position in use, then one more; [i64] arithmetic on small numbers. *)
Definition next_seq (l : LiveWave) (wavelet_id : WaveletId) : Z :=
  let seqs := (λ kv, blip_seq (lb_meta kv.2)) <$>
    filter (λ kv, blip_wavelet_id (lb_meta kv.2) = wavelet_id) (map_to_list (lw_blips l)) in
  match seqs with
  | [] => 0
  | s :: seqs => foldl Z.max s seqs + 1
  end%Z.

Definition prepare_blip (uuid : str) (ts : Timestamp) (l : LiveWave) (user : UserId) (wavelet_id : WaveletId)
    (parent : option BlipId) (content : option Delta) : result Blip ServerMessage :=
  if negb (may_access l user wavelet_id) then Err (error NotFound (lit "That wavelet is not available."))
  else
    _ <-? permit l user (match parent with Some _ => Reply | None => NewMessage end);
    let parent_ok :=
      match parent with
      | Some parent_id =>
          match lw_blips l !! parent_id with
          | Some b => str_eqb (blip_wavelet_id (lb_meta b)) wavelet_id
          | None => false
          end
      | None => true
      end in
    if negb parent_ok then Err (error BadRequest (lit "Cannot reply to that blip."))
    else
      content <-? seed_content content;
      let seq := next_seq l wavelet_id in
      let blip := blip_new uuid ts (wave_id (lw_wave l)) wavelet_id user parent seq in
      Ok match content with Some content => set_content blip content 1 | None => blip end.

(** ** Views *)

Definition blip_view (blip : Blip) (read_marks : gmap BlipId N) : BlipView :=
  let unread := (default 0 (read_marks !! blip_id blip) <? blip_revision blip)%N in
  mkBlipView (blip_id blip) (blip_wavelet_id blip) (blip_parent blip) (blip_comment blip) (blip_seq blip)
    (blip_author blip) (blip_contributors blip) (blip_created_at blip) (blip_last_modified blip)
    (blip_content blip) (blip_revision blip) unread.

(** The tuple order [(seq, created_at, id)]. *)
Definition key_leb (s1 s2 c1 c2 : Z) (i1 i2 : str) : bool :=
  (s1 <? s2)%Z || (s1 =? s2)%Z && ((c1 <? c2)%Z || (c1 =? c2)%Z && str_leb i1 i2).

Definition blip_before (a b : LiveBlip) : Prop :=
  key_leb (blip_seq (lb_meta a)) (blip_seq (lb_meta b)) (blip_created_at (lb_meta a))
    (blip_created_at (lb_meta b)) (blip_id (lb_meta a)) (blip_id (lb_meta b)) = true.

Definition thread_before (a b : CommentThread) : Prop :=
  key_leb 0 0 (ct_created_at a) (ct_created_at b) (ct_id a) (ct_id b) = true.

#[global] Instance blip_before_dec a b : Decision (blip_before a b).
Proof. unfold blip_before. apply _. Defined.
#[global] Instance thread_before_dec a b : Decision (thread_before a b).
Proof. unfold thread_before. apply _. Defined.

Definition values {K V} `{Countable K} (m : gmap K V) : list V := snd <$> map_to_list m.

Definition view_wavelet (l : LiveWave) (read_marks : gmap BlipId N) (w : Wavelet) : WaveletView :=
  let blips := merge_sort blip_before
    (filter (λ b, blip_wavelet_id (lb_meta b) = wl_id w) (values (lw_blips l))) in
  mkWaveletView (wl_id w) (wl_wave_id w) (wl_kind w) (wl_title w)
    (omap (λ id, lw_user_cache l !! id) (wl_participants w))
    (wl_anchor_blip w) (wl_created_at w) (wl_last_modified w)
    ((λ b, blip_view (lb_meta b) read_marks) <$> blips)
    (merge_sort thread_before (filter (λ c, ct_wavelet_id c = wl_id w) (values (lw_comments l)))).

Definition view (l : LiveWave) (user : UserId) (read_marks : gmap BlipId N) (flags : WaveFlags) : WaveView :=
  mkWaveView (wave_id (lw_wave l)) (wave_creator (lw_wave l)) (wave_created_at (lw_wave l))
    (view_wavelet l read_marks <$> visible_wavelets l user) flags (wave_mode (lw_wave l)).

Definition name_before (a b : PresenceEntry) : Prop :=
  str_le (pu_display_name (pe_user a)) (pu_display_name (pe_user b)).
#[global] Instance name_before_dec a b : Decision (name_before a b).
Proof. unfold name_before. apply _. Defined.

(** The loop of [presence_for] over the subscribers, with the set of users already listed. *)
Fixpoint presence_loop (l : LiveWave) (visible : list WaveletId) (co_participants : list UserId)
    (seen : list UserId) (subs : list Subscriber) : list PresenceEntry :=
  match subs with
  | [] => []
  | sub :: subs =>
      if negb (bool_decide (sub_user_id sub ∈ co_participants)) || bool_decide (sub_user_id sub ∈ seen)
      then presence_loop l visible co_participants seen subs
      else
        let seen := sub_user_id sub :: seen in
        match lw_user_cache l !! sub_user_id sub with
        | None => presence_loop l visible co_participants seen subs
        | Some user =>
            let editing :=
              match sub_editing sub with
              | Some blip_id =>
                  match lw_blips l !! blip_id with
                  | Some b => if decide (blip_wavelet_id (lb_meta b) ∈ visible) then Some blip_id else None
                  | None => None
                  end
              | None => None
              end in
            mkPresence user editing :: presence_loop l visible co_participants seen subs
        end
  end.

Definition presence_for (l : LiveWave) (viewer : UserId) : list PresenceEntry :=
  let visible := wl_id <$> visible_wavelets l viewer in
  let co_participants := visible_wavelets l viewer ≫= wl_participants in
  merge_sort name_before (presence_loop l visible co_participants [] (values (lw_subscribers l))).

(** ** Broadcast *)

(** Drop these subscribers and tear their connections down. *)
Definition disconnect_one (st : LiveWave * Outbound) (conn_id : ConnId) : LiveWave * Outbound :=
  let '(l, out) := st in
  match lw_subscribers l !! conn_id with
  | Some sub =>
      (set_subscribers (delete conn_id (lw_subscribers l)) l, count_slow (notify_one out (sub_tx sub)))
  | None => (l, out)
  end.

Definition disconnect (l : LiveWave) (out : Outbound) (conn_ids : list ConnId) : LiveWave * Outbound :=
  foldl disconnect_one (l, out) conn_ids.

(** One recipient of the sending loop; [failed] collects the connections whose queue was full. *)
Definition deliver (message : UserId → ServerMessage) (st : Outbound * list ConnId) (e : ConnId * Subscriber)
    : Outbound * list ConnId :=
  match try_send st.1 (sub_tx e.2) (message (sub_user_id e.2)) with
  | Some out => (out, st.2)
  | None => (st.1, st.2 ++ [e.1])
  end.

Definition may_receive (l : LiveWave) (wavelet_id : WaveletId) (skip : option ConnId) (e : ConnId * Subscriber) : bool :=
  negb (bool_decide (Some e.1 = skip)) && may_access l (sub_user_id e.2) wavelet_id.

Definition broadcast (l : LiveWave) (out : Outbound) (wavelet_id : WaveletId) (skip : option ConnId)
    (message : ServerMessage) : LiveWave * Outbound :=
  let '(out, failed) :=
    foldl (deliver (λ _, message)) (out, [])
      (filter (λ e, may_receive l wavelet_id skip e = true) (map_to_list (lw_subscribers l))) in
  disconnect l out failed.

Definition send_to (l : LiveWave) (out : Outbound) (conn_id : ConnId) (message : ServerMessage)
    : LiveWave * Outbound :=
  match lw_subscribers l !! conn_id with
  | Some sub =>
      match try_send out (sub_tx sub) message with
      | Some out => (l, out)
      | None => disconnect l out [conn_id]
      end
  | None => (l, out)
  end.

(** Each watcher gets the presence list scoped to what they may see. *)
Definition broadcast_presence (l : LiveWave) (out : Outbound) (wave_id : WaveId) : LiveWave * Outbound :=
  let '(out, failed) :=
    foldl (deliver (λ user, Presence wave_id (presence_for l user))) (out, []) (map_to_list (lw_subscribers l)) in
  disconnect l out failed.

Definition touch_wavelet (ts : Timestamp) (w : Wavelet) : Wavelet :=
  mkWavelet (wl_id w) (wl_wave_id w) (wl_kind w) (wl_title w) (wl_participants w) (wl_anchor_blip w)
    (wl_created_at w) ts.

(** [publish_blip]: only after the blip is committed. *)
Definition publish_blip (l : LiveWave) (out : Outbound) (blip : Blip) : LiveWave * Outbound :=
  let l := set_blips (<[blip_id blip := live_blip_new blip]> (lw_blips l)) l in
  let l := wavelet_mut (blip_wavelet_id blip) (touch_wavelet (blip_last_modified blip)) l in
  broadcast l out (blip_wavelet_id blip) None (BlipAdded (blip_wave_id blip) (blip_view blip ∅)).

End live_wave.

Abbreviation ConnId := N.
