(* ===== verification/LiveWaveTheory.v ===== *)
(** * A resident wave: what delivery, views and presence may reveal

    Lemmas about [LiveWave.v]: sending loops described connection by connection, the wavelets and blips
    of a view, the entries of a presence list, the numbering of new blips. *)

From stdpp Require Import sorting.
From S2P Require Import Prelude Tables Strings Json Attributes Text Delta Model Protocol ServerDoc.
From S2P Require Import Content LiveWave.

Section live_wave.
Context `{J : Json}.
Implicit Types l : LiveWave.
Implicit Types out : Outbound.

(** ** Delivery, one connection at a time *)

(** A subscriber's queue is its own connection's. *)
Definition tx_own l : Prop := map_Forall (λ c sub, sub_tx sub = c) (lw_subscribers l).

Definition has_room out (c : ConnId) : bool :=
  match out_channels out !! c with Some ch => negb (ch_room ch =? 0)%N | None => false end.

Definition enqueue (message : ServerMessage) (ch : Channel) : Channel :=
  mkChannel (ch_room ch - 1) (ch_sent ch ++ [message]) (ch_kill ch).

Definition killed (ch : Channel) : Channel := mkChannel (ch_room ch) (ch_sent ch) true.

Lemma try_send_spec out c message :
  try_send out c message =
  if has_room out c
  then Some (mkOutbound (alter (enqueue message) c (out_channels out)) (out_slow_disconnects out)) else None.
Proof.
  unfold try_send, has_room. destruct (out_channels out !! c) as [ch|] eqn:E; [|done].
  destruct (ch_room ch =? 0)%N; simpl; [done|]. do 2 f_equal.
  apply map_eq. intros i. destruct (decide (i = c)) as [->|].
  - by rewrite lookup_insert_eq, lookup_alter_eq, E.
  - by rewrite lookup_insert_ne, lookup_alter_ne.
Qed.

Lemma deliver_all f (es : list (ConnId * Subscriber)) out failed :
  NoDup es.*1 → Forall (λ e, sub_tx e.2 = e.1) es →
  ∃ out', foldl (deliver f) (out, failed) es =
            (out', failed ++ (filter (λ e, has_room out e.1 = false) es).*1) ∧
    out_slow_disconnects out' = out_slow_disconnects out ∧
    (∀ c sub, (c, sub) ∈ es → has_room out c = true →
       out_channels out' !! c = enqueue (f (sub_user_id sub)) <$> out_channels out !! c) ∧
    (∀ c, c ∉ es.*1 ∨ has_room out c = false → out_channels out' !! c = out_channels out !! c).
Proof.
  revert out failed. induction es as [|[c0 s0] es IH]; intros out failed Hnd Htx; simpl in *.
  { exists out. rewrite app_nil_r. split_and!; [done..|set_solver|done]. }
  apply list.NoDup_cons in Hnd as [Hc0 Hnd]. apply list.Forall_cons in Htx as [Htx0 Htx]. simpl in Htx0. subst c0.
  unfold deliver at 2. simpl. rewrite try_send_spec. rewrite filter_cons. simpl.
  destruct (has_room out (sub_tx s0)) eqn:Hroom; simpl.
  - set (out1 := mkOutbound _ _).
    assert (∀ c, c ≠ sub_tx s0 → out_channels out1 !! c = out_channels out !! c) as Hne.
    { intros c Hc. unfold out1. simpl. by rewrite lookup_alter_ne. }
    destruct (IH out1 failed Hnd Htx) as (out' & -> & Hs & Hin & Hout).
    assert (∀ c, c ≠ sub_tx s0 → has_room out1 c = has_room out c) as Hr.
    { intros c Hc. unfold has_room. by rewrite Hne. }
    exists out'. split_and!; [|done| |].
    + do 3 f_equal. apply filter_ext_elem. intros [c s] Hin'. simpl.
      rewrite Hr; [done|]. intros ->. by apply Hc0, (list_elem_of_fmap_2 fst _ (sub_tx s0, s)).
    + intros c sub [E|Hcs]%elem_of_cons Hc.
      * simplify_eq. rewrite Hout by by left. unfold out1. simpl. by rewrite lookup_alter_eq.
      * assert (c ≠ sub_tx s0) as Hcne 
          by (intros ->; by apply Hc0, (list_elem_of_fmap_2 fst _ (sub_tx s0, sub))).
        rewrite Hin with (sub := sub) by (done || by rewrite Hr). by rewrite Hne.
    + intros c Hc. assert (c ≠ sub_tx s0) as Hcne by (intros ->; destruct Hc; [set_solver|congruence]).
      rewrite Hout, Hne by (done || rewrite Hr; set_solver). done.
  - destruct (IH out (failed ++ [sub_tx s0]) Hnd Htx) as (out' & -> & Hs & Hin & Hout).
    exists out'. split_and!; [by rewrite <- app_assoc|done| |].
    + intros c sub [E|Hcs]%elem_of_cons Hc; [simplify_eq; congruence|by eapply Hin].
    + intros c Hc. destruct (decide (c = sub_tx s0)) as [->|]; apply Hout; set_solver.
Qed.

Lemma disconnect_spec l out ids :
  tx_own l →
  ∃ subs out', disconnect l out ids = (set_subscribers subs l, out') ∧
    (∀ c, subs !! c = if decide (c ∈ ids) then None else lw_subscribers l !! c) ∧
    (∀ c, out_channels out' !! c =
       if decide (c ∈ ids ∧ is_Some (lw_subscribers l !! c)) then killed <$> out_channels out !! c
       else out_channels out !! c).
Proof.
  intros Htx. unfold disconnect. induction ids as [|c0 ids IH] using rev_ind; simpl.
  { exists (lw_subscribers l), out. by split_and!; [destruct l|..]. }
  destruct IH as (subs & out' & E & Hs & Ho). rewrite foldl_app, E. simpl. clear E.
  destruct (subs !! c0) as [sub|] eqn:Ec0.
  - assert (lw_subscribers l !! c0 = Some sub ∧ c0 ∉ ids) as [Hl Hn].
    { rewrite Hs in Ec0. by case_decide. }
    rewrite (Htx c0 sub Hl). eexists _, _. split_and!; [done| |].
    + intros c. destruct (decide (c = c0)) as [->|].
      * rewrite lookup_delete_eq. by rewrite decide_True by set_solver.
      * rewrite lookup_delete_ne by done. rewrite Hs. repeat case_decide; set_solver.
    + intros c. simpl. destruct (decide (c = c0)) as [->|].
      * rewrite lookup_alter_eq, Ho. rewrite decide_False by tauto. rewrite decide_True; [done|].
        split; [set_solver|eauto].
      * rewrite lookup_alter_ne by done. rewrite Ho. repeat case_decide; set_solver.
  - exists subs, out'. split_and!; [done| |].
    + intros c. destruct (decide (c = c0)) as [->|].
      * rewrite Ec0. by rewrite decide_True by set_solver.
      * rewrite Hs. repeat case_decide; set_solver.
    + intros c. rewrite Ho. destruct (decide (c = c0)) as [->|]; [|repeat case_decide; set_solver].
      rewrite Hs in Ec0. case_decide as Hc; [by repeat case_decide; set_solver|].
      rewrite Ec0. rewrite !decide_False; [done| |]; by intros [? [? ?]].
Qed.

(** The two loops shared by [broadcast] and [broadcast_presence]: send to the chosen subscribers, then
    disconnect those whose queue was full. *)
Definition sent_to l out (chosen : ConnId → Subscriber → bool) (f : UserId → ServerMessage)
    (res : LiveWave * Outbound) : Prop :=
  ∃ subs, res.1 = set_subscribers subs l ∧
  ∀ c, match lw_subscribers l !! c with
       | Some sub =>
           if chosen c sub then
             if has_room out c then
               subs !! c = Some sub ∧ out_channels res.2 !! c = enqueue (f (sub_user_id sub)) <$> out_channels out !! c
             else subs !! c = None ∧ out_channels res.2 !! c = killed <$> out_channels out !! c
           else subs !! c = Some sub ∧ out_channels res.2 !! c = out_channels out !! c
       | None => subs !! c = None ∧ out_channels res.2 !! c = out_channels out !! c
       end.

Lemma send_loops l out (chosen : ConnId → Subscriber → bool) (f : UserId → ServerMessage) :
  tx_own l →
  sent_to l out chosen f
    (let '(out, failed) :=
       foldl (deliver f) (out, []) (filter (λ e, chosen e.1 e.2 = true) (map_to_list (lw_subscribers l))) in
     disconnect l out failed).
Proof.
  intros Htx. set (es := filter _ (map_to_list _)).
  assert (∀ c sub, (c, sub) ∈ es ↔ lw_subscribers l !! c = Some sub ∧ chosen c sub = true) as Hes.
  { intros c sub. unfold es. rewrite list_elem_of_filter, elem_of_map_to_list. simpl. tauto. }
  assert (NoDup es.*1) as Hnd.
  { eapply sublist_NoDup; [apply (NoDup_fst_map_to_list (lw_subscribers l))|].
    apply fmap_sublist, sublist_filter. }
  assert (Forall (λ e, sub_tx e.2 = e.1) es) as Hown.
  { apply list.Forall_forall. intros [c sub] [Hl _]%Hes. exact (Htx c sub Hl). }
  destruct (deliver_all f es out [] Hnd Hown) as (out1 & -> & _ & Hin & Hout). simpl.
  set (failed := (filter _ es).*1).
  assert (∀ c, c ∈ failed ↔ ∃ sub, lw_subscribers l !! c = Some sub ∧ chosen c sub = true ∧ has_room out c = false) as Hf.
  { intros c. unfold failed. rewrite list_elem_of_fmap. setoid_rewrite list_elem_of_filter. split.
    - intros ([c' sub] & -> & Hr & [Hl Hc]%Hes). eauto.
    - intros (sub & Hl & Hc & Hr). exists (c, sub). rewrite Hes. done. }
  destruct (disconnect_spec l out1 failed Htx) as (subs & out2 & -> & Hs & Ho).
  exists subs. split; [done|]. simpl. intros c. rewrite Hs, Ho.
  destruct (lw_subscribers l !! c) as [sub|] eqn:El.
  - destruct (chosen c sub) eqn:Ec; [destruct (has_room out c) eqn:Er|].
    + assert (c ∉ failed) by (rewrite Hf; intros (?&?&?&?); congruence).
      rewrite !decide_False by naive_solver. split; [done|]. apply Hin; [by apply Hes|done].
    + assert (c ∈ failed) by (apply Hf; eauto). rewrite !decide_True by eauto. split; [done|].
      rewrite Hout; [done|by right].
    + assert (c ∉ failed) by (rewrite Hf; intros (?&?&?&?); congruence).
      rewrite !decide_False by naive_solver. split; [done|]. apply Hout. left.
      intros ([c' s] & -> & [Hl Hc]%Hes)%list_elem_of_fmap. simpl in *. congruence.
  - rewrite (decide_False (P := _ ∧ _)) by (intros [_ [? ?]]; done).
    split; [by case_decide|]. apply Hout. left.
    intros ([c' s] & -> & [Hl Hc]%Hes)%list_elem_of_fmap. simpl in *. congruence.
Qed.

Lemma broadcast_sent l out wavelet_id skip message :
  tx_own l →
  sent_to l out (λ c sub, may_receive l wavelet_id skip (c, sub)) (λ _, message)
    (broadcast l out wavelet_id skip message).
Proof.
  intros Htx. pose proof (send_loops l out (λ c sub, may_receive l wavelet_id skip (c, sub)) (λ _, message) Htx) as H.
  unfold broadcast. erewrite filter_ext_elem; [exact H|]. by intros [].
Qed.

Lemma broadcast_presence_sent l out wave_id :
  tx_own l →
  sent_to l out (λ _ _, true) (λ user, Presence wave_id (presence_for l user)) (broadcast_presence l out wave_id).
Proof.
  intros Htx. pose proof (send_loops l out (λ _ _, true) (λ user, Presence wave_id (presence_for l user)) Htx) as H.
  unfold broadcast_presence. by rewrite filter_all in H.
Qed.

(** ** Membership *)

Lemma may_access_wavelet l user id :
  may_access l user id = true → ∃ w, w ∈ lw_wavelets l ∧ wl_id w = id ∧ user ∈ wl_participants w.
Proof.
  unfold may_access, wavelet, find_list. destruct (list_find _ _) as [[i w]|] eqn:E; [|done]. simpl.
  intros Hp%has_participant_spec. apply list_find_Some in E as (Hi & Hid%str_eqb_spec & _).
  exists w. split_and!; [by eapply list_elem_of_lookup_2|done..].
Qed.

Lemma elem_of_visible l user w : w ∈ visible_wavelets l user ↔ w ∈ lw_wavelets l ∧ user ∈ wl_participants w.
Proof. unfold visible_wavelets. rewrite list_elem_of_filter, has_participant_spec. tauto. Qed.

(** Ids of wavelets are distinct in a resident wave. *)
Definition wavelets_keyed l : Prop := keyed wl_id (lw_wavelets l).

Lemma may_access_spec l user w :
  wavelets_keyed l → w ∈ lw_wavelets l → may_access l user (wl_id w) = true ↔ user ∈ wl_participants w.
Proof.
  intros Hk Hw. split.
  - intros (w' & Hw' & E & Hp)%may_access_wavelet. by rewrite <- (keyed_eq _ _ _ _ Hk Hw' Hw E).
  - intros Hp. unfold may_access, wavelet, find_list. destruct (list_find _ _) as [[i w']|] eqn:E; simpl.
    + apply list_find_Some in E as (Hi & Hid%str_eqb_spec & _).
      rewrite (keyed_eq _ _ w' w Hk); [by apply has_participant_spec|by eapply list_elem_of_lookup_2|done|done].
    + apply list_find_None in E. apply list.Forall_forall with (x := w) in E; [|done].
      destruct E. by apply str_eqb_spec.
Qed.

(** ** Orders *)

Lemma key_leb_total s1 s2 c1 c2 i1 i2 :
  key_leb s1 s2 c1 c2 i1 i2 = true ∨ key_leb s2 s1 c2 c1 i2 i1 = true.
Proof.
  unfold key_leb. rewrite !orb_true_iff, !andb_true_iff, !orb_true_iff, !andb_true_iff.
  rewrite !Z.ltb_lt, !Z.eqb_eq. destruct (str_leb_total i1 i2) as [H|H], (Z.lt_trichotomy s1 s2) as [|[]], (Z.lt_trichotomy c1 c2) as [|[]];
    tauto || (left; tauto) || (subst; left; right; split; [done|]; tauto) || (subst; right; tauto).
Qed.

Lemma key_leb_trans s1 s2 s3 c1 c2 c3 i1 i2 i3 :
  key_leb s1 s2 c1 c2 i1 i2 = true → key_leb s2 s3 c2 c3 i2 i3 = true → key_leb s1 s3 c1 c3 i1 i3 = true.
Proof.
  unfold key_leb. rewrite !orb_true_iff, !andb_true_iff, !orb_true_iff, !andb_true_iff.
  rewrite !Z.ltb_lt, !Z.eqb_eq. pose proof (str_leb_trans i1 i2 i3). naive_solver lia.
Qed.

#[global] Instance blip_before_total : Total blip_before.
Proof. intros a b. apply key_leb_total. Qed.
#[global] Instance blip_before_trans : Transitive blip_before.
Proof. intros a b c. apply key_leb_trans. Qed.
#[global] Instance thread_before_total : Total thread_before.
Proof. intros a b. apply key_leb_total. Qed.
#[global] Instance thread_before_trans : Transitive thread_before.
Proof. intros a b c. apply key_leb_trans. Qed.

(** ** Views *)

Lemma elem_of_values {K V} `{Countable K} (m : gmap K V) v : v ∈ values m ↔ ∃ k, m !! k = Some v.
Proof.
  unfold values. rewrite list_elem_of_fmap. split.
  - intros ([k v'] & -> & Hk%elem_of_map_to_list). eauto.
  - intros [k Hk]. exists (k, v). by rewrite elem_of_map_to_list.
Qed.

(** The resident blips of a wavelet, in the order a view lists them. *)
Definition blips_in l (w : Wavelet) : list LiveBlip :=
  merge_sort blip_before (filter (λ b, blip_wavelet_id (lb_meta b) = wl_id w) (values (lw_blips l))).

Lemma elem_of_blips_in l w b :
  b ∈ blips_in l w ↔ (∃ id, lw_blips l !! id = Some b) ∧ blip_wavelet_id (lb_meta b) = wl_id w.
Proof. unfold blips_in. rewrite merge_sort_Permutation, list_elem_of_filter, elem_of_values. tauto. Qed.

Lemma blips_in_sorted l w : StronglySorted blip_before (blips_in l w).
Proof. apply StronglySorted_merge_sort; apply _. Qed.

(** ** Presence *)

Lemma presence_loop_elem l visible co seen subs e :
  e ∈ presence_loop l visible co seen subs →
  ∃ sub, sub ∈ subs ∧ sub_user_id sub ∈ co ∧ sub_user_id sub ∉ seen ∧
    lw_user_cache l !! sub_user_id sub = Some (pe_user e) ∧
    (∀ id, pe_editing e = Some id → ∃ b, lw_blips l !! id = Some b ∧ blip_wavelet_id (lb_meta b) ∈ visible).
Proof.
  revert seen. induction subs as [|sub subs IH]; intros seen; simpl; [by intros ?%elem_of_nil|].
  destruct (negb _ || _) eqn:E.
  { intros (s & Hs & Hrest)%IH. exists s. split; [by right|done]. }
  bool_to_prop. destruct (lw_user_cache l !! sub_user_id sub) as [user|] eqn:Eu.
  - intros [->|(s & Hs & Hco & Hseen & Hrest)%IH]%elem_of_cons.
    + exists sub. simpl. split_and!; [by left|done..|]. intros id Hid.
      destruct (sub_editing sub) as [b|]; [|done]. destruct (lw_blips l !! b) as [lb|] eqn:Eb; [|done].
      case_decide; [|done]. simplify_eq. eauto.
    + exists s. split; [by right|]. set_solver.
  - intros (s & Hs & Hco & Hseen & Hrest)%IH. exists s. split; [by right|]. set_solver.
Qed.

(** A listed user: present, cached, and not listed before. *)
Lemma presence_loop_complete l visible co seen subs sub user :
  sub ∈ subs → sub_user_id sub ∈ co → sub_user_id sub ∉ seen →
  lw_user_cache l !! sub_user_id sub = Some user →
  ∃ e, e ∈ presence_loop l visible co seen subs ∧ pe_user e = user.
Proof.
  revert seen. induction subs as [|s subs IH]; intros seen Hs Hco Hseen Hu; [by apply elem_of_nil in Hs|].
  simpl. destruct (decide (sub_user_id s = sub_user_id sub)) as [Es|Es].
  - rewrite Es, Hu. rewrite bool_decide_true, bool_decide_false by done. simpl.
    eexists. split; [by left|done].
  - apply elem_of_cons in Hs as [->|Hs]; [done|].
    destruct (negb _ || _) eqn:E; [by apply IH|].
    assert (sub_user_id sub ∉ sub_user_id s :: seen) by set_solver.
    destruct (lw_user_cache l !! sub_user_id s); [|by apply IH].
    edestruct (IH (sub_user_id s :: seen)) as (e & He & Eu); [done..|]. exists e. split; [by right|done].
Qed.

(** ** Numbering new blips *)

Lemma foldl_max_ge (zs : list Z) a : (a ≤ foldl Z.max a zs)%Z ∧ ∀ z, z ∈ zs → (z ≤ foldl Z.max a zs)%Z.
Proof.
  revert a. induction zs as [|z zs IH]; intros a; simpl; [split; [lia|by intros ? ?%elem_of_nil]|].
  destruct (IH (Z.max a z)) as [H1 H2]. split; [lia|]. intros y [->|Hy]%elem_of_cons; [lia|by apply H2].
Qed.

Lemma next_seq_above l wavelet_id id b :
  lw_blips l !! id = Some b → blip_wavelet_id (lb_meta b) = wavelet_id →
  (blip_seq (lb_meta b) < next_seq l wavelet_id)%Z.
Proof.
  intros Hb Hw. unfold next_seq.
  assert (blip_seq (lb_meta b) ∈ ((λ kv : BlipId * LiveBlip, blip_seq (lb_meta kv.2)) <$>
    (filter (λ kv : BlipId * LiveBlip, blip_wavelet_id (lb_meta kv.2) = wavelet_id) (map_to_list (lw_blips l)))))
    as Hin.
  { apply list_elem_of_fmap. exists (id, b). split; [done|]. by rewrite list_elem_of_filter, elem_of_map_to_list. }
  destruct (_ <$> _) as [|s seqs]; [by apply elem_of_nil in Hin|].
  destruct (foldl_max_ge seqs s) as [H1 H2]. apply elem_of_cons in Hin as [->|Hin]; [lia|].
  specialize (H2 _ Hin). lia.
Qed.

End live_wave.
