(* ===== verification/Snippet.v ===== *)
(** * Text made for readers ([crates/gal-server/src/db.rs], helpers)

    Search queries and highlighted snippets, inbox previews, numbered account names. *)

From stdpp Require Import pretty.
From S2P Require Import Prelude Strings Unicode Json Attributes Text Delta.

(** ** Search ([to_fts_query]) *)

(** [input.split(|c| !p(c)).filter(|w| !w.is_empty())]. *)
Fixpoint split_words (p : char → bool) (s word : str) : list str :=
  match s with
  | [] => if decide (word = []) then [] else [word]
  | c :: s =>
      if p c then split_words p s (word ++ [c])
      else if decide (word = []) then split_words p s [] else word :: split_words p s []
  end.

Definition words (p : char → bool) (s : str) : list str := split_words p s [].

Definition quote : char := 34%N.

(** [format!(.., w.replace(quote, empty))] between quotes. *)
Definition quoted (w : str) : str := quote :: filter (λ c, c ≠ quote) w ++ [quote].

Fixpoint join (sep : str) (parts : list str) : str :=
  match parts with
  | [] => []
  | [p] => p
  | p :: parts => p ++ sep ++ join sep parts
  end.

Definition to_fts_query `{Unicode} (input : str) : str :=
  let ws := quoted <$> words is_alphanumeric input in
  match list.last ws with
  | None => []
  | Some l => join (lit " AND ") (take (length ws - 1) ws ++ [l ++ lit "*"])
  end.

(** ** Snippets ([highlight_snippet]) *)

Definition MATCH_START : char := 2%N.
Definition MATCH_END : char := 3%N.

Definition escape_char (ch : char) : str :=
  if decide (ch = MATCH_START) then lit "<mark>"
  else if decide (ch = MATCH_END) then lit "</mark>"
  else if decide (ch = 38%N) then lit "&amp;"
  else if decide (ch = 60%N) then lit "&lt;"
  else if decide (ch = 62%N) then lit "&gt;"
  else if decide (ch = 34%N) then lit "&quot;"
  else if decide (ch = 39%N) then lit "&#39;"
  else [ch].

Definition highlight_snippet (raw : str) : str := foldl (λ out ch, out ++ escape_char ch) [] raw.

(** ** Previews ([display_text], [snippet_of]) *)

Section preview.
Context `{J : Json}.

Definition embed_text (value : Value) : str :=
  let name := default []
    (a ← value_get value (lit "attachment"); n ← value_get a (lit "name"); value_as_str n) in
  if decide (name = []) then [65532%N] else name.

Definition display_text (d : Delta) : str :=
  foldl (λ out op,
    match op_kind op with
    | OInsert (Text s) => out ++ s
    | OInsert (Embed value) => out ++ embed_text value
    | _ => out
    end) [] d.

Definition snippet_of (d : Delta) (max_chars : nat) : str :=
  let line := trim (default [] (snd <$> list_find (λ l, trim l ≠ []) (lines (display_text d)))) in
  if (length line <=? max_chars)%nat then line
  else trim_end (take max_chars line) ++ [8230%N].

End preview.

(** ** Account names ([numbered_name]) *)

Definition MAX_NAME_ATTEMPTS : N := 1000.

(** [to_string] of an integer. *)
Definition decimal (n : N) : str := lit (pretty n).

Definition is_separator (c : char) : bool := ((c =? 46) || (c =? 45) || (c =? 95))%N.

(** [None] is the panic of slicing inside a character. *)
Definition numbered_name (base : str) (n : N) : option str :=
  if (n =? 0)%N then Some base
  else
    let suffix := decimal (n + 1) in
    let room := sat_sub 32 (str_len suffix) in
    stem ← str_upto base (N.min (str_len base) room);
    Some (trim_end_by is_separator stem ++ suffix).

(** ** What an agent may read of a message ([bounded_text] in agent.rs) *)

Fixpoint bounded_loop (cs : str) (units end_ budget : N) : N * N :=
  match cs with
  | [] => (units, end_)
  | ch :: cs =>
      if (budget <? units + len_utf16 ch)%N then (units, end_)
      else bounded_loop cs (units + len_utf16 ch) (end_ + len_utf8 ch) budget
  end.

Definition bounded_text (text : str) (budget : N) : option (str * N * bool) :=
  let '(units, end_) := bounded_loop text 0 0 budget in
  shown ← str_upto text end_;
  Some (shown, units, (end_ <? str_len text)%N).

(** ** Lemmas *)

(** An independent reader of the snippets: text with the five entities, and the two tags only.  It
    refuses any other markup. *)
Fixpoint read_html (fuel : nat) (s : str) : option str :=
  match fuel, s with
  | _, [] => Some []
  | O, _ => None
  | S fuel, c :: r =>
      if (c =? 60)%N then
        match strip_prefix s (lit "<mark>"), strip_prefix s (lit "</mark>") with
        | Some r, _ => cons MATCH_START <$> read_html fuel r
        | _, Some r => cons MATCH_END <$> read_html fuel r
        | _, _ => None
        end
      else if (c =? 38)%N then
        match strip_prefix s (lit "&amp;"), strip_prefix s (lit "&lt;"), strip_prefix s (lit "&gt;"),
              strip_prefix s (lit "&quot;"), strip_prefix s (lit "&#39;") with
        | Some r, _, _, _, _ => cons 38%N <$> read_html fuel r
        | _, Some r, _, _, _ => cons 60%N <$> read_html fuel r
        | _, _, Some r, _, _ => cons 62%N <$> read_html fuel r
        | _, _, _, Some r, _ => cons 34%N <$> read_html fuel r
        | _, _, _, _, Some r => cons 39%N <$> read_html fuel r
        | _, _, _, _, _ => None
        end
      else if ((c =? 62) || (c =? 34) || (c =? 39))%N then None
      else cons c <$> read_html fuel r
  end.

Lemma highlight_bind raw : highlight_snippet raw = raw ≫= escape_char.
Proof.
  unfold highlight_snippet. change (raw ≫= escape_char) with ([] ++ (raw ≫= escape_char)).
  generalize (@nil char). induction raw as [|c raw IH]; intros out; simpl; [by rewrite app_nil_r|].
  rewrite IH. change ((c :: raw) ≫= escape_char) with (escape_char c ++ (raw ≫= escape_char)).
  by rewrite app_assoc.
Qed.

Lemma read_escape_char fuel c rest :
  read_html (S fuel) (escape_char c ++ rest) = cons c <$> read_html fuel rest.
Proof.
  unfold escape_char. repeat (case_decide; [subst c; reflexivity|]).
  cbn [read_html app]. by rewrite !(proj2 (N.eqb_neq c _)) by done.
Qed.

Lemma read_highlight fuel raw : (length raw ≤ fuel)%nat → read_html fuel (highlight_snippet raw) = Some raw.
Proof.
  rewrite highlight_bind. revert fuel. induction raw as [|c raw IH]; intros fuel Hf; [by destruct fuel|].
  destruct fuel as [|fuel]; simpl in Hf; [lia|].
  change ((c :: raw) ≫= escape_char) with (escape_char c ++ (raw ≫= escape_char)).
  by rewrite read_escape_char, IH by lia.
Qed.

Lemma split_words_spec p s word w :
  Forall (λ c, p c = true) word → w ∈ split_words p s word → w ≠ [] ∧ Forall (λ c, p c = true) w.
Proof.
  revert word. induction s as [|c s IH]; intros word Hw; simpl.
  - case_decide; [by intros ?%elem_of_nil|]. by intros ->%list_elem_of_singleton.
  - destruct (p c) eqn:E; [apply IH, Forall_app; split; [done|by constructor]|].
    case_decide; [by apply IH|]. intros [->|H']%elem_of_cons; [done|by apply (IH [])].
Qed.

Lemma words_spec p s w : w ∈ words p s → w ≠ [] ∧ Forall (λ c, p c = true) w.
Proof. by apply split_words_spec. Qed.

(** What [bounded_loop] keeps is the longest prefix that fits. *)
Lemma bounded_loop_spec cs units end_ budget :
  (units ≤ budget)%N →
  ∃ s1 s2, cs = s1 ++ s2 ∧ bounded_loop cs units end_ budget = (units + utf16_len s1, end_ + str_len s1)%N ∧
    (units + utf16_len s1 ≤ budget)%N ∧
    (∀ c s3, s2 = c :: s3 → (budget < units + utf16_len s1 + len_utf16 c)%N).
Proof.
  revert units end_. induction cs as [|c cs IH]; intros units end_ Hb; simpl.
  { exists [], []. autorewrite with gal. rewrite !N.add_0_r. done. }
  destruct (_ <? _)%N eqn:E; bool_to_prop.
  - exists [], (c :: cs). autorewrite with gal. rewrite !N.add_0_r. split_and!; try done. naive_solver.
  - destruct (IH (units + len_utf16 c)%N (end_ + len_utf8 c)%N E) as (s1 & s2 & -> & -> & H1 & H2).
    exists (c :: s1), s2. autorewrite with gal. rewrite !N.add_assoc. done.
Qed.

Lemma bounded_text_spec text budget :
  ∃ s1 s2, text = s1 ++ s2 ∧
    bounded_text text budget = Some (s1, utf16_len s1, negb (bool_decide (s2 = []))) ∧
    (utf16_len s1 ≤ budget)%N ∧ (∀ c s3, s2 = c :: s3 → (budget < utf16_len s1 + len_utf16 c)%N).
Proof.
  unfold bounded_text. destruct (bounded_loop_spec text 0 0 budget) as (s1 & s2 & -> & -> & H1 & H2); [lia|].
  exists s1, s2. rewrite str_upto_prefix. simpl. split_and!; try done. do 2 f_equal.
  rewrite str_len_app. destruct s2 as [|c s2]; simpl; [autorewrite with gal; apply N.ltb_ge; lia|].
  autorewrite with gal. apply N.ltb_lt. pose proof (len_utf8_pos c). lia.
Qed.

(** * Integers as text, and splitting once

    [parse::<i64>], the printing of an [i64], and [split_once], as the cursor of an agent's context and
    the readers of HTTP headers use them. *)

(** [s.split_once(sep)]. *)
Fixpoint split_once (sep : char) (s : str) : option (str * str) :=
  match s with
  | [] => None
  | c :: s =>
      if (c =? sep)%N then Some ([], s)
      else '(a, b) ← split_once sep s; Some (c :: a, b)
  end.

Lemma split_once_spec sep s a b :
  split_once sep s = Some (a, b) ↔ s = a ++ sep :: b ∧ sep ∉ a.
Proof.
  revert a. induction s as [|c s IH]; intros a; simpl.
  - split; [done|]. by intros [H%(f_equal length) _]; rewrite length_app in H; simpl in H; lia.
  - destruct (c =? sep)%N eqn:E; bool_to_prop.
    + subst c. split; [intros [= <- <-]; split; [done|by apply not_elem_of_nil]|].
      intros [Hs Hn]. destruct a as [|x a]; simplify_eq/=; [done|]. set_solver.
    + split.
      * intros ([a' b'] & H & [= <- <-])%bind_Some. apply IH in H as [-> Hn]. split; [done|]. set_solver.
      * intros [Hs Hn]. destruct a as [|x a]; simplify_eq/=. rewrite (proj2 (IH a)); [done|]. set_solver.
Qed.

(** ** Decimal digits *)

Definition digit_value (c : char) : Z := Z.of_N c - 48.

Fixpoint digits_value (acc : Z) (s : str) : option Z :=
  match s with
  | [] => Some acc
  | c :: s => if is_ascii_digit c then digits_value (acc * 10 + digit_value c) s else None
  end.

(** Out of range is refused; checking at the end is checking at every step. *)
Definition parse_digits (sign : Z) (s : str) : option Z :=
  match s with
  | [] => None
  | _ =>
      n ← digits_value 0 s;
      if ((- 2 ^ 63 <=? sign * n) && (sign * n <? 2 ^ 63))%Z then Some (sign * n)%Z else None
  end.

Definition parse_i64 (s : str) : option Z :=
  match s with
  | 43%N :: s => parse_digits 1 s
  | 45%N :: s => parse_digits (-1) s
  | s => parse_digits 1 s
  end.

Definition show_i64 (z : Z) : str := if (z <? 0)%Z then 45%N :: decimal (Z.to_N (- z)) else decimal (Z.to_N z).

(** ** Printing then parsing *)

Lemma pretty_char_digit x : (x < 10)%N → N_of_ascii (pretty_N_char x) = (x + 48)%N.
Proof.
  intros H. assert (x = 0 ∨ x = 1 ∨ x = 2 ∨ x = 3 ∨ x = 4 ∨ x = 5 ∨ x = 6 ∨ x = 7 ∨ x = 8 ∨ x = 9)%N as Hx by lia.
  by destruct_or! Hx; subst.
Qed.

Lemma digits_app acc s1 s2 : digits_value acc (s1 ++ s2) = n ← digits_value acc s1; digits_value n s2.
Proof. revert acc. induction s1 as [|c s1 IH]; intros acc; simpl; [done|]. destruct (is_ascii_digit c); [apply IH|done]. Qed.

Lemma digits_digit acc x s : (x < 10)%N → digits_value acc ((x + 48)%N :: s) = digits_value (acc * 10 + Z.of_N x) s.
Proof.
  intros H. simpl. assert (is_ascii_digit (x + 48) = true) as -> by (apply andb_true_iff; rewrite !N.leb_le; lia).
  unfold digit_value. do 2 f_equal. lia.
Qed.

(** What the printing of [x] in front of [s] reads as. *)
Lemma pretty_go_value x s :
  ∃ p, lit (pretty_N_go x s) = p ++ lit s ∧ digits_value 0 p = Some (Z.of_N x) ∧ (x ≠ 0%N → p ≠ []).
Proof.
  revert s. induction (N.lt_wf_0 x) as [x _ IH]; intros s. destruct (decide (x = 0)%N) as [->|Hx].
  { exists []. by rewrite pretty_N_go_0. }
  rewrite pretty_N_go_step by lia.
  destruct (IH (x `div` 10)%N ltac:(apply N.div_lt; lia) (String (pretty_N_char (x `mod` 10)) s)) as (p & E & Hp & _).
  pose proof (N.mod_lt x 10 ltac:(done)) as Hm.
  exists (p ++ [(x `mod` 10 + 48)%N]). split_and!.
  - rewrite E, <- app_assoc. f_equal. change (lit (String ?c s)) with (N_of_ascii c :: lit s).
    by rewrite pretty_char_digit.
  - rewrite digits_app, Hp. cbn [mbind option_bind]. rewrite digits_digit by done. cbn [digits_value]. f_equal.
    rewrite (N.div_mod x 10) at 3 by done. lia.
  - by destruct p.
Qed.

Lemma decimal_value n : digits_value 0 (decimal n) = Some (Z.of_N n) ∧ decimal n ≠ [].
Proof.
  unfold decimal, pretty, pretty_N. case_decide as H; [subst; by vm_compute|].
  destruct (pretty_go_value n "") as (p & -> & Hp & Hne). rewrite app_nil_r. auto.
Qed.

Lemma digits_head acc c s z : digits_value acc (c :: s) = Some z → is_ascii_digit c = true.
Proof. simpl. by destruct (is_ascii_digit c). Qed.

Lemma parse_show_i64 z : (- 2 ^ 63 <= z < 2 ^ 63)%Z → parse_i64 (show_i64 z) = Some z.
Proof.
  intros Hz. unfold show_i64. assert (∀ sign n, (sign * Z.of_N n = z)%Z → parse_digits sign (decimal n) = Some z) as Hp.
  { intros sign n E. destruct (decimal_value n) as [Hv Hne]. unfold parse_digits.
    destruct (decimal n) as [|c s] eqn:Ed; [done|]. rewrite Hv. cbn [mbind option_bind]. rewrite E.
    assert (((- 2 ^ 63 <=? z) && (z <? 2 ^ 63))%Z = true) as -> by (apply andb_true_iff; rewrite Z.leb_le, Z.ltb_lt; lia).
    done. }
  destruct (z <? 0)%Z eqn:E; bool_to_prop.
  - cbn [parse_i64]. apply Hp. lia.
  - destruct (decimal_value (Z.to_N z)) as [Hv Hne]. specialize (Hp 1%Z (Z.to_N z) ltac:(lia)).
    destruct (decimal (Z.to_N z)) as [|c s]; [done|]. apply digits_head in Hv.
    unfold parse_i64. unfold is_ascii_digit in Hv. apply andb_true_iff in Hv as [H1%N.leb_le H2%N.leb_le].
    destruct (decide (c = 43%N)) as [->|N1]; [lia|]. destruct (decide (c = 45%N)) as [->|N2]; [lia|].
    rewrite <- Hp. repeat case_match; simplify_eq; try done; lia.
Qed.

Lemma digits_all acc s z : digits_value acc s = Some z → Forall (λ c, is_ascii_digit c = true) s.
Proof.
  revert acc. induction s as [|c s IH]; intros acc; simpl; [by constructor|].
  destruct (is_ascii_digit c) eqn:E; [|done]. intros H. constructor; [done|by eapply IH].
Qed.

Lemma decimal_digits n : Forall (λ c, is_ascii_digit c = true) (decimal n).
Proof. destruct (decimal_value n) as [H%digits_all _]. done. Qed.

(** A number has no separator in it. *)
Lemma show_no_colon z : 58%N ∉ show_i64 z.
Proof.
  assert (∀ acc s n, digits_value acc s = Some n → 58%N ∉ s) as H.
  { intros acc s. revert acc. induction s as [|c s IH]; intros acc n Hs; [by apply not_elem_of_nil|].
    pose proof (digits_head _ _ _ _ Hs) as Hc. simpl in Hs. rewrite Hc in Hs. apply IH in Hs.
    intros [<-|?]%elem_of_cons; [by vm_compute in Hc|done]. }
  assert (∀ n, 58%N ∉ decimal n) as Hd.
  { intros n. destruct (decimal_value n) as [Hv _]. by eapply H. }
  unfold show_i64. case_match; [|done]. intros [?|?]%elem_of_cons; [lia|]. by eapply Hd.
Qed.
