(* ===== verification/Storage.v ===== *)
(** * Storage ([crates/gal-server/src/db.rs]): tables and writes

    Every method runs on one connection; one that opens a transaction is all or nothing, so each is a
    function of the database that returns the new one or an error.  Ids and times are arguments.  JSON
    columns are kept decoded.  The checks on inserts are the keys and references of [schema.sql] and of
    the migration steps. *)

From stdpp Require Import sorting.
From S2P Require Import Prelude Tables Strings Unicode Json Attributes Text Delta Model Protocol Snippet.

(** ** Rows *)

Record SessionRow := mkSession {
  se_token_hash : str;
  se_user_id : UserId;
  se_created_at : Timestamp;
  se_expires_at : Timestamp;
}.

Record WaveRow := mkWaveRow {
  wr_id : WaveId;
  wr_creator : UserId;
  wr_created_at : Timestamp;
  wr_mode : str;
}.

Record WaveletRow := mkWaveletRow {
  wlr_id : WaveletId;
  wlr_wave_id : WaveId;
  wlr_kind : str;
  wlr_title : str;
  wlr_anchor_blip : option BlipId;
  wlr_created_at : Timestamp;
  wlr_last_modified : Timestamp;
}.

Record ParticipantRow := mkParticipant {
  pr_wavelet_id : WaveletId;
  pr_user_id : UserId;
  pr_added_at : Timestamp;
}.

Record FlagRow := mkFlagRow {
  fr_user_id : UserId;
  fr_wave_id : WaveId;
  fr_flags : WaveFlags;
}.

Record AttachmentRow := mkAttachmentRow { ar_attachment : Attachment; ar_bytes : list N }.

Record CommentRow := mkCommentRow { cr_thread : CommentThread; cr_wave_id : WaveId }.

Record OauthRow := mkOauthRow {
  oi_issuer : str;
  oi_subject : str;
  oi_user_id : UserId;
  oi_created_at : Timestamp;
}.

Inductive AgentScope := Read | ReplyScope.

#[global] Instance AgentScope_eq_dec : EqDecision AgentScope.
Proof. solve_decision. Defined.

Record AgentToken := mkAgentToken {
  tok_id : str;
  tok_user_id : UserId;
  tok_wave_id : WaveId;
  tok_wavelet_id : WaveletId;
  tok_label : str;
  tok_scope : AgentScope;
  tok_created_at : Timestamp;
  tok_expires_at : Timestamp;
}.

(** The stored columns; the wave comes from the wavelet. *)
Record AgentTokenRow := mkAgentTokenRow {
  tr_id : str;
  tr_token_hash : str;
  tr_user_id : UserId;
  tr_wavelet_id : WaveletId;
  tr_label : str;
  tr_scope : AgentScope;
  tr_created_at : Timestamp;
  tr_expires_at : Timestamp;
}.

Record AgentReplyRow := mkAgentReplyRow {
  rp_token_id : str;
  rp_request_id : str;
  rp_request_hash : str;
  rp_blip_id : BlipId;
  rp_revision : N;
}.

Record SearchKey := mkSearchKey { sk_id : N; sk_blip_id : BlipId }.

Record SearchRow := mkSearchRow {
  sr_rowid : N;
  sr_blip_id : BlipId;
  sr_wave_id : WaveId;
  sr_body : str;
}.

Section storage.
Context `{J : Json}.

Record OpRow := mkOpRow {
  or_blip_id : BlipId;
  or_revision : N;
  or_wave_id : WaveId;
  or_author : UserId;
  or_timestamp : Timestamp;
  or_delta : Delta;
  or_op_id : option str;
}.

Record Db := mkDb {
  db_users : list User;
  db_sessions : list SessionRow;
  db_waves : list WaveRow;
  db_wavelets : list WaveletRow;
  db_participants : list ParticipantRow;
  db_blips : list Blip;
  db_ops : list OpRow;
  db_read_marks : list ReadMark;
  db_flags : list FlagRow;
  db_attachments : list AttachmentRow;
  db_comments : list CommentRow;
  db_oauth : list OauthRow;
  db_agent_tokens : list AgentTokenRow;
  db_agent_replies : list AgentReplyRow;
  db_search_keys : list SearchKey;
  db_search : list SearchRow;
}.

Definition db_empty : Db := mkDb [] [] [] [] [] [] [] [] [] [] [] [] [] [] [] [].

Definition on_users (f : list User → list User) (db : Db) : Db :=
  mkDb (f (db_users db)) (db_sessions db) (db_waves db) (db_wavelets db) (db_participants db) (db_blips db) (db_ops db)
    (db_read_marks db) (db_flags db) (db_attachments db) (db_comments db) (db_oauth db)
    (db_agent_tokens db) (db_agent_replies db) (db_search_keys db) (db_search db).
Definition on_sessions (f : list SessionRow → list SessionRow) (db : Db) : Db :=
  mkDb (db_users db) (f (db_sessions db)) (db_waves db) (db_wavelets db) (db_participants db) (db_blips db) (db_ops db)
    (db_read_marks db) (db_flags db) (db_attachments db) (db_comments db) (db_oauth db)
    (db_agent_tokens db) (db_agent_replies db) (db_search_keys db) (db_search db).
Definition on_waves (f : list WaveRow → list WaveRow) (db : Db) : Db :=
  mkDb (db_users db) (db_sessions db) (f (db_waves db)) (db_wavelets db) (db_participants db) (db_blips db) (db_ops db)
    (db_read_marks db) (db_flags db) (db_attachments db) (db_comments db) (db_oauth db)
    (db_agent_tokens db) (db_agent_replies db) (db_search_keys db) (db_search db).
Definition on_wavelets (f : list WaveletRow → list WaveletRow) (db : Db) : Db :=
  mkDb (db_users db) (db_sessions db) (db_waves db) (f (db_wavelets db)) (db_participants db) (db_blips db) (db_ops db)
    (db_read_marks db) (db_flags db) (db_attachments db) (db_comments db) (db_oauth db)
    (db_agent_tokens db) (db_agent_replies db) (db_search_keys db) (db_search db).
Definition on_participants (f : list ParticipantRow → list ParticipantRow) (db : Db) : Db :=
  mkDb (db_users db) (db_sessions db) (db_waves db) (db_wavelets db) (f (db_participants db)) (db_blips db) (db_ops db)
    (db_read_marks db) (db_flags db) (db_attachments db) (db_comments db) (db_oauth db)
    (db_agent_tokens db) (db_agent_replies db) (db_search_keys db) (db_search db).
Definition on_blips (f : list Blip → list Blip) (db : Db) : Db :=
  mkDb (db_users db) (db_sessions db) (db_waves db) (db_wavelets db) (db_participants db) (f (db_blips db)) (db_ops db)
    (db_read_marks db) (db_flags db) (db_attachments db) (db_comments db) (db_oauth db)
    (db_agent_tokens db) (db_agent_replies db) (db_search_keys db) (db_search db).
Definition on_ops (f : list OpRow → list OpRow) (db : Db) : Db :=
  mkDb (db_users db) (db_sessions db) (db_waves db) (db_wavelets db) (db_participants db) (db_blips db) (f (db_ops db))
    (db_read_marks db) (db_flags db) (db_attachments db) (db_comments db) (db_oauth db)
    (db_agent_tokens db) (db_agent_replies db) (db_search_keys db) (db_search db).
Definition on_read_marks (f : list ReadMark → list ReadMark) (db : Db) : Db :=
  mkDb (db_users db) (db_sessions db) (db_waves db) (db_wavelets db) (db_participants db) (db_blips db) (db_ops db)
    (f (db_read_marks db)) (db_flags db) (db_attachments db) (db_comments db) (db_oauth db)
    (db_agent_tokens db) (db_agent_replies db) (db_search_keys db) (db_search db).
Definition on_flags (f : list FlagRow → list FlagRow) (db : Db) : Db :=
  mkDb (db_users db) (db_sessions db) (db_waves db) (db_wavelets db) (db_participants db) (db_blips db) (db_ops db)
    (db_read_marks db) (f (db_flags db)) (db_attachments db) (db_comments db) (db_oauth db)
    (db_agent_tokens db) (db_agent_replies db) (db_search_keys db) (db_search db).
Definition on_attachments (f : list AttachmentRow → list AttachmentRow) (db : Db) : Db :=
  mkDb (db_users db) (db_sessions db) (db_waves db) (db_wavelets db) (db_participants db) (db_blips db) (db_ops db)
    (db_read_marks db) (db_flags db) (f (db_attachments db)) (db_comments db) (db_oauth db)
    (db_agent_tokens db) (db_agent_replies db) (db_search_keys db) (db_search db).
Definition on_comments (f : list CommentRow → list CommentRow) (db : Db) : Db :=
  mkDb (db_users db) (db_sessions db) (db_waves db) (db_wavelets db) (db_participants db) (db_blips db) (db_ops db)
    (db_read_marks db) (db_flags db) (db_attachments db) (f (db_comments db)) (db_oauth db)
    (db_agent_tokens db) (db_agent_replies db) (db_search_keys db) (db_search db).
Definition on_oauth (f : list OauthRow → list OauthRow) (db : Db) : Db :=
  mkDb (db_users db) (db_sessions db) (db_waves db) (db_wavelets db) (db_participants db) (db_blips db) (db_ops db)
    (db_read_marks db) (db_flags db) (db_attachments db) (db_comments db) (f (db_oauth db))
    (db_agent_tokens db) (db_agent_replies db) (db_search_keys db) (db_search db).
Definition on_agent_tokens (f : list AgentTokenRow → list AgentTokenRow) (db : Db) : Db :=
  mkDb (db_users db) (db_sessions db) (db_waves db) (db_wavelets db) (db_participants db) (db_blips db) (db_ops db)
    (db_read_marks db) (db_flags db) (db_attachments db) (db_comments db) (db_oauth db)
    (f (db_agent_tokens db)) (db_agent_replies db) (db_search_keys db) (db_search db).
Definition on_agent_replies (f : list AgentReplyRow → list AgentReplyRow) (db : Db) : Db :=
  mkDb (db_users db) (db_sessions db) (db_waves db) (db_wavelets db) (db_participants db) (db_blips db) (db_ops db)
    (db_read_marks db) (db_flags db) (db_attachments db) (db_comments db) (db_oauth db)
    (db_agent_tokens db) (f (db_agent_replies db)) (db_search_keys db) (db_search db).
Definition on_search_keys (f : list SearchKey → list SearchKey) (db : Db) : Db :=
  mkDb (db_users db) (db_sessions db) (db_waves db) (db_wavelets db) (db_participants db) (db_blips db) (db_ops db)
    (db_read_marks db) (db_flags db) (db_attachments db) (db_comments db) (db_oauth db)
    (db_agent_tokens db) (db_agent_replies db) (f (db_search_keys db)) (db_search db).
Definition on_search (f : list SearchRow → list SearchRow) (db : Db) : Db :=
  mkDb (db_users db) (db_sessions db) (db_waves db) (db_wavelets db) (db_participants db) (db_blips db) (db_ops db)
    (db_read_marks db) (db_flags db) (db_attachments db) (db_comments db) (db_oauth db)
    (db_agent_tokens db) (db_agent_replies db) (db_search_keys db) (f (db_search db)).

(** What a method can fail with. *)
Inductive DbError :=
| Unavailable                          (** no connection, or the disk *)
| Constraint                           (** a key or a reference *)
| UnknownMode (id : WaveId) (stored : str)
| NoFreeName (base : str)
| NoRows.

Abbreviation DbResult T := (result T DbError).

Definition insert_into {R} (ok : bool) (r : R) (t : list R) : DbResult (list R) := insert_row Constraint ok r t.

(** ** Users *)

Definition user_exists (db : Db) (id : UserId) : bool := exists_row (λ u, str_eqb (user_id u) id) (db_users db).

Definition name_taken (db : Db) (name : str) : bool := exists_row (λ u, str_eqb (user_name u) name) (db_users db).

Definition insert_user (db : Db) (u : User) : DbResult Db :=
  t <-? insert_into (negb (user_exists db (user_id u)) && negb (name_taken db (user_name u))) u (db_users db);
  Ok (on_users (λ _, t) db).

Definition create_user (db : Db) (uuid : str) (ts : Timestamp) (name display_name email password_hash : str)
    : DbResult (User * Db) :=
  let user := mkUser (id_new (lit "u-") uuid) name display_name email password_hash (color_for name) ts in
  db <-? insert_user db user;
  Ok (user, db).

Inductive OauthLogin :=
| Existing (u : User)
| Created (u : User).

(** [for n in 0..MAX_NAME_ATTEMPTS]; a name that cannot be cut is a panic, so no answer. *)
Fixpoint free_name_from (fuel : nat) (db : Db) (base : str) (n : N) : option (DbResult str) :=
  match fuel with
  | O => Some (Err (NoFreeName base))
  | S fuel =>
      candidate ← numbered_name base n;
      if name_taken db candidate then free_name_from fuel db base (n + 1) else Some (Ok candidate)
  end.

Definition free_name (db : Db) (base : str) : option (DbResult str) :=
  free_name_from (N.to_nat MAX_NAME_ATTEMPTS) db base 0.

(** [SELECT u.* FROM oauth_identities i JOIN users u ON u.id = i.user_id WHERE ..]. *)
Definition user_of_identity (db : Db) (issuer subject : str) : option User :=
  head (i ← select_where (λ i, str_eqb (oi_issuer i) issuer && str_eqb (oi_subject i) subject) (db_oauth db);
        select_where (λ u, str_eqb (user_id u) (oi_user_id i)) (db_users db)).

Definition insert_identity (db : Db) (row : OauthRow) : DbResult Db :=
  let taken := exists_row (λ i, str_eqb (oi_issuer i) (oi_issuer row) && str_eqb (oi_subject i) (oi_subject row))
                 (db_oauth db) in
  t <-? insert_into (negb taken && user_exists db (oi_user_id row)) row (db_oauth db);
  Ok (on_oauth (λ _, t) db).

Definition user_for_oauth_identity (db : Db) (uuid : str) (ts : Timestamp)
    (issuer subject name_hint display_name : str) : option (DbResult (OauthLogin * Db)) :=
  match user_of_identity db issuer subject with
  | Some user => Some (Ok (Existing user, db))
  | None =>
      r ← free_name db name_hint;
      Some (name <-? r;
            let user := mkUser (id_new (lit "u-") uuid) name display_name [] (lit "!") (color_for name) ts in
            db <-? insert_user db user;
            db <-? insert_identity db (mkOauthRow issuer subject (user_id user) ts);
            Ok (Created user, db))
  end.

Definition user_by_name `{Unicode} (db : Db) (name : str) : option User :=
  find_row (λ u, str_eqb (user_name u) (to_lowercase name)) (db_users db).

Definition user_count (db : Db) : N := N.of_nat (length (db_users db)).

#[global] Instance PublicUser_eq_dec : EqDecision PublicUser.
Proof. solve_decision. Defined.

Definition wavelets_with (db : Db) (user : UserId) : list WaveletId :=
  pr_wavelet_id <$> select_where (λ p, str_eqb (pr_user_id p) user) (db_participants db).

(** Members of a set of wavelets, as public profiles; [DISTINCT]. *)
Definition profiles (db : Db) (keep : ParticipantRow → bool) : list PublicUser :=
  remove_dups (p ← select_where keep (db_participants db);
               public <$> select_where (λ u, str_eqb (user_id u) (pr_user_id p)) (db_users db)).

Definition display_before (a b : PublicUser) : Prop := str_le (pu_display_name a) (pu_display_name b).
#[global] Instance display_before_dec a b : Decision (display_before a b).
Proof. unfold display_before. apply _. Defined.

Definition known_users (db : Db) (user : UserId) : list PublicUser :=
  merge_sort display_before (profiles db (λ p, bool_decide (pr_wavelet_id p ∈ wavelets_with db user))).

Definition wavelet_ids (db : Db) (wave : WaveId) : list WaveletId :=
  wlr_id <$> select_where (λ w, str_eqb (wlr_wave_id w) wave) (db_wavelets db).

Definition users_of_wave (db : Db) (wave : WaveId) : list PublicUser :=
  profiles db (λ p, bool_decide (pr_wavelet_id p ∈ wavelet_ids db wave)).

Definition resolve_names `{Unicode} (db : Db) (names : list str) : list UserId * list str :=
  if decide (names = []) then ([], [])
  else
    let lowered := (λ n, to_lowercase (trim n)) <$> names in
    let rows := select_where (λ u, bool_decide (user_name u ∈ lowered)) (db_users db) in
    (user_id <$> rows, filter (λ n, n ∉ user_name <$> rows) lowered).

(** ** Sessions *)

Definition SESSION_TTL_MS : Z := 30 * 24 * 60 * 60 * 1000.

Definition create_session (db : Db) (ts : Timestamp) (user : UserId) (token_hash : str) : DbResult Db :=
  let row := mkSession token_hash user ts (ts + SESSION_TTL_MS) in
  let taken := exists_row (λ s, str_eqb (se_token_hash s) token_hash) (db_sessions db) in
  t <-? insert_into (negb taken && user_exists db user) row (db_sessions db);
  Ok (on_sessions (λ _, delete_where (λ s, (se_expires_at s <? ts)%Z) t) db).

Definition user_for_session (db : Db) (ts : Timestamp) (token_hash : str) : option User :=
  head (u ← db_users db;
        const u <$> select_where (λ s, str_eqb (se_user_id s) (user_id u) && str_eqb (se_token_hash s) token_hash
                                       && (ts <? se_expires_at s)%Z) (db_sessions db)).

Definition session_expiry (db : Db) (ts : Timestamp) (token_hash : str) : option Timestamp :=
  se_expires_at <$> find_row (λ s, str_eqb (se_token_hash s) token_hash && (ts <? se_expires_at s)%Z) (db_sessions db).

(** [DELETE FROM agent_tokens]; their replies cascade. *)
Definition delete_agent_tokens (p : AgentTokenRow → bool) (db : Db) : Db :=
  let gone := tr_id <$> select_where p (db_agent_tokens db) in
  on_agent_replies (delete_where (λ r, bool_decide (rp_token_id r ∈ gone)))
    (on_agent_tokens (delete_where p) db).

Definition other_sessions (user : UserId) (keep : str) (s : SessionRow) : bool :=
  str_eqb (se_user_id s) user && negb (str_eqb (se_token_hash s) keep).

Definition with_password_hash (hash : str) (u : User) : User :=
  mkUser (user_id u) (user_name u) (user_display_name u) (user_email u) hash (user_color u) (user_created_at u).

Definition change_password (db : Db) (user : UserId) (password_hash keep : str) : Db :=
  delete_agent_tokens (λ t, str_eqb (tr_user_id t) user)
    (on_sessions (delete_where (other_sessions user keep))
      (on_users (update_where (λ u, str_eqb (user_id u) user) (with_password_hash password_hash)) db)).

Definition revoke_other_sessions (db : Db) (user : UserId) (keep : str) : N * Db :=
  (N.of_nat (length (select_where (other_sessions user keep) (db_sessions db))),
   delete_agent_tokens (λ t, str_eqb (tr_user_id t) user)
     (on_sessions (delete_where (other_sessions user keep)) db)).

Definition session_count (db : Db) (ts : Timestamp) (user : UserId) : N :=
  N.of_nat (length (select_where (λ s, str_eqb (se_user_id s) user && (ts <? se_expires_at s)%Z) (db_sessions db))).

Definition delete_session (db : Db) (token_hash : str) : Db :=
  on_sessions (delete_where (λ s, str_eqb (se_token_hash s) token_hash)) db.

(** ** Wavelets and blips: the shared inserts *)

Definition kind_str (k : WaveletKind) : str :=
  match k with Conversation => lit "conversation" | PrivateReplyKind => lit "privateReply" end.

Definition wavelet_exists (db : Db) (id : WaveletId) : bool :=
  exists_row (λ w, str_eqb (wlr_id w) id) (db_wavelets db).

Definition wave_exists (db : Db) (id : WaveId) : bool := exists_row (λ w, str_eqb (wr_id w) id) (db_waves db).

(** [INSERT OR IGNORE INTO participants]: a duplicate is ignored, a dangling reference is not. *)
Definition insert_participant (db : Db) (row : ParticipantRow) : DbResult Db :=
  if exists_row (λ p, str_eqb (pr_wavelet_id p) (pr_wavelet_id row) && str_eqb (pr_user_id p) (pr_user_id row))
       (db_participants db) then Ok db
  else
    t <-? insert_into (wavelet_exists db (pr_wavelet_id row) && user_exists db (pr_user_id row)) row
            (db_participants db);
    Ok (on_participants (λ _, t) db).

Fixpoint insert_participants (db : Db) (wavelet : WaveletId) (users : list UserId) (ts : Timestamp) : DbResult Db :=
  match users with
  | [] => Ok db
  | user :: users =>
      db <-? insert_participant db (mkParticipant wavelet user ts);
      insert_participants db wavelet users ts
  end.

Definition insert_wavelet (db : Db) (w : Wavelet) : DbResult Db :=
  let row := mkWaveletRow (wl_id w) (wl_wave_id w) (kind_str (wl_kind w)) (wl_title w) (wl_anchor_blip w)
               (wl_created_at w) (wl_last_modified w) in
  t <-? insert_into (negb (wavelet_exists db (wl_id w)) && wave_exists db (wl_wave_id w)) row (db_wavelets db);
  insert_participants (on_wavelets (λ _, t) db) (wl_id w) (wl_participants w) (wl_created_at w).

Definition blip_exists (db : Db) (id : BlipId) : bool := exists_row (λ b, str_eqb (blip_id b) id) (db_blips db).

Definition undeleted (b : Blip) : Blip :=
  mkBlip (blip_id b) (blip_wavelet_id b) (blip_wave_id b) (blip_parent b) (blip_comment b) (blip_seq b)
    (blip_author b) (blip_contributors b) (blip_created_at b) (blip_last_modified b) (blip_content b)
    (blip_revision b) false.

Definition insert_blip_row (db : Db) (b : Blip) : DbResult Db :=
  t <-? insert_into (negb (blip_exists db (blip_id b)) && wavelet_exists db (blip_wavelet_id b)) (undeleted b)
          (db_blips db);
  Ok (on_blips (λ _, t) db).

Definition insert_op (db : Db) (row : OpRow) : DbResult Db :=
  let taken := exists_row (λ o, str_eqb (or_blip_id o) (or_blip_id row) && (or_revision o =? or_revision row)%N)
                 (db_ops db) in
  let repeated :=
    match or_op_id row with
    | Some op_id => exists_row (λ o, str_eqb (or_blip_id o) (or_blip_id row)
                                     && bool_decide (or_op_id o = Some op_id)) (db_ops db)
    | None => false
    end in
  t <-? insert_into (negb taken && negb repeated) row (db_ops db);
  Ok (on_ops (λ _, t) db).

Definition touched (ts : Timestamp) (w : WaveletRow) : WaveletRow :=
  mkWaveletRow (wlr_id w) (wlr_wave_id w) (wlr_kind w) (wlr_title w) (wlr_anchor_blip w) (wlr_created_at w) ts.

(** [UPDATE wavelets SET last_modified = ?2 WHERE id = ?1]. *)
Definition touch_wavelet_row (id : WaveletId) (ts : Timestamp) (db : Db) : Db :=
  on_wavelets (update_where (λ w, str_eqb (wlr_id w) id) (touched ts)) db.

Definition next_search_key (db : Db) : N := (foldr N.max 0 (sk_id <$> db_search_keys db) + 1)%N.

Definition index_blip (db : Db) (b : Blip) : DbResult Db :=
  db <-? (if exists_row (λ k, str_eqb (sk_blip_id k) (blip_id b)) (db_search_keys db) then Ok db
          else
            t <-? insert_into (blip_exists db (blip_id b)) (mkSearchKey (next_search_key db) (blip_id b))
                    (db_search_keys db);
            Ok (on_search_keys (λ _, t) db));
  match find_row (λ k, str_eqb (sk_blip_id k) (blip_id b)) (db_search_keys db) with
  | None => Err NoRows
  | Some key =>
      let row := mkSearchRow (sk_id key) (blip_id b) (blip_wave_id b) (display_text (blip_content b)) in
      Ok (on_search (λ t, delete_where (λ r, (sr_rowid r =? sk_id key)%N) t ++ [row]) db)
  end.

Definition insert_seeded_blip (db : Db) (b : Blip) : DbResult Db :=
  db <-? insert_blip_row db b;
  db <-? (if (0 <? blip_revision b)%N
          then insert_op db (mkOpRow (blip_id b) (blip_revision b) (blip_wave_id b) (blip_author b)
                               (blip_created_at b) (blip_content b) None)
          else Ok db);
  index_blip (touch_wavelet_row (blip_wavelet_id b) (blip_last_modified b) db) b.

(** ** Waves *)

Definition insert_wave (db : Db) (w : Wave) : DbResult Db :=
  t <-? insert_into (negb (wave_exists db (wave_id w)))
          (mkWaveRow (wave_id w) (wave_creator w) (wave_created_at w) (mode_as_str (wave_mode w))) (db_waves db);
  Ok (on_waves (λ _, t) db).

Definition with_content (b : Blip) (content : Delta) (revision : N) : Blip :=
  mkBlip (blip_id b) (blip_wavelet_id b) (blip_wave_id b) (blip_parent b) (blip_comment b) (blip_seq b)
    (blip_author b) (blip_contributors b) (blip_created_at b) (blip_last_modified b) content revision
    (blip_deleted b).

Definition create_wave_inner (db : Db) (wave_uuid wavelet_uuid blip_uuid : str) (ts blip_ts : Timestamp)
    (creator : UserId) (title : str) (participants : list UserId) (mode : WaveMode) (content : option Delta)
    : DbResult ((Wave * Wavelet) * Db) :=
  let wave := mkWave (id_new (lit "w-") wave_uuid) creator ts mode in
  let wavelet := mkWavelet (id_new (lit "s-") wavelet_uuid) (wave_id wave) Conversation title participants None ts ts in
  db <-? insert_wave db wave;
  db <-? insert_wavelet db wavelet;
  db <-? match content with
         | Some content =>
             let blip := blip_new blip_uuid blip_ts (wave_id wave) (wl_id wavelet) (wave_creator wave) None 0 in
             insert_seeded_blip db (if decide (content = []) then blip else with_content blip content 1)
         | None => Ok db
         end;
  Ok ((wave, wavelet), db).

Definition create_wave_with_blip db wave_uuid wavelet_uuid blip_uuid ts blip_ts creator title participants mode
    (content : Delta) :=
  create_wave_inner db wave_uuid wavelet_uuid blip_uuid ts blip_ts creator title participants mode (Some content).

Definition create_private_reply (db : Db) (w : Wavelet) (b : Blip) : DbResult Db :=
  db <-? insert_wavelet db w;
  insert_seeded_blip db b.

Definition wave (db : Db) (id : WaveId) : DbResult (option Wave) :=
  match find_row (λ w, str_eqb (wr_id w) id) (db_waves db) with
  | None => Ok None
  | Some w =>
      match mode_parse (wr_mode w) with
      | Some mode => Ok (Some (mkWave (wr_id w) (wr_creator w) (wr_created_at w) mode))
      | None => Err (UnknownMode (wr_id w) (wr_mode w))
      end
  end.

Definition row_to_wavelet (w : WaveletRow) : Wavelet :=
  mkWavelet (wlr_id w) (wlr_wave_id w)
    (if decide (wlr_kind w = lit "privateReply") then PrivateReplyKind else Conversation)
    (wlr_title w) [] (wlr_anchor_blip w) (wlr_created_at w) (wlr_last_modified w).

Definition push_participant (user : UserId) (w : Wavelet) : Wavelet :=
  mkWavelet (wl_id w) (wl_wave_id w) (wl_kind w) (wl_title w) (wl_participants w ++ [user]) (wl_anchor_blip w)
    (wl_created_at w) (wl_last_modified w).

Definition wavelets_of_wave (db : Db) (wave : WaveId) : list Wavelet :=
  let wavelets := row_to_wavelet <$>
    order_by wlr_created_at (select_where (λ w, str_eqb (wlr_wave_id w) wave) (db_wavelets db)) in
  let members :=
    order_by pr_added_at
      (p ← db_participants db;
       const p <$> select_where (λ s, str_eqb (wlr_id s) (pr_wavelet_id p) && str_eqb (wlr_wave_id s) wave)
                     (db_wavelets db)) in
  foldl (λ ws p, update_first (λ w, str_eqb (wl_id w) (pr_wavelet_id p)) (push_participant (pr_user_id p)) ws)
    wavelets members.

Definition blips_of_wave (db : Db) (wave : WaveId) : list Blip :=
  order_by blip_seq (select_where (λ b, str_eqb (blip_wave_id b) wave && negb (blip_deleted b)) (db_blips db)).

Definition with_mode (mode : WaveMode) (w : WaveRow) : WaveRow :=
  mkWaveRow (wr_id w) (wr_creator w) (wr_created_at w) (mode_as_str mode).

Definition set_mode (db : Db) (wave : WaveId) (mode : WaveMode) : Db :=
  on_waves (update_where (λ w, str_eqb (wr_id w) wave) (with_mode mode)) db.

Definition with_title (title : str) (ts : Timestamp) (w : WaveletRow) : WaveletRow :=
  mkWaveletRow (wlr_id w) (wlr_wave_id w) (wlr_kind w) title (wlr_anchor_blip w) (wlr_created_at w) ts.

Definition set_title (db : Db) (ts : Timestamp) (wavelet : WaveletId) (title : str) : Db :=
  on_wavelets (update_where (λ w, str_eqb (wlr_id w) wavelet) (with_title title ts)) db.

Definition add_participant (db : Db) (ts : Timestamp) (wavelet : WaveletId) (user : UserId) : DbResult Db :=
  insert_participant db (mkParticipant wavelet user ts).

(** The private replies of the wave whose conversation [wavelet] is. *)
Definition private_children (db : Db) (wavelet : WaveletId) : list WaveletId :=
  child ← db_wavelets db;
  parent ← select_where (λ parent, str_eqb (wlr_wave_id parent) (wlr_wave_id child)) (db_wavelets db);
  if str_eqb (wlr_id parent) wavelet && str_eqb (wlr_kind parent) (lit "conversation")
     && str_eqb (wlr_kind child) (lit "privateReply")
  then [wlr_id child] else [].

Definition remove_participant (db : Db) (wavelet : WaveletId) (user : UserId) : Db :=
  let children := private_children db wavelet in
  on_participants (delete_where (λ p, str_eqb (pr_wavelet_id p) wavelet && str_eqb (pr_user_id p) user))
    (on_participants
       (delete_where (λ p, str_eqb (pr_user_id p) user && bool_decide (pr_wavelet_id p ∈ children))) db).

(** ** Blips, comments and ops *)

Definition create_blip (db : Db) (b : Blip) : DbResult Db := insert_seeded_blip db b.

Definition insert_comment (db : Db) (row : CommentRow) : DbResult Db :=
  let thread := cr_thread row in
  let taken := exists_row (λ c, str_eqb (ct_id (cr_thread c)) (ct_id thread)) (db_comments db) in
  t <-? insert_into (negb taken && wavelet_exists db (ct_wavelet_id thread) && user_exists db (ct_author thread))
          row (db_comments db);
  Ok (on_comments (λ _, t) db).

(** The insert leaves [resolved_by] and [resolved_at] null. *)
Definition create_comment (db : Db) (thread : CommentThread) (b : Blip) : DbResult Db :=
  let row := mkThread (ct_id thread) (ct_wavelet_id thread) (ct_blip_id thread) (ct_author thread)
               (ct_created_at thread) None None in
  db <-? insert_comment db (mkCommentRow row (blip_wave_id b));
  insert_seeded_blip db b.

Definition comments_of_wave (db : Db) (wave : WaveId) : list CommentThread :=
  order_by ct_created_at (cr_thread <$> select_where (λ c, str_eqb (cr_wave_id c) wave) (db_comments db)).

Definition with_resolution (by_ : option UserId) (at_ : option Timestamp) (t : CommentThread) : CommentThread :=
  mkThread (ct_id t) (ct_wavelet_id t) (ct_blip_id t) (ct_author t) (ct_created_at t) by_ at_.

Definition set_comment_resolved (db : Db) (comment : CommentId) (by_ : option UserId) (at_ : option Timestamp) : Db :=
  on_comments (update_where (λ c, str_eqb (ct_id (cr_thread c)) comment)
    (λ c, mkCommentRow (with_resolution by_ at_ (cr_thread c)) (cr_wave_id c))) db.

Definition revision_for_op (db : Db) (blip : BlipId) (op_id : str) : option N :=
  or_revision <$> find_row (λ o, str_eqb (or_blip_id o) blip && bool_decide (or_op_id o = Some op_id)) (db_ops db).

(** [UPDATE blips SET content, revision, last_modified, contributors WHERE id]. *)
Definition with_snapshot (snapshot b : Blip) : Blip :=
  mkBlip (blip_id b) (blip_wavelet_id b) (blip_wave_id b) (blip_parent b) (blip_comment b) (blip_seq b)
    (blip_author b) (blip_contributors snapshot) (blip_created_at b) (blip_last_modified snapshot)
    (blip_content snapshot) (blip_revision snapshot) (blip_deleted b).

Definition commit_op (db : Db) (b : Blip) (delta : Delta) (author : UserId) (ts : Timestamp) (op_id : option str)
    : DbResult Db :=
  db <-? insert_op db (mkOpRow (blip_id b) (blip_revision b) (blip_wave_id b) author ts delta op_id);
  let db := on_blips (update_where (λ r, str_eqb (blip_id r) (blip_id b)) (with_snapshot b)) db in
  index_blip (touch_wavelet_row (blip_wavelet_id b) (blip_last_modified b) db) b.

Definition mark_deleted (b : Blip) : Blip :=
  mkBlip (blip_id b) (blip_wavelet_id b) (blip_wave_id b) (blip_parent b) (blip_comment b) (blip_seq b)
    (blip_author b) (blip_contributors b) (blip_created_at b) (blip_last_modified b) (blip_content b)
    (blip_revision b) true.

(** The threads anchored in a blip. *)
Definition threads_on (db : Db) (blip : BlipId) : list CommentId :=
  (λ c, ct_id (cr_thread c)) <$> select_where (λ c, str_eqb (ct_blip_id (cr_thread c)) blip) (db_comments db).

Definition is_remark (db : Db) (blip : BlipId) (b : Blip) : bool :=
  match blip_comment b with Some c => bool_decide (c ∈ threads_on db blip) | None => false end.

(** The search rows of the blips that satisfy a test. *)
Definition search_keys_of (db : Db) (p : Blip → bool) : list N :=
  k ← db_search_keys db;
  (λ _, sk_id k) <$> select_where (λ b, str_eqb (blip_id b) (sk_blip_id k) && p b) (db_blips db).

Definition delete_blip (db : Db) (blip : BlipId) : Db :=
  let remarks := is_remark db blip in
  let keys := search_keys_of db remarks in
  let db := on_search (delete_where (λ r, bool_decide (sr_rowid r ∈ keys))) db in
  let db := on_blips (update_where remarks mark_deleted) db in
  let db := on_comments (delete_where (λ c, str_eqb (ct_blip_id (cr_thread c)) blip)) db in
  let db := on_blips (update_where (λ b, str_eqb (blip_id b) blip) mark_deleted) db in
  match find_row (λ k, str_eqb (sk_blip_id k) blip) (db_search_keys db) with
  | Some key => on_search (delete_where (λ r, (sr_rowid r =? sk_id key)%N)) db
  | None => db
  end.

End storage.

Abbreviation DbResult T := (result T DbError).
