(* ===== verification/OpLog.v ===== *)
(** * The op log in storage

    [ops_ok db]: the log of each message has its revisions in order without a gap and replays to the
    message's stored text, no op belongs to a message that is not there, and no client op id was used twice
    for one message. *)

From S2P Require Import Prelude Tables Strings Unicode Json Attributes Text Delta DeltaSpec DeltaAlg DeltaPush DeltaCanon.
From S2P Require Import DeltaIter DeltaLoops DeltaTransform DeltaTheory DeltaApply DeltaValidate.
From S2P Require Import DeltaInvert DeltaDiff ServerDoc ServerDocTheory DocGuarantees Model Protocol Content DocBounds Storage.

Section oplog.
Context `{J : Json}.
Implicit Types db : Db.
Implicit Types d : list Op.

(** ** A first op *)

Lemma document_valid_nil d : document_ops d → valid d [].
Proof.
  intros Hd. split.
  - unfold fits. assert (bounds 0 d = []) as ->; [|constructor]. induction Hd as [|op d Hop _ IH]; [done|]. simpl.
    by rewrite decide_True.
  - assert (blen d = 0)%N as ->; [|done]. apply N2Nat.inj. rewrite blen_nbase.
    apply nbase_none. by apply document_all_ins.
Qed.

Lemma apply_nil_inserts (l : list mop) : all_ins l → apply_spec [] l = cells_of l.
Proof.
  induction 1 as [|m l Hm _ IH]; [done|]. destruct m as [x a|b|]; try done. cbn [apply_spec]. by rewrite IH.
Qed.

Lemma compose_nil_document d : good_doc d → (total d < usize_max)%N → compose [] d = d.
Proof.
  intros Hg Ht. pose proof (good_nonempty d Hg) as Hn. destruct Hg as (Hd & Hc & _).
  destruct (compose_apply [] d) as (_ & Hd' & [Hc' _] & Hcells); [by constructor|by constructor|done|by apply document_valid_nil|simpl; lia|].
  apply document_unique; try done. rewrite Hcells. unfold doc_cells. simpl.
  by apply apply_nil_inserts, document_all_ins.
Qed.

(** ** The invariant *)

Definition log_of db (id : BlipId) : list OpRow := filter (λ o, or_blip_id o = id) (db_ops db).

(** The revisions 1, 2, 3 up to the message's own, and the text they add up to. *)
Definition logged db (b : Blip) : Prop :=
  (or_revision <$> log_of db (blip_id b)) = N.of_nat <$> seq 1 (N.to_nat (blip_revision b)) ∧
  replay (or_delta <$> log_of db (blip_id b)) (N.to_nat (blip_revision b)) = blip_content b.

Definition with_op_id db (id : BlipId) (op_id : str) : list OpRow :=
  filter (λ o, or_blip_id o = id ∧ or_op_id o = Some op_id) (db_ops db).

Record ops_ok db : Prop := {
  ol_logged : ∀ b, b ∈ db_blips db → logged db b;
  ol_owned : ∀ o, o ∈ db_ops db → ∃ b, b ∈ db_blips db ∧ blip_id b = or_blip_id o;
  ol_once : ∀ id op_id, (length (with_op_id db id op_id) ≤ 1)%nat;
}.

Lemma ops_ok_same db db' : db_ops db' = db_ops db → db_blips db' = db_blips db → ops_ok db → ops_ok db'.
Proof. intros E1 E2 [H1 H2 H3]. constructor; unfold logged, log_of, with_op_id in *; rewrite ?E1, ?E2; done. Qed.

(** Changes to rows that leave identity, text and revision alone. *)
Lemma ops_ok_blips db p f :
  (∀ b, blip_id (f b) = blip_id b ∧ blip_content (f b) = blip_content b ∧ blip_revision (f b) = blip_revision b) →
  ops_ok db → ops_ok (on_blips (update_where p f) db).
Proof.
  intros Hf [H1 H2 H3]. constructor; simpl; try done.
  - intros b (b0 & Hb0 & ->)%elem_of_update. specialize (H1 _ Hb0). destruct (p b0); [|done].
    destruct (Hf b0) as (E1 & E2 & E3). unfold logged in *. by rewrite E1, E2, E3.
  - intros o Ho. destruct (H2 o Ho) as (b & Hb & E). exists (if p b then f b else b).
    split; [apply elem_of_update; eauto|]. destruct (p b); [|done]. by rewrite (proj1 (Hf b)).
Qed.

(** What a seeded message starts from. *)
Definition seed_shape (b : Blip) : Prop :=
  (blip_revision b = 0%N ∧ blip_content b = []) ∨ (blip_revision b = 1%N ∧ good_text (blip_content b)).

Definition seed_log (b : Blip) (rows : list OpRow) : Prop :=
  (blip_revision b = 0%N ∧ rows = []) ∨
  (blip_revision b = 1%N ∧ ∃ wave author ts, rows = [mkOpRow (blip_id b) (blip_revision b) wave author ts (blip_content b) None]).

Lemma log_of_fresh db id : ops_ok db → (∀ b, b ∈ db_blips db → blip_id b ≠ id) → log_of db id = [].
Proof.
  intros [_ H2 _] Hf. unfold log_of. destruct (filter _ (db_ops db)) as [|o l] eqn:E; [done|].
  assert (o ∈ filter (λ o, or_blip_id o = id) (db_ops db)) as [Ho Hin]%list_elem_of_filter by (rewrite E; by left).
  destruct (H2 o Hin) as (b & Hb & Eb). destruct (Hf b Hb). congruence.
Qed.

Lemma ops_ok_seed db b rows :
  ops_ok db → (∀ x, x ∈ db_blips db → blip_id x ≠ blip_id b) → seed_shape b → seed_log b rows →
  ops_ok (on_ops (λ t, t ++ rows) (on_blips (λ t, t ++ [b]) db)).
Proof.
  intros Hok Hf Hs Hl. pose proof (log_of_fresh _ _ Hok Hf) as Hempty. destruct Hok as [H1 H2 H3].
  assert (∀ o, o ∈ rows → or_blip_id o = blip_id b ∧ or_op_id o = None) as Hrows.
  { destruct Hl as [[_ ->]|(_ & w & a & ts & ->)]; [by intros o ?%elem_of_nil|].
    by intros o ->%list_elem_of_singleton. }
  constructor; simpl.
  - intros x [Hx| ->%list_elem_of_singleton]%elem_of_app.
    + unfold logged, log_of. simpl. rewrite list.filter_app.
      rewrite (filter_none _ rows); [rewrite app_nil_r; by apply H1|].
      intros o Ho. destruct (Hrows o Ho) as [E _]. rewrite E. specialize (Hf x Hx). naive_solver.
    + unfold logged, log_of. simpl. rewrite list.filter_app. fold (log_of db (blip_id b)). rewrite Hempty. simpl.
      rewrite (filter_all _ rows) by (intros o Ho; by apply Hrows).
      destruct Hl as [[E ->]|(E & w & a & ts & ->)], Hs as [[E' Ec]|[E' Hg]]; rewrite ?E, ?E' in *; try done; simpl.
      split; [done|]. unfold replay. simpl. destruct Hg as [Hg Ht]. apply compose_nil_document; [done|].
      unfold MAX_BLIP_UNITS, usize_max in *. lia.
  - intros o [Ho|Ho]%elem_of_app.
    + destruct (H2 o Ho) as (x & Hx & E). exists x. set_solver.
    + exists b. split; [set_solver|]. symmetry. by apply Hrows.
  - intros id op_id. unfold with_op_id. simpl. rewrite list.filter_app, length_app.
    rewrite (filter_none _ rows); [simpl; rewrite Nat.add_0_r; apply H3|].
    intros o Ho. destruct (Hrows o Ho) as [_ E]. rewrite E. naive_solver.
Qed.

(** ** A committed edit *)

Lemma seq_snoc_revision (n : N) : (N.of_nat <$> seq 1 (N.to_nat n)) ++ [(n + 1)%N] = N.of_nat <$> seq 1 (N.to_nat (n + 1)).
Proof.
  replace (N.to_nat (n + 1)) with (S (N.to_nat n)) by lia. rewrite seq_S, fmap_app. simpl. do 2 f_equal. lia.
Qed.

Lemma replay_whole (ops : list Delta) n : (length ops ≤ n)%nat → replay ops n = foldl compose [] ops.
Proof. intros H. unfold replay. by rewrite firstn_all2. Qed.

Lemma logged_length db b : logged db b → length (log_of db (blip_id b)) = N.to_nat (blip_revision b).
Proof. intros [E _]. apply (f_equal length) in E. by rewrite !length_fmap, length_seq in E. Qed.

(** The message [old] becomes [b] by the op [row], which its log did not have. *)
Lemma ops_ok_commit db old b f row :
  keyed blip_id (db_blips db) → ops_ok db → old ∈ db_blips db → blip_id old = blip_id b →
  (∀ r, blip_id (f r) = blip_id r ∧ blip_content (f r) = blip_content b ∧ blip_revision (f r) = blip_revision b) →
  or_blip_id row = blip_id b → or_revision row = blip_revision b →
  blip_revision b = (blip_revision old + 1)%N → blip_content b = compose (blip_content old) (or_delta row) →
  (∀ op_id, or_op_id row = Some op_id → with_op_id db (blip_id b) op_id = []) →
  ops_ok (on_blips (update_where (λ r, str_eqb (blip_id r) (blip_id b)) f) (on_ops (λ t, t ++ [row]) db)).
Proof.
  intros Hk [H1 H2 H3] Hold Hid Hf Hrb Hrr Hrev Hcont Honce. constructor; simpl.
  - intros x (r & Hr & ->)%elem_of_update. unfold str_eqb. case_bool_decide as E.
    + assert (r = old) as -> by (apply (keyed_eq _ _ _ _ Hk); [done..|congruence]).
      destruct (Hf old) as (E1 & E2 & E3). pose proof (H1 _ Hold) as [L1 L2]. pose proof (logged_length _ _ (H1 _ Hold)) as Hlen.
      unfold logged, log_of. rewrite E1, E2, E3. simpl. rewrite list.filter_app, filter_cons_True, filter_nil by congruence.
      fold (log_of db (blip_id old)). rewrite !fmap_app, L1. simpl. rewrite Hrr, Hrev, seq_snoc_revision. split; [done|].
      rewrite replay_whole in L2 |- * by (rewrite ?length_app, ?length_fmap, ?Hlen; simpl; lia).
      by rewrite foldl_app, L2, Hcont.
    + pose proof (H1 _ Hr) as Hl. unfold logged, log_of in *. simpl.
      rewrite list.filter_app, filter_cons_False, filter_nil, app_nil_r by congruence. done.
  - intros o [Ho| ->%list_elem_of_singleton]%elem_of_app.
    + destruct (H2 o Ho) as (x & Hx & E). eexists. split; [apply elem_of_update; by exists x|].
      destruct (str_eqb _ _); [|done]. by rewrite (proj1 (Hf x)).
    + eexists. split; [apply elem_of_update; by exists old|]. destruct (str_eqb _ _); rewrite ?(proj1 (Hf old)); congruence.
  - intros id op_id. unfold with_op_id. simpl. rewrite list.filter_app. fold (with_op_id db id op_id).
    destruct (decide (or_blip_id row = id ∧ or_op_id row = Some op_id)) as [[Ei Eo]|Hn].
    + rewrite <- Ei, Hrb, (Honce _ Eo). rewrite filter_cons. case_decide; simpl; lia.
    + rewrite filter_cons_False, filter_nil, app_nil_r by done. apply H3.
Qed.

End oplog.
