(* ===== verification/Queries.v ===== *)
(** * Storage ([crates/gal-server/src/db.rs]): inbox, read state, attachments, playback, search, agents

    The queries over the tables of [Storage.v].  A join is a bind over the rows, [GROUP BY] a filter
    per group. *)

From stdpp Require Import sorting.
From S2P Require Import Prelude Tables Strings Unicode Json Attributes Text Delta Model Protocol Snippet Storage.

Section queries.
Context `{J : Json}.

Implicit Types db : Db.

(** ** Membership *)

Definition is_wavelet_participant db (user : UserId) (wavelet : WaveletId) : bool :=
  exists_row (λ p, str_eqb (pr_wavelet_id p) wavelet && str_eqb (pr_user_id p) user) (db_participants db).

(** Is this user a participant in any wavelet of this wave? *)
Definition is_participant db (user : UserId) (wave : WaveId) : bool :=
  exists_row (λ s, str_eqb (wlr_wave_id s) wave && is_wavelet_participant db user (wlr_id s)) (db_wavelets db).

Definition wave_participants db (wave : WaveId) : list UserId :=
  remove_dups (pr_user_id <$> select_where (λ p, bool_decide (pr_wavelet_id p ∈ wavelet_ids db wave)) (db_participants db)).

Definition wave_for_participant db (user : UserId) (wavelet : WaveletId) : option WaveId :=
  wlr_wave_id <$> find_row (λ s, str_eqb (wlr_id s) wavelet && is_wavelet_participant db user (wlr_id s)) (db_wavelets db).

(** ** The inbox *)

Definition root_rows db : list WaveletRow := select_where (λ s, str_eqb (wlr_kind s) (kind_str Conversation)) (db_wavelets db).

(** [FROM blips b JOIN participants p ON p.wavelet_id = b.wavelet_id AND p.user_id = ?1], undeleted. *)
Definition readable_blips db (me : UserId) (wave : WaveId) : list Blip :=
  select_where (λ b, str_eqb (blip_wave_id b) wave && negb (blip_deleted b)
                     && is_wavelet_participant db me (blip_wavelet_id b)) (db_blips db).

(** The blips of the conversation proper: remarks of comment threads are left out. *)
Definition conversation_blips db (me : UserId) (wave : WaveId) : list Blip :=
  select_where (λ b, bool_decide (blip_comment b = None)) (readable_blips db me wave).

(** The row that produced [MAX(last_modified)]; the first one on a tie. *)
Definition newest (bs : list Blip) : option Blip :=
  match bs with
  | [] => None
  | b :: bs => Some (foldl (λ m b, if (blip_last_modified m <? blip_last_modified b)%Z then b else m) b bs)
  end.

Definition read_mark_of db (me : UserId) (blip : BlipId) : option N :=
  rm_revision <$> find_row (λ r, str_eqb (rm_blip_id r) blip && str_eqb (rm_user_id r) me) (db_read_marks db).

Definition is_unread db (me : UserId) (b : Blip) : bool :=
  match read_mark_of db me (blip_id b) with Some r => (r <? blip_revision b)%N | None => true end.

Definition unread_blips db (me : UserId) (wave : WaveId) : list Blip :=
  select_where (is_unread db me) (readable_blips db me wave).

(** Members of these wavelets with their waves, in the order they were added. *)
Definition member_rows db (roots : list WaveletRow) : list (ParticipantRow * (WaveId * PublicUser)) :=
  order_by (λ r : ParticipantRow * (WaveId * PublicUser), pr_added_at r.1)
    (s ← roots;
     p ← select_where (λ p, str_eqb (pr_wavelet_id p) (wlr_id s)) (db_participants db);
     (λ u, (p, (wlr_wave_id s, public u))) <$> select_where (λ u, str_eqb (user_id u) (pr_user_id p)) (db_users db)).

Definition flags_row db (me : UserId) (wave : WaveId) : option WaveFlags :=
  fr_flags <$> find_row (λ f, str_eqb (fr_user_id f) me && str_eqb (fr_wave_id f) wave) (db_flags db).

Definition summary_of (root : WaveletRow) : WaveSummary :=
  mkSummary (wlr_wave_id root) (wlr_title root) [] (wlr_last_modified root) [] None 0 0 flags_default.

Definition with_participants (ps : list PublicUser) (s : WaveSummary) : WaveSummary :=
  mkSummary (su_id s) (su_title s) ps (su_last_modified s) (su_snippet s) (su_snippet_author s)
    (su_blip_count s) (su_unread_count s) (su_flags s).

Definition with_latest (count : N) (last : option Blip) (s : WaveSummary) : WaveSummary :=
  match last with
  | Some b =>
      mkSummary (su_id s) (su_title s) (su_participants s) (Z.max (su_last_modified s) (blip_last_modified b))
        (snippet_of (blip_content b) 140) (Some (blip_author b)) count (su_unread_count s) (su_flags s)
  | None => s
  end.

Definition with_unread (count : N) (s : WaveSummary) : WaveSummary :=
  mkSummary (su_id s) (su_title s) (su_participants s) (su_last_modified s) (su_snippet s) (su_snippet_author s)
    (su_blip_count s) count (su_flags s).

Definition with_flags (flags : WaveFlags) (s : WaveSummary) : WaveSummary :=
  mkSummary (su_id s) (su_title s) (su_participants s) (su_last_modified s) (su_snippet s) (su_snippet_author s)
    (su_blip_count s) (su_unread_count s) flags.

(** [index.get(&wave_id)]: the map keeps the last row of a wave. *)
Fixpoint index_of (wave : WaveId) (summaries : list WaveSummary) : option nat :=
  match summaries with
  | [] => None
  | s :: rest =>
      match index_of wave rest with
      | Some i => Some (S i)
      | None => if str_eqb (su_id s) wave then Some O else None
      end
  end.

Definition at_wave (wave : WaveId) (f : WaveSummary → WaveSummary) (summaries : list WaveSummary) : list WaveSummary :=
  match index_of wave summaries with Some i => alter f i summaries | None => summaries end.

(** The waves with a row in a grouped query. *)
Definition groups (bs : list Blip) : list WaveId := remove_dups (blip_wave_id <$> bs).

Definition all_readable db (me : UserId) : list Blip :=
  select_where (λ b, negb (blip_deleted b) && is_wavelet_participant db me (blip_wavelet_id b)) (db_blips db).

Definition push_member (u : PublicUser) (s : WaveSummary) : WaveSummary :=
  with_participants (su_participants s ++ [u]) s.

Definition inbox db (me : UserId) : list WaveSummary :=
  let roots := select_where (λ s, is_participant db me (wlr_wave_id s)) (root_rows db) in
  let summaries := summary_of <$> roots in
  (* 2. participants *)
  let summaries := foldl (λ ss r, at_wave r.2.1 (push_member r.2.2) ss) summaries (member_rows db roots) in
  (* 3. count and latest *)
  let shown := select_where (λ b, bool_decide (blip_comment b = None)) (all_readable db me) in
  let summaries := foldl (λ ss w,
    let group := select_where (λ b, str_eqb (blip_wave_id b) w) shown in
    at_wave w (with_latest (N.of_nat (length group)) (newest group)) ss) summaries (groups shown) in
  (* 4. unread *)
  let unread := select_where (is_unread db me) (all_readable db me) in
  let summaries := foldl (λ ss w,
    at_wave w (with_unread (N.of_nat (length (select_where (λ b, str_eqb (blip_wave_id b) w) unread)))) ss)
    summaries (groups unread) in
  (* 5. flags *)
  let summaries := foldl (λ ss f, at_wave (fr_wave_id f) (with_flags (fr_flags f)) ss) summaries
    (select_where (λ f, str_eqb (fr_user_id f) me) (db_flags db)) in
  order_by (λ s, (- su_last_modified s)%Z) summaries.

Definition wave_summary db (me : UserId) (wave : WaveId) : option WaveSummary :=
  root ← find_row (λ s, str_eqb (wlr_wave_id s) wave && is_participant db me wave) (root_rows db);
  let summary := with_participants ((λ r, r.2.2) <$> member_rows db (select_where (λ s, str_eqb (wlr_wave_id s) wave) (root_rows db)))
                   (summary_of root) in
  let shown := conversation_blips db me wave in
  let summary := with_latest (N.of_nat (length shown)) (newest shown) summary in
  let summary := with_unread (N.of_nat (length (unread_blips db me wave))) summary in
  Some (match flags_row db me wave with Some f => with_flags f summary | None => summary end).

(** ** Read state and flags *)

(** [ON CONFLICT(user_id, blip_id) DO UPDATE]. *)
Definition upsert_mark (me : UserId) (marks : list ReadMark) (b : Blip) : list ReadMark :=
  if exists_row (λ r, str_eqb (rm_user_id r) me && str_eqb (rm_blip_id r) (blip_id b)) marks
  then update_where (λ r, str_eqb (rm_user_id r) me && str_eqb (rm_blip_id r) (blip_id b))
         (λ r, mkReadMark (rm_user_id r) (rm_blip_id r) (blip_revision b)) marks
  else marks ++ [mkReadMark me (blip_id b) (blip_revision b)].

Definition mark_wave_read db (me : UserId) (wave : WaveId) : DbResult Db :=
  let seen := select_where (λ b, str_eqb (blip_wave_id b) wave && is_wavelet_participant db me (blip_wavelet_id b))
                (db_blips db) in
  if negb (bool_decide (seen = [])) && negb (user_exists db me) then Err Constraint
  else Ok (on_read_marks (λ marks, foldl (upsert_mark me) marks seen) db).

Definition read_marks db (me : UserId) (wave : WaveId) : list (BlipId * N) :=
  r ← select_where (λ r, str_eqb (rm_user_id r) me) (db_read_marks db);
  (λ _, (rm_blip_id r, rm_revision r)) <$>
    select_where (λ b, str_eqb (blip_id b) (rm_blip_id r) && str_eqb (blip_wave_id b) wave) (db_blips db).

Definition flags db (me : UserId) (wave : WaveId) : WaveFlags := default flags_default (flags_row db me wave).

Definition set_flags db (me : UserId) (wave : WaveId) (fl : WaveFlags) : DbResult Db :=
  let same f := str_eqb (fr_user_id f) me && str_eqb (fr_wave_id f) wave in
  if exists_row same (db_flags db)
  then Ok (on_flags (update_where same (λ f, mkFlagRow (fr_user_id f) (fr_wave_id f) fl)) db)
  else
    t <-? insert_into (user_exists db me && wave_exists db wave) (mkFlagRow me wave fl) (db_flags db);
    Ok (on_flags (λ _, t) db).

(** ** Attachments *)

Record UploadQuota := mkQuota { quota_bytes : N; quota_since : Timestamp }.

Definition uploaded_by (user : UserId) (since : Timestamp) (a : AttachmentRow) : bool :=
  str_eqb (at_uploader (ar_attachment a)) user && (since <=? at_created_at (ar_attachment a))%Z.

Definition sum_sizes (l : list AttachmentRow) : N := foldr (λ a n, (at_size (ar_attachment a) + n)%N) 0%N l.

(** What the uploader has stored since the start of the window. *)
Definition used_bytes db (user : UserId) (since : Timestamp) : N :=
  sum_sizes (select_where (uploaded_by user since) (db_attachments db)).

Definition create_attachment db (uuid : str) (ts : Timestamp) (wavelet : WaveletId) (uploader : UserId)
    (name mime : str) (bytes : list N) (quota : UploadQuota) : DbResult (option Attachment * Db) :=
  let a := mkAttachment (id_new (lit "a-") uuid) wavelet name mime (N.of_nat (length bytes)) uploader ts in
  if (quota_bytes quota <? used_bytes db uploader (quota_since quota) + at_size a)%N then Ok (None, db)
  else
    let taken := exists_row (λ r, str_eqb (at_id (ar_attachment r)) (at_id a)) (db_attachments db) in
    t <-? insert_into (negb taken && wavelet_exists db wavelet && user_exists db uploader)
            (mkAttachmentRow a bytes) (db_attachments db);
    Ok (Some a, on_attachments (λ _, t) db).

Definition attachment_for db (user : UserId) (id : AttachmentId) : option (Attachment * list N) :=
  (λ r, (ar_attachment r, ar_bytes r)) <$>
    find_row (λ r, str_eqb (at_id (ar_attachment r)) id
                   && is_wavelet_participant db user (at_wavelet_id (ar_attachment r))) (db_attachments db).

(** ** Playback and search *)

Definition PLAYBACK_LIMIT : N := 20000.

Definition op_visible db (user : UserId) (wave : WaveId) (o : OpRow) : bool :=
  str_eqb (or_wave_id o) wave &&
  exists_row (λ b, str_eqb (blip_id b) (or_blip_id o) && negb (blip_deleted b)
                   && is_wavelet_participant db user (blip_wavelet_id b)) (db_blips db).

Definition frame_of (o : OpRow) : PlaybackFrame :=
  mkFrame (or_blip_id o) (or_revision o) (or_author o) (or_timestamp o) (or_delta o) (or_revision o =? 1)%N.

(** [ORDER BY o.timestamp, o.revision]: two stable sorts. *)
Definition playback db (user : UserId) (wave : WaveId) : list PlaybackFrame :=
  frame_of <$> take (N.to_nat PLAYBACK_LIMIT)
    (order_by or_timestamp (order_by (λ o, Z.of_N (or_revision o)) (select_where (op_visible db user wave) (db_ops db)))).

(** The FTS5 engine: the index rows a query matches, best first, each with its marked snippet. *)
Definition search `{Unicode} (fts_match : str → list SearchRow → list (SearchRow * str)) db (user : UserId)
    (query : str) : list SearchHit :=
  let fts := to_fts_query query in
  if decide (fts = []) then []
  else take 60
    ('(f, snippet) ← fts_match fts (db_search db);
     b ← select_where (λ b, str_eqb (blip_id b) (sr_blip_id f) && negb (blip_deleted b)
                            && is_wavelet_participant db user (blip_wavelet_id b)) (db_blips db);
     (λ s, mkHit (sr_wave_id f) (sr_blip_id f) (wlr_title s) (highlight_snippet snippet) (blip_author b)
             (blip_last_modified b)) <$>
       select_where (λ s, str_eqb (wlr_wave_id s) (sr_wave_id f)) (root_rows db)).

(** ** Agent credentials *)

Definition create_agent_token db (token : AgentToken) (token_hash : str) : DbResult (bool * Db) :=
  if negb (is_wavelet_participant db (tok_user_id token) (tok_wavelet_id token)) then Ok (false, db)
  else
    let row := mkAgentTokenRow (tok_id token) token_hash (tok_user_id token) (tok_wavelet_id token)
                 (tok_label token) (tok_scope token) (tok_created_at token) (tok_expires_at token) in
    let taken := exists_row (λ t, str_eqb (tr_id t) (tok_id token) || str_eqb (tr_token_hash t) token_hash)
                   (db_agent_tokens db) in
    t <-? insert_into (negb taken && user_exists db (tok_user_id token)
                       && wavelet_exists db (tok_wavelet_id token)) row (db_agent_tokens db);
    Ok (true, on_agent_tokens (λ _, t) db).

Definition row_to_agent_token (t : AgentTokenRow) (s : WaveletRow) : AgentToken :=
  mkAgentToken (tr_id t) (tr_user_id t) (wlr_wave_id s) (tr_wavelet_id t) (tr_label t) (tr_scope t)
    (tr_created_at t) (tr_expires_at t).

(** A credential is live while it has not expired and its owner is still in its wavelet. *)
Definition valid_agent_token db (ts : Timestamp) (hash : str) : option AgentToken :=
  t ← find_row (λ t, str_eqb (tr_token_hash t) hash && (ts <? tr_expires_at t)%Z
                     && is_wavelet_participant db (tr_user_id t) (tr_wavelet_id t)) (db_agent_tokens db);
  row_to_agent_token t <$> find_row (λ s, str_eqb (wlr_id s) (tr_wavelet_id t)) (db_wavelets db).

(** [ORDER BY created_at, id]. *)
Definition token_before (a b : AgentTokenRow) : Prop :=
  (tr_created_at a < tr_created_at b)%Z ∨ tr_created_at a = tr_created_at b ∧ str_le (tr_id a) (tr_id b).
#[global] Instance token_before_dec a b : Decision (token_before a b).
Proof. unfold token_before. apply _. Defined.

Definition agent_tokens db (ts : Timestamp) (user : UserId) : list AgentToken :=
  t ← merge_sort token_before
        (select_where (λ t, str_eqb (tr_user_id t) user && (ts <? tr_expires_at t)%Z) (db_agent_tokens db));
  row_to_agent_token t <$> select_where (λ s, str_eqb (wlr_id s) (tr_wavelet_id t)) (db_wavelets db).

Definition revoke_agent_token db (user : UserId) (id : str) : bool * Db :=
  let p t := str_eqb (tr_user_id t) user && str_eqb (tr_id t) id in
  ((length (select_where p (db_agent_tokens db)) =? 1)%nat, delete_agent_tokens p db).

Record ReplyReceipt := mkReceipt {
  rr_request_id : str;
  rr_wave_id : WaveId;
  rr_wavelet_id : WaveletId;
  rr_blip_id : BlipId;
  rr_revision : N;
}.

Record StoredReply := mkStoredReply { sp_request_hash : str; sp_receipt : ReplyReceipt }.

Definition agent_reply_receipt db (token : AgentToken) (request_id : str) : option StoredReply :=
  (λ r, mkStoredReply (rp_request_hash r)
          (mkReceipt request_id (tok_wave_id token) (tok_wavelet_id token) (rp_blip_id r) (rp_revision r))) <$>
    find_row (λ r, str_eqb (rp_token_id r) (tok_id token) && str_eqb (rp_request_id r) request_id) (db_agent_replies db).

Definition create_agent_reply db (ts : Timestamp) (token_hash request_id request_hash : str) (b : Blip)
    : DbResult (bool * Db) :=
  match valid_agent_token db ts token_hash with
  | None => Ok (false, db)
  | Some token =>
      if negb (bool_decide (tok_scope token = ReplyScope)) || negb (str_eqb (tok_wavelet_id token) (blip_wavelet_id b))
         || negb (str_eqb (tok_user_id token) (blip_author b)) then Ok (false, db)
      else
        db <-? insert_seeded_blip db b;
        let taken := exists_row (λ r, str_eqb (rp_token_id r) (tok_id token) && str_eqb (rp_request_id r) request_id)
                       (db_agent_replies db) in
        t <-? insert_into (negb taken) (mkAgentReplyRow (tok_id token) request_id request_hash (blip_id b) (blip_revision b))
                (db_agent_replies db);
        Ok (true, on_agent_replies (λ _, t) db)
  end.

(** *** The context an agent reads *)

Record ContextBlip := mkContextBlip {
  cb_id : BlipId;
  cb_parent : option BlipId;
  cb_author : UserId;
  cb_revision : N;
  cb_seq : Z;
  cb_comment_id : option CommentId;
  cb_comment_resolved : option bool;
  cb_text : str;
  cb_truncated : bool;
}.

Record AgentContext := mkAgentContext {
  ac_wave_id : WaveId;
  ac_wavelet_id : WaveletId;
  ac_title : str;
  ac_mode : str;
  ac_blips : list ContextBlip;
  ac_next_cursor : option str;
}.

Definition blip_order (a b : Blip) : Prop :=
  (blip_seq a < blip_seq b)%Z ∨ blip_seq a = blip_seq b ∧ str_le (blip_id a) (blip_id b).
#[global] Instance blip_order_dec a b : Decision (blip_order a b).
Proof. unfold blip_order. apply _. Defined.

(** [(seq, id) > (?2, ?3)]. *)
Definition after_cursor (after : Z * BlipId) (b : Blip) : bool :=
  (after.1 <? blip_seq b)%Z || (after.1 =? blip_seq b)%Z && negb (str_leb (blip_id b) after.2).

Definition comment_is_resolved db (comment : CommentId) : option bool :=
  (λ c, match ct_resolved_at (cr_thread c) with Some _ => true | None => false end) <$>
    find_row (λ c, str_eqb (ct_id (cr_thread c)) comment) (db_comments db).

Fixpoint context_loop db (limit : nat) (candidates : list Blip) (count : nat) (remaining : N) : option (list ContextBlip) :=
  match candidates with
  | [] => Some []
  | b :: candidates =>
      if (count =? limit)%nat || (remaining <? 2)%N then Some []
      else
        '(text, used, truncated) ← bounded_text (display_text (blip_content b)) remaining;
        let resolved := match blip_comment b with Some c => comment_is_resolved db c | None => None end in
        rest ← context_loop db limit candidates (S count) (remaining - used)%N;
        Some (mkContextBlip (blip_id b) (blip_parent b) (blip_author b) (blip_revision b) (blip_seq b)
                (blip_comment b) resolved text truncated :: rest)
  end.

(** [format!("{}:{}", seq, id)]. *)
Definition format_cursor (c : ContextBlip) : str := show_i64 (cb_seq c) ++ lit ":" ++ cb_id c.

(** [None] is a panic. *)
Definition agent_context db (ts : Timestamp) (token_hash : str) (after : Z * BlipId) (limit : nat) (text_units : N)
    : option (DbResult (option AgentContext)) :=
  match valid_agent_token db ts token_hash with
  | None => Some (Ok None)
  | Some token =>
      let row := s ← find_row (λ s, str_eqb (wlr_id s) (tok_wavelet_id token)) (db_wavelets db);
                 w ← find_row (λ w, str_eqb (wr_id w) (wlr_wave_id s)) (db_waves db);
                 Some (wlr_title s, wr_mode w) in
      match row with
      | None => Some (Err NoRows)
      | Some (title, mode) =>
          let candidates := take (S limit) (merge_sort blip_order
            (select_where (λ b, str_eqb (blip_wavelet_id b) (tok_wavelet_id token) && negb (blip_deleted b)
                                && after_cursor after b) (db_blips db))) in
          blips ← context_loop db limit candidates 0 text_units;
          let cursor :=
            if (length blips <? length candidates)%nat
            then format_cursor <$> list.last blips else None in
          Some (Ok (Some (mkAgentContext (tok_wave_id token) (tok_wavelet_id token) title mode blips cursor)))
      end
  end.

End queries.
