(* ===== verification/Effects.v ===== *)
(** * Effects of the server code: state, refusals, storage calls, the outside world

    [SM S T] is code over a state [S] that answers with a [T] or refuses with a message.  [World] is
    what such code reads from outside: the clock, fresh ids, and whether a storage call fails.  [Stored]
    is the interface of a state that has a database in it. *)

From S2P Require Import Prelude Tables Strings Unicode Json Attributes Text Delta Model Protocol.
From S2P Require Import Content Storage.

Class World := {
  clock : nat → Timestamp;
  fresh_uuid : nat → str;
  disk_fails : nat → bool;
}.

Section effects.
Context `{J : Json} `{W : World}.

Definition SM (S T : Type) : Type := S → result T ServerMessage * S.

Definition cm_ret {S T} (t : T) : SM S T := λ s, (Ok t, s).
Definition cm_throw {S T} (e : ServerMessage) : SM S T := λ s, (Err e, s).
Definition cm_bind {S T U} (m : SM S T) (f : T → SM S U) : SM S U :=
  λ s, match m s with (Ok t, s) => f t s | (Err e, s) => (Err e, s) end.

Definition lift {S T} (r : result T ServerMessage) : SM S T := λ s, (r, s).

Definition guard {S} (ok : bool) (refusal : ServerMessage) : SM S () := if ok then cm_ret tt else cm_throw refusal.

Definition cm_each {S A} (f : A → SM S ()) (l : list A) : SM S () :=
  foldr (λ x rest, cm_bind (f x) (λ _, rest)) (cm_ret tt) l.

(** A state with a database and a count of how often the outside world was consulted. *)
Class Stored (S : Type) := {
  st_db : S → Db;
  st_put_db : Db → S → S;
  st_tick : S → nat;
  st_step : S → S;
}.

Section stored.
Context {S : Type} `{!Stored S}.

Definition now_ : SM S Timestamp := λ s, (Ok (clock (st_tick s)), st_step s).
Definition uuid_ : SM S str := λ s, (Ok (fresh_uuid (st_tick s)), st_step s).

(** One storage call: it may fail on its own account; a failure leaves the tables alone. *)
Definition try_db {T} (f : Db → DbResult (T * Db)) : SM S (DbResult T) := λ s,
  if disk_fails (st_tick s) then (Ok (Err Unavailable), st_step s)
  else match f (st_db s) with
       | Ok (t, db) => (Ok (Ok t), st_step (st_put_db db s))
       | Err e => (Ok (Err e), st_step s)
       end.

(** [.map_err(internal)?]. *)
Definition db_call {T} (f : Db → DbResult (T * Db)) : SM S T := λ s,
  match try_db f s with
  | (Ok (Ok t), s) => (Ok t, s)
  | (Ok (Err _), s) => (Err internal, s)
  | (Err e, s) => (Err e, s)
  end.

Definition db_write (f : Db → DbResult Db) : SM S () :=
  db_call (λ db, match f db with Ok db => Ok (tt, db) | Err e => Err e end).

Definition db_read {T} (f : Db → T) : SM S T := db_call (λ db, Ok (f db, db)).

End stored.

(** ** Reasoning about such code *)

Definition wp {S T} (m : SM S T) (Q : result T ServerMessage → S → Prop) (s : S) : Prop := Q (m s).1 (m s).2.

Section wp.
Context {S : Type}.
Implicit Types s : S.

Lemma wp_bind {T U} (m : SM S T) (f : T → SM S U) Q s :
  wp m (λ r s', match r with Ok t => wp (f t) Q s' | Err e => Q (Err e) s' end) s → wp (cm_bind m f) Q s.
Proof. unfold wp, cm_bind. by destruct (m s) as [[] ?]. Qed.

Lemma wp_ret {T} (t : T) (Q : result T ServerMessage → S → Prop) s : Q (Ok t) s → wp (cm_ret t) Q s.
Proof. done. Qed.

Lemma wp_throw {T} e (Q : result T ServerMessage → S → Prop) s : Q (Err e) s → wp (cm_throw e) Q s.
Proof. done. Qed.

Lemma wp_lift {T} r (Q : result T ServerMessage → S → Prop) s : Q r s → wp (lift r) Q s.
Proof. done. Qed.

Lemma wp_guard ok refusal (Q : result () ServerMessage → S → Prop) s :
  (ok = true → Q (Ok tt) s) → (ok = false → Q (Err refusal) s) → wp (guard ok refusal) Q s.
Proof. by destruct ok; intros H1 H2; [apply H1|apply H2]. Qed.

Lemma wp_mono {T} (m : SM S T) (Q Q' : result T ServerMessage → S → Prop) s :
  (∀ r s', Q r s' → Q' r s') → wp m Q s → wp m Q' s.
Proof. intros H. apply H. Qed.

Context `{!Stored S}.

Lemma wp_stored_try {T} (f : Db → DbResult (T * Db)) Q s :
  (∀ t db, f (st_db s) = Ok (t, db) → Q (Ok (Ok t)) (st_step (st_put_db db s))) →
  (∀ e, Q (Ok (Err e)) (st_step s)) → wp (try_db f) Q s.
Proof.
  unfold wp, try_db. intros H1 H2. destruct (disk_fails _); simpl; [apply H2|].
  destruct (f (st_db s)) as [[t db]|e] eqn:E; simpl; [by apply H1|apply H2].
Qed.

Lemma wp_stored_call {T} (f : Db → DbResult (T * Db)) Q s :
  (∀ t db, f (st_db s) = Ok (t, db) → Q (Ok t) (st_step (st_put_db db s))) →
  Q (Err internal) (st_step s) → wp (db_call f) Q s.
Proof.
  unfold wp, db_call, try_db. intros H1 H2. destruct (disk_fails _); simpl; [done|].
  destruct (f (st_db s)) as [[t db]|e] eqn:E; simpl; [by apply H1|done].
Qed.

Lemma wp_stored_write (f : Db → DbResult Db) Q s :
  (∀ db, f (st_db s) = Ok db → Q (Ok tt) (st_step (st_put_db db s))) →
  Q (Err internal) (st_step s) → wp (db_write f) Q s.
Proof.
  intros H1 H2. apply wp_stored_call; [|done]. intros [] db. destruct (f (st_db s)) as [db'|e] eqn:E; [|done].
  intros [= <-]. by apply H1.
Qed.

End wp.

End effects.

Notation "x <-! m ; k" := (cm_bind m (λ x, k))
  (at level 20, m at level 100, k at level 200, right associativity) : gal_scope.
Notation "m ;! k" := (cm_bind m (λ _, k))
  (at level 100, k at level 200, right associativity) : gal_scope.
