(* ===== verification/Critical.v ===== *)
(** * Under the wave lock ([crates/gal-server/src/state.rs])

    A command's critical section holds one wave's lock and reaches that wave, storage, the outbound
    queues, the connection table and the pending inbox updates. *)

From S2P Require Import Prelude Tables Strings Unicode Json Attributes Text Delta Model Protocol ServerDoc.
From S2P Require Import Content LiveWave Storage Queries Effects.

Section critical.
Context `{J : Json} `{W : World}.

Record Crit := mkCrit {
  c_db : Db;
  c_live : LiveWave;
  c_out : Outbound;
  c_user_conns : gmap UserId (gset ConnId);
  c_pending : gset WaveId;      (** waves with a queued inbox update *)
  c_tick : nat;                 (** how often the outside world was consulted *)
}.

Definition with_db (db : Db) (s : Crit) : Crit :=
  mkCrit db (c_live s) (c_out s) (c_user_conns s) (c_pending s) (c_tick s).
Definition with_live (l : LiveWave) (s : Crit) : Crit :=
  mkCrit (c_db s) l (c_out s) (c_user_conns s) (c_pending s) (c_tick s).
Definition with_wave_out (l : LiveWave) (out : Outbound) (s : Crit) : Crit :=
  mkCrit (c_db s) l out (c_user_conns s) (c_pending s) (c_tick s).
Definition with_pending (p : gset WaveId) (s : Crit) : Crit :=
  mkCrit (c_db s) (c_live s) (c_out s) (c_user_conns s) p (c_tick s).
Definition tick (s : Crit) : Crit :=
  mkCrit (c_db s) (c_live s) (c_out s) (c_user_conns s) (c_pending s) (S (c_tick s)).

#[global] Instance crit_stored : Stored Crit := {
  st_db := c_db; st_put_db := with_db; st_tick := c_tick; st_step := tick;
}.

Definition CM (T : Type) : Type := SM Crit T.

Definition get_live : CM LiveWave := λ s, (Ok (c_live s), s).
Definition put_live (l : LiveWave) : CM () := λ s, (Ok tt, with_live l s).

Definition cm_broadcast (wavelet : WaveletId) (skip : option ConnId) (m : ServerMessage) : CM () := λ s,
  let '(l, out) := broadcast (c_live s) (c_out s) wavelet skip m in (Ok tt, with_wave_out l out s).

Definition cm_send_to (conn : ConnId) (m : ServerMessage) : CM () := λ s,
  let '(l, out) := send_to (c_live s) (c_out s) conn m in (Ok tt, with_wave_out l out s).

Definition cm_presence (wave : WaveId) : CM () := λ s,
  let '(l, out) := broadcast_presence (c_live s) (c_out s) wave in (Ok tt, with_wave_out l out s).

Definition cm_publish (b : Blip) : CM () := λ s,
  let '(l, out) := publish_blip (c_live s) (c_out s) b in (Ok tt, with_wave_out l out s).

(** [ConnHandle::send]: a full queue tears the connection down. *)
Definition conn_send (m : ServerMessage) (out : Outbound) (conn : ConnId) : Outbound :=
  match try_send out conn m with Some out => out | None => notify_one out conn end.

Definition send_to_user (user_conns : gmap UserId (gset ConnId)) (out : Outbound) (user : UserId)
    (m : ServerMessage) : Outbound :=
  match user_conns !! user with
  | None => out
  | Some conns => foldl (conn_send m) out (elements conns)
  end.

Definition cm_send_to_user (user : UserId) (m : ServerMessage) : CM () := λ s,
  (Ok tt, with_wave_out (c_live s) (send_to_user (c_user_conns s) (c_out s) user m) s).

(** [schedule_inbox_update]: the wave is queued once; the debounce task is what empties the set. *)
Definition schedule_inbox_update (wave : WaveId) : CM () := λ s,
  (Ok tt, with_pending ({[wave]} ∪ c_pending s) s).

End critical.

(** ** Applying an op ([AppState::apply_op]) *)

Section apply_op.
Context `{J : Json} `{W : World}.

Record OpSubmission := mkSubmission {
  sub_blip_id : BlipId;
  sub_revision : N;
  sub_delta : Delta;
  sub_op_id : option str;
}.

Definition set_doc (doc : ServerDoc) (lb : LiveBlip) : LiveBlip := mkLiveBlip (lb_meta lb) doc.
Definition set_meta (meta : Blip) (lb : LiveBlip) : LiveBlip := mkLiveBlip meta (lb_doc lb).

(** [rollback_last] and [sync]. *)
Definition roll_back (lb : LiveBlip) : LiveBlip := sync (set_doc (rollback_last (lb_doc lb)).2 lb).

Definition put_blip (lb : LiveBlip) (l : LiveWave) : LiveWave :=
  set_blips (<[blip_id (lb_meta lb) := lb]> (lw_blips l)) l.

(** [e.to_string()] of the errors [validate] causes; the numbers are printed by [format]. *)
Definition ot_message (e : OtError) : str :=
  match e with
  | LengthMismatch op_base doc_len =>
      lit "operation spans " ++ Snippet.decimal op_base ++ lit " units but the document is "
        ++ Snippet.decimal doc_len ++ lit " units long"
  | SplitCharacter offset =>
      lit "operation boundary at offset " ++ Snippet.decimal offset ++ lit " falls inside a character"
  | RevisionInFuture requested current =>
      lit "revision " ++ Snippet.decimal requested ++ lit " is newer than the server's revision "
        ++ Snippet.decimal current
  | RevisionTooOld requested oldest =>
      lit "revision " ++ Snippet.decimal requested ++ lit " is too old to transform against (oldest retained is "
        ++ Snippet.decimal oldest ++ lit "); resynchronise"
  | NotADocument => lit "a document delta must contain only insert operations"
  end.

Definition out_of_date (blip : BlipId) (e : OtError) : ServerMessage :=
  match e with
  | RevisionTooOld _ _ | RevisionInFuture _ _ =>
      resync blip (lit "Your edit was too far out of date; reloading this wave.")
  | e => resync blip (ot_message e)
  end.

(** A revision already committed for this op id; a failed lookup is taken for none. *)
Definition committed_before (blip : BlipId) (op_id : option str) : CM (option (N * str)) :=
  match op_id with
  | None => cm_ret None
  | Some op_id =>
      found <-! try_db (λ db, Ok (revision_for_op db blip op_id, db));
      cm_ret match found with Ok (Some revision) => Some (revision, op_id) | _ => None end
  end.

(** From the document's answer on: size, persistence, announcement. *)
Definition commit_applied (conn : ConnId) (author : UserId) (lb : LiveBlip) (committed : Revision)
    (doc : ServerDoc) (op_id : option str) : CM () :=
  let blip := blip_id (lb_meta lb) in
  let wavelet := blip_wavelet_id (lb_meta lb) in
  let applied := set_doc doc lb in
  l <-! get_live;
  if ((MAX_BLIP_UNITS <? delta_len (doc_content doc)) || (MAX_BLIP_RUNS <? N.of_nat (length (doc_content doc))))%N then
    put_live (put_blip (roll_back applied) l) ;!
    cm_throw (resync blip (lit "This message has reached its maximum size."))
  else
    ts <-! now_;
    let synced := sync applied in
    let meta := record_contributor ts (lb_meta synced) author in
    let live_blip := set_meta meta synced in
    put_live (put_blip live_blip l) ;!
    stored <-! try_db (λ db, match commit_op db meta (rev_delta committed) author (blip_last_modified meta) op_id with
                           | Ok db => Ok (tt, db) | Err e => Err e end);
    match stored with
    | Err _ =>
        let back := roll_back live_blip in
        put_live (put_blip (set_meta (with_contributors (lb_meta back) (blip_contributors (lb_meta lb))
                                        (blip_last_modified (lb_meta lb))) back) l) ;!
        cm_throw (resync blip (lit "The server could not save your edit; reloading this wave."))
    | Ok _ =>
        l <-! get_live;
        put_live (wavelet_mut wavelet (touch_wavelet (blip_last_modified meta)) l) ;!
        cm_broadcast wavelet (Some conn)
          (SOp (blip_wave_id meta) blip (rev_revision committed) author (rev_delta committed)) ;!
        cm_send_to conn (Ack (blip_wave_id meta) blip (rev_revision committed) (rev_delta committed) op_id) ;!
        schedule_inbox_update (blip_wave_id meta)
    end.

Definition no_such_blip : ServerMessage := error NotFound (lit "No such blip.").

Definition apply_op (conn : ConnId) (author : UserId) (submission : OpSubmission) : CM () :=
  let blip := sub_blip_id submission in
  l <-! get_live;
  match lw_blips l !! blip with
  | None => cm_throw no_such_blip
  | Some lb =>
      if negb (may_access l author (blip_wavelet_id (lb_meta lb))) then cm_throw no_such_blip
      else
        before <-! committed_before blip (sub_op_id submission);
        match before with
        | Some (revision, op_id) => cm_send_to conn (Ack (wave_id (lw_wave l)) blip revision [] (Some op_id))
        | None =>
            match permit l author (Edit (str_eqb (blip_author (lb_meta lb)) author)) with
            | Err refusal => cm_throw (name_blip refusal blip)
            | Ok _ =>
                match apply (lb_doc lb) (sub_revision submission) (sub_delta submission) author with
                | Err e => cm_throw (out_of_date blip e)
                | Ok (committed, doc) => commit_applied conn author lb committed doc (sub_op_id submission)
                end
            end
        end
  end.

End apply_op.
