(* ===== verification/Handlers.v ===== *)
(** * Commands under the wave lock ([crates/gal-server/src/ws.rs], command implementations)

    For each command, what it does once it holds the lock of the wave it names.  [user] is the caller,
    [conn] its connection, [wave] the wave that was found. *)

From S2P Require Import Prelude Tables Strings Unicode Json Attributes Text Delta Model Protocol ServerDoc.
From S2P Require Import Content LiveWave Storage Queries Effects Critical.

Section handlers.
Context `{J : Json} `{W : World}.

Definition guard_access (l : LiveWave) (user : UserId) (wavelet : WaveletId) : CM () :=
  guard (may_access l user wavelet) not_found.

(** [blip.content = content; blip.revision = 1;] when there is content. *)
Definition seeded (content : option Delta) (b : Blip) : Blip :=
  match content with Some content => with_content b content 1 | None => b end.

Definition as_remark (comment : CommentId) (b : Blip) : Blip :=
  mkBlip (blip_id b) (blip_wavelet_id b) (blip_wave_id b) (blip_parent b) (Some comment) (blip_seq b)
    (blip_author b) (blip_contributors b) (blip_created_at b) (blip_last_modified b) (blip_content b)
    (blip_revision b) (blip_deleted b).

(** ** Messages *)

Definition create_blip_locked (user : UserId) (wave : WaveId) (wavelet : WaveletId) (parent : option BlipId)
    (content : option Delta) : CM () :=
  l <-! get_live;
  uuid <-! uuid_;
  ts <-! now_;
  blip <-! lift (prepare_blip uuid ts l user wavelet parent content);
  db_write (λ db, create_blip db blip) ;!
  cm_publish blip ;!
  schedule_inbox_update wave.

(** The blip joins the resident wave, and its wavelet has changed. *)
Definition admit_blip (b : Blip) : CM () :=
  l <-! get_live;
  put_live (wavelet_mut (blip_wavelet_id b) (touch_wavelet (blip_last_modified b))
              (set_blips (<[blip_id b := live_blip_new b]> (lw_blips l)) l)).

Definition create_comment_locked (user : UserId) (wave : WaveId) (wavelet : WaveletId) (target : BlipId)
    (comment : CommentId) (content : option Delta) : CM () :=
  l <-! get_live;
  guard_access l user wavelet ;!
  lift (permit l user AComment) ;!
  guard (bool_decide (lw_comments l !! comment = None)) (error BadRequest (lit "That comment already exists.")) ;!
  match lw_blips l !! target with
  | None => cm_throw not_found
  | Some b =>
      guard (str_eqb (blip_wavelet_id (lb_meta b)) wavelet) not_found ;!
      guard (bool_decide (blip_comment (lb_meta b) = None))
        (error BadRequest (lit "You cannot comment on a comment.")) ;!
      ts <-! now_;
      uuid <-! uuid_;
      blip_ts <-! now_;
      let thread := mkThread comment wavelet target user ts None None in
      let blip := seeded content
        (as_remark comment (blip_new uuid blip_ts wave wavelet user (Some target) (next_seq l wavelet))) in
      db_write (λ db, create_comment db thread blip) ;!
      put_live (set_comments (<[comment := thread]> (lw_comments l)) l) ;!
      admit_blip blip ;!
      cm_broadcast wavelet None (CommentAdded wave thread (blip_view blip ∅)) ;!
      schedule_inbox_update wave
  end.

Definition reply_to_comment_locked (user : UserId) (wave : WaveId) (comment : CommentId)
    (content : option Delta) : CM () :=
  l <-! get_live;
  match lw_comments l !! comment with
  | None => cm_throw not_found
  | Some thread =>
      let wavelet := ct_wavelet_id thread in
      guard_access l user wavelet ;!
      lift (permit l user AComment) ;!
      guard (negb (ct_resolved thread))
        (error BadRequest (lit "This comment is resolved. Reopen it to reply.")) ;!
      uuid <-! uuid_;
      ts <-! now_;
      let blip := seeded content
        (as_remark comment (blip_new uuid ts wave wavelet user (Some (ct_blip_id thread)) (next_seq l wavelet))) in
      db_write (λ db, create_blip db blip) ;!
      admit_blip blip ;!
      cm_broadcast wavelet None (BlipAdded wave (blip_view blip ∅)) ;!
      schedule_inbox_update wave
  end.

Definition resolve_comment_locked (user : UserId) (wave : WaveId) (comment : CommentId) (resolved : bool) : CM () :=
  l <-! get_live;
  match lw_comments l !! comment with
  | None => cm_throw not_found
  | Some thread =>
      guard_access l user (ct_wavelet_id thread) ;!
      lift (permit l user AResolveComment) ;!
      if Bool.eqb (ct_resolved thread) resolved then cm_ret tt
      else
        stamp <-! (if resolved then (ts <-! now_; cm_ret (Some user, Some ts)) else cm_ret (None, None));
        let '(by_, at_) := stamp in
        db_write (λ db, Ok (set_comment_resolved db comment by_ at_)) ;!
        put_live (set_comments (alter (with_resolution by_ at_) comment (lw_comments l)) l) ;!
        cm_broadcast (ct_wavelet_id thread) None (CommentResolved wave comment by_ at_)
  end.

(** The threads on a blip, and the remarks in them. *)
Definition live_threads_on (l : LiveWave) (blip : BlipId) : list CommentId :=
  ct_id <$> filter (λ c, ct_blip_id c = blip) (values (lw_comments l)).

Definition remark_of (threads : list CommentId) (b : LiveBlip) : bool :=
  match blip_comment (lb_meta b) with Some c => bool_decide (c ∈ threads) | None => false end.

Definition live_remarks (l : LiveWave) (threads : list CommentId) : list BlipId :=
  (λ b, blip_id (lb_meta b)) <$> filter (λ b, remark_of threads b = true) (values (lw_blips l)).

Definition has_replies (l : LiveWave) (blip : BlipId) : bool :=
  existsb (λ b, bool_decide (blip_parent (lb_meta b) = Some blip ∧ blip_comment (lb_meta b) = None))
    (values (lw_blips l)).

Definition delete_blip_locked (user : UserId) (wave : WaveId) (blip : BlipId) : CM () :=
  l <-! get_live;
  match lw_blips l !! blip with
  | None => cm_throw not_found
  | Some b =>
      let wavelet := blip_wavelet_id (lb_meta b) in
      guard_access l user wavelet ;!
      guard (bool_decide (blip_comment (lb_meta b) = None))
        (error Forbidden (lit "A comment is not deleted on its own. Resolve the thread instead.")) ;!
      guard (str_eqb (blip_author (lb_meta b)) user)
        (error Forbidden (lit "Only the author can delete a message.")) ;!
      lift (permit l user Delete) ;!
      guard (negb (has_replies l blip))
        (error BadRequest (lit "Delete the replies to this message first.")) ;!
      let threads := live_threads_on l blip in
      let remarks := live_remarks l threads in
      db_write (λ db, Ok (delete_blip db blip)) ;!
      put_live (set_comments (foldr delete (lw_comments l) threads)
                 (set_blips (foldr delete (delete blip (lw_blips l)) remarks) l)) ;!
      cm_each (λ remark, cm_broadcast wavelet None (BlipRemoved wave remark)) remarks ;!
      cm_broadcast wavelet None (BlipRemoved wave blip) ;!
      schedule_inbox_update wave
  end.

(** ** Titles and modes *)

Definition retitle (title : str) (w : Wavelet) : Wavelet :=
  mkWavelet (wl_id w) (wl_wave_id w) (wl_kind w) title (wl_participants w) (wl_anchor_blip w)
    (wl_created_at w) (wl_last_modified w).

Definition set_title_locked (user : UserId) (wave : WaveId) (wavelet : WaveletId) (title : str) : CM () :=
  let title := normalise_title title in
  l <-! get_live;
  guard_access l user wavelet ;!
  lift (permit l user Retitle) ;!
  ts <-! now_;
  db_write (λ db, Ok (set_title db ts wavelet title)) ;!
  put_live (wavelet_mut wavelet (retitle title) l) ;!
  cm_broadcast wavelet None (TitleChanged wave wavelet title) ;!
  schedule_inbox_update wave.

Definition set_mode_locked (user : UserId) (wave : WaveId) (mode : WaveMode) : CM () :=
  l <-! get_live;
  guard (may_view l user) not_found ;!
  lift (permit l user ASetMode) ;!
  let w := lw_wave l in
  if decide (wave_mode w = mode) then cm_ret tt
  else
    db_write (λ db, Ok (set_mode db wave mode)) ;!
    put_live (set_wave (mkWave (wave_id w) (wave_creator w) (wave_created_at w) mode) l) ;!
    cm_each (λ id, cm_broadcast id None (ModeChanged wave mode)) (wl_id <$> lw_wavelets l) ;!
    schedule_inbox_update wave.

(** ** Membership *)

Definition add_participant_locked (caller : UserId) (wave : WaveId) (wavelet : WaveletId) (user : User) : CM () :=
  l <-! get_live;
  guard_access l caller wavelet ;!
  let private := match LiveWave.wavelet l wavelet with
                 | Some w => bool_decide (wl_kind w = PrivateReplyKind) | None => false end in
  let in_wave := existsb (λ w, bool_decide (wl_kind w = Conversation) && has_participant w (user_id user))
                   (lw_wavelets l) in
  guard (negb private || in_wave)
    (error Forbidden (user_display_name user ++ lit " is not in this wave yet " ++ em_dash
                        ++ lit " add them to the wave first.")) ;!
  match LiveWave.wavelet l wavelet with
  | None => cm_throw not_found
  | Some w =>
      if has_participant w (user_id user) then cm_ret tt
      else
        ts <-! now_;
        db_write (λ db, add_participant db ts wavelet (user_id user)) ;!
        put_live (set_user_cache (<[user_id user := public user]> (lw_user_cache l))
                    (wavelet_mut wavelet (push_participant (user_id user)) l)) ;!
        cm_broadcast wavelet None (ParticipantAdded wave wavelet (public user)) ;!
        schedule_inbox_update wave
  end.

(** [participants.retain(|p| p != user)]. *)
Definition drop_participant (user : UserId) (w : Wavelet) : Wavelet :=
  mkWavelet (wl_id w) (wl_wave_id w) (wl_kind w) (wl_title w) (filter (λ p, p ≠ user) (wl_participants w))
    (wl_anchor_blip w) (wl_created_at w) (wl_last_modified w).

Definition is_private_with (user : UserId) (w : Wavelet) : bool :=
  bool_decide (wl_kind w = PrivateReplyKind) && has_participant w user.

(** The private replies of the wave the user leaves with its conversation. *)
Definition cascade (user : UserId) (l : LiveWave) : list WaveletId * LiveWave :=
  (wl_id <$> filter (λ w, is_private_with user w = true) (lw_wavelets l),
   set_wavelets (update_where (is_private_with user) (drop_participant user) (lw_wavelets l)) l).

(** Forget every connection of a user. *)
Definition unsubscribe (user : UserId) (l : LiveWave) : LiveWave :=
  set_subscribers (filter (λ e, sub_user_id e.2 ≠ user) (lw_subscribers l)) l.

Definition remove_participant_locked (caller : UserId) (wave : WaveId) (wavelet : WaveletId) (user : UserId) : CM () :=
  l <-! get_live;
  guard_access l caller wavelet ;!
  guard (str_eqb user caller || str_eqb (wave_creator (lw_wave l)) caller)
    (error Forbidden
       (lit "Only the person who started this wave can remove someone else.              You can always remove yourself.")) ;!
  match LiveWave.wavelet l wavelet with
  | None => cm_throw not_found
  | Some w =>
      if negb (has_participant w user) then cm_ret tt
      else
        guard (1 <? N.of_nat (length (wl_participants w)))%N
          (error BadRequest (lit "A wave needs at least one participant.")) ;!
        db_write (λ db, Ok (remove_participant db wavelet user)) ;!
        put_live (wavelet_mut wavelet (drop_participant user) l) ;!
        cm_broadcast wavelet None (ParticipantRemoved wave wavelet user) ;!
        (if decide (wl_kind w = Conversation) then
           l <-! get_live;
           let '(cascaded, l) := cascade user l in
           put_live l ;!
           cm_each (λ id, cm_broadcast id None (ParticipantRemoved wave id user)) cascaded
         else cm_ret tt) ;!
        l <-! get_live;
        (if may_view l user then cm_ret tt
         else put_live (unsubscribe user l) ;! cm_send_to_user user (WaveRemoved wave)) ;!
        schedule_inbox_update wave
  end.

Definition private_reply_locked (user : UserId) (wave : WaveId) (wavelet : WaveletId) (anchor : BlipId)
    (ids : list UserId) : CM () :=
  l <-! get_live;
  guard_access l user wavelet ;!
  lift (permit l user StartPrivateReply) ;!
  guard (match lw_blips l !! anchor with
         | Some b => str_eqb (blip_wavelet_id (lb_meta b)) wavelet | None => false end) not_found ;!
  let parent_members := match LiveWave.wavelet l wavelet with Some w => wl_participants w | None => [] end in
  match find_list (λ id, negb (bool_decide (id ∈ parent_members))) ids with
  | Some outsider =>
      let name := match lw_user_cache l !! outsider with Some u => pu_display_name u | None => outsider end in
      cm_throw (error Forbidden (name ++ lit " is not in this wave yet " ++ em_dash
                                   ++ lit " add them to the wave first."))
  | None =>
      let ids := user :: filter (λ id, id ≠ user) ids in
      uuid <-! uuid_;
      created <-! now_;
      modified <-! now_;
      blip_uuid <-! uuid_;
      blip_ts <-! now_;
      let reply := mkWavelet (id_new (lit "s-") uuid) wave PrivateReplyKind (title l) ids (Some anchor) created modified in
      let blip := blip_new blip_uuid blip_ts wave (wl_id reply) user None 0 in
      db_write (λ db, create_private_reply db reply blip) ;!
      put_live (set_blips (<[blip_id blip := live_blip_new blip]> (lw_blips l))
                  (set_wavelets (lw_wavelets l ++ [reply]) l)) ;!
      let view := mkWaveletView (wl_id reply) wave (wl_kind reply) (wl_title reply)
                    (omap (λ id, lw_user_cache l !! id) ids) (wl_anchor_blip reply) (wl_created_at reply)
                    (wl_last_modified reply) [blip_view blip ∅] [] in
      cm_broadcast (wl_id reply) None (WaveletAdded wave view) ;!
      schedule_inbox_update wave
  end.

(** ** Cursors and watching *)

Definition edit_at (blip : BlipId) (s : Subscriber) : Subscriber :=
  mkSubscriber (sub_user_id s) (sub_tx s) (Some blip).

Definition cursor_locked (user : UserId) (conn : ConnId) (wave : WaveId) (blip : BlipId) (index length : N) : CM () :=
  l <-! get_live;
  match lw_blips l !! blip with
  | None => cm_ret tt
  | Some b =>
      let wavelet := blip_wavelet_id (lb_meta b) in
      if negb (may_access l user wavelet) then cm_ret tt
      else
        put_live (set_subscribers (alter (edit_at blip) conn (lw_subscribers l)) l) ;!
        cm_broadcast wavelet (Some conn) (SCursor wave blip user index length) ;!
        cm_presence wave
  end.

(** The end of [open_wave]: attach, send the snapshot, tell the others. *)
Definition open_locked (user : UserId) (conn : ConnId) (wave : WaveId) (marks : gmap BlipId N) (fl : WaveFlags) : CM () :=
  l <-! get_live;
  guard (may_view l user) not_found ;!
  put_live (set_subscribers (<[conn := mkSubscriber user conn None]> (lw_subscribers l)) l) ;!
  cm_send_to conn (WaveState (view l user marks fl)) ;!
  cm_presence wave.

Definition leave_locked (conn : ConnId) (wave : WaveId) : CM () :=
  l <-! get_live;
  put_live (set_subscribers (delete conn (lw_subscribers l)) l) ;!
  cm_presence wave.

End handlers.
