(* ===== verification/Coherence.v ===== *)
(** * Memory and storage agree: the invariant and how sections are reasoned about

    [coherent db l] says that the resident wave [l] is what loading the wave from [db] would give:
    mode, wavelets with their members, undeleted blips with their snapshots (each a text in order and
    within limits), comment threads.  (The
    time a wavelet was last modified is left out: [set_title] only writes it to storage.)  The rules
    for [wp] step through a critical section. *)

From S2P Require Import Prelude Tables Strings Unicode Json Attributes Text Delta Model Protocol ServerDoc.
From S2P Require Import Content DocBounds LiveWave Storage OpLog Queries Effects Critical Handlers.

Section coherence.
Context `{J : Json} `{W : World}.
Implicit Types db : Db.
Implicit Types l : LiveWave.
Implicit Types s : Crit.

(** ** The invariant *)

(** Keys, references and checks the tables keep, and the op log behind every message. *)
Record db_sound db : Prop := {
  key_waves : keyed wr_id (db_waves db);
  key_wavelets : keyed wlr_id (db_wavelets db);
  key_blips : keyed blip_id (db_blips db);
  key_comments : keyed (λ c, ct_id (cr_thread c)) (db_comments db);
  ref_participants : ∀ p, p ∈ db_participants db → wavelet_exists db (pr_wavelet_id p) = true;
  ref_comments : ∀ c, c ∈ db_comments db →
    ∃ b, b ∈ db_blips db ∧ blip_id b = ct_blip_id (cr_thread c) ∧ blip_wave_id b = cr_wave_id c ∧
      blip_wavelet_id b = ct_wavelet_id (cr_thread c);
  check_kind : ∀ r, r ∈ db_wavelets db → ∃ k, wlr_kind r = kind_str k;
  check_content : ∀ b, b ∈ db_blips db → good_text (blip_content b);
  ref_remarks : ∀ b c, b ∈ db_blips db → blip_deleted b = false → blip_comment b = Some c →
    ∃ t, t ∈ db_comments db ∧ ct_id (cr_thread t) = c ∧ cr_wave_id t = blip_wave_id b ∧
      ct_wavelet_id (cr_thread t) = blip_wavelet_id b;
  ref_blips : ∀ b, b ∈ db_blips db → wavelet_exists db (blip_wavelet_id b) = true;
  op_log : ops_ok db;
}.

(** A resident wavelet and its row. *)
Definition agrees db (w : Wavelet) (r : WaveletRow) : Prop :=
  wl_id w = wlr_id r ∧ wl_wave_id w = wlr_wave_id r ∧ wlr_kind r = kind_str (wl_kind w) ∧
  wl_title w = wlr_title r ∧ wl_anchor_blip w = wlr_anchor_blip r ∧
  (∀ u, u ∈ wl_participants w ↔ is_wavelet_participant db u (wl_id w) = true).

Record coherent db l : Prop := {
  co_wave : ∃ r, r ∈ db_waves db ∧ wr_id r = wave_id (lw_wave l) ∧ wr_creator r = wave_creator (lw_wave l) ∧
    wr_created_at r = wave_created_at (lw_wave l) ∧ wr_mode r = mode_as_str (wave_mode (lw_wave l));
  co_keyed : keyed wl_id (lw_wavelets l);
  co_wavelets : ∀ w, w ∈ lw_wavelets l → ∃ r, r ∈ db_wavelets db ∧ agrees db w r ∧ wlr_wave_id r = wave_id (lw_wave l);
  co_rows : ∀ r, r ∈ db_wavelets db → wlr_wave_id r = wave_id (lw_wave l) →
    ∃ w, w ∈ lw_wavelets l ∧ agrees db w r;
  co_blips : ∀ b, (b ∈ db_blips db ∧ blip_wave_id b = wave_id (lw_wave l) ∧ blip_deleted b = false) ↔
    ∃ lb, lw_blips l !! blip_id b = Some lb ∧ lb_meta lb = b;
  co_docs : ∀ id lb, lw_blips l !! id = Some lb →
    blip_id (lb_meta lb) = id ∧ doc_content (lb_doc lb) = blip_content (lb_meta lb) ∧
    doc_revision (lb_doc lb) = blip_revision (lb_meta lb) ∧ doc_fit (lb_doc lb);
  co_comments : ∀ t, (∃ c, c ∈ db_comments db ∧ cr_wave_id c = wave_id (lw_wave l) ∧ cr_thread c = t) ↔
    lw_comments l !! ct_id t = Some t;
  co_threads : ∀ id t, lw_comments l !! id = Some t → ct_id t = id;
}.

(** ** What a section for one wave may write

    [same_wave w db db']: what [db'] holds about the wave [w] is what [db] held, modification times of
    wavelets apart.  [local w db db']: this is so of every wave but [w]. *)

Record same_wave (w : WaveId) db db' : Prop := {
  sw_waves : ∀ r, wr_id r = w → r ∈ db_waves db → r ∈ db_waves db';
  sw_wavelets : ∀ r, wlr_wave_id r = w → r ∈ db_wavelets db → ∃ ts, touched ts r ∈ db_wavelets db';
  sw_wavelets' : ∀ r, wlr_wave_id r = w → r ∈ db_wavelets db' → ∃ ts, touched ts r ∈ db_wavelets db;
  sw_members : ∀ r u, r ∈ db_wavelets db → wlr_wave_id r = w →
    is_wavelet_participant db' u (wlr_id r) = is_wavelet_participant db u (wlr_id r);
  sw_blips : ∀ b, blip_wave_id b = w → blip_deleted b = false → b ∈ db_blips db ↔ b ∈ db_blips db';
  sw_comments : ∀ c, cr_wave_id c = w → c ∈ db_comments db ↔ c ∈ db_comments db';
}.

Definition local (w : WaveId) db db' : Prop := ∀ w', w' ≠ w → same_wave w' db db'.

(** ** Reasoning about sections *)

Lemma wp_get_live Q s : Q (Ok (c_live s)) s → wp get_live Q s.
Proof. done. Qed.

Lemma wp_put_live l Q s : Q (Ok tt) (with_live l s) → wp (put_live l) Q s.
Proof. done. Qed.

Lemma wp_now Q s : Q (Ok (clock (c_tick s))) (tick s) → wp now_ Q s.
Proof. done. Qed.

Lemma wp_uuid Q s : Q (Ok (fresh_uuid (c_tick s))) (tick s) → wp uuid_ Q s.
Proof. done. Qed.

Lemma wp_try_db {T} (f : Db → DbResult (T * Db)) Q s :
  (∀ t db, f (c_db s) = Ok (t, db) → Q (Ok (Ok t)) (tick (with_db db s))) →
  (∀ e, Q (Ok (Err e)) (tick s)) → wp (try_db f) Q s.
Proof. exact (wp_stored_try f Q s). Qed.

Lemma wp_db_call {T} (f : Db → DbResult (T * Db)) Q s :
  (∀ t db, f (c_db s) = Ok (t, db) → Q (Ok t) (tick (with_db db s))) →
  Q (Err internal) (tick s) → wp (db_call f) Q s.
Proof. exact (wp_stored_call f Q s). Qed.

Lemma wp_db_write (f : Db → DbResult Db) Q s :
  (∀ db, f (c_db s) = Ok db → Q (Ok tt) (tick (with_db db s))) →
  Q (Err internal) (tick s) → wp (db_write f) Q s.
Proof. exact (wp_stored_write f Q s). Qed.

(** Delivery only ever changes who is subscribed. *)
Lemma disconnect_live l out ids : ∃ subs, (disconnect l out ids).1 = set_subscribers subs l.
Proof.
  unfold disconnect. induction ids as [|c ids [subs IH]] using rev_ind; [by exists (lw_subscribers l); destruct l|].
  rewrite foldl_app. destruct (foldl _ _ ids) as [l' out']. simpl in *. subst l'. simpl.
  destruct (subs !! c); simpl; eauto.
Qed.

Lemma broadcast_live l out wavelet skip m : ∃ subs, (broadcast l out wavelet skip m).1 = set_subscribers subs l.
Proof. unfold broadcast. destruct (foldl _ _ _) as [out' failed]. apply disconnect_live. Qed.

Lemma presence_live l out wave : ∃ subs, (broadcast_presence l out wave).1 = set_subscribers subs l.
Proof. unfold broadcast_presence. destruct (foldl _ _ _) as [out' failed]. apply disconnect_live. Qed.

Lemma send_to_live l out conn m : ∃ subs, (send_to l out conn m).1 = set_subscribers subs l.
Proof.
  unfold send_to. assert (l = set_subscribers (lw_subscribers l) l) as Hl by by destruct l.
  destruct (lw_subscribers l !! conn); [destruct (try_send _ _ _)|]; simpl; eauto using disconnect_live.
Qed.

Lemma wp_broadcast wavelet skip m Q s :
  (∀ subs out, Q (Ok tt) (with_wave_out (set_subscribers subs (c_live s)) out s)) →
  wp (cm_broadcast wavelet skip m) Q s.
Proof.
  unfold wp, cm_broadcast. intros H. destruct (broadcast_live (c_live s) (c_out s) wavelet skip m) as [subs E].
  destruct (broadcast _ _ _ _ _) as [l out]. simpl in *. by subst l.
Qed.

Lemma wp_presence wave Q s :
  (∀ subs out, Q (Ok tt) (with_wave_out (set_subscribers subs (c_live s)) out s)) → wp (cm_presence wave) Q s.
Proof.
  unfold wp, cm_presence. intros H. destruct (presence_live (c_live s) (c_out s) wave) as [subs E].
  destruct (broadcast_presence _ _ _) as [l out]. simpl in *. by subst l.
Qed.

Lemma wp_send_to conn m Q s :
  (∀ subs out, Q (Ok tt) (with_wave_out (set_subscribers subs (c_live s)) out s)) → wp (cm_send_to conn m) Q s.
Proof.
  unfold wp, cm_send_to. intros H. destruct (send_to_live (c_live s) (c_out s) conn m) as [subs E].
  destruct (send_to _ _ _ _) as [l out]. simpl in *. by subst l.
Qed.

(** ** What the invariant does not look at *)

Lemma coherent_subs db l subs : coherent db (set_subscribers subs l) ↔ coherent db l.
Proof. split; intros []; constructor; done. Qed.

Lemma coherent_cache db l cache : coherent db l → coherent db (set_user_cache cache l).
Proof. intros []; constructor; done. Qed.

(** Which wave a resident copy is of, and whether it was discarded. *)
Definition who l : WaveId * bool := (wave_id (lw_wave l), lw_evicted l).

(** Memory and storage agree, and since [db0] nothing was written about waves other than [w0]. *)
Context (db0 : Db) (w0 : WaveId).

Definition inv s : Prop :=
  db_sound (c_db s) ∧ coherent (c_db s) (c_live s) ∧ who (c_live s) = (w0, false) ∧ local w0 db0 (c_db s).

Lemma inv_subs s subs out : inv s → inv (with_wave_out (set_subscribers subs (c_live s)) out s).
Proof. intros (Hd & Hc & Hw & Hl). split_and!; try done. by apply coherent_subs. Qed.

Definition preserves {T} (m : CM T) : Prop := ∀ s, inv s → wp m (λ _ s', inv s') s.

Lemma preserves_bind {T U} (m : CM T) (f : T → CM U) :
  preserves m → (∀ t, preserves (f t)) → preserves (cm_bind m f).
Proof.
  intros Hm Hf s Hs. apply wp_bind. specialize (Hm s Hs). unfold wp in *.
  destruct (m s).1; [by apply Hf|done].
Qed.

Lemma preserves_ret {T} (t : T) : preserves (cm_ret (S := Crit) t).
Proof. by intros s. Qed.
Lemma preserves_throw {T} e : preserves (cm_throw (S := Crit) (T := T) e).
Proof. by intros s. Qed.
Lemma preserves_broadcast wavelet skip m : preserves (cm_broadcast wavelet skip m).
Proof. intros s Hs. apply wp_broadcast. intros subs out. by apply inv_subs. Qed.
Lemma preserves_presence wave : preserves (cm_presence wave).
Proof. intros s Hs. apply wp_presence. intros subs out. by apply inv_subs. Qed.
Lemma preserves_send_to conn m : preserves (cm_send_to conn m).
Proof. intros s Hs. apply wp_send_to. intros subs out. by apply inv_subs. Qed.
Lemma preserves_send_to_user user m : preserves (cm_send_to_user user m).
Proof. by intros s. Qed.
Lemma preserves_schedule wave : preserves (schedule_inbox_update wave).
Proof. by intros s. Qed.

Lemma preserves_each {A} (f : A → CM ()) xs : (∀ x, preserves (f x)) → preserves (cm_each f xs).
Proof.
  intros Hf. induction xs as [|x xs IH]; [apply preserves_ret|]. apply preserves_bind; [apply Hf|by intros []].
Qed.

End coherence.

Create HintDb preserves.
#[export] Hint Resolve preserves_ret preserves_throw preserves_broadcast preserves_presence preserves_send_to
  preserves_send_to_user preserves_schedule preserves_each preserves_bind : preserves.

(** Step to the next place where something is decided. *)
Ltac wp_step :=
  match goal with
  | |- wp (cm_bind _ _) _ _ => apply wp_bind
  | |- wp get_live _ _ => apply wp_get_live
  | |- wp (put_live _) _ _ => apply wp_put_live
  | |- wp (cm_ret _) _ _ => apply wp_ret
  | |- wp (cm_throw _) _ _ => apply wp_throw
  | |- wp (lift _) _ _ => apply wp_lift
  | |- wp now_ _ _ => apply wp_now
  | |- wp uuid_ _ _ => apply wp_uuid
  | |- wp (guard _ _) _ _ => apply wp_guard; [intros ?|by intros]
  end; cbv beta iota.
