(* ===== verification/CoherenceLemmas.v ===== *)
(** * Memory and storage agree: one write at a time

    Each lemma pairs what a write does to the tables with what the command does to the resident wave. *)

From S2P Require Import Prelude Tables Strings Unicode Json Attributes Text Delta Model Protocol ServerDoc.
From S2P Require Import Content DocBounds LiveWave LiveWaveTheory Storage OpLog Queries Effects Critical Handlers Coherence.

Section lemmas.
Context `{J : Json} `{W : World}.
Implicit Types db : Db.
Implicit Types l : LiveWave.

(** ** Tables the invariant does not look at *)

Lemma insert_into_inv {R} ok (r : R) t t' : insert_into ok r t = Ok t' → ok = true ∧ t' = t ++ [r].
Proof. unfold insert_into, insert_row. destruct ok; [|done]. by intros [= <-]. Qed.

(** Tables apart from these, and the wave's own, do not matter. *)
Lemma sound_search f g db : db_sound db → db_sound (on_search f (on_search_keys g db)).
Proof. intros []; constructor; try done. by apply (ops_ok_same db). Qed.

Lemma coherent_search f g db l : coherent db l → coherent (on_search f (on_search_keys g db)) l.
Proof. intros []; constructor; done. Qed.

Lemma coherent_ops h db l : coherent db l → coherent (on_ops h db) l.
Proof. intros []; constructor; done. Qed.

Lemma index_blip_inv db b db' :
  index_blip db b = Ok db' → ∃ f g, db' = on_search f (on_search_keys g db).
Proof.
  unfold index_blip. intros (db1 & H1 & H2)%bind_ok.
  assert (∃ g, db1 = on_search_keys g db) as [g ->].
  { destruct (exists_row _ _); [injection H1 as <-; exists (λ t, t); by destruct db|].
    apply bind_ok in H1 as (t & Ht & [= <-]). eauto. }
  destruct (find_row _ _); [|done]. injection H2 as <-. by eexists _, g.
Qed.

Lemma insert_op_inv db row db' : insert_op db row = Ok db' → db' = on_ops (λ t, t ++ [row]) db.
Proof. unfold insert_op. intros (t & [_ ->]%insert_into_inv & [= <-])%bind_ok. done. Qed.

Lemma insert_seeded_blip_inv db b db' :
  insert_seeded_blip db b = Ok db' →
  ∃ f g rows, db' = on_search f (on_search_keys g
      (touch_wavelet_row (blip_wavelet_id b) (blip_last_modified b)
        (on_ops (λ t, t ++ rows) (on_blips (λ t, t ++ [undeleted b]) db)))) ∧
    ((blip_revision b ≤ 1)%N → seed_log b rows) ∧ blip_exists db (blip_id b) = false ∧ wavelet_exists db (blip_wavelet_id b) = true.
Proof.
  unfold insert_seeded_blip, insert_blip_row.
  intros (db1 & (t & [Hok ->]%insert_into_inv & [= <-])%bind_ok & (db2 & H2 & H3)%bind_ok)%bind_ok.
  apply andb_true_iff in Hok as [Hfresh Hw]. apply negb_true_iff in Hfresh.
  apply index_blip_inv in H3 as (f & g & ->).
  assert (∃ rows, db2 = on_ops (λ t, t ++ rows) (on_blips (λ _, db_blips db ++ [undeleted b]) db) ∧
    ((blip_revision b ≤ 1)%N → seed_log b rows)) as (rows & -> & Hrows).
  { destruct (0 <? blip_revision b)%N eqn:E; bool_to_prop.
    - apply insert_op_inv in H2 as ->. eexists. split; [done|]. intros Hle. right. split; [lia|]. by do 3 eexists.
    - injection H2 as <-. exists []. split; [unfold on_ops; simpl; by rewrite app_nil_r|]. intros _. left. split; [lia|done]. }
  by exists f, g, rows.
Qed.

(** ** Wavelets *)

Lemma touched_agrees db w r p ts : agrees db w r → agrees db w (if (p : bool) then touched ts r else r).
Proof. by destruct p. Qed.

(** Rows of wavelets are changed and added, never dropped. *)
Lemma wavelet_exists_update db p f w :
  (∀ r, wlr_id (f r) = wlr_id r) → wavelet_exists db w = true → wavelet_exists (on_wavelets (update_where p f) db) w = true.
Proof.
  unfold wavelet_exists. rewrite !exists_row_spec. intros Hf (r & Hr & E).
  exists (if p r then f r else r). split; [apply elem_of_update; eauto|]. destruct (p r); [|done]. by rewrite Hf.
Qed.

Lemma wavelet_exists_snoc db row w :
  w = wlr_id row ∨ wavelet_exists db w = true → wavelet_exists (on_wavelets (λ t, t ++ [row]) db) w = true.
Proof.
  unfold wavelet_exists. rewrite !exists_row_spec. cbn. setoid_rewrite elem_of_app. intros [->|(r & Hr & E)]; [|by eauto].
  exists row. split; [right; by apply list_elem_of_singleton|]. by apply bool_decide_eq_true.
Qed.

Lemma sound_wavelets db p f :
  (∀ r, wlr_id (f r) = wlr_id r ∧ wlr_kind (f r) = wlr_kind r) →
  db_sound db → db_sound (on_wavelets (update_where p f) db).
Proof.
  intros Hf [Kw Kl Kb Kc Rp Rc Ck Cd Rr Rb Lo]; constructor; simpl; try done.
  - apply keyed_update; [apply Hf|done].
  - intros q Hq. apply wavelet_exists_update; [apply Hf|by apply Rp].
  - intros r (r0 & Hr0 & ->)%elem_of_update. destruct (Ck r0 Hr0) as [k Hk]. exists k.
    destruct (p r0); [|done]. by rewrite (proj2 (Hf r0)).
  - intros b Hb. apply wavelet_exists_update; [apply Hf|by apply Rb].
  - by apply (ops_ok_same db).
Qed.

(** A change made to the matching rows and wavelets alike. *)
Lemma coherent_wavelets db l (p : WaveletRow → bool) (q : Wavelet → bool) (f : WaveletRow → WaveletRow)
    (g : Wavelet → Wavelet) :
  (∀ w, wl_id (g w) = wl_id w) → (∀ r, wlr_wave_id (f r) = wlr_wave_id r) →
  (∀ w r, agrees db w r → agrees db (if q w then g w else w) (if p r then f r else r)) →
  coherent db l →
  coherent (on_wavelets (update_where p f) db) (set_wavelets (update_where q g (lw_wavelets l)) l).
Proof.
  intros Hg Hf Hpq [Cw Ck Cl Cr Cb Cd Cc Ct]. constructor; simpl; try done.
  - by apply keyed_update.
  - intros w' (w & Hw & ->)%elem_of_update. destruct (Cl w Hw) as (r & Hr & Ha & E).
    exists (if p r then f r else r). split; [apply elem_of_update; eauto|]. split.
    + by apply Hpq.
    + destruct (p r); [|done]. by rewrite Hf.
  - intros r' (r & Hr & ->)%elem_of_update E.
    destruct (Cr r Hr) as (w & Hw & Ha); [destruct (p r); [by rewrite <- Hf|done]|].
    exists (if q w then g w else w). split; [apply elem_of_update; eauto|]. by apply Hpq.
Qed.

Lemma wavelet_mut_where l id g :
  keyed wl_id (lw_wavelets l) →
  wavelet_mut id g l = set_wavelets (update_where (λ w, str_eqb (wl_id w) id) g (lw_wavelets l)) l.
Proof. intros Hk. unfold wavelet_mut. f_equal. by apply update_first_where. Qed.

Lemma update_where_id {R} p (t : list R) : update_where p (λ r, r) t = t.
Proof. unfold update_where. rewrite <- (list_fmap_id t) at 2. apply list_fmap_ext. intros. by case_match. Qed.

(** Modification times are free on both sides. *)
Lemma coherent_touch_row db l id ts : coherent db l → coherent (touch_wavelet_row id ts db) l.
Proof.
  intros Hc. pose proof (coherent_wavelets db l (λ r, str_eqb (wlr_id r) id) (λ _, true) (touched ts) (λ w, w)) as H.
  rewrite update_where_id in H.
  replace l with (set_wavelets (lw_wavelets l) l) by by destruct l.
  apply H; try done. intros w r Ha. by apply touched_agrees.
Qed.

Lemma coherent_touch_live db l id ts : coherent db l → coherent db (wavelet_mut id (touch_wavelet ts) l).
Proof.
  intros Hc. rewrite wavelet_mut_where by apply Hc.
  pose proof (coherent_wavelets db l (λ _, true) (λ w, str_eqb (wl_id w) id) (λ r, r) (touch_wavelet ts)) as H.
  unfold on_wavelets in H. rewrite update_where_id in H. destruct db. apply H; try done.
  intros w r Ha. by destruct (str_eqb _ _).
Qed.

Lemma sound_touch_row db id ts : db_sound db → db_sound (touch_wavelet_row id ts db).
Proof. by apply sound_wavelets. Qed.

(** ** Blips *)

Lemma undeleted_id b : blip_deleted b = false → undeleted b = b.
Proof. destruct b. simpl. by intros ->. Qed.

Lemma blip_fresh db id : blip_exists db id = false ↔ ∀ b, b ∈ db_blips db → blip_id b ≠ id.
Proof.
  unfold blip_exists. rewrite exists_row_false. unfold str_eqb.
  split; intros H b Hb; specialize (H b Hb); rewrite ?bool_decide_eq_false in *; done.
Qed.

(** A remark's thread is there, in the same wave and wavelet. *)
Definition anchored db (b : Blip) : Prop :=
  ∀ c, blip_comment b = Some c →
    ∃ t, t ∈ db_comments db ∧ ct_id (cr_thread t) = c ∧ cr_wave_id t = blip_wave_id b ∧
      ct_wavelet_id (cr_thread t) = blip_wavelet_id b.

Lemma anchored_none db b : blip_comment b = None → anchored db b.
Proof. by intros H c; rewrite H. Qed.

Lemma sound_add_blip db b rows :
  db_sound db → blip_exists db (blip_id b) = false → seed_shape b → seed_log b rows → anchored db b →
  wavelet_exists db (blip_wavelet_id b) = true → db_sound (on_ops (λ t, t ++ rows) (on_blips (λ t, t ++ [b]) db)).
Proof.
  intros [Kw Kl Kb Kc Rp Rc Ck Cd Rr Rb Lo] Hf Hs Hl Ha Hw. pose proof (proj1 (blip_fresh _ _) Hf) as Hfr.
  assert (good_text (blip_content b)) as Hd by (destruct Hs as [[_ ->]|[_ Hs]]; [apply good_text_nil|done]).
  constructor; simpl; try done.
  - by apply keyed_snoc.
  - intros c Hc. destruct (Rc c Hc) as (x & Hx & ?). exists x. set_solver.
  - intros x [Hx| ->%list_elem_of_singleton]%elem_of_app; auto.
  - intros x c [Hx| ->%list_elem_of_singleton]%elem_of_app; [by apply Rr|intros _; apply Ha].
  - intros x [Hx| ->%list_elem_of_singleton]%elem_of_app; [by apply Rb|done].
  - by apply ops_ok_seed.
Qed.

Lemma live_blip_new_doc b :
  good_text (blip_content b) →
  doc_content (lb_doc (live_blip_new b)) = blip_content b ∧
  doc_revision (lb_doc (live_blip_new b)) = blip_revision b ∧ doc_fit (lb_doc (live_blip_new b)).
Proof.
  intros H. unfold live_blip_new, from_snapshot. rewrite (good_text_document _ H).
  split_and!; [done..|by apply doc_fit_new].
Qed.

Lemma coherent_add_blip db l b :
  coherent db l → blip_exists db (blip_id b) = false → good_text (blip_content b) →
  blip_deleted b = false → blip_wave_id b = wave_id (lw_wave l) →
  coherent (on_blips (λ t, t ++ [b]) db) (set_blips (<[blip_id b := live_blip_new b]> (lw_blips l)) l).
Proof.
  intros [Cw Ck Cl Cr Cb Cd Cc Ct] Hf Hd Hdel Hw. pose proof (proj1 (blip_fresh _ _) Hf) as Hfr. constructor; simpl; try done.
  - intros x. split.
    + intros ([Hx| ->%list_elem_of_singleton]%elem_of_app & Hxw & Hxd).
      * rewrite lookup_insert_ne by (intros E; by apply (Hfr x)). by apply Cb.
      * rewrite lookup_insert_eq. by eexists.
    + intros (lb & [[E <-]|[Hne Hx]]%lookup_insert_Some & Hm).
      * simpl in Hm. subst x. set_solver.
      * destruct (proj2 (Cb x)) as (? & ? & ?); [eauto|set_solver].
  - intros id lb [[<- <-]|[Hne Hx]]%lookup_insert_Some; [|by apply Cd].
    simpl. destruct (live_blip_new_doc b Hd). done.
Qed.

(** A new blip, stored with its seed. *)
Lemma sound_seeded db b db' :
  db_sound db → insert_seeded_blip db b = Ok db' → blip_deleted b = false → seed_shape b →
  anchored db b → db_sound db'.
Proof.
  intros Hd (f & g & rows & -> & Hl & Hf & Hw)%insert_seeded_blip_inv Hdel Hs Ha.
  rewrite undeleted_id by done. apply sound_search, sound_touch_row, sound_add_blip; try done.
  apply Hl. destruct Hs as [[-> _]|[-> _]]; lia.
Qed.

(** The same, and admitted to the resident wave. *)
Lemma seeded_blip_inv db l b db' :
  db_sound db → coherent db l → insert_seeded_blip db b = Ok db' →
  blip_deleted b = false → blip_wave_id b = wave_id (lw_wave l) → seed_shape b →
  anchored db b →
  db_sound db' ∧ coherent db' (set_blips (<[blip_id b := live_blip_new b]> (lw_blips l)) l).
Proof.
  intros Hd Hc Hins Hdel Hw Hs Ha. split; [by apply (sound_seeded db b)|].
  apply insert_seeded_blip_inv in Hins as (f & g & h & -> & _ & Hf & _). rewrite undeleted_id by done.
  assert (good_text (blip_content b)) as Hdoc by (destruct Hs as [[_ ->]|[_ Hs]]; [apply good_text_nil|done]).
  by apply coherent_search, coherent_touch_row, coherent_ops, coherent_add_blip.
Qed.

(** ** Comments *)

Lemma sound_add_comment db c b :
  db_sound db → (∀ c', c' ∈ db_comments db → ct_id (cr_thread c') ≠ ct_id (cr_thread c)) →
  b ∈ db_blips db → blip_id b = ct_blip_id (cr_thread c) → blip_wave_id b = cr_wave_id c →
  blip_wavelet_id b = ct_wavelet_id (cr_thread c) →
  db_sound (on_comments (λ t, t ++ [c]) db).
Proof.
  intros [Kw Kl Kb Kc Rp Rc Ck Cd Rr Rb Lo] Hf Hb Hid Hw Hwl. constructor; simpl; try done.
  - by apply keyed_snoc.
  - intros x [Hx| ->%list_elem_of_singleton]%elem_of_app; [by apply Rc|eauto].
  - intros x k Hx H1 H2. destruct (Rr x k Hx H1 H2) as (t & Ht & ?). exists t. set_solver.
  - by apply (ops_ok_same db).
Qed.

Lemma coherent_add_comment db l c :
  coherent db l → (∀ c', c' ∈ db_comments db → ct_id (cr_thread c') ≠ ct_id (cr_thread c)) →
  cr_wave_id c = wave_id (lw_wave l) →
  coherent (on_comments (λ t, t ++ [c]) db)
    (set_comments (<[ct_id (cr_thread c) := cr_thread c]> (lw_comments l)) l).
Proof.
  intros [Cw Ck Cl Cr Cb Cd Cc Ct] Hf Hw. constructor; simpl; try done.
  - intros t. split.
    + intros (x & [Hx| ->%list_elem_of_singleton]%elem_of_app & Hxw & <-).
      * rewrite lookup_insert_ne by (intros E; by apply (Hf x)). apply Cc. eauto.
      * by rewrite lookup_insert_eq.
    + intros [[E <-]|[Hne Hx]]%lookup_insert_Some; [exists c; set_solver|].
      destruct (proj2 (Cc t) Hx) as (x & Hxin & ?). exists x. set_solver.
  - intros id t [[<- <-]|[Hne Hx]]%lookup_insert_Some; [done|by apply Ct].
Qed.

Lemma comment_fresh db id :
  exists_row (λ c, str_eqb (ct_id (cr_thread c)) id) (db_comments db) = false →
  ∀ c, c ∈ db_comments db → ct_id (cr_thread c) ≠ id.
Proof. intros H c Hc. rewrite exists_row_false in H. specialize (H c Hc). by apply bool_decide_eq_false in H. Qed.

(** A thread, its first remark, and both in the resident wave. *)
Lemma create_comment_inv db l thread b db' target :
  db_sound db → coherent db l → create_comment db thread b = Ok db' →
  blip_deleted b = false → blip_wave_id b = wave_id (lw_wave l) → seed_shape b →
  blip_comment b = Some (ct_id thread) → blip_wavelet_id b = ct_wavelet_id thread →
  blip_wavelet_id (lb_meta target) = ct_wavelet_id thread →
  lw_blips l !! ct_blip_id thread = Some target → ct_resolved_by thread = None → ct_resolved_at thread = None →
  db_sound db' ∧
  coherent db' (set_blips (<[blip_id b := live_blip_new b]> (lw_blips l))
                  (set_comments (<[ct_id thread := thread]> (lw_comments l)) l)).
Proof.
  unfold create_comment, insert_comment.
  intros Hd Hc (db1 & (t & [Hok ->]%insert_into_inv & [= <-])%bind_ok & H2)%bind_ok Hdel Hw Hdoc Hbc Hwl Htw Ht H1 H3.
  simpl in Hok. rewrite !andb_true_iff in Hok. destruct Hok as [[Hfresh%negb_true_iff _] _].
  pose proof (comment_fresh _ _ Hfresh) as Hf.
  set (c := mkCommentRow _ _) in *.
  assert (cr_thread c = thread) as Ec by (by destruct thread; simpl in *; subst).
  destruct (co_docs _ _ Hc _ _ Ht) as [Hid _].
  destruct (proj2 (co_blips _ _ Hc (lb_meta target))) as (Hin & Hbw & _); [rewrite Hid; eauto|].
  assert (db_sound (on_comments (λ t, t ++ [c]) db)) as Hd1.
  { apply (sound_add_comment db c (lb_meta target)); rewrite ?Ec; try done. by rewrite Hbw. }
  assert (coherent (on_comments (λ t, t ++ [c]) db)
            (set_comments (<[ct_id thread := thread]> (lw_comments l)) l)) as Hc1.
  { rewrite <- Ec. by apply coherent_add_comment; rewrite ?Ec. }
  apply (seeded_blip_inv _ _ _ _ Hd1 Hc1 H2 Hdel Hw Hdoc). intros k Hk. rewrite Hbc in Hk. injection Hk as <-.
  exists c. rewrite Ec. split_and!; [|done..]. apply elem_of_app. right. by apply list_elem_of_singleton.
Qed.

Lemma set_resolved_inv db l comment by_ at_ :
  db_sound db → coherent db l →
  db_sound (set_comment_resolved db comment by_ at_) ∧
  coherent (set_comment_resolved db comment by_ at_)
    (set_comments (alter (with_resolution by_ at_) comment (lw_comments l)) l).
Proof.
  intros [Kw Kl Kb Kc Rp Rc Ck Cd Rr Rb Lo] Hc. split.
  - constructor; simpl; try done.
    + by apply keyed_update.
    + intros c (c0 & Hc0 & ->)%elem_of_update. destruct (Rc c0 Hc0) as (b & Hb). exists b. by case_match.
    + intros b c Hb H1 H2. destruct (Rr b c Hb H1 H2) as (t & Ht & E1 & E2 & E3). eexists.
      split; [apply elem_of_update; exists t; split; [done|reflexivity]|]. by destruct (str_eqb _ _).
    + by apply (ops_ok_same db).
  - destruct Hc as [Cw Ckk Cl Cr Cb Cdd Cc Ct]. constructor; simpl; try done.
    + intros t. setoid_rewrite elem_of_update. split.
      * intros (c & (c0 & Hc0 & ->) & Hw & <-).
        destruct (str_eqb (ct_id (cr_thread c0)) comment) eqn:E; simpl in *;
          [apply bool_decide_eq_true in E|apply bool_decide_eq_false in E].
        -- subst comment. rewrite lookup_alter_eq.
           assert (lw_comments l !! ct_id (cr_thread c0) = Some (cr_thread c0)) as -> by (apply Cc; eauto). done.
        -- rewrite lookup_alter_ne by done. apply Cc. eauto.
      * intros Hl. destruct (decide (ct_id t = comment)) as [E|E].
        -- rewrite E, lookup_alter_eq in Hl. apply fmap_Some in Hl as (t0 & Ht0 & ->).
           pose proof (Ct _ _ Ht0) as Hid. rewrite <- Hid in Ht0. apply Cc in Ht0 as (c & Hc & Hw & <-).
           eexists. split; [exists c; split; [done|reflexivity]|]. unfold str_eqb.
           rewrite bool_decide_eq_true_2 by done. done.
        -- rewrite lookup_alter_ne in Hl by done. apply Cc in Hl as (c & Hc & Hw & <-).
           exists c. split; [|done]. exists c. split; [done|]. unfold str_eqb.
           by rewrite bool_decide_eq_false_2 by done.
    + intros id t Hl. destruct (decide (id = comment)) as [->|E].
      * rewrite lookup_alter_eq in Hl. apply fmap_Some in Hl as (t0 & Ht0 & ->). by apply Ct in Ht0.
      * rewrite lookup_alter_ne in Hl by done. by apply Ct.
Qed.

(** ** Deleting a blip with the threads on it *)

Lemma mark_deleted_spec p b :
  (if (p : bool) then mark_deleted b else b) =
  mkBlip (blip_id b) (blip_wavelet_id b) (blip_wave_id b) (blip_parent b) (blip_comment b) (blip_seq b)
    (blip_author b) (blip_contributors b) (blip_created_at b) (blip_last_modified b) (blip_content b)
    (blip_revision b) (p || blip_deleted b).
Proof. destruct b. by destruct p. Qed.

(** What the statement sequence amounts to on blips and comments. *)
Lemma delete_blip_effect db blip :
  ∃ f, delete_blip db blip =
    on_search f (on_comments (delete_where (λ c, str_eqb (ct_blip_id (cr_thread c)) blip))
      (on_blips (λ t, update_where (λ b, str_eqb (blip_id b) blip) mark_deleted
                        (update_where (is_remark db blip) mark_deleted t)) db)).
Proof.
  exists (λ _, db_search (delete_blip db blip)). unfold delete_blip. cbv zeta.
  destruct (find_row _ _); reflexivity.
Qed.

Lemma elem_of_marked db blip b :
  b ∈ update_where (λ b, str_eqb (blip_id b) blip) mark_deleted (update_where (is_remark db blip) mark_deleted (db_blips db))
  ↔ ∃ b0, b0 ∈ db_blips db ∧ b = (if str_eqb (blip_id b0) blip || is_remark db blip b0 then mark_deleted b0 else b0).
Proof.
  rewrite elem_of_update. setoid_rewrite elem_of_update. split.
  - intros (b1 & (b0 & Hb0 & ->) & ->). exists b0. split; [done|].
    destruct (is_remark db blip b0), (str_eqb (blip_id b0) blip) eqn:E; simpl; rewrite ?E; done.
  - intros (b0 & Hb0 & ->). eexists. split; [eexists; split; [done|reflexivity]|].
    destruct (is_remark db blip b0), (str_eqb (blip_id b0) blip) eqn:E; simpl; rewrite ?E; done.
Qed.

Lemma sound_delete_blip db blip : db_sound db → db_sound (delete_blip db blip).
Proof.
  intros [Kw Kl Kb Kc Rp Rc Ck Cd Rr Rb Lo]. destruct (delete_blip_effect db blip) as [f ->]. constructor; simpl; try done.
  - by apply keyed_update; [|apply keyed_update].
  - by apply keyed_delete.
  - intros c [Hc _]%elem_of_delete. destruct (Rc c Hc) as (b & Hb & E1 & E2 & E3). setoid_rewrite elem_of_marked.
    eexists. split; [exists b; split; [done|reflexivity]|]. by destruct (_ || _).
  - intros b (b0 & Hb0 & ->)%elem_of_marked. destruct (_ || _); by apply (Cd b0).
  - intros b c (b0 & Hb0 & ->)%elem_of_marked. destruct (str_eqb _ _ || is_remark db blip b0) eqn:E; [done|].
    intros H1 H2. destruct (Rr b0 c Hb0 H1 H2) as (t & Ht & E1 & E2). exists t. split; [|done].
    apply elem_of_delete. split; [done|]. apply orb_false_iff in E as [_ E]. unfold is_remark in E. rewrite H2 in E.
    apply bool_decide_eq_false in E. unfold str_eqb. apply bool_decide_eq_false. intros Eb. destruct E.
    unfold threads_on. apply list_elem_of_fmap. exists t. split; [done|]. apply elem_of_select.
    split; [done|by apply bool_decide_eq_true].
  - intros b (b0 & Hb0 & ->)%elem_of_marked. destruct (_ || _); by apply (Rb b0).
  - apply (ops_ok_same (on_blips (update_where (λ b, str_eqb (blip_id b) blip) mark_deleted)
      (on_blips (update_where (is_remark db blip) mark_deleted) db))); [done|done|].
    by apply ops_ok_blips, ops_ok_blips.
Qed.

Lemma remark_agrees db l blip b :
  db_sound db → coherent db l → (∃ id lb, lw_blips l !! id = Some lb ∧ blip_id (lb_meta lb) = blip) →
  blip_wave_id b = wave_id (lw_wave l) →
  is_remark db blip b = match blip_comment b with Some c => bool_decide (c ∈ live_threads_on l blip) | None => false end.
Proof.
  intros Hd Hc (id & lb & Hlb & Hid) Hw. unfold is_remark. destruct (blip_comment b) as [c|]; [|done].
  apply bool_decide_ext. unfold threads_on, live_threads_on. rewrite !list_elem_of_fmap.
  setoid_rewrite elem_of_select. setoid_rewrite list_elem_of_filter. setoid_rewrite elem_of_values. split.
  - intros (x & -> & Hx & Hxb%bool_decide_eq_true). exists (cr_thread x). split; [done|]. split; [done|].
    exists (ct_id (cr_thread x)). apply (co_comments _ _ Hc). exists x. split_and!; try done.
    destruct (ref_comments _ Hd x Hx) as (t & Ht & E1 & E2 & _). rewrite <- E2.
    destruct (co_docs _ _ Hc _ _ Hlb) as [Hid' _].
    destruct (proj2 (co_blips _ _ Hc (lb_meta lb))) as (Hin & Hbw & _); [rewrite Hid'; eauto|].
    rewrite (keyed_eq _ _ t (lb_meta lb) (key_blips _ Hd)); [done..|]. congruence.
  - intros (t & -> & Ht & k & Hk). pose proof (co_threads _ _ Hc _ _ Hk) as Hid'. subst k.
    apply (co_comments _ _ Hc) in Hk as (x & Hx & _ & <-). exists x. split_and!; [done..|].
    by apply bool_decide_eq_true.
Qed.

Lemma lookup_foldr_delete {A} (m : gmap str A) ks k :
  foldr delete m ks !! k = if bool_decide (k ∈ ks) then None else m !! k.
Proof.
  induction ks as [|x ks IH]; simpl; [done|]. destruct (decide (k = x)) as [->|].
  - rewrite lookup_delete_eq. by rewrite bool_decide_eq_true_2 by by left.
  - rewrite lookup_delete_ne, IH by done. repeat case_bool_decide; set_solver.
Qed.

Lemma delete_blip_inv db l blip lb :
  db_sound db → coherent db l → lw_blips l !! blip = Some lb →
  db_sound (delete_blip db blip) ∧
  coherent (delete_blip db blip)
    (set_comments (foldr delete (lw_comments l) (live_threads_on l blip))
      (set_blips (foldr delete (delete blip (lw_blips l)) (live_remarks l (live_threads_on l blip))) l)).
Proof.
  intros Hd Hc Hlb. split; [by apply sound_delete_blip|].
  pose proof (co_docs _ _ Hc _ _ Hlb) as [Hid _].
  assert (∀ b, blip_wave_id b = wave_id (lw_wave l) → is_remark db blip b =
    match blip_comment b with Some c => bool_decide (c ∈ live_threads_on l blip) | None => false end) as Hrem.
  { intros b. apply remark_agrees; eauto. }
  assert (∀ id x, lw_blips l !! id = Some x →
    id ∈ live_remarks l (live_threads_on l blip) ↔ is_remark db blip (lb_meta x) = true) as Hlive.
  { intros id x Hx. pose proof (co_docs _ _ Hc _ _ Hx) as [Hxid _].
    destruct (proj2 (co_blips _ _ Hc (lb_meta x))) as (Hin & Hbw & _); [rewrite Hxid; eauto|].
    rewrite Hrem by done. unfold live_remarks. rewrite list_elem_of_fmap. setoid_rewrite list_elem_of_filter.
    setoid_rewrite elem_of_values. change (remark_of (live_threads_on l blip) x = true) with
      (match blip_comment (lb_meta x) with Some c => bool_decide (c ∈ live_threads_on l blip) | None => false end = true).
    split.
    - intros (y & Hy & Hr & k & Hk). pose proof (co_docs _ _ Hc _ _ Hk) as [Hkid _].
      assert (k = id) as -> by congruence. assert (y = x) as -> by congruence. done.
    - intros Hr. exists x. split; [done|]. split; [done|]. eauto. }
  destruct (delete_blip_effect db blip) as [f ->].
  destruct Hc as [Cw Ck Cl Cr Cb Cd Cc Ct]. constructor; simpl; try done.
  - intros b. rewrite elem_of_marked. rewrite lookup_foldr_delete. split.
    + intros ((b0 & Hb0 & ->) & Hw & Hdel). destruct (str_eqb (blip_id b0) blip || is_remark db blip b0) eqn:E; [done|].
      apply orb_false_iff in E as [E1%bool_decide_eq_false E2].
      destruct (proj1 (Cb b0)) as (x & Hx & Hm); [done|]. rewrite bool_decide_eq_false_2.
      * rewrite lookup_delete_ne by done. eauto.
      * rewrite (Hlive _ _ Hx), Hm. congruence.
    + intros (x & Hx & Hm). case_bool_decide as Hn; [done|].
      apply lookup_delete_Some in Hx as [Hne Hx]. destruct (proj2 (Cb b)) as (Hb & Hw & Hdel); [eauto|].
      split; [|done]. exists b. split; [done|].
      unfold str_eqb. rewrite bool_decide_eq_false_2 by done. simpl.
      destruct (is_remark db blip b) eqn:E; [|done]. destruct Hn. apply (Hlive _ _ Hx). by rewrite Hm.
  - intros id x. rewrite lookup_foldr_delete. case_bool_decide; [done|]. intros [_ Hx]%lookup_delete_Some. by apply Cd.
  - intros t. setoid_rewrite elem_of_delete. rewrite lookup_foldr_delete.
    assert (∀ t, lw_comments l !! ct_id t = Some t → ct_id t ∈ live_threads_on l blip ↔ ct_blip_id t = blip) as Hth.
    { intros u Hu. unfold live_threads_on. rewrite list_elem_of_fmap. setoid_rewrite list_elem_of_filter.
      setoid_rewrite elem_of_values. split.
      - intros (v & E & Hv & k & Hk). pose proof (Ct _ _ Hk). subst k. congruence.
      - intros E. exists u. eauto. }
    split.
    + intros (c & [Hcin E%bool_decide_eq_false] & Hw & <-).
      assert (lw_comments l !! ct_id (cr_thread c) = Some (cr_thread c)) as Hl by (apply Cc; eauto).
      rewrite bool_decide_eq_false_2; [done|]. by rewrite Hth.
    + case_bool_decide as E; [done|]. intros Hl. pose proof Hl as (c & Hcin & Hw & <-)%Cc.
      exists c. split; [|done]. split; [done|]. apply bool_decide_eq_false. by rewrite <- Hth.
  - intros id t. rewrite lookup_foldr_delete. case_bool_decide; [done|]. by apply Ct.
Qed.

End lemmas.
