(* ===== verification/CoherenceMembers.v ===== *)
(** * Memory and storage agree: modes, titles and membership *)

From S2P Require Import Prelude Tables Strings Unicode Json Attributes Text Delta Model Protocol ServerDoc.
From S2P Require Import Content LiveWave LiveWaveTheory Storage OpLog Queries Effects Critical Handlers Coherence CoherenceLemmas.

Section members.
Context `{J : Json} `{W : World}.
Implicit Types db : Db.
Implicit Types l : LiveWave.

(** ** Mode and title *)

Lemma set_mode_inv db l mode :
  db_sound db → coherent db l →
  db_sound (set_mode db (wave_id (lw_wave l)) mode) ∧
  coherent (set_mode db (wave_id (lw_wave l)) mode)
    (set_wave (mkWave (wave_id (lw_wave l)) (wave_creator (lw_wave l)) (wave_created_at (lw_wave l)) mode) l).
Proof.
  intros [Kw Kl Kb Kc Rp Rc Ck Cd Rr Rb Lo] [Cw Cky Cl Cr Cb Cdd Cc Ct]. split; constructor; simpl; try done.
  - by apply keyed_update.
  - by apply (ops_ok_same db).
  - destruct Cw as (r & Hr & E1 & E2 & E3 & E4). exists (with_mode mode r). split_and!; try done.
    apply elem_of_update. exists r. split; [done|]. unfold str_eqb. by rewrite bool_decide_eq_true_2.
Qed.

Lemma set_title_inv db l wavelet ts title :
  db_sound db → coherent db l →
  db_sound (set_title db ts wavelet title) ∧ coherent (set_title db ts wavelet title) (wavelet_mut wavelet (retitle title) l).
Proof.
  intros Hd Hc. split; [by apply sound_wavelets|]. rewrite wavelet_mut_where by apply Hc.
  apply coherent_wavelets; try done. intros w r (E1 & E2 & E3 & E4 & E5 & E6). rewrite <- E1.
  by destruct (str_eqb _ _).
Qed.

(** ** Members *)

Lemma is_wavelet_participant_spec db u w :
  is_wavelet_participant db u w = true ↔ ∃ p, p ∈ db_participants db ∧ pr_wavelet_id p = w ∧ pr_user_id p = u.
Proof.
  unfold is_wavelet_participant. rewrite exists_row_spec. setoid_rewrite andb_true_iff.
  unfold str_eqb. setoid_rewrite bool_decide_eq_true. naive_solver.
Qed.

(** A change of membership made to the rows and to the resident wavelets alike. *)
Lemma coherent_members db l (f : list ParticipantRow → list ParticipantRow) (q : Wavelet → bool) (g : Wavelet → Wavelet) :
  (∀ w, wl_id (g w) = wl_id w ∧ wl_wave_id (g w) = wl_wave_id w ∧ wl_kind (g w) = wl_kind w ∧
        wl_title (g w) = wl_title w ∧ wl_anchor_blip (g w) = wl_anchor_blip w) →
  (∀ w u, w ∈ lw_wavelets l →
     u ∈ wl_participants (if q w then g w else w) ↔ is_wavelet_participant (on_participants f db) u (wl_id w) = true) →
  coherent db l → coherent (on_participants f db) (set_wavelets (update_where q g (lw_wavelets l)) l).
Proof.
  intros Hg Hm [Cw Ck Cl Cr Cb Cd Cc Ct].
  assert (∀ w r, w ∈ lw_wavelets l → agrees db w r → agrees (on_participants f db) (if q w then g w else w) r) as Ha.
  { intros w r Hw (E1 & E2 & E3 & E4 & E5 & _). destruct (Hg w) as (G1 & G2 & G3 & G4 & G5).
    assert (wl_id (if q w then g w else w) = wl_id w) as Eid by by destruct (q w).
    split_and!; [..|intros u; rewrite Eid; by apply Hm]; destruct (q w); congruence. }
  constructor; simpl; try done.
  - apply keyed_update; [apply Hg|done].
  - intros w' (w & Hw & ->)%elem_of_update. destruct (Cl w Hw) as (r & Hr & Hag & E). exists r. split_and!; auto.
  - intros r Hr E. destruct (Cr r Hr E) as (w & Hw & Hag). exists (if q w then g w else w).
    split; [apply elem_of_update; eauto|by apply Ha].
Qed.

Lemma sound_participants db f :
  db_sound db → (∀ p, p ∈ f (db_participants db) → wavelet_exists db (pr_wavelet_id p) = true) →
  db_sound (on_participants f db).
Proof. intros [Kw Kl Kb Kc Rp Rc Ck Cd Rr Rb Lo] H. constructor; try done. by apply (ops_ok_same db). Qed.

Lemma insert_participant_inv db row db' :
  insert_participant db row = Ok db' →
  (is_wavelet_participant db (pr_user_id row) (pr_wavelet_id row) = true ∧ db' = db) ∨
  (wavelet_exists db (pr_wavelet_id row) = true ∧ db' = on_participants (λ t, t ++ [row]) db).
Proof.
  unfold insert_participant. destruct (exists_row _ _) eqn:E.
  - intros [= <-]. left. split; [|done]. exact E.
  - intros (t & [Hok ->]%insert_into_inv & [= <-])%bind_ok. apply andb_true_iff in Hok as [? _]. by right.
Qed.

Lemma participant_added db row u w :
  is_wavelet_participant (on_participants (λ t, t ++ [row]) db) u w = true ↔
  is_wavelet_participant db u w = true ∨ (pr_wavelet_id row = w ∧ pr_user_id row = u).
Proof.
  rewrite !is_wavelet_participant_spec. simpl. setoid_rewrite elem_of_app. setoid_rewrite list_elem_of_singleton.
  split; [|naive_solver]. intros (p & [Hp| ->] & E1 & E2); [left; eauto|by right].
Qed.

Lemma add_participant_inv db l ts wavelet user db' w0 :
  db_sound db → coherent db l → add_participant db ts wavelet user = Ok db' →
  w0 ∈ lw_wavelets l → wl_id w0 = wavelet → user ∉ wl_participants w0 →
  db_sound db' ∧ coherent db' (wavelet_mut wavelet (push_participant user) l).
Proof.
  intros Hd Hc [[Hp ->]|[Hw ->]]%insert_participant_inv Hw0 Hid Hu; simpl in *.
  { destruct Hu. destruct (co_wavelets _ _ Hc _ Hw0) as (r & _ & (_ & _ & _ & _ & _ & Hm) & _). apply Hm. by rewrite Hid. }
  split.
  - apply sound_participants; [done|]. intros p [Hp| ->%list_elem_of_singleton]%elem_of_app; [|done].
    by apply (ref_participants _ Hd).
  - rewrite wavelet_mut_where by apply Hc. apply coherent_members; [done| |done].
    intros w u Hin. rewrite participant_added. simpl.
    destruct (co_wavelets _ _ Hc _ Hin) as (r & _ & (_ & _ & _ & _ & _ & Hm) & _).
    unfold str_eqb. case_bool_decide as E; simpl; rewrite <- Hm; [|naive_solver].
    rewrite elem_of_app, list_elem_of_singleton. naive_solver.
Qed.

(** ** Leaving *)

Lemma participant_deleted db p u w :
  is_wavelet_participant (on_participants (delete_where p) db) u w = true ↔
  ∃ r, r ∈ db_participants db ∧ p r = false ∧ pr_wavelet_id r = w ∧ pr_user_id r = u.
Proof. rewrite is_wavelet_participant_spec. simpl. setoid_rewrite elem_of_delete. naive_solver. Qed.

(** Which memberships go when a user leaves a wavelet. *)
Definition leaves (db : Db) (wavelet : WaveletId) (user : UserId) (r : ParticipantRow) : bool :=
  str_eqb (pr_user_id r) user &&
  (str_eqb (pr_wavelet_id r) wavelet || bool_decide (pr_wavelet_id r ∈ private_children db wavelet)).

Lemma remove_participant_effect db wavelet user :
  remove_participant db wavelet user = on_participants (delete_where (leaves db wavelet user)) db.
Proof.
  unfold remove_participant. unfold on_participants. simpl. f_equal.
  unfold delete_where. rewrite list_filter_filter. apply list_filter_iff. intros r. unfold leaves.
  destruct (str_eqb (pr_user_id r) user), (str_eqb (pr_wavelet_id r) wavelet), (bool_decide _); simpl; naive_solver.
Qed.

Lemma private_children_spec db l wavelet w0 id :
  db_sound db → coherent db l → w0 ∈ lw_wavelets l → wl_id w0 = wavelet →
  id ∈ private_children db wavelet ↔
  wl_kind w0 = Conversation ∧ ∃ w, w ∈ lw_wavelets l ∧ wl_id w = id ∧ wl_kind w = PrivateReplyKind.
Proof.
  intros Hd Hc Hw0 Hid0. destruct (co_wavelets _ _ Hc _ Hw0) as (r0 & Hr0 & (A1 & A2 & A3 & _) & A4).
  unfold private_children. rewrite list_elem_of_bind. setoid_rewrite list_elem_of_bind.
  setoid_rewrite elem_of_select. split.
  - intros (child & (parent & Hin & Hp & Hwave%bool_decide_eq_true) & Hchild).
    destruct (_ && _ && _) eqn:E; [|by apply elem_of_nil in Hin]. apply list_elem_of_singleton in Hin as ->.
    rewrite !andb_true_iff in E. destruct E as [[E1%bool_decide_eq_true E2%bool_decide_eq_true] E3%bool_decide_eq_true].
    assert (parent = r0) as -> by (apply (keyed_eq _ _ _ _ (key_wavelets _ Hd)); [done..|congruence]).
    rewrite A3 in E2. split; [by destruct (wl_kind w0)|].
    destruct (co_rows _ _ Hc child) as (w & Hw & B1 & B2 & B3 & _); [done|congruence|].
    exists w. split_and!; [done..|]. rewrite B3 in E3. by destruct (wl_kind w).
  - intros (Hk & w & Hw & <- & Hkw). destruct (co_wavelets _ _ Hc _ Hw) as (r & Hr & (B1 & B2 & B3 & _) & B4).
    exists r. split; [|done]. exists r0. split_and!; [|done|apply bool_decide_eq_true; congruence].
    unfold str_eqb. rewrite A3, B3, Hk, Hkw, <- A1, <- B1, Hid0.
    rewrite !bool_decide_eq_true_2 by done. by apply list_elem_of_singleton.
Qed.

(** The resident wavelets a user is dropped from. *)
Definition left_by (w0 : Wavelet) (user : UserId) (w : Wavelet) : bool :=
  str_eqb (wl_id w) (wl_id w0) || bool_decide (wl_kind w0 = Conversation) && is_private_with user w.

Lemma drop_participant_idle user w : user ∉ wl_participants w → drop_participant user w = w.
Proof.
  intros H. destruct w. unfold drop_participant. simpl in *. f_equal. apply filter_all. intros x Hx ->. done.
Qed.

Lemma remove_participant_inv db l wavelet user w0 :
  db_sound db → coherent db l → w0 ∈ lw_wavelets l → wl_id w0 = wavelet →
  db_sound (remove_participant db wavelet user) ∧
  coherent (remove_participant db wavelet user)
    (set_wavelets (update_where (left_by w0 user) (drop_participant user) (lw_wavelets l)) l).
Proof.
  intros Hd Hc Hw0 Hid0. rewrite remove_participant_effect. split.
  { apply sound_participants; [done|]. intros p [Hp _]%elem_of_delete. by apply (ref_participants _ Hd). }
  apply coherent_members; [done| |done]. intros w u Hw.
  destruct (co_wavelets _ _ Hc _ Hw) as (r & _ & (_ & _ & _ & _ & _ & Hm) & _).
  rewrite participant_deleted.
  assert (u ∈ wl_participants w ↔ ∃ r, r ∈ db_participants db ∧ pr_wavelet_id r = wl_id w ∧ pr_user_id r = u) as Hm'.
  { by rewrite Hm, is_wavelet_participant_spec. }
  assert (∀ q, q ∈ db_participants db → pr_wavelet_id q = wl_id w → pr_user_id q = u →
    leaves db wavelet user q = bool_decide (u = user) && left_by w0 user w) as Hl.
  { intros q Hq Eq Eu. unfold leaves, left_by, str_eqb. rewrite Eq, Eu, Hid0. case_bool_decide as E; [|done]. simpl. f_equal.
    apply Bool.eq_true_iff_eq. rewrite bool_decide_eq_true, (private_children_spec db l wavelet w0) by done.
    unfold is_private_with. rewrite !andb_true_iff, !bool_decide_eq_true, has_participant_spec. split.
    - intros (Hk & w' & Hw' & Eid & Hk'). assert (w' = w) as -> by by apply (keyed_eq _ _ _ _ (co_keyed _ _ Hc)).
      split_and!; [done..|]. rewrite <- E. apply Hm'. eauto.
    - intros (Hk & Hk' & Hin). eauto. }
  split.
  - intros Hin. assert (u ∈ wl_participants w ∧ (u = user → left_by w0 user w = false)) as [Hin' Hne].
    { destruct (left_by w0 user w); simpl in Hin; [|done]. apply list_elem_of_filter in Hin as [? ?]. done. }
    apply Hm' in Hin' as (q & Hq & Eq & Eu). exists q. split_and!; [done| |done..].
    rewrite (Hl q) by done. case_bool_decide; [|done]. by rewrite Hne.
  - intros (q & Hq & Hkeep & Eq & Eu). rewrite (Hl q) in Hkeep by done.
    assert (u ∈ wl_participants w) as Hin by (apply Hm'; eauto).
    destruct (left_by w0 user w); [|done]. simpl. apply list_elem_of_filter. split; [|done].
    intros ->. rewrite bool_decide_eq_true_2 in Hkeep by done. done.
Qed.

(** ** A private reply: a new wavelet and its members *)

Lemma insert_participants_inv db wavelet users ts db' :
  insert_participants db wavelet users ts = Ok db' →
  (∃ f, db' = on_participants f db) ∧
  (∀ p, p ∈ db_participants db' → p ∈ db_participants db ∨ pr_wavelet_id p = wavelet) ∧
  (∀ u w, is_wavelet_participant db' u w = true ↔
     is_wavelet_participant db u w = true ∨ (w = wavelet ∧ u ∈ users)).
Proof.
  revert db. induction users as [|user users IH]; intros db; cbn [insert_participants].
  - intros [= <-]. split_and!; [exists (λ t, t); by destruct db|by left|set_solver].
  - intros (db1 & H1 & H2)%bind_ok. apply IH in H2 as ([f ->] & Hr & Hm).
    apply insert_participant_inv in H1 as [[Hp ->]|[_ ->]]; simpl in *.
    + split_and!; [by exists f|done|]. intros u w. rewrite Hm. set_solver.
    + split_and!; [by exists (λ t, f (t ++ [mkParticipant wavelet user ts]))| |].
      * intros p [[Hp| ->%list_elem_of_singleton]%elem_of_app| ]%Hr; auto.
      * intros u w. rewrite Hm, participant_added. simpl. set_solver.
Qed.

Lemma sound_insert_wavelet db w db' : db_sound db → insert_wavelet db w = Ok db' → db_sound db'.
Proof.
  unfold insert_wavelet. intros Hd (t & [Hok ->]%insert_into_inv & H)%bind_ok.
  apply andb_true_iff in Hok as [Hfresh%negb_true_iff _].
  assert (∀ r, r ∈ db_wavelets db → wlr_id r ≠ wl_id w) as Hf.
  { intros r Hr. unfold wavelet_exists in Hfresh. rewrite exists_row_false in Hfresh.
    by specialize (Hfresh r Hr); apply bool_decide_eq_false in Hfresh. }
  apply insert_participants_inv in H as ([f ->] & Hr & _).
  destruct Hd as [Kw Kl Kb Kc Rp Rc Ck Cd Rr Rb Lo]. constructor; simpl in *; try done.
  - by apply keyed_snoc.
  - intros p [Hp|E]%Hr; apply (wavelet_exists_snoc db); [right; by apply Rp|by left].
  - intros r [Hr'| ->%list_elem_of_singleton]%elem_of_app; [by apply Ck|by eexists].
  - intros b Hb. apply (wavelet_exists_snoc db). right. by apply Rb.
  - by apply (ops_ok_same db).
Qed.

Lemma insert_wavelet_inv db l w db' :
  db_sound db → coherent db l → insert_wavelet db w = Ok db' → wl_wave_id w = wave_id (lw_wave l) →
  db_sound db' ∧ coherent db' (set_wavelets (lw_wavelets l ++ [w]) l).
Proof.
  intros Hd Hc Hins Hw. split; [by eapply sound_insert_wavelet|]. revert Hins.
  unfold insert_wavelet. intros (t & [Hok ->]%insert_into_inv & H)%bind_ok.
  apply andb_true_iff in Hok as [Hfresh%negb_true_iff _].
  assert (∀ r, r ∈ db_wavelets db → wlr_id r ≠ wl_id w) as Hf.
  { intros r Hr. unfold wavelet_exists in Hfresh. rewrite exists_row_false in Hfresh.
    by specialize (Hfresh r Hr); apply bool_decide_eq_false in Hfresh. }
  assert (∀ u, is_wavelet_participant db u (wl_id w) = false) as Hn.
  { intros u. apply not_true_iff_false. rewrite is_wavelet_participant_spec. intros (p & Hp & E & _).
    pose proof (ref_participants _ Hd p Hp) as Hx. rewrite E in Hx. congruence. }
  apply insert_participants_inv in H as ([f ->] & Hr & Hm).
  assert (∀ u i, is_wavelet_participant db u i = true ↔
    is_wavelet_participant (on_wavelets (λ _, db_wavelets db ++ [mkWaveletRow (wl_id w) (wl_wave_id w) (kind_str (wl_kind w))
      (wl_title w) (wl_anchor_blip w) (wl_created_at w) (wl_last_modified w)]) db) u i = true) as Hsame by done.
  destruct Hc as [Cw Cky Cl Cr Cb Cdd Cc Ct]. constructor; simpl in *; try done.
  - apply keyed_snoc; [done|]. intros x Hx. destruct (Cl x Hx) as (r & Hr' & (E & _) & _). rewrite E. by apply Hf.
  - setoid_rewrite elem_of_app. intros x [Hx| ->%list_elem_of_singleton].
    + destruct (Cl x Hx) as (r & Hr' & (E1 & E2 & E3 & E4 & E5 & E6) & E). exists r. split_and!; auto.
      split_and!; try done. intros u. rewrite Hm, <- Hsame, E6. split; [by left|]. intros [?|[E' _]]; [done|].
      destruct (Hf r Hr'). congruence.
    + eexists. split; [right; by apply list_elem_of_singleton|]. split; [|done]. split_and!; try done.
      intros u. rewrite Hm, <- Hsame, Hn. naive_solver.
  - setoid_rewrite elem_of_app. intros r [Hr'| ->%list_elem_of_singleton] Er.
    + destruct (Cr r Hr' Er) as (x & Hx & (E1 & E2 & E3 & E4 & E5 & E6)). exists x. split; [by left|].
      split_and!; try done. intros u. rewrite Hm, <- Hsame, E6. split; [by left|]. intros [?|[E' _]]; [done|].
      destruct (Hf r Hr'). congruence.
    + exists w. split; [right; by apply list_elem_of_singleton|]. split_and!; try done.
      intros u. rewrite Hm, <- Hsame, Hn. naive_solver.
Qed.

End members.
