(* ===== verification/CoherenceFrame.v ===== *)
(** * A write to one wave leaves the other waves alone

    A resident wave that agreed with storage agrees with it after a write that left its rows alone
    ([same_wave]).  One lemma per write: made for one resident wave, it is [local] to it. *)

From S2P Require Import Prelude Tables Strings Unicode Json Attributes Text Delta Model Protocol ServerDoc.
From S2P Require Import Content LiveWave LiveWaveTheory Storage OpLog Queries Effects Critical Handlers Coherence.
From S2P Require Import CoherenceLemmas CoherenceMembers.

Section frame.
Context `{J : Json} `{W : World}.
Implicit Types db : Db.
Implicit Types l : LiveWave.

Lemma touched_self r : touched (wlr_last_modified r) r = r.
Proof. by destruct r. Qed.

Lemma kept_row r (t : list WaveletRow) : r ∈ t → ∃ ts, touched ts r ∈ t.
Proof. intros H. exists (wlr_last_modified r). by rewrite touched_self. Qed.

Lemma touched_twice r ts ts' : touched ts (touched ts' r) = touched ts r.
Proof. done. Qed.

(** What a resident wave agrees with is kept. *)
Lemma coherent_frame db db' l : same_wave (wave_id (lw_wave l)) db db' → coherent db l → coherent db' l.
Proof.
  intros [S1 S2 S3 S4 S5 S6] [Cw Ck Cl Cr Cb Cd Cc Ct].
  assert (∀ w r, agrees db w r → r ∈ db_wavelets db → wlr_wave_id r = wave_id (lw_wave l) → agrees db' w r) as Ha.
  { intros w r (E1 & E2 & E3 & E4 & E5 & E6) Hr Hw. split_and!; try done. intros u. by rewrite E6, E1, S4. }
  constructor; try done.
  - destruct Cw as (r & Hr & E & ?). exists r. split; [by apply S1|done].
  - intros w Hw. destruct (Cl w Hw) as (r & Hr & Hag & E). destruct (S2 r E Hr) as [ts Hts].
    exists (touched ts r). split; [done|]. split; [|done]. by apply (Ha w r).
  - intros r Hr E. destruct (S3 r E Hr) as [ts Hts]. destruct (Cr _ Hts E) as (w & Hw & Hag).
    exists w. split; [done|]. apply (Ha w (touched ts r)) in Hag; done.
  - intros b. rewrite <- Cb. specialize (S5 b). tauto.
  - intros t. rewrite <- Cc. split; intros (c & Hc & E & ?); exists c; (split; [by apply S6|done]).
Qed.

Lemma same_wave_refl w db : same_wave w db db.
Proof. constructor; intros; try done; by apply kept_row. Qed.

Lemma same_wave_trans w db1 db2 db3 : same_wave w db1 db2 → same_wave w db2 db3 → same_wave w db1 db3.
Proof.
  intros [S1 S2 S3 S4 S5 S6] [T1 T2 T3 T4 T5 T6]. constructor; intros.
  - by apply T1, S1.
  - destruct (S2 r) as [ts Hts]; [done..|]. destruct (T2 (touched ts r) H Hts) as [ts' Hts']. by exists ts'.
  - destruct (T3 r) as [ts Hts]; [done..|]. destruct (S3 (touched ts r) H Hts) as [ts' Hts']. by exists ts'.
  - destruct (S2 r) as [ts Hts]; [done..|]. rewrite <- (S4 r u) by done. by apply (T4 (touched ts r)).
  - by rewrite S5, T5.
  - by rewrite S6, T6.
Qed.

Lemma local_refl w db : local w db db.
Proof. intros w' _. apply same_wave_refl. Qed.

Lemma local_trans w db1 db2 db3 : local w db1 db2 → local w db2 db3 → local w db1 db3.
Proof. intros H1 H2 w' Hw. eapply same_wave_trans; eauto. Qed.

(** Tables that no resident wave is loaded from. *)
Lemma local_tables w db db' :
  db_waves db' = db_waves db → db_wavelets db' = db_wavelets db → db_participants db' = db_participants db →
  db_blips db' = db_blips db → db_comments db' = db_comments db → local w db db'.
Proof.
  intros E1 E2 E3 E4 E5 w' _. unfold is_wavelet_participant. constructor; rewrite ?E1, ?E2, ?E3, ?E4, ?E5; try done;
    intros; try by apply kept_row. unfold is_wavelet_participant. by rewrite E3.
Qed.

Lemma local_touch w db id ts : local w db (touch_wavelet_row id ts db).
Proof.
  intros w' _. constructor; simpl; try done.
  - intros r _ Hr. destruct (str_eqb (wlr_id r) id) eqn:E.
    + exists ts. apply elem_of_update. exists r. by rewrite E.
    + exists (wlr_last_modified r). rewrite touched_self. apply elem_of_update. exists r. by rewrite E.
  - intros r _ (r0 & Hr0 & ->)%elem_of_update. exists (wlr_last_modified r0).
    destruct (str_eqb _ _); simpl; by rewrite ?touched_twice, touched_self.
Qed.

Lemma local_add_blip db b : local (blip_wave_id b) db (on_blips (λ t, t ++ [b]) db).
Proof.
  intros w' Hw. constructor; simpl; try done; intros; try by apply kept_row.
  rewrite elem_of_app, list_elem_of_singleton. split; [by left|]. intros [?| ->]; done.
Qed.

Lemma local_insert_seeded db b db' : insert_seeded_blip db b = Ok db' → local (blip_wave_id b) db db'.
Proof.
  intros (f & g & rows & -> & _)%insert_seeded_blip_inv.
  apply local_trans with (on_blips (λ t, t ++ [undeleted b]) db); [apply (local_add_blip db (undeleted b))|].
  apply local_trans with (on_ops (λ t, t ++ rows) (on_blips (λ t, t ++ [undeleted b]) db)); [by apply local_tables|].
  eapply local_trans; [apply local_touch|by apply local_tables].
Qed.

Lemma local_insert_comment db row db' : insert_comment db row = Ok db' → local (cr_wave_id row) db db'.
Proof.
  unfold insert_comment. intros (t & [_ ->]%insert_into_inv & [= <-])%bind_ok w' Hw.
  constructor; simpl; try done; intros; try by apply kept_row.
  rewrite elem_of_app, list_elem_of_singleton. split; [by left|]. intros [?| ->]; done.
Qed.

Lemma local_create_comment db thread b db' w :
  create_comment db thread b = Ok db' → blip_wave_id b = w → local w db db'.
Proof.
  unfold create_comment. intros (db1 & H1 & H2)%bind_ok <-. apply local_insert_comment in H1.
  apply local_insert_seeded in H2. by eapply local_trans.
Qed.

(** A row of another wave has another key than a row of this one. *)
Lemma other_key {R} (key wave_of : R → str) (t : list R) r r' k w' :
  keyed key t → r ∈ t → r' ∈ t → key r = k → wave_of r' = w' → wave_of r ≠ w' → key r' ≠ k.
Proof. intros Hk H1 H2 E1 E2 Hne E. apply Hne. rewrite (keyed_eq _ _ r r' Hk); [done..|congruence]. Qed.

Lemma local_set_resolved db l comment by_ at_ t :
  db_sound db → coherent db l → lw_comments l !! comment = Some t →
  local (wave_id (lw_wave l)) db (set_comment_resolved db comment by_ at_).
Proof.
  intros Hd Hc Ht w' Hw. pose proof (co_threads _ _ Hc _ _ Ht) as Hid. subst comment.
  apply (co_comments _ _ Hc) in Ht as (c0 & Hc0 & Ew & <-).
  assert (∀ c, c ∈ db_comments db → cr_wave_id c = w' →
    str_eqb (ct_id (cr_thread c)) (ct_id (cr_thread c0)) = false) as Hne.
  { intros c Hcin E. apply bool_decide_eq_false.
    apply (other_key (λ c, ct_id (cr_thread c)) cr_wave_id _ c0 c _ w' (key_comments _ Hd)); congruence. }
  constructor; simpl; try done; intros; try by apply kept_row.
  rewrite elem_of_update. split.
  - intros Hcin. exists c. split; [done|]. by rewrite Hne.
  - intros (c1 & Hc1 & ->). assert (cr_wave_id c1 = w') as E1 by by destruct (str_eqb _ _). by rewrite Hne.
Qed.

Lemma local_set_mode db w mode : local w db (set_mode db w mode).
Proof.
  intros w' Hw. constructor; simpl; try done; intros; try by apply kept_row.
  apply elem_of_update. exists r. split; [done|]. unfold str_eqb. rewrite bool_decide_eq_false_2; [done|congruence].
Qed.

Lemma wavelet_row_here db l w0 :
  coherent db l → w0 ∈ lw_wavelets l →
  ∃ r, r ∈ db_wavelets db ∧ wlr_id r = wl_id w0 ∧ wlr_wave_id r = wave_id (lw_wave l).
Proof.
  intros Hc Hw. destruct (co_wavelets _ _ Hc _ Hw) as (r & Hr & (E & _) & Ew). exists r. by split_and!.
Qed.

Lemma other_wavelet db l w0 r w' :
  db_sound db → coherent db l → w0 ∈ lw_wavelets l → w' ≠ wave_id (lw_wave l) →
  r ∈ db_wavelets db → wlr_wave_id r = w' → wlr_id r ≠ wl_id w0.
Proof.
  intros Hd Hc Hw Hne Hr E. destruct (wavelet_row_here _ _ _ Hc Hw) as (r0 & Hr0 & E0 & Ew).
  apply (other_key wlr_id wlr_wave_id _ r0 r _ w' (key_wavelets _ Hd)); congruence.
Qed.

Lemma local_set_title db l ts w0 title :
  db_sound db → coherent db l → w0 ∈ lw_wavelets l →
  local (wave_id (lw_wave l)) db (set_title db ts (wl_id w0) title).
Proof.
  intros Hd Hc Hw w' Hne.
  assert (∀ r, r ∈ db_wavelets db → wlr_wave_id r = w' → str_eqb (wlr_id r) (wl_id w0) = false) as Ho.
  { intros r Hr E. apply bool_decide_eq_false. by eapply other_wavelet. }
  constructor; simpl; try done.
  - intros r E Hr. exists (wlr_last_modified r). rewrite touched_self. apply elem_of_update. exists r. by rewrite Ho.
  - intros r E (r0 & Hr0 & ->)%elem_of_update. assert (wlr_wave_id r0 = w') as E0 by by destruct (str_eqb _ _).
    rewrite Ho by done. by apply kept_row.
Qed.

(** A change of membership in wavelets of this wave only. *)
Lemma local_participants db w f :
  (∀ r u, r ∈ db_wavelets db → wlr_wave_id r ≠ w →
     is_wavelet_participant (on_participants f db) u (wlr_id r) = is_wavelet_participant db u (wlr_id r)) →
  local w db (on_participants f db).
Proof.
  intros H w' Hne. constructor; try done; intros; try by apply kept_row. apply H; [done|congruence].
Qed.

Lemma local_add_participant db l ts w0 user db' :
  db_sound db → coherent db l → w0 ∈ lw_wavelets l → add_participant db ts (wl_id w0) user = Ok db' →
  local (wave_id (lw_wave l)) db db'.
Proof.
  intros Hd Hc Hw [[_ ->]|[_ ->]]%insert_participant_inv; [apply local_refl|]. apply local_participants.
  intros r u Hr Hne. apply Bool.eq_true_iff_eq. rewrite participant_added. simpl.
  pose proof (other_wavelet _ _ _ r _ Hd Hc Hw Hne Hr eq_refl). naive_solver.
Qed.

Lemma local_remove_participant db l w0 user :
  db_sound db → coherent db l → w0 ∈ lw_wavelets l →
  local (wave_id (lw_wave l)) db (remove_participant db (wl_id w0) user).
Proof.
  intros Hd Hc Hw. rewrite remove_participant_effect. apply local_participants. intros r u Hr Hne.
  apply Bool.eq_true_iff_eq. rewrite participant_deleted, is_wavelet_participant_spec.
  split; intros (p & Hp & H); exists p; [tauto|]. split_and!; try tauto. destruct H as [E _].
  unfold leaves. apply andb_false_iff. right. apply orb_false_iff. unfold str_eqb. rewrite !bool_decide_eq_false.
  rewrite E, (private_children_spec db l _ w0) by done. split; [by eapply other_wavelet|].
  intros (_ & w & Hwin & E' & _). by eapply (other_wavelet _ _ w r).
Qed.

Lemma local_insert_wavelet db w db' :
  db_sound db → insert_wavelet db w = Ok db' → local (wl_wave_id w) db db'.
Proof.
  unfold insert_wavelet. intros Hd (t & [Hok ->]%insert_into_inv & H)%bind_ok w' Hne.
  apply andb_true_iff in Hok as [Hfresh%negb_true_iff _]. unfold wavelet_exists in Hfresh. rewrite exists_row_false in Hfresh.
  apply insert_participants_inv in H as ([f ->] & _ & Hm). simpl in Hm.
  constructor; simpl; try done.
  - intros r _ Hr. apply kept_row. apply elem_of_app. by left.
  - intros r E [Hr| ->%list_elem_of_singleton]%elem_of_app; [by apply kept_row|done].
  - intros r u Hr E. apply Bool.eq_true_iff_eq. rewrite Hm. simpl.
    specialize (Hfresh r Hr). apply bool_decide_eq_false in Hfresh. unfold is_wavelet_participant in *. simpl. naive_solver.
Qed.

Lemma blip_row_here db l id lb :
  coherent db l → lw_blips l !! id = Some lb →
  lb_meta lb ∈ db_blips db ∧ blip_id (lb_meta lb) = id ∧ blip_wave_id (lb_meta lb) = wave_id (lw_wave l).
Proof.
  intros Hc Hl. destruct (co_docs _ _ Hc _ _ Hl) as [E _].
  destruct (proj2 (co_blips _ _ Hc (lb_meta lb))) as (? & ? & _); [rewrite E; eauto|]. done.
Qed.

Lemma local_delete_blip db l blip lb :
  db_sound db → coherent db l → lw_blips l !! blip = Some lb →
  local (wave_id (lw_wave l)) db (delete_blip db blip).
Proof.
  intros Hd Hc Hl w' Hne. destruct (blip_row_here _ _ _ _ Hc Hl) as (Hin & Hid & Hbw).
  assert (∀ c, c ∈ db_comments db → ct_blip_id (cr_thread c) = blip → cr_wave_id c = wave_id (lw_wave l)) as Hth.
  { intros c Hcin E. destruct (ref_comments _ Hd c Hcin) as (b & Hb & E1 & E2 & _). rewrite <- E2, <- Hbw. f_equal.
    apply (keyed_eq _ _ _ _ (key_blips _ Hd)); [done..|congruence]. }
  assert (∀ b, b ∈ db_blips db → blip_wave_id b = w' → blip_deleted b = false →
    str_eqb (blip_id b) blip || is_remark db blip b = false) as Hkeep.
  { intros b Hb E Hdel. apply orb_false_iff. split.
    - apply bool_decide_eq_false.
      apply (other_key blip_id blip_wave_id _ (lb_meta lb) b _ w' (key_blips _ Hd)); congruence.
    - unfold is_remark. destruct (blip_comment b) as [c|] eqn:Ec; [|done]. apply bool_decide_eq_false.
      unfold threads_on. rewrite list_elem_of_fmap. setoid_rewrite elem_of_select.
      intros (t & -> & Ht & Etb%bool_decide_eq_true). destruct (ref_remarks _ Hd b _ Hb Hdel Ec) as (t' & Ht' & E1 & E2 & _).
      assert (t' = t) as -> by (apply (keyed_eq _ _ _ _ (key_comments _ Hd)); done).
      rewrite (Hth t Ht Etb) in E2. congruence. }
  destruct (delete_blip_effect db blip) as [f ->].
  constructor; simpl; try done; intros; try by apply kept_row.
  - rewrite elem_of_marked. split.
    + intros Hb. exists b. split; [done|]. by rewrite Hkeep.
    + intros (b0 & Hb0 & ->). destruct (_ || _) eqn:E; done.
  - rewrite elem_of_delete. split; [|tauto]. intros Hcin. split; [done|]. apply bool_decide_eq_false.
    intros E. rewrite (Hth c Hcin E) in H. congruence.
Qed.

Lemma local_commit_op db l id lb b delta author ts op_id db' :
  db_sound db → coherent db l → lw_blips l !! id = Some lb → blip_id b = id →
  commit_op db b delta author ts op_id = Ok db' → local (wave_id (lw_wave l)) db db'.
Proof.
  intros Hd Hc Hl Hb (db1 & H1 & H2)%bind_ok. apply insert_op_inv in H1 as ->.
  apply index_blip_inv in H2 as (f & g & ->).
  destruct (blip_row_here _ _ _ _ Hc Hl) as (Hin & Hid & Hbw).
  eapply local_trans; [|eapply local_trans; [apply local_touch|by apply local_tables]].
  intros w' Hne. constructor; simpl; try done; intros; try by apply kept_row.
  assert (∀ r, r ∈ db_blips db → blip_wave_id r = w' → str_eqb (blip_id r) (blip_id b) = false) as Hkeep.
  { intros r Hr E. apply bool_decide_eq_false.
    apply (other_key blip_id blip_wave_id _ (lb_meta lb) r _ w' (key_blips _ Hd)); congruence. }
  rewrite elem_of_update. split; [intros Hr; exists b0; split; [done|]; by rewrite Hkeep|].
  intros (r & Hr & E). assert (blip_wave_id r = w') as Ew by (subst b0; by destruct (str_eqb _ _)).
  rewrite Hkeep in E by done. congruence.
Qed.

(** A step that keeps memory and storage in agreement and writes about its own wave only. *)
Lemma inv_write db0 w0 s s' :
  inv db0 w0 s → db_sound (c_db s') ∧ coherent (c_db s') (c_live s') →
  who (c_live s') = who (c_live s) →
  local (wave_id (lw_wave (c_live s))) (c_db s) (c_db s') → inv db0 w0 s'.
Proof.
  intros (Hd & Hc & Hw & Hl) [Hd' Hc'] E H. split_and!; [done..|congruence|].
  injection Hw as Hw _. rewrite Hw in H. by eapply local_trans.
Qed.

Lemma inv_start w0 s :
  db_sound (c_db s) → coherent (c_db s) (c_live s) → who (c_live s) = (w0, false) → inv (c_db s) w0 s.
Proof. intros Hd Hc Hw. split_and!; [done..|apply local_refl]. Qed.

End frame.
