(* ===== verification/CoherenceHandlers.v ===== *)
(** * Memory and storage agree after every command

    One lemma per critical section of [Handlers.v]: from agreeing memory and storage, whatever the
    outcome, storage failures included, they agree again, and nothing was written about other waves. *)

From S2P Require Import Prelude Tables Strings Unicode Json Attributes Text Delta Model Protocol ServerDoc.
From S2P Require Import ServerDocTheory Content DocBounds LiveWave Storage OpLog Queries Effects Critical Handlers Coherence CoherenceLemmas.
From S2P Require Import CoherenceMembers CoherenceFrame.

Section handlers.
Context `{J : Json} `{W : World}.
Implicit Types db : Db.
Implicit Types l : LiveWave.
Implicit Types s : Crit.
Context (db0 : Db) (here : WaveId).

#[local] Abbreviation inv := (Coherence.inv db0 here).
#[local] Abbreviation preserves := (Coherence.preserves db0 here).

(** ** New blips *)

(** A seed as a client encodes it: a canonical document without null attributes. *)
Definition wire_seed (content : option Delta) : Prop := ∀ d, content = Some d → good_doc d.

Lemma seed_content_good c d : wire_seed c → seed_content c = Ok (Some d) → good_text d.
Proof. rewrite seed_content_some. intros Hw (-> & _ & _ & Hl & _). apply good_text_total; [by apply Hw|done]. Qed.

Lemma prepare_blip_facts uuid ts l user wavelet parent content b :
  wire_seed content → prepare_blip uuid ts l user wavelet parent content = Ok b →
  blip_deleted b = false ∧ blip_wave_id b = wave_id (lw_wave l) ∧ seed_shape b ∧
  blip_wavelet_id b = wavelet ∧ blip_comment b = None.
Proof.
  intros Hw. unfold prepare_blip. destruct (may_access _ _ _); simpl; [|done].
  intros (? & _ & H)%bind_ok. destruct (negb _); [done|].
  apply bind_ok in H as (c & Hc & [= <-]). destruct c as [c|]; simpl; split_and!; try done;
    [right; split; [done|by eapply seed_content_good]|by left].
Qed.

(** Store a seeded blip, admit it, tell the watchers. *)
Lemma wp_publish b Q s :
  (∀ subs out, Q (Ok tt) (with_wave_out (set_subscribers subs
     (wavelet_mut (blip_wavelet_id b) (touch_wavelet (blip_last_modified b))
        (set_blips (<[blip_id b := live_blip_new b]> (lw_blips (c_live s))) (c_live s)))) out s)) →
  wp (cm_publish b) Q s.
Proof.
  unfold wp, cm_publish, publish_blip. intros H.
  destruct (broadcast_live (wavelet_mut (blip_wavelet_id b) (touch_wavelet (blip_last_modified b))
        (set_blips (<[blip_id b := live_blip_new b]> (lw_blips (c_live s))) (c_live s))) (c_out s)
        (blip_wavelet_id b) None (BlipAdded (blip_wave_id b) (blip_view b ∅))) as [subs E].
  destruct (broadcast _ _ _ _ _) as [l out]. simpl in *. by subst l.
Qed.

Lemma wp_admit b Q s :
  Q (Ok tt) (with_live (wavelet_mut (blip_wavelet_id b) (touch_wavelet (blip_last_modified b))
     (set_blips (<[blip_id b := live_blip_new b]> (lw_blips (c_live s))) (c_live s))) s) →
  wp (admit_blip b) Q s.
Proof. done. Qed.

Lemma create_blip_inv s user wave wavelet parent content :
  inv s → wire_seed content → inv (create_blip_locked user wave wavelet parent content s).2.
Proof.
  intros Hi Hcont. change (wp (create_blip_locked user wave wavelet parent content) (λ _ s', inv s') s).
  unfold create_blip_locked. repeat wp_step.
  destruct (prepare_blip _ _ _ _ _ _ _) as [b|e] eqn:Hb; [|done].
  apply prepare_blip_facts in Hb as (H1 & H2 & H3 & _ & H4%(anchored_none (c_db s))); [|done].
  repeat wp_step. apply wp_db_write; [|done]. intros db Hdb. cbv beta iota. simpl in *.
  pose proof Hi as (Hd & Hc & _).
  destruct (seeded_blip_inv _ _ _ _ Hd Hc Hdb H1 H2 H3 H4) as [Hd' Hc'].
  wp_step. apply wp_publish. intros subs out. cbv beta iota. apply preserves_schedule.
  apply (inv_write _ _ s); [done| |done|rewrite <- H2; by apply local_insert_seeded].
  split; [done|]. simpl. by apply coherent_subs, coherent_touch_live.
Qed.

(** From here on nothing but delivery happens. *)
Lemma wp_rest {T} (m : CM T) s : preserves m → inv s → wp m (λ _ s', inv s') s.
Proof. intros H. apply H. Qed.

Lemma wp_check (ok : bool) refusal (k : () → CM ()) s :
  inv s → (ok = true → wp (k tt) (λ _ s', inv s') s) → wp (cm_bind (guard ok refusal) k) (λ _ s', inv s') s.
Proof. intros Hs Hk. apply wp_bind, wp_guard; [done|by intros]. Qed.

Lemma wp_lift_check (r : result unit ServerMessage) (k : () → CM ()) s :
  inv s → wp (k tt) (λ _ s', inv s') s → wp (cm_bind (lift r) k) (λ _ s', inv s') s.
Proof. intros Hs Hk. apply wp_bind, wp_lift. by destruct r as [[]|e]. Qed.

Lemma seeded_facts content b :
  (∀ d, content = Some d → good_text d) → blip_content b = [] ∧ blip_revision b = 0%N → blip_deleted b = false →
  blip_deleted (seeded content b) = false ∧ blip_wave_id (seeded content b) = blip_wave_id b ∧
  seed_shape (seeded content b) ∧ blip_comment (seeded content b) = blip_comment b ∧
  blip_wavelet_id (seeded content b) = blip_wavelet_id b.
Proof.
  intros H [E1 E2] E3. destruct content as [d|]; simpl; split_and!; try done; [right; auto|by left].
Qed.

(** A reply to a thread of the resident wave has its thread in storage. *)
Lemma anchored_reply db l comment t b :
  coherent db l → lw_comments l !! comment = Some t → blip_comment b = Some comment →
  blip_wave_id b = wave_id (lw_wave l) → blip_wavelet_id b = ct_wavelet_id t → anchored db b.
Proof.
  intros Hc Ht Hb Hw Hwl c Hk. rewrite Hb in Hk. injection Hk as <-. pose proof (co_threads _ _ Hc _ _ Ht) as E.
  rewrite <- E in Ht. apply (co_comments _ _ Hc) in Ht as (r & Hr & Ew & <-). exists r. by rewrite Hw.
Qed.

Lemma create_comment_inv' s user wave wavelet target comment content :
  inv s → wave = wave_id (lw_wave (c_live s)) → (∀ d, content = Some d → good_text d) →
  inv (create_comment_locked user wave wavelet target comment content s).2.
Proof.
  intros Hi -> Hcont. change (wp (create_comment_locked user (wave_id (lw_wave (c_live s))) wavelet target comment content)
    (λ _ s', inv s') s). unfold create_comment_locked, guard_access. do 2 wp_step.
  apply wp_check; [done|intros _]. apply wp_lift_check; [done|]. apply wp_check; [done|intros _].
  destruct (lw_blips _ !! target) as [b|] eqn:Hb; [|done].
  apply wp_check; [done|intros Hbw%str_eqb_spec]. apply wp_check; [done|intros _]. repeat wp_step. apply wp_db_write; [|done].
  intros db Hdb. cbv beta iota. simpl in Hdb. pose proof Hi as (Hd & Hc & _). simpl in *.
  match type of Hdb with create_comment _ _ (seeded content ?x) = _ =>
    destruct (seeded_facts content x) as (H1 & H2 & H3 & H4 & H5) end; [done..|].
  destruct (create_comment_inv _ _ _ _ _ b Hd Hc Hdb H1 H2 H3 H4) as [Hd' Hc']; [done..|].
  do 3 wp_step. apply wp_admit. cbv beta iota. apply wp_rest; [auto with preserves|].
  apply (inv_write _ _ s); [done|split; [done|]; simpl in *; by apply coherent_touch_live|done|].
  eapply local_create_comment; [exact Hdb|done].
Qed.

Lemma reply_to_comment_inv s user wave comment content :
  inv s → wave = wave_id (lw_wave (c_live s)) → (∀ d, content = Some d → good_text d) →
  inv (reply_to_comment_locked user wave comment content s).2.
Proof.
  intros Hi -> Hcont. change (wp (reply_to_comment_locked user (wave_id (lw_wave (c_live s))) comment content)
    (λ _ s', inv s') s). unfold reply_to_comment_locked, guard_access. do 2 wp_step.
  destruct (lw_comments _ !! comment) as [thread|] eqn:Ht; [|done].
  apply wp_check; [done|intros _]. apply wp_lift_check; [done|]. apply wp_check; [done|intros _].
  repeat wp_step. apply wp_db_write; [|done].
  intros db Hdb. cbv beta iota. simpl in Hdb. pose proof Hi as (Hd & Hc & _). simpl in *.
  match type of Hdb with create_blip _ (seeded content ?x) = _ =>
    destruct (seeded_facts content x) as (H1 & H2 & H3 & H4 & H5) end; [done..|].
  destruct (seeded_blip_inv _ _ _ _ Hd Hc Hdb H1 H2 H3) as [Hd' Hc']; [by eapply anchored_reply|].
  wp_step. apply wp_admit. cbv beta iota. apply wp_rest; [auto with preserves|].
  apply (inv_write _ _ s); [done|split; [done|]; simpl in *; by apply coherent_touch_live|done|].
  rewrite <- H2 at 1. by apply local_insert_seeded.
Qed.

Lemma resolve_comment_inv s user wave comment resolved :
  inv s → inv (resolve_comment_locked user wave comment resolved s).2.
Proof.
  intros Hi. change (wp (resolve_comment_locked user wave comment resolved) (λ _ s', inv s') s).
  unfold resolve_comment_locked, guard_access. do 2 wp_step.
  destruct (lw_comments _ !! comment) as [thread|] eqn:Ht; [|done].
  apply wp_check; [done|intros _]. apply wp_lift_check; [done|]. destruct (Bool.eqb _ _); [done|].
  assert (∀ by_ at_ s', inv s' → c_live s' = c_live s → wp (db_write (λ db, Ok (set_comment_resolved db comment by_ at_)) ;!
    put_live (set_comments (alter (with_resolution by_ at_) comment (lw_comments (c_live s))) (c_live s)) ;!
    cm_broadcast (ct_wavelet_id thread) None (CommentResolved wave comment by_ at_)) (λ _ s', inv s') s') as H.
  { intros by_ at_ s' Hi' El. wp_step. apply wp_db_write; [|done]. intros db [= <-]. do 2 wp_step.
    apply wp_rest; [auto with preserves|]. pose proof Hi' as (Hd & Hc & _). rewrite El in Hc.
    apply (inv_write _ _ s'); [done|by apply set_resolved_inv|simpl; by rewrite El|].
    rewrite El. by eapply local_set_resolved. }
  destruct resolved; [do 4 wp_step|do 2 wp_step]; by apply H.
Qed.

Lemma delete_blip_locked_inv s user wave blip : inv s → inv (delete_blip_locked user wave blip s).2.
Proof.
  intros Hi. change (wp (delete_blip_locked user wave blip) (λ _ s', inv s') s).
  unfold delete_blip_locked, guard_access. do 2 wp_step. destruct (lw_blips _ !! blip) as [b|] eqn:Hb; [|done].
  do 3 (apply wp_check; [done|intros _]). apply wp_lift_check; [done|]. apply wp_check; [done|intros _].
  wp_step. apply wp_db_write; [|done]. intros db [= <-]. do 2 wp_step. apply wp_rest; [auto 6 with preserves|].
  pose proof Hi as (Hd & Hc & _).
  apply (inv_write _ _ s); [done|by eapply delete_blip_inv|done|by eapply local_delete_blip].
Qed.

Lemma wavelet_found l id w : LiveWave.wavelet l id = Some w → w ∈ lw_wavelets l ∧ wl_id w = id.
Proof.
  unfold LiveWave.wavelet, find_list. destruct (list_find _ _) as [[i x]|] eqn:E; [|done]. intros [= <-].
  apply list_find_Some in E as (Hi & Hid%str_eqb_spec & _). split; [by eapply list_elem_of_lookup_2|done].
Qed.

Lemma access_found l user wavelet : may_access l user wavelet = true → ∃ w, w ∈ lw_wavelets l ∧ wl_id w = wavelet.
Proof.
  unfold may_access. destruct (LiveWave.wavelet l wavelet) as [w|] eqn:E; [|done]. intros _. exists w. by apply wavelet_found.
Qed.

Lemma set_title_locked_inv s user wave wavelet title : inv s → inv (set_title_locked user wave wavelet title s).2.
Proof.
  intros Hi. change (wp (set_title_locked user wave wavelet title) (λ _ s', inv s') s).
  unfold set_title_locked, guard_access. do 2 wp_step. apply wp_check; [done|intros Ha]. apply wp_lift_check; [done|].
  do 2 wp_step. wp_step. apply wp_db_write; [|done]. intros db [= <-]. do 2 wp_step.
  apply wp_rest; [auto with preserves|]. pose proof Hi as (Hd & Hc & _). apply access_found in Ha as (w & Hw & <-).
  apply (inv_write _ _ s); [done|by apply set_title_inv|done|by apply local_set_title].
Qed.

Lemma set_mode_locked_inv s user wave mode :
  inv s → wave = wave_id (lw_wave (c_live s)) → inv (set_mode_locked user wave mode s).2.
Proof.
  intros Hi ->. change (wp (set_mode_locked user (wave_id (lw_wave (c_live s))) mode) (λ _ s', inv s') s).
  unfold set_mode_locked. do 2 wp_step. apply wp_check; [done|intros _]. apply wp_lift_check; [done|].
  cbv zeta. case_decide; [done|]. wp_step. apply wp_db_write; [|done]. intros db [= <-]. do 2 wp_step.
  apply wp_rest; [auto 6 with preserves|]. pose proof Hi as (Hd & Hc & _).
  apply (inv_write _ _ s); [done|by apply set_mode_inv|done|by apply local_set_mode].
Qed.

(** ** Membership *)

Lemma add_participant_locked_inv s caller wave wavelet user :
  inv s → inv (add_participant_locked caller wave wavelet user s).2.
Proof.
  intros Hi. change (wp (add_participant_locked caller wave wavelet user) (λ _ s', inv s') s).
  unfold add_participant_locked, guard_access. do 2 wp_step. apply wp_check; [done|intros _]. cbv zeta.
  apply wp_check; [done|intros _]. destruct (LiveWave.wavelet _ _) as [w|] eqn:Hw; [|done].
  destruct (has_participant w _) eqn:Hp; [done|]. do 2 wp_step. wp_step. apply wp_db_write; [|done].
  intros db Hdb. do 2 wp_step. apply wp_rest; [auto with preserves|]. pose proof Hi as (Hd & Hc & _).
  apply wavelet_found in Hw as [Hw Hid].
  destruct (add_participant_inv _ _ _ _ _ _ w Hd Hc Hdb Hw Hid) as [Hd' Hc'].
  { rewrite <- has_participant_spec. congruence. }
  apply (inv_write _ _ s); [done|split; [done|by apply coherent_cache]|done|].
  subst wavelet. by eapply local_add_participant.
Qed.

Lemma is_private_dropped user w : is_private_with user (drop_participant user w) = false.
Proof.
  unfold is_private_with. apply andb_false_iff. right. apply not_true_iff_false. rewrite has_participant_spec. simpl.
  rewrite list_elem_of_filter. by intros [? _].
Qed.

(** The two passes over the wavelets of [remove_participant] in one. *)
Lemma cascade_left_by user w0 ws :
  wl_kind w0 = Conversation →
  update_where (is_private_with user) (drop_participant user)
    (update_where (λ w, str_eqb (wl_id w) (wl_id w0)) (drop_participant user) ws) =
  update_where (left_by w0 user) (drop_participant user) ws.
Proof.
  intros Hk. unfold update_where. rewrite <- list_fmap_compose. apply list_fmap_ext. intros _ w _. simpl.
  unfold left_by. rewrite (bool_decide_eq_true_2 _ Hk). destruct (str_eqb _ _); simpl; [|done].
  by rewrite is_private_dropped.
Qed.

Lemma single_left_by user w0 ws :
  wl_kind w0 ≠ Conversation →
  update_where (λ w, str_eqb (wl_id w) (wl_id w0)) (drop_participant user) ws =
  update_where (left_by w0 user) (drop_participant user) ws.
Proof.
  intros Hk. unfold update_where. apply list_fmap_ext. intros _ w _. unfold left_by.
  rewrite (bool_decide_eq_false_2 _ Hk). simpl. by rewrite orb_false_r.
Qed.

Lemma preserves_forget user wave :
  preserves (l <-! get_live;
    (if may_view l user then cm_ret tt else put_live (unsubscribe user l) ;! cm_send_to_user user (WaveRemoved wave)) ;!
    schedule_inbox_update wave).
Proof.
  intros s Hi. do 2 wp_step. destruct (may_view _ _); [by apply wp_rest; [auto with preserves|]|].
  do 3 wp_step. apply wp_rest; [auto with preserves|]. by apply (inv_subs _ _ _ _ (c_out s)).
Qed.

Lemma remove_participant_locked_inv s caller wave wavelet user :
  inv s → inv (remove_participant_locked caller wave wavelet user s).2.
Proof.
  intros Hi. change (wp (remove_participant_locked caller wave wavelet user) (λ _ s', inv s') s).
  unfold remove_participant_locked, guard_access. do 2 wp_step. do 2 (apply wp_check; [done|intros _]).
  destruct (LiveWave.wavelet _ _) as [w0|] eqn:Hw; [|done]. destruct (has_participant w0 user); [|done].
  cbn [negb]. apply wp_check; [done|intros _]. wp_step. apply wp_db_write; [|done]. intros db [= <-].
  pose proof Hi as (Hd & Hc & _). apply wavelet_found in Hw as [Hw Hid].
  destruct (remove_participant_inv _ _ _ user _ Hd Hc Hw Hid) as [Hd' Hc'].
  pose proof (local_remove_participant _ _ _ user Hd Hc Hw) as Hlocal.
  rewrite (wavelet_mut_where _ _ _ (co_keyed _ _ Hc)).
  do 3 wp_step. apply wp_broadcast. intros subs out. cbv beta iota. wp_step. subst wavelet.
  case_decide as Hk.
  - do 2 wp_step. unfold cascade. cbv beta iota. do 2 wp_step.
    apply (wp_mono _ (λ _ s', inv s')); [intros [[]|e] s' Hs'; [by apply preserves_forget|done]|].
    apply wp_rest; [auto with preserves|]. apply (inv_write _ _ s); [done|split; [done|]|done|done].
    simpl. apply (coherent_subs _ _ subs) in Hc'. by rewrite cascade_left_by.
  - wp_step. apply wp_rest; [apply preserves_forget|].
    apply (inv_write _ _ s); [done|split; [done|]|done|done]. simpl. apply coherent_subs. by rewrite single_left_by.
Qed.

Lemma private_reply_locked_inv s user wave wavelet anchor ids :
  inv s → wave = wave_id (lw_wave (c_live s)) → inv (private_reply_locked user wave wavelet anchor ids s).2.
Proof.
  intros Hi ->. change (wp (private_reply_locked user (wave_id (lw_wave (c_live s))) wavelet anchor ids) (λ _ s', inv s') s).
  unfold private_reply_locked, guard_access. do 2 wp_step. apply wp_check; [done|intros _].
  apply wp_lift_check; [done|]. apply wp_check; [done|intros _]. cbv zeta.
  destruct (find_list _ _); [done|]. repeat wp_step. apply wp_db_write; [|done]. intros db Hdb. cbv beta iota.
  pose proof Hi as (Hd & Hc & _). unfold create_private_reply in Hdb. apply bind_ok in Hdb as (db1 & H1 & H2).
  pose proof (local_insert_wavelet _ _ _ Hd H1) as L1. pose proof (local_insert_seeded _ _ _ H2) as L2.
  apply (insert_wavelet_inv _ _ _ _ Hd Hc) in H1 as [Hd1 Hc1]; [|done].
  destruct (seeded_blip_inv _ _ _ _ Hd1 Hc1 H2) as [Hd2 Hc2]; [done|done|by left|done|].
  do 2 wp_step. apply wp_rest; [auto with preserves|].
  apply (inv_write _ _ s); [done..|]. by eapply local_trans.
Qed.

(** ** Watching, and agents *)

Lemma cursor_locked_inv s user conn wave blip index length :
  inv s → inv (cursor_locked user conn wave blip index length s).2.
Proof.
  intros Hi. change (wp (cursor_locked user conn wave blip index length) (λ _ s', inv s') s).
  unfold cursor_locked. do 2 wp_step. destruct (lw_blips _ !! blip) as [b|]; [|done]. cbv zeta.
  destruct (negb _); [done|]. do 2 wp_step. apply wp_rest; [auto with preserves|]. by apply (inv_subs _ _ _ _ (c_out s)).
Qed.

Lemma open_locked_inv s user conn wave marks fl : inv s → inv (open_locked user conn wave marks fl s).2.
Proof.
  intros Hi. change (wp (open_locked user conn wave marks fl) (λ _ s', inv s') s).
  unfold open_locked. do 2 wp_step. apply wp_check; [done|intros _]. do 2 wp_step.
  apply wp_rest; [auto with preserves|]. by apply (inv_subs _ _ _ _ (c_out s)).
Qed.

Lemma leave_locked_inv s conn wave : inv s → inv (leave_locked conn wave s).2.
Proof.
  intros Hi. change (wp (leave_locked conn wave) (λ _ s', inv s') s).
  unfold leave_locked. do 4 wp_step. apply wp_rest; [auto with preserves|]. by apply (inv_subs _ _ _ _ (c_out s)).
Qed.

Lemma sound_replies f db : db_sound db → db_sound (on_agent_replies f db).
Proof. intros []; constructor; try done. by apply (ops_ok_same db). Qed.

Lemma coherent_replies f db l : coherent db l → coherent (on_agent_replies f db) l.
Proof. intros []; constructor; done. Qed.

End handlers.
