(* ===== verification/Submission.v ===== *)
(** * What an edit does to memory and storage

    [apply_op] step by step: the three ways a commit ends, agreement of memory and storage after each,
    an op committed at most once for its id, and the op log of a blip. *)

From S2P Require Import Prelude Tables Strings Unicode Json Attributes Text Delta DeltaSpec DeltaAlg DeltaPush.
From S2P Require Import DeltaCanon DeltaIter DeltaLoops DeltaTransform DeltaTheory DeltaApply DeltaValidate.
From S2P Require Import DeltaInvert DeltaDiff ServerDoc ServerDocTheory DocGuarantees Model Protocol.
From S2P Require Import Content DocBounds LiveWave LiveWaveTheory Storage OpLog Queries Effects Critical Handlers Coherence.
From S2P Require Import CoherenceLemmas CoherenceMembers CoherenceFrame CoherenceHandlers.

Section submission.
Context `{J : Json} `{W : World}.
Implicit Types db : Db.
Implicit Types l : LiveWave.
Implicit Types s : Crit.
Implicit Types doc : ServerDoc.

(** ** The ways a commit ends *)

Definition too_large doc : bool :=
  ((MAX_BLIP_UNITS <? delta_len (doc_content doc)) || (MAX_BLIP_RUNS <? N.of_nat (length (doc_content doc))))%N.

(** The blip after an accepted op, before it is stored. *)
Definition edited (ts : Timestamp) (author : UserId) doc (lb : LiveBlip) : LiveBlip :=
  set_meta (record_contributor ts (lb_meta (sync (set_doc doc lb))) author) (sync (set_doc doc lb)).

(** The blip after a failed write. *)
Definition taken_back (ts : Timestamp) (author : UserId) doc (lb : LiveBlip) : LiveBlip :=
  set_meta (with_contributors (lb_meta (roll_back (edited ts author doc lb))) (blip_contributors (lb_meta lb))
              (blip_last_modified (lb_meta lb))) (roll_back (edited ts author doc lb)).

(** Others get the op, then the author the acknowledgement. *)
Definition announce (conn : ConnId) (author : UserId) (committed : Revision) (meta : Blip) (op_id : option str)
    (st : LiveWave * Outbound) : LiveWave * Outbound :=
  let '(l, out) := broadcast st.1 st.2 (blip_wavelet_id meta) (Some conn)
    (SOp (blip_wave_id meta) (blip_id meta) (rev_revision committed) author (rev_delta committed)) in
  send_to l out conn (Ack (blip_wave_id meta) (blip_id meta) (rev_revision committed) (rev_delta committed) op_id).

Definition save_failed (blip : BlipId) : ServerMessage :=
  resync blip (lit "The server could not save your edit; reloading this wave.").

Definition too_big (blip : BlipId) : ServerMessage := resync blip (lit "This message has reached its maximum size.").

Lemma wp_commit_applied conn author lb committed doc op_id Q s :
  (too_large doc = true →
     Q (Err (too_big (blip_id (lb_meta lb)))) (with_live (put_blip (roll_back (set_doc doc lb)) (c_live s)) s)) →
  (∀ ts s', too_large doc = false → c_db s' = c_db s → c_out s' = c_out s → c_pending s' = c_pending s →
     c_live s' = put_blip (taken_back ts author doc lb) (c_live s) →
     Q (Err (save_failed (blip_id (lb_meta lb)))) s') →
  (∀ ts db s', too_large doc = false →
     commit_op (c_db s) (lb_meta (edited ts author doc lb)) (rev_delta committed) author ts op_id = Ok db →
     c_db s' = db →
     (c_live s', c_out s') = announce conn author committed (lb_meta (edited ts author doc lb)) op_id
       (wavelet_mut (blip_wavelet_id (lb_meta lb)) (touch_wavelet ts) (put_blip (edited ts author doc lb) (c_live s)),
        c_out s) →
     c_pending s' = {[blip_wave_id (lb_meta lb)]} ∪ c_pending s →
     Q (Ok tt) s') →
  wp (commit_applied conn author lb committed doc op_id) Q s.
Proof.
  intros H1 H2 H3. unfold commit_applied. cbv zeta. fold (too_large doc). do 2 wp_step.
  destruct (too_large doc) eqn:E; [repeat wp_step; by apply H1|]. do 5 wp_step. apply wp_try_db.
  - intros [] db Hdb. cbv beta iota. destruct (commit_op _ _ _ _ _ _) as [db'|] eqn:Hc; [|done].
    injection Hdb as ->. do 4 wp_step. unfold wp. unfold cm_bind, cm_broadcast, cm_send_to, schedule_inbox_update.
    cbn [c_live c_out with_live with_db tick].
    destruct (broadcast _ _ _ _ _) as [l1 out1] eqn:Hb. cbn [c_live c_out with_wave_out].
    destruct (send_to _ _ _ _) as [l2 out2] eqn:Hse. simpl.
    apply (H3 (clock (c_tick s)) db); [done|exact Hc|done| |done]. unfold announce.
    change (blip_wavelet_id (lb_meta (edited _ _ _ _))) with (blip_wavelet_id (lb_meta lb)).
    cbn [fst snd]. change (blip_last_modified _) with (clock (c_tick s)) in Hb.
    unfold edited. simpl in *. rewrite Hb. by rewrite Hse.
  - intros e. cbv beta iota zeta. repeat wp_step. by apply (H2 (clock (c_tick s))).
Qed.

Lemma announce_live conn author committed meta op_id st :
  ∃ subs, (announce conn author committed meta op_id st).1 = set_subscribers subs st.1.
Proof.
  unfold announce. destruct (broadcast _ _ _ _ _) as [l out] eqn:E.
  destruct (broadcast_live st.1 st.2 (blip_wavelet_id meta) (Some conn)
    (SOp (blip_wave_id meta) (blip_id meta) (rev_revision committed) author (rev_delta committed))) as [subs E'].
  rewrite E in E'. simpl in E'. subst l. edestruct send_to_live as [subs' ->]. by exists subs'.
Qed.

(** ** Memory and storage *)

(** The op [row] carries the message [old] over to [b]. *)
Definition continues db (old b : Blip) (row : OpRow) : Prop :=
  old ∈ db_blips db ∧ blip_id old = blip_id b ∧ or_blip_id row = blip_id b ∧ or_revision row = blip_revision b ∧
  blip_revision b = (blip_revision old + 1)%N ∧ blip_content b = compose (blip_content old) (or_delta row) ∧
  (∀ op_id, or_op_id row = Some op_id → with_op_id db (blip_id b) op_id = []).

Lemma sound_snapshot db old b row :
  db_sound db → good_text (blip_content b) → continues db old b row →
  db_sound (on_blips (update_where (λ r, str_eqb (blip_id r) (blip_id b)) (with_snapshot b)) (on_ops (λ t, t ++ [row]) db)).
Proof.
  intros [Kw Kl Kb Kc Rp Rc Ck Cd Rr Rb Lo] Hd (Ho & C1 & C2 & C3 & C4 & C5 & C6). constructor; simpl; try done.
  - by apply keyed_update.
  - intros c Hc. destruct (Rc c Hc) as (r & Hr & E1 & E2).
    exists (if str_eqb (blip_id r) (blip_id b) then with_snapshot b r else r).
    split; [apply elem_of_update; eauto|]. by destruct (str_eqb _ _).
  - intros x (r & Hr & ->)%elem_of_update. destruct (str_eqb _ _); [done|by apply Cd].
  - intros x c (r & Hr & ->)%elem_of_update. destruct (str_eqb _ _); by apply (Rr r).
  - intros x (r & Hr & ->)%elem_of_update. destruct (str_eqb _ _); by apply (Rb r).
  - by apply (ops_ok_commit _ old).
Qed.

(** The resident blip [lb] and its row move to the snapshot [b] together. *)
Lemma coherent_snapshot db l lb b doc :
  keyed blip_id (db_blips db) → coherent db l → lw_blips l !! blip_id b = Some lb → with_snapshot b (lb_meta lb) = b →
  doc_content doc = blip_content b → doc_revision doc = blip_revision b → doc_fit doc →
  coherent (on_blips (update_where (λ r, str_eqb (blip_id r) (blip_id b)) (with_snapshot b)) db)
    (put_blip (mkLiveBlip b doc) l).
Proof.
  intros Hd [Cw Ck Cl Cr Cb Cd Cc Ct] Hl Hs H1 H2 Hfit. pose proof (Cd _ _ Hl) as (Hid & _).
  destruct (proj2 (Cb (lb_meta lb))) as (Hin & Hwave & Hdel); [rewrite Hid; eauto|].
  assert (blip_wave_id b = wave_id (lw_wave l) ∧ blip_deleted b = false) as [Hbw Hbd] by by rewrite <- Hs.
  constructor; simpl; try done.
  - intros x. rewrite elem_of_update. split.
    + intros ((r & Hr & ->) & Hx1 & Hx2). destruct (str_eqb (blip_id r) (blip_id b)) eqn:E.
      * apply bool_decide_eq_true in E.
        assert (r = lb_meta lb) as -> by (apply (keyed_eq _ _ _ _ Hd); [done..|congruence]).
        rewrite Hs, lookup_insert_eq. by eexists.
      * apply bool_decide_eq_false in E. rewrite lookup_insert_ne by done. by apply Cb.
    + intros (lb' & [[E <-]|[Hne Hx]]%lookup_insert_Some & Hm); simpl in *; subst x.
      * split; [|done]. exists (lb_meta lb). split; [done|]. unfold str_eqb.
        rewrite bool_decide_eq_true_2 by done. done.
      * destruct (proj2 (Cb (lb_meta lb'))) as (Hxin & ? & ?); [eauto|]. split; [|done].
        exists (lb_meta lb'). split; [done|]. unfold str_eqb. by rewrite bool_decide_eq_false_2.
  - intros id x [[<- <-]|[Hne Hx]]%lookup_insert_Some; [done|by apply Cd].
Qed.

(** Replacing a resident document by one of the same content and revision. *)
Lemma coherent_same_doc db l lb doc :
  coherent db l → lw_blips l !! blip_id (lb_meta lb) = Some lb →
  doc_content doc = doc_content (lb_doc lb) → doc_revision doc = doc_revision (lb_doc lb) → doc_fit doc →
  coherent db (put_blip (mkLiveBlip (lb_meta lb) doc) l).
Proof.
  intros [Cw Ck Cl Cr Cb Cd Cc Ct] Hl H1 H2 Hfit. constructor; simpl; try done.
  - intros x. rewrite Cb. split.
    + intros (lb' & Hx & <-). destruct (decide (blip_id (lb_meta lb') = blip_id (lb_meta lb))) as [E|E].
      * rewrite E, lookup_insert_eq. assert (lb' = lb) as -> by congruence. by eexists.
      * rewrite lookup_insert_ne by done. eauto.
    + intros (lb' & [[E <-]|[Hne Hx]]%lookup_insert_Some & Hm); simpl in *; [subst x|]; eauto.
  - intros id x [[<- <-]|[Hne Hx]]%lookup_insert_Some; [|by apply Cd]. simpl.
    destruct (Cd _ _ Hl) as (? & ? & ? & ?). rewrite H1, H2. done.
Qed.

Lemma commit_op_inv db b delta author ts op_id db' :
  commit_op db b delta author ts op_id = Ok db' →
  ∃ f g, db' = on_search f (on_search_keys g (touch_wavelet_row (blip_wavelet_id b) (blip_last_modified b)
    (on_blips (update_where (λ r, str_eqb (blip_id r) (blip_id b)) (with_snapshot b))
      (on_ops (λ t, t ++ [mkOpRow (blip_id b) (blip_revision b) (blip_wave_id b) author ts delta op_id]) db)))) ∧
    (∀ op, op_id = Some op → with_op_id db (blip_id b) op = []).
Proof.
  unfold commit_op. intros (db1 & H & (f & g & ->)%index_blip_inv)%bind_ok. exists f, g.
  pose proof H as ->%insert_op_inv. split; [done|]. intros op ->. unfold insert_op in H.
  apply bind_ok in H as (t & [Hok _]%insert_into_inv & _). apply andb_true_iff in Hok as [_ Hok%negb_true_iff].
  simpl in Hok. rewrite exists_row_false in Hok. apply filter_none. intros o Ho [E1 E2]. specialize (Hok o Ho).
  unfold str_eqb in Hok. rewrite E1, E2, !bool_decide_eq_true_2 in Hok by done. done.
Qed.

Lemma commit_coherent db l lb b doc delta author ts op_id db' :
  db_sound db → coherent db l → commit_op db b delta author ts op_id = Ok db' →
  lw_blips l !! blip_id b = Some lb → with_snapshot b (lb_meta lb) = b → good_text (blip_content b) →
  doc_content doc = blip_content b → doc_revision doc = blip_revision b → doc_fit doc →
  blip_revision b = (blip_revision (lb_meta lb) + 1)%N → blip_content b = compose (blip_content (lb_meta lb)) delta →
  db_sound db' ∧ coherent db' (put_blip (mkLiveBlip b doc) l).
Proof.
  intros Hd Hc (f & g & -> & Honce)%commit_op_inv Hl Hs Hdoc H1 H2 Hfit Hrev Hcont.
  destruct (blip_row_here _ _ _ _ Hc Hl) as (Hin & Hid & _). split.
  - apply sound_search, sound_touch_row, (sound_snapshot _ (lb_meta lb)); try done.
  - apply coherent_search, coherent_touch_row. eapply coherent_snapshot; try done.
    + apply Hd.
    + by apply coherent_ops.
Qed.

(** ** Rolling back *)

Lemma edited_meta ts author doc lb :
  lb_doc (edited ts author doc lb) = doc ∧
  blip_content (lb_meta (edited ts author doc lb)) = doc_content doc ∧
  blip_revision (lb_meta (edited ts author doc lb)) = doc_revision doc ∧
  with_snapshot (lb_meta (edited ts author doc lb)) (lb_meta lb) = lb_meta (edited ts author doc lb).
Proof. done. Qed.

(** What an edit that was applied and taken back leaves: the blip, with a document that went back, and a history that
    may have lost its oldest changes. *)
Definition unchanged (lb lb' : LiveBlip) : Prop :=
  lb_meta lb' = lb_meta lb ∧ doc_content (lb_doc lb') = doc_content (lb_doc lb) ∧
  doc_revision (lb_doc lb') = doc_revision (lb_doc lb) ∧
  (∃ k, doc_history (lb_doc lb') = drop k (doc_history (lb_doc lb))) ∧ (doc_fit (lb_doc lb) → doc_fit (lb_doc lb')).

Lemma unchanged_refl lb : unchanged lb lb.
Proof. split_and!; [done..|by exists 0%nat|done]. Qed.

Lemma rolled_back lb k delta author entry doc ts :
  doc_fit (lb_doc lb) → submittable (lb_doc lb) delta → apply (lb_doc lb) k delta author = Ok (entry, doc) →
  blip_content (lb_meta lb) = doc_content (lb_doc lb) → blip_revision (lb_meta lb) = doc_revision (lb_doc lb) →
  unchanged lb (roll_back (set_doc doc lb)) ∧ unchanged lb (taken_back ts author doc lb).
Proof.
  intros Hok Hs Ha E1 E2. destruct (fit_rollback _ _ _ _ _ _ Hok Hs Ha) as (H0 & H1 & H2 & H3).
  unfold unchanged, taken_back, roll_back, edited. simpl. unfold sync. simpl.
  rewrite H1, H2, <- E1, <- E2. split; (split; [by destruct (lb_meta lb)|done]).
Qed.

Lemma put_unchanged db l lb lb' :
  coherent db l → lw_blips l !! blip_id (lb_meta lb) = Some lb → unchanged lb lb' → coherent db (put_blip lb' l).
Proof.
  intros Hc Hl (E1 & E2 & E3 & _ & Hf). destruct lb' as [m d]. simpl in *. subst m. apply coherent_same_doc; try done.
  by apply Hf, (co_docs _ _ Hc _ _ Hl).
Qed.

(** ** The outcomes of an edit *)

Section edit.
Context (conn : ConnId) (author : UserId) (blip : BlipId) (revision : N) (delta : Delta) (op_id : option str).

Definition the_edit : OpSubmission := mkSubmission blip revision delta op_id.

(** The change is one a client may submit, and the blip's revisions have not run out. *)
Definition editable (l : LiveWave) : Prop :=
  wire_change delta ∧ ∀ lb, lw_blips l !! blip = Some lb → (doc_revision (lb_doc lb) < usize_max)%N.

Lemma stored_text db l id lb :
  db_sound db → coherent db l → lw_blips l !! id = Some lb → good_text (doc_content (lb_doc lb)).
Proof.
  intros Hd Hc Hl. destruct (co_docs _ _ Hc _ _ Hl) as (_ & -> & _).
  apply (check_content _ Hd). by apply (blip_row_here _ _ _ _ Hc Hl).
Qed.

Lemma editable_submittable db l lb :
  db_sound db → coherent db l → editable l → lw_blips l !! blip = Some lb →
  doc_fit (lb_doc lb) ∧ submittable (lb_doc lb) delta.
Proof.
  intros Hd Hc [Hw Hr] Hl. pose proof (co_docs _ _ Hc _ _ Hl) as (_ & _ & _ & Hf). split; [done|].
  apply fit_submittable; [done|by eapply stored_text|done|by apply Hr].
Qed.

(** Nothing moved: not storage, not a document, not a queue. *)
Definition nothing_happened s s' : Prop :=
  c_db s' = c_db s ∧ c_out s' = c_out s ∧ c_pending s' = c_pending s ∧
  (lw_wave (c_live s'), lw_evicted (c_live s')) = (lw_wave (c_live s), lw_evicted (c_live s)) ∧
  lw_subscribers (c_live s') = lw_subscribers (c_live s) ∧
  lw_wavelets (c_live s') = lw_wavelets (c_live s) ∧
  lw_comments (c_live s') = lw_comments (c_live s) ∧
  ∀ id, option_Forall2 unchanged (lw_blips (c_live s) !! id) (lw_blips (c_live s') !! id).

(** The author is a member of the blip's wavelet. *)
Definition author_may s : Prop :=
  ∃ lb, lw_blips (c_live s) !! blip = Some lb ∧ may_access (c_live s) author (blip_wavelet_id (lb_meta lb)) = true.

(** An acknowledgement to the author and nothing else. *)
Definition acknowledged_again s s' : Prop :=
  author_may s ∧ ∃ op row, op_id = Some op ∧ row ∈ db_ops (c_db s) ∧ or_blip_id row = blip ∧ or_op_id row = Some op ∧
    c_db s' = c_db s ∧ c_pending s' = c_pending s ∧
    (c_live s', c_out s') = send_to (c_live s) (c_out s) conn
      (Ack (wave_id (lw_wave (c_live s))) blip (or_revision row) [] op_id).

(** The change rebased, stored with the snapshot it gives, and only then announced. *)
Definition committed_and_announced s s' : Prop :=
  author_may s ∧ ∃ lb entry doc ts,
    lw_blips (c_live s) !! blip = Some lb ∧ apply (lb_doc lb) revision delta author = Ok (entry, doc) ∧
    too_large doc = false ∧
    commit_op (c_db s) (lb_meta (edited ts author doc lb)) (rev_delta entry) author ts op_id = Ok (c_db s') ∧
    (c_live s', c_out s') = announce conn author entry (lb_meta (edited ts author doc lb)) op_id
      (wavelet_mut (blip_wavelet_id (lb_meta lb)) (touch_wavelet ts) (put_blip (edited ts author doc lb) (c_live s)),
       c_out s) ∧
    c_pending s' = {[blip_wave_id (lb_meta lb)]} ∪ c_pending s.

Lemma nothing_refl s : nothing_happened s s.
Proof. split_and!; try done. intros id. destruct (lw_blips (c_live s) !! id); constructor; apply unchanged_refl. Qed.

Lemma nothing_eq s s' :
  c_db s' = c_db s → c_live s' = c_live s → c_out s' = c_out s → c_pending s' = c_pending s → nothing_happened s s'.
Proof.
  intros E1 E2 E3 E4. unfold nothing_happened. rewrite E1, E2, E3, E4.
  split_and!; try done. intros id. destruct (lw_blips (c_live s) !! id); constructor; apply unchanged_refl.
Qed.

Lemma nothing_put s s' lb lb' :
  c_db s' = c_db s → c_out s' = c_out s → c_pending s' = c_pending s →
  c_live s' = put_blip lb' (c_live s) → lw_blips (c_live s) !! blip_id (lb_meta lb) = Some lb → unchanged lb lb' →
  nothing_happened s s'.
Proof.
  intros E1 E2 E3 E4 Hl Hu. unfold nothing_happened. rewrite E4. split_and!; try done. intros id. simpl.
  pose proof Hu as (Hm & _). rewrite Hm. destruct (decide (id = blip_id (lb_meta lb))) as [->|Hne].
  - rewrite Hl, lookup_insert_eq. by constructor.
  - rewrite lookup_insert_ne by done. destruct (lw_blips (c_live s) !! id); constructor; apply unchanged_refl.
Qed.

Lemma wp_apply_op s Q :
  db_sound (c_db s) → coherent (c_db s) (c_live s) → editable (c_live s) →
  (∀ e s', nothing_happened s s' → Q (Err e) s') →
  (∀ s', acknowledged_again s s' → Q (Ok tt) s') →
  (∀ s', committed_and_announced s s' → Q (Ok tt) s') →
  wp (apply_op conn author the_edit) Q s.
Proof.
  intros Hd Hc Hed HE HA HC. unfold apply_op. cbn [sub_blip_id sub_revision sub_delta sub_op_id the_edit]. do 2 wp_step.
  destruct (lw_blips (c_live s) !! blip) as [lb|] eqn:Hl; [|apply HE, nothing_refl].
  destruct (negb _) eqn:Ha; [apply HE, nothing_refl|]. apply negb_false_iff in Ha.
  assert (author_may s) as Hmay by by exists lb.
  pose proof (co_docs _ _ Hc _ _ Hl) as (Hid & D1 & D2 & _). destruct (editable_submittable _ _ _ Hd Hc Hed Hl) as [Hok Hsub].
  assert (∀ s0 Q', (∀ s1, c_db s1 = c_db s0 → c_live s1 = c_live s0 → c_out s1 = c_out s0 →
      c_pending s1 = c_pending s0 → Q' (Ok None) s1) →
    (∀ s1 r op, c_db s1 = c_db s0 → c_live s1 = c_live s0 → c_out s1 = c_out s0 →
      c_pending s1 = c_pending s0 → op_id = Some op → revision_for_op (c_db s0) blip op = Some r →
      Q' (Ok (Some (r, op))) s1) → wp (committed_before blip op_id) Q' s0) as Hcb.
  { intros s0 Q' H1 H2. unfold committed_before. destruct op_id as [op|]; [|by apply wp_ret, H1].
    wp_step. apply wp_try_db; [|by intros e; apply H1]. intros found db [= <- <-]. cbv beta iota. wp_step.
    destruct (revision_for_op _ _ _) eqn:Hf; [by apply H2|by apply H1]. }
  wp_step. apply Hcb; clear Hcb; [intros s1 E1 E2 E3 E4|intros s1 r op E1 E2 E3 E4 Eop Hr]; cbv beta iota.
  - destruct (permit _ _ _) as [[]|e]; [|by apply HE, nothing_eq].
    destruct (apply _ _ _ _) as [[entry doc]|e] eqn:Hap;
      [|by apply HE, nothing_eq].
    destruct (rolled_back _ _ _ _ _ _ 0 Hok Hsub Hap (eq_sym D1) (eq_sym D2)) as [Hu _].
    apply wp_commit_applied.
    + intros _. apply HE. by apply (nothing_put _ _ lb (roll_back (set_doc doc lb))); rewrite ?Hid; simpl; try congruence.
    + intros ts s' _ F1 F2 F3 F4. apply HE.
      destruct (rolled_back _ _ _ _ _ _ ts Hok Hsub Hap (eq_sym D1) (eq_sym D2)) as [_ Hu'].
      by apply (nothing_put _ _ lb (taken_back ts author doc lb)); rewrite ?Hid; try congruence.
    + intros ts db s' Hbig F1 F2 F3 F4. apply HC. split; [done|]. exists lb, entry, doc, ts. split_and!; [done..| | |congruence].
      * rewrite F2. by rewrite <- E1.
      * by rewrite F3, E2, E3.
  - unfold revision_for_op in Hr. apply fmap_Some in Hr as (row & Hrow & ->).
    apply find_row_some in Hrow as [Hin [Hb Ho%bool_decide_eq_true]%andb_true_iff].
    unfold wp, cm_send_to. rewrite E2, E3, <- Eop. destruct (send_to _ _ _ _) as [l out] eqn:Hst. simpl.
    apply HA. split; [done|]. exists op, row. simpl. apply bool_decide_eq_true in Hb. split_and!; done.
Qed.

(** Where nothing happened, what agreed still does. *)
Lemma nothing_coherent s s' : nothing_happened s s' → coherent (c_db s) (c_live s) → coherent (c_db s') (c_live s').
Proof.
  intros (E1 & _ & _ & [= E2 E2'] & _ & E3 & E4 & Hb) [Cw Ck Cl Cr Cb Cd Cc Ct]. rewrite E1.
  constructor; rewrite ?E2, ?E3, ?E4; try done.
  - intros b. rewrite Cb. specialize (Hb (blip_id b)). split; intros (lb & Hl & <-); rewrite Hl in Hb;
      inversion Hb as [x y (Hm & _) Ex Ey|]; subst; eauto.
  - intros id lb Hl. specialize (Hb id). rewrite Hl in Hb. inversion Hb as [x y (Hm & H1 & H2 & _ & H3) Ex Ey|]. subst.
    symmetry in Ex. destruct (Cd _ _ Ex) as (? & ? & ? & ?). rewrite Hm, H1, H2. split_and!; auto.
Qed.

Lemma apply_op_inv db0 here s :
  inv db0 here s → editable (c_live s) → inv db0 here (apply_op conn author the_edit s).2.
Proof.
  intros Hi Hed. pose proof Hi as (Hd & Hc & _).
  change (wp (apply_op conn author the_edit) (λ _ s', inv db0 here s') s). apply wp_apply_op; [done..| | |].
  - intros _ s' Hn. pose proof Hn as (E1 & _ & _ & [= E2 E2'] & _).
    apply (inv_write _ _ s); [done| |unfold who; by rewrite E2, E2'|].
    + split; [by rewrite E1|by eapply nothing_coherent].
    + rewrite E1. apply local_refl.
  - intros s' (_ & op & row & _ & _ & _ & _ & E1 & _ & E2).
    destruct (send_to_live (c_live s) (c_out s) conn (Ack (wave_id (lw_wave (c_live s))) blip (or_revision row) [] op_id))
      as [subs E]. rewrite <- E2 in E. simpl in E. unfold inv. rewrite E1, E.
    destruct Hi as (? & ? & ?). split_and!; [done|by apply coherent_subs|naive_solver..].
  - intros s' (_ & lb & entry & doc & ts & Hl & Ha & Hbig & Hcommit & E & _).
    destruct (announce_live conn author entry (lb_meta (edited ts author doc lb)) op_id
      (wavelet_mut (blip_wavelet_id (lb_meta lb)) (touch_wavelet ts) (put_blip (edited ts author doc lb) (c_live s)),
       c_out s)) as [subs Es]. rewrite <- E in Es. simpl in Es.
    destruct (editable_submittable _ _ _ Hd Hc Hed Hl) as [Hok Hsub].
    destruct (fit_apply _ _ _ _ _ _ Hok (stored_text _ _ _ _ Hd Hc Hl) Hsub Ha) as [Hok' Htext].
    { unfold too_large in Hbig. apply orb_false_iff in Hbig as [Hbig _]. by apply N.ltb_ge in Hbig. }
    pose proof (co_docs _ _ Hc _ _ Hl) as (Hid & D1 & D2 & _).
    destruct Hok as [Hok0 Hsmall]. destruct (apply_step _ _ _ _ _ _ Hok0 Hsub Ha) as (_ & _ & _ & _ & _ & F1 & F2 & _).
    destruct (commit_coherent _ _ lb _ doc _ _ _ _ _ Hd Hc Hcommit) as [Hd' Hc']; [by simpl; rewrite Hid|done..|by simpl; rewrite <- D2|by simpl; rewrite <- D1|].
    apply (inv_write _ _ s); [done| |by rewrite Es|].
    2:exact (local_commit_op _ _ _ _ (lb_meta (edited ts author doc lb)) _ _ _ _ _ Hd Hc Hl Hid Hcommit).
    split; [done|]. rewrite Es. apply coherent_subs. by apply coherent_touch_live.
Qed.

End edit.

End submission.
