(* ===== verification/App.v ===== *)
(** * The server's shared state ([crates/gal-server/src/state.rs], [AppState])

    Connections, the table of resident waves and the inbox notifications.  An [Arc<Mutex<LiveWave>>] is
    a handle: an index into [app_heap], which keeps every copy ever loaded, evicted ones included,
    because a task may still hold one.  What a connection's reader keeps to itself, the waves it
    watches, is [app_subscribed]. *)

From S2P Require Import Prelude Tables Strings Unicode Json Attributes Text Delta Model Protocol ServerDoc.
From S2P Require Import Content LiveWave Storage Queries Effects Critical Handlers.

Section app.
Context `{J : Json} `{W : World}.

Abbreviation Handle := nat.

(** The queue and the [Notify] of a connection are its [Channel]. *)
Record ConnHandle := mkConn { conn_user : UserId; conn_token_hash : str }.

Record App := mkApp {
  app_db : Db;
  app_out : Outbound;
  app_heap : list LiveWave;
  app_waves : gmap WaveId Handle;
  app_conns : gmap ConnId ConnHandle;
  app_user_conns : gmap UserId (gset ConnId);
  app_subscribed : gmap ConnId (gset WaveId);
  app_pending : gset WaveId;
  app_next_conn : ConnId;
  app_tick : nat;
}.

Definition app_new (db : Db) : App := mkApp db (mkOutbound ∅ 0) [] ∅ ∅ ∅ ∅ ∅ 1 0.

Definition put_db (db : Db) (a : App) : App :=
  mkApp db (app_out a) (app_heap a) (app_waves a) (app_conns a) (app_user_conns a) (app_subscribed a)
    (app_pending a) (app_next_conn a) (app_tick a).
Definition put_out (out : Outbound) (a : App) : App :=
  mkApp (app_db a) out (app_heap a) (app_waves a) (app_conns a) (app_user_conns a) (app_subscribed a)
    (app_pending a) (app_next_conn a) (app_tick a).
Definition put_waves (heap : list LiveWave) (waves : gmap WaveId Handle) (a : App) : App :=
  mkApp (app_db a) (app_out a) heap waves (app_conns a) (app_user_conns a) (app_subscribed a)
    (app_pending a) (app_next_conn a) (app_tick a).
Definition put_conns (conns : gmap ConnId ConnHandle) (user_conns : gmap UserId (gset ConnId)) (next : ConnId)
    (a : App) : App :=
  mkApp (app_db a) (app_out a) (app_heap a) (app_waves a) conns user_conns (app_subscribed a)
    (app_pending a) next (app_tick a).
Definition put_subscribed (s : gmap ConnId (gset WaveId)) (a : App) : App :=
  mkApp (app_db a) (app_out a) (app_heap a) (app_waves a) (app_conns a) (app_user_conns a) s
    (app_pending a) (app_next_conn a) (app_tick a).
Definition put_pending (p : gset WaveId) (a : App) : App :=
  mkApp (app_db a) (app_out a) (app_heap a) (app_waves a) (app_conns a) (app_user_conns a) (app_subscribed a)
    p (app_next_conn a) (app_tick a).
Definition app_step (a : App) : App :=
  mkApp (app_db a) (app_out a) (app_heap a) (app_waves a) (app_conns a) (app_user_conns a) (app_subscribed a)
    (app_pending a) (app_next_conn a) (S (app_tick a)).

#[global] Instance app_stored : Stored App := {
  st_db := app_db; st_put_db := put_db; st_tick := app_tick; st_step := app_step;
}.

Definition AM (T : Type) : Type := SM App T.

Definition get_app : AM App := λ a, (Ok a, a).
Definition modify (f : App → App) : AM () := λ a, (Ok tt, f a).

(** Run a critical section under the lock of the wave behind a handle. *)
Definition crit_of (a : App) (l : LiveWave) : Crit :=
  mkCrit (app_db a) l (app_out a) (app_user_conns a) (app_pending a) (app_tick a).

Definition app_of (s : Crit) (h : Handle) (a : App) : App :=
  mkApp (c_db s) (c_out s) (<[h := c_live s]> (app_heap a)) (app_waves a) (app_conns a) (app_user_conns a)
    (app_subscribed a) (c_pending s) (app_next_conn a) (c_tick s).

Definition locked {T} (h : Handle) (m : CM T) : AM T := λ a,
  match app_heap a !! h with
  | Some l => let '(r, s) := m (crit_of a l) in (r, app_of s h a)
  | None => (Err internal, a)
  end.

(** ** Connections *)

Definition MAX_CONNECTIONS_PER_USER : nat := 24.
Definition OUTBOUND_CAPACITY : N := 512.

Definition connections_for (user : UserId) (a : App) : nat :=
  match app_user_conns a !! user with Some s => size s | None => 0%nat end.

(** A fresh connection gets an empty queue of its own. *)
Definition register_conn (user : UserId) (limit : nat) (token_hash : str) (a : App) : option ConnId * App :=
  let conns := default ∅ (app_user_conns a !! user) in
  if (limit <=? size conns)%nat
  then (None, put_conns (app_conns a) (<[user := conns]> (app_user_conns a)) (app_next_conn a) a)
  else
    let id := app_next_conn a in
    (Some id,
     put_out (mkOutbound (<[id := mkChannel OUTBOUND_CAPACITY [] false]> (out_channels (app_out a)))
                (out_slow_disconnects (app_out a)))
       (put_conns (<[id := mkConn user token_hash]> (app_conns a))
          (<[user := {[id]} ∪ conns]> (app_user_conns a)) (wadd id 1) a)).

Definition unregister_conn (conn : ConnId) (a : App) : App :=
  match app_conns a !! conn with
  | None => a
  | Some handle =>
      let user_conns := alter (λ s, s ∖ {[conn]}) (conn_user handle) (app_user_conns a) in
      put_conns (delete conn (app_conns a))
        (match user_conns !! conn_user handle with
         | Some s => if decide (s = ∅) then delete (conn_user handle) user_conns else user_conns
         | None => user_conns
         end) (app_next_conn a) a
  end.

(** Tear down the connections of a user whose session satisfies a test. *)
Definition kill_where (p : str → bool) (a : App) (out : Outbound) (conn : ConnId) : Outbound :=
  match app_conns a !! conn with
  | Some handle => if p (conn_token_hash handle) then notify_one out conn else out
  | None => out
  end.

Definition disconnect_where (p : str → bool) (user : UserId) (a : App) : App :=
  match app_user_conns a !! user with
  | None => a
  | Some conns => put_out (foldl (kill_where p a) (app_out a) (elements conns)) a
  end.

Definition disconnect_session (user : UserId) (token_hash : str) : App → App :=
  disconnect_where (λ t, str_eqb t token_hash) user.

Definition disconnect_other_sessions (user : UserId) (keep : str) : App → App :=
  disconnect_where (λ t, negb (str_eqb t keep)) user.

(** ** Residency *)

(** [collect()] into a [HashMap]: the last entry of a key wins. *)
Definition collect {V} (l : list (str * V)) : gmap str V := list_to_map (reverse l).

Definition live_of (w : Wave) (wavelets : list Wavelet) (blips : list Blip) (comments : list CommentThread)
    (users : list PublicUser) : LiveWave :=
  mkLiveWave w wavelets (collect ((λ b, (blip_id b, live_blip_new b)) <$> blips))
    (collect ((λ c, (ct_id c, c)) <$> comments)) ∅ (collect ((λ u, (pu_id u, u)) <$> users)) false.

(** [?] on a storage call, where the caller answers with the storage error itself. *)
Definition or_fail {T U} (f : Db → DbResult (T * Db)) (k : T → AM (DbResult U)) : AM (DbResult U) :=
  r <-! try_db f;
  match r with Ok t => k t | Err e => cm_ret (Err e) end.

Definition reading {T} (f : Db → T) (db : Db) : DbResult (T * Db) := Ok (f db, db).

Definition open_wave (id : WaveId) : AM (DbResult (option Handle)) :=
  a <-! get_app;
  match app_waves a !! id with
  | Some h => cm_ret (Ok (Some h))
  | None =>
      or_fail (λ db, match wave db id with Ok w => Ok (w, db) | Err e => Err e end) (λ w,
        match w with
        | None => cm_ret (Ok None)
        | Some w =>
            or_fail (reading (λ db, wavelets_of_wave db id)) (λ wavelets,
            or_fail (reading (λ db, blips_of_wave db id)) (λ blips,
            or_fail (reading (λ db, comments_of_wave db id)) (λ comments,
            or_fail (reading (λ db, users_of_wave db id)) (λ users,
              a <-! get_app;
              let h := length (app_heap a) in
              modify (put_waves (app_heap a ++ [live_of w wavelets blips comments users])
                        (<[id := h]> (app_waves a))) ;!
              cm_ret (Ok (Some h))))))
        end)
  end.

Definition maybe_evict (id : WaveId) (a : App) : App :=
  match app_waves a !! id with
  | None => a
  | Some h =>
      match app_heap a !! h with
      | Some l =>
          if decide (lw_subscribers l = ∅)
          then put_waves (<[h := set_evicted true l]> (app_heap a)) (delete id (app_waves a)) a
          else a
      | None => a
      end
  end.

Definition evict_after_panic (id : WaveId) (a : App) : App :=
  match app_waves a !! id with
  | None => a
  | Some h =>
      match app_heap a !! h with
      | Some l =>
          let '(l, out) := disconnect l (app_out a) (map_to_list (lw_subscribers l)).*1 in
          put_out out (put_waves (<[h := set_evicted true l]> (app_heap a)) (delete id (app_waves a)) a)
      | None => a
      end
  end.

(** ** Inbox notifications *)

(** [AppState::schedule_inbox_update], outside a wave lock. *)
Definition queue_inbox_update (id : WaveId) (a : App) : App := put_pending ({[id]} ∪ app_pending a) a.

Definition notify (user : UserId) (m : ServerMessage) : AM () :=
  modify (λ a, put_out (send_to_user (app_user_conns a) (app_out a) user m) a).

Definition push_one (id : WaveId) (user : UserId) : AM () :=
  a <-! get_app;
  match app_user_conns a !! user with
  | None => cm_ret tt
  | Some _ =>
      r <-! try_db (reading (λ db, wave_summary db user id));
      match r with
      | Ok (Some summary) => notify user (InboxUpdated summary)
      | Ok None => notify user (WaveRemoved id)
      | Err _ => cm_ret tt
      end
  end.

Definition push_inbox_update (id : WaveId) : AM () :=
  participants <-! try_db (reading (λ db, wave_participants db id));
  match participants with
  | Ok users => cm_each (push_one id) users
  | Err _ => cm_ret tt
  end.

(** The debounced task: the wave leaves the queue, then its participants are told. *)
Definition inbox_task (id : WaveId) : AM () :=
  modify (λ a, put_pending (app_pending a ∖ {[id]}) a) ;!
  push_inbox_update id.

End app.

Abbreviation Handle := nat.
