(* ===== verification/AppTheory.v ===== *)
(** * The server's invariant

    [app_ok]: the tables are sound, every resident wave agrees with them and has exactly one live copy,
    and the two connection tables describe the same connections.  This file has the rules for stepping
    through a command of the server and the pieces every command is made of. *)

From stdpp Require Import sorting.
From S2P Require Import Prelude Tables Strings Unicode Json Attributes Text Delta ServerDoc Model Protocol Content.
From S2P Require Import DocBounds LiveWave LiveWaveTheory Storage OpLog Queries Effects Critical Handlers Coherence.
From S2P Require Import CoherenceLemmas CoherenceMembers CoherenceFrame CoherenceHandlers App.

(** * Loading a wave gives what storage says ([AppState::open_wave])

    From sound tables, the resident copy that [open_wave] builds agrees with them. *)

Section loading.
Context `{J : Json} `{W : World}.
Implicit Types db : Db.

(** [collect] on distinct keys. *)
Lemma collect_lookup {R V} (key : R → str) (f : R → V) t k x :
  keyed key t → collect ((λ r, (key r, f r)) <$> t) !! k = Some x ↔ ∃ r, r ∈ t ∧ key r = k ∧ f r = x.
Proof.
  intros Hk. unfold collect. rewrite <- elem_of_list_to_map.
  - rewrite elem_of_reverse, list_elem_of_fmap. split; [intros (r & [= -> ->] & Hr)|intros (r & Hr & <- & <-)]; eauto.
  - rewrite fmap_reverse, <- list_fmap_compose, reverse_Permutation. exact Hk.
Qed.

(** ** Members *)

Definition users_in (id : WaveletId) (ms : list ParticipantRow) : list UserId :=
  pr_user_id <$> filter (λ p, pr_wavelet_id p = id) ms.

Definition with_members (ms : list ParticipantRow) (w : Wavelet) : Wavelet :=
  mkWavelet (wl_id w) (wl_wave_id w) (wl_kind w) (wl_title w) (wl_participants w ++ users_in (wl_id w) ms)
    (wl_anchor_blip w) (wl_created_at w) (wl_last_modified w).

Lemma with_members_cons p ms w :
  with_members (p :: ms) w =
  with_members ms (if str_eqb (wl_id w) (pr_wavelet_id p) then push_participant (pr_user_id p) w else w).
Proof.
  unfold with_members, users_in, str_eqb. rewrite filter_cons. destruct w as [id wave k t ps a c m]. simpl.
  destruct (decide (pr_wavelet_id p = id)) as [E|E].
  - rewrite bool_decide_eq_true_2 by done. simpl. by rewrite <- app_assoc.
  - rewrite bool_decide_eq_false_2 by done. done.
Qed.

Lemma fold_members ms ws :
  keyed wl_id ws →
  foldl (λ ws p, update_first (λ w, str_eqb (wl_id w) (pr_wavelet_id p)) (push_participant (pr_user_id p)) ws) ws ms =
  with_members ms <$> ws.
Proof.
  revert ws. induction ms as [|p ms IH]; intros ws Hk; simpl.
  - rewrite <- (list_fmap_id ws) at 1. apply list_fmap_ext. intros _ w _. unfold with_members, users_in. simpl.
    rewrite app_nil_r. by destruct w.
  - rewrite (update_first_where wl_id (pr_wavelet_id p)) by done. rewrite IH by by apply keyed_update.
    unfold update_where. rewrite <- list_fmap_compose. apply list_fmap_ext. intros _ w _. simpl.
    by rewrite with_members_cons.
Qed.

(** The rows of memberships in wavelets of a wave. *)
Definition members_of db (id : WaveId) : list ParticipantRow :=
  order_by pr_added_at
    (p ← db_participants db;
     const p <$> select_where (λ s, str_eqb (wlr_id s) (pr_wavelet_id p) && str_eqb (wlr_wave_id s) id) (db_wavelets db)).

Definition rows_of db (id : WaveId) : list WaveletRow :=
  order_by wlr_created_at (select_where (λ w, str_eqb (wlr_wave_id w) id) (db_wavelets db)).

Lemma elem_of_members db id p :
  p ∈ members_of db id ↔ p ∈ db_participants db ∧ ∃ r, r ∈ db_wavelets db ∧ wlr_id r = pr_wavelet_id p ∧ wlr_wave_id r = id.
Proof.
  unfold members_of. rewrite elem_of_order_by, list_elem_of_bind. setoid_rewrite list_elem_of_fmap.
  setoid_rewrite elem_of_select. setoid_rewrite andb_true_iff. unfold str_eqb. setoid_rewrite bool_decide_eq_true.
  split; [intros (q & (r & -> & Hr) & Hq)|intros (Hp & r & Hr)]; [naive_solver|]. exists p. split; [|done].
  exists r. naive_solver.
Qed.

Lemma elem_of_rows db id r : r ∈ rows_of db id ↔ r ∈ db_wavelets db ∧ wlr_wave_id r = id.
Proof. unfold rows_of. by rewrite elem_of_order_by, elem_of_select, str_eqb_spec. Qed.

Lemma keyed_rows db id : db_sound db → keyed wlr_id (rows_of db id).
Proof.
  intros Hd. unfold rows_of. eapply keyed_perm; [symmetry; apply order_by_perm|]. by apply keyed_filter, key_wavelets.
Qed.

Lemma wavelets_of_wave_eq db id :
  db_sound db → wavelets_of_wave db id = (λ r, with_members (members_of db id) (row_to_wavelet r)) <$> rows_of db id.
Proof.
  intros Hd. unfold wavelets_of_wave. cbv zeta. fold (members_of db id) (rows_of db id).
  rewrite fold_members, <- list_fmap_compose; [done|]. unfold keyed. rewrite <- list_fmap_compose. by apply keyed_rows.
Qed.

(** A loaded wavelet and its row. *)
Lemma loaded_agrees db id r :
  db_sound db → r ∈ rows_of db id → agrees db (with_members (members_of db id) (row_to_wavelet r)) r.
Proof.
  intros Hd [Hr Hw]%elem_of_rows. split_and!; try done.
  - simpl. destruct (check_kind _ Hd r Hr) as [k Hk]. rewrite Hk. by destruct k.
  - intros u. simpl. rewrite is_wavelet_participant_spec. unfold users_in. rewrite list_elem_of_fmap.
    setoid_rewrite list_elem_of_filter. setoid_rewrite elem_of_members. split; [naive_solver|].
    intros (p & Hp & E1 & E2). exists p. split; [done|]. split; [done|]. split; [done|]. exists r. by rewrite E1.
Qed.

(** ** The whole wave *)

Lemma wave_row db id w :
  wave db id = Ok (Some w) → ∃ r, r ∈ db_waves db ∧ wr_id r = id ∧ wave_id w = id ∧ wr_creator r = wave_creator w ∧
    wr_created_at r = wave_created_at w ∧ wr_mode r = mode_as_str (wave_mode w).
Proof.
  unfold wave. destruct (find_row _ _) as [r|] eqn:E; [|done]. apply find_row_some in E as [Hr Hid%bool_decide_eq_true].
  destruct (mode_parse _) as [m|] eqn:Em; [|done]. intros [= <-]. exists r. apply mode_parse_some in Em. by split_and!.
Qed.

Lemma elem_of_blips db id b :
  b ∈ blips_of_wave db id ↔ b ∈ db_blips db ∧ blip_wave_id b = id ∧ blip_deleted b = false.
Proof.
  unfold blips_of_wave. rewrite elem_of_order_by, elem_of_select, andb_true_iff, str_eqb_spec, negb_true_iff. tauto.
Qed.

Lemma keyed_blips db id : db_sound db → keyed blip_id (blips_of_wave db id).
Proof.
  intros Hd. unfold blips_of_wave. eapply keyed_perm; [symmetry; apply order_by_perm|]. by apply keyed_filter, key_blips.
Qed.

Lemma elem_of_threads db id t :
  t ∈ comments_of_wave db id ↔ ∃ c, c ∈ db_comments db ∧ cr_wave_id c = id ∧ cr_thread c = t.
Proof.
  unfold comments_of_wave. rewrite elem_of_order_by, list_elem_of_fmap. setoid_rewrite elem_of_select.
  setoid_rewrite str_eqb_spec. naive_solver.
Qed.

Lemma keyed_threads db id : db_sound db → keyed ct_id (comments_of_wave db id).
Proof.
  intros Hd. unfold comments_of_wave. eapply keyed_perm; [symmetry; apply order_by_perm|]. unfold keyed.
  rewrite <- list_fmap_compose. by apply (keyed_filter (λ c, ct_id (cr_thread c))), key_comments.
Qed.

Lemma loaded_coherent db id w users :
  db_sound db → wave db id = Ok (Some w) →
  coherent db (live_of w (wavelets_of_wave db id) (blips_of_wave db id) (comments_of_wave db id) users).
Proof.
  intros Hd Hw. destruct (wave_row _ _ _ Hw) as (r & Hr & E1 & E2 & Hrest).
  rewrite wavelets_of_wave_eq by done. constructor; simpl; rewrite ?E2.
  - by exists r.
  - unfold keyed. rewrite <- list_fmap_compose. by apply keyed_rows.
  - intros x (s & -> & Hs)%list_elem_of_fmap. exists s. pose proof Hs as [? ?]%elem_of_rows.
    split_and!; [done|by apply loaded_agrees|done].
  - intros s Hs Ew. eexists. split; [apply list_elem_of_fmap; exists s; split; [done|by apply elem_of_rows]|].
    by apply loaded_agrees, elem_of_rows.
  - intros b. rewrite <- elem_of_blips. setoid_rewrite (collect_lookup blip_id); [|by apply keyed_blips].
    split; [intros Hb; eexists; split; [by exists b|done]|]. intros (lb & (b' & Hb & _ & <-) & <-). done.
  - intros i lb Hl. apply (collect_lookup blip_id) in Hl as (b & [Hb _]%elem_of_blips & <- & <-); [|by apply keyed_blips].
    split; [done|]. by apply live_blip_new_doc, (check_content _ Hd).
  - intros t. rewrite <- elem_of_threads. rewrite (collect_lookup ct_id) by by apply keyed_threads.
    split; [intros Ht; by exists t|]. by intros (t' & Ht & _ & ->).
  - intros i t Hl. apply (collect_lookup ct_id) in Hl as (t' & _ & <- & <-); [done|by apply keyed_threads].
Qed.

Lemma loaded_who db id w users :
  wave db id = Ok (Some w) →
  who (live_of w (wavelets_of_wave db id) (blips_of_wave db id) (comments_of_wave db id) users) = (id, false).
Proof. intros Hw. destruct (wave_row _ _ _ Hw) as (r & _ & _ & E & _). unfold who. simpl. by rewrite E. Qed.

End loading.

(** * The invariant *)

Section theory.
Context `{J : Json} `{W : World}.
Implicit Types db : Db.
Implicit Types l : LiveWave.
Implicit Types a : App.

(** ** The invariant *)

(** A connection is listed under its user, and under nobody else; nobody has more than the limit. *)
Record conns_ok a : Prop := {
  co_listed : ∀ c hd, app_conns a !! c = Some hd → ∃ cs, app_user_conns a !! conn_user hd = Some cs ∧ c ∈ cs;
  co_owned : ∀ u cs c, app_user_conns a !! u = Some cs → c ∈ cs → ∃ hd, app_conns a !! c = Some hd ∧ conn_user hd = u;
  co_few : ∀ u cs, app_user_conns a !! u = Some cs → (size cs ≤ MAX_CONNECTIONS_PER_USER)%nat;
  co_ids : ∀ c, is_Some (app_conns a !! c) → (c < app_next_conn a)%N;
}.

Record app_ok a : Prop := {
  ao_db : db_sound (app_db a);
  ao_waves : ∀ id h, app_waves a !! id = Some h →
    ∃ l, app_heap a !! h = Some l ∧ who l = (id, false) ∧ coherent (app_db a) l;
  ao_live : ∀ h l, app_heap a !! h = Some l → lw_evicted l = false → app_waves a !! wave_id (lw_wave l) = Some h;
  ao_conns : conns_ok a;
}.

(** What [app_ok] looks at. *)
Definition quiet a a' : Prop :=
  app_db a' = app_db a ∧ app_heap a' = app_heap a ∧ app_waves a' = app_waves a ∧
  app_conns a' = app_conns a ∧ app_user_conns a' = app_user_conns a ∧ app_next_conn a' = app_next_conn a.

Lemma quiet_refl a : quiet a a.
Proof. done. Qed.

Lemma quiet_trans a1 a2 a3 : quiet a1 a2 → quiet a2 a3 → quiet a1 a3.
Proof. unfold quiet. intuition congruence. Qed.

Lemma conns_quiet a a' :
  app_conns a' = app_conns a → app_user_conns a' = app_user_conns a → app_next_conn a' = app_next_conn a →
  conns_ok a → conns_ok a'.
Proof. intros E1 E2 E3 []. constructor; rewrite ?E1, ?E2, ?E3; done. Qed.

Lemma quiet_ok a a' : quiet a a' → app_ok a → app_ok a'.
Proof.
  intros (E1 & E2 & E3 & E4 & E5 & E6) [A1 A2 A3 A4].
  constructor; rewrite ?E1, ?E2, ?E3; try done. by apply (conns_quiet a).
Qed.

(** Tables that resident waves are not made of. *)
Definition same_core db db' : Prop :=
  db_waves db' = db_waves db ∧ db_wavelets db' = db_wavelets db ∧ db_participants db' = db_participants db ∧
  db_blips db' = db_blips db ∧ db_comments db' = db_comments db ∧ db_ops db' = db_ops db.

Lemma sound_core db db' : same_core db db' → db_sound db → db_sound db'.
Proof.
  intros (E1 & E2 & E3 & E4 & E5 & E6) []. constructor; unfold wavelet_exists in *;
    rewrite ?E1, ?E2, ?E3, ?E4, ?E5; try done. by apply (ops_ok_same db).
Qed.

Lemma coherent_core db db' l : same_core db db' → coherent db l → coherent db' l.
Proof.
  intros (E1 & E2 & E3 & E4 & E5 & _) []. constructor; unfold agrees, is_wavelet_participant in *;
    rewrite ?E1, ?E2, ?E3, ?E4, ?E5; done.
Qed.

Lemma core_ok a a' :
  same_core (app_db a) (app_db a') → app_heap a' = app_heap a → app_waves a' = app_waves a →
  app_conns a' = app_conns a → app_user_conns a' = app_user_conns a → app_next_conn a' = app_next_conn a →
  app_ok a → app_ok a'.
Proof.
  intros Hc E2 E3 E4 E5 E6 [A1 A2 A3 A4]. constructor; rewrite ?E2, ?E3; try done.
  - by eapply sound_core.
  - intros id h (l & Hl & Hw & Hco)%A2. exists l. split_and!; [done..|by eapply coherent_core].
  - by apply (conns_quiet a).
Qed.

(** What goes on beside the waves: sign-ups, sessions, uploads.  No wave, membership or message is touched, and
    nothing is queued; a connection may be told to close. *)
Definition aside a a' : Prop :=
  same_core (app_db a) (app_db a') ∧ app_heap a' = app_heap a ∧ app_waves a' = app_waves a ∧
  app_conns a' = app_conns a ∧ app_user_conns a' = app_user_conns a ∧ app_next_conn a' = app_next_conn a ∧
  app_subscribed a' = app_subscribed a ∧ app_pending a' = app_pending a ∧
  ∀ c, ch_sent <$> out_channels (app_out a') !! c = ch_sent <$> out_channels (app_out a) !! c.

Lemma aside_ok a a' : aside a a' → app_ok a → app_ok a'.
Proof. intros (H1 & H2 & H3 & H4 & H5 & H6 & _). by apply core_ok. Qed.

(** ** Rules *)

Lemma wp_get_app Q a : Q (Ok a) a → wp get_app Q a.
Proof. done. Qed.

Lemma wp_modify f Q a : Q (Ok tt) (f a) → wp (modify f) Q a.
Proof. done. Qed.

Lemma wp_app_now Q a : (∀ t a', quiet a a' → Q (Ok t) a') → wp (now_ (S := App)) Q a.
Proof. intros H. by apply H. Qed.

Lemma wp_app_uuid Q a : (∀ t a', quiet a a' → Q (Ok t) a') → wp (uuid_ (S := App)) Q a.
Proof. intros H. by apply H. Qed.

(** A read either answers from the tables or fails; nothing else changes. *)
Lemma wp_try_read {T} (f : Db → T) Q a :
  (∀ a', quiet a a' → Q (Ok (Ok (f (app_db a)))) a') → (∀ e a', quiet a a' → Q (Ok (Err e)) a') →
  wp (try_db (S := App) (reading f)) Q a.
Proof.
  intros H1 H2. apply wp_stored_try; [intros t db [= <- <-]|intros e]; [apply H1|apply H2]; by destruct a.
Qed.

Lemma wp_db_read {T} (f : Db → T) Q a :
  (∀ a', quiet a a' → Q (Ok (f (app_db a))) a') → (∀ a', quiet a a' → Q (Err internal) a') →
  wp (db_read (S := App) f) Q a.
Proof.
  intros H1 H2. apply wp_stored_call; [intros t db [= <- <-]|]; [apply H1|apply H2]; by destruct a.
Qed.

Lemma wp_or_fail_read {T U} (f : Db → T) (k : T → AM (DbResult U)) Q a :
  (∀ a', quiet a a' → wp (k (f (app_db a))) Q a') → (∀ e a', quiet a a' → Q (Ok (Err e)) a') →
  wp (or_fail (reading f) k) Q a.
Proof. intros H1 H2. apply wp_bind, wp_try_read; [exact H1|]. intros e a' Ha. by apply H2. Qed.

Definition current a (id : WaveId) (h : Handle) : Prop := app_waves a !! id = Some h.

Lemma quiet_current a a' id h : quiet a a' → current a id h → current a' id h.
Proof. unfold current. by intros (_ & _ & -> & _). Qed.

(** ** Loading *)

Lemma put_waves_ok a id l :
  app_ok a → app_waves a !! id = None → who l = (id, false) → coherent (app_db a) l →
  app_ok (put_waves (app_heap a ++ [l]) (<[id := length (app_heap a)]> (app_waves a)) a).
Proof.
  intros [A1 A2 A3 A4] Hid [= Hw He] Hc. constructor; simpl; [done| | |by apply (conns_quiet a)].
  - intros id' h [[<- <-]|[Hne Hh]]%lookup_insert_Some.
    + exists l. unfold who. rewrite list_lookup_middle by done. by rewrite Hw, He.
    + destruct (A2 _ _ Hh) as (l' & Hl' & ?). exists l'. split; [|done]. by apply lookup_app_l_Some.
  - intros h l' [Hl|[Hge Hl]]%lookup_app_Some He'.
    + pose proof (A3 _ _ Hl He') as H. rewrite lookup_insert_ne; [done|]. intros E. congruence.
    + apply list_lookup_singleton_Some in Hl as [Hh <-]. rewrite Hw, lookup_insert_eq. f_equal. lia.
Qed.

Lemma wp_open_wave id Q a :
  app_ok a →
  (∀ r a', app_ok a' → same_core (app_db a) (app_db a') →
     match r with Ok (Some h) => current a' id h | _ => True end → Q (Ok r) a') →
  wp (open_wave id) Q a.
Proof.
  intros Ha HQ. unfold open_wave. apply wp_bind, wp_get_app. destruct (app_waves a !! id) as [h|] eqn:Eh.
  { by apply wp_ret, HQ. }
  assert (∀ e a', quiet a a' → Q (Ok (Err e)) a') as Herr.
  { intros e a' Hq. pose proof Hq as (E & _). apply HQ; [by apply (quiet_ok a)|by rewrite E|done]. }
  unfold or_fail at 1. apply wp_bind, wp_stored_try.
  2:{ intros e. apply wp_ret. by apply Herr. }
  intros w db Hw. cbv beta iota. simpl in Hw. destruct (wave (app_db a) id) as [w'|] eqn:Ew; [|done].
  injection Hw as -> <-. assert (quiet a (app_step (put_db (app_db a) a))) as Hq by by destruct a.
  change (st_step (st_put_db (app_db a) a)) with (app_step (put_db (app_db a) a)).
  revert Hq. generalize (app_step (put_db (app_db a) a)). intros a1 Hq1. simpl.
  destruct w as [w|].
  2:{ apply wp_ret. pose proof Hq1 as (E & _). apply HQ; [by apply (quiet_ok a)|by rewrite E|done]. }
  apply wp_or_fail_read; [|intros e a' Hq; exact (Herr _ _ (quiet_trans _ _ _ Hq1 Hq))].
  intros a2 Hq2. pose proof (quiet_trans _ _ _ Hq1 Hq2) as Hq2'.
  apply wp_or_fail_read; [|intros e a' Hq; exact (Herr _ _ (quiet_trans _ _ _ Hq2' Hq))].
  intros a3 Hq3. pose proof (quiet_trans _ _ _ Hq2' Hq3) as Hq3'.
  apply wp_or_fail_read; [|intros e a' Hq; exact (Herr _ _ (quiet_trans _ _ _ Hq3' Hq))].
  intros a4 Hq4. pose proof (quiet_trans _ _ _ Hq3' Hq4) as Hq4'.
  apply wp_or_fail_read; [|intros e a' Hq; exact (Herr _ _ (quiet_trans _ _ _ Hq4' Hq))].
  intros a5 Hq5. pose proof (quiet_trans _ _ _ Hq4' Hq5) as Hq5'.
  apply wp_bind, wp_get_app. cbv zeta. apply wp_bind, wp_modify, wp_ret.
  destruct Hq1 as (F1 & _), Hq2' as (F2 & _), Hq3' as (F3 & _), Hq4' as (F4 & _). rewrite F1, F2, F3, F4.
  pose proof Hq5' as (F5 & _ & F6 & _). apply HQ; [|simpl; by rewrite F5|apply lookup_insert_eq].
  apply put_waves_ok; [by apply (quiet_ok a)|by rewrite F6|by apply loaded_who|].
  rewrite F5. apply loaded_coherent; [by apply ao_db|done].
Qed.

(** ** Under a lock *)

(** A critical section that leaves memory and storage in agreement, for the wave [id]. *)
Definition section_ok {T} (id : WaveId) (m : CM T) : Prop := ∀ s, inv (c_db s) id s → inv (c_db s) id (m s).2.

Lemma wp_locked_at {T} (m : CM T) id h Q a :
  app_ok a → current a id h →
  (∀ l, app_heap a !! h = Some l → who l = (id, false) → coherent (app_db a) l →
     inv (app_db a) id (m (crit_of a l)).2) →
  (∀ r a', app_ok a' → current a' id h → Q r a') → wp (locked h m) Q a.
Proof.
  intros Ha Hh Hm HQ. pose proof Ha as [A1 A2 A3 A4]. destruct (A2 _ _ Hh) as (l & Hl & Hw & Hc).
  specialize (Hm l Hl Hw Hc). unfold wp, locked. rewrite Hl.
  destruct (m (crit_of a l)) as [r s] eqn:E. simpl in *. destruct Hm as (Hd & Hc' & Hw' & Hlocal).
  injection Hw' as Hid Hev. apply HQ; [|done]. constructor; simpl.
  - done.
  - intros id' h' Hh'. destruct (decide (h' = h)) as [->|Hne].
    + exists (c_live s). rewrite list_lookup_insert_eq by by eapply lookup_lt_Some. split_and!; try done.
      assert (id' = id) as ->; [|unfold who; by rewrite Hid, Hev].
      destruct (A2 _ _ Hh') as (l' & Hl' & Hw' & _). assert (l' = l) as -> by congruence. congruence.
    + destruct (A2 _ _ Hh') as (l' & Hl' & [= Hi' He'] & Hc''). exists l'.
      rewrite list_lookup_insert_ne by done. unfold who. rewrite Hi', He'. split_and!; try done.
      eapply coherent_frame; [|done]. apply Hlocal. rewrite Hi'. intros ->. congruence.
  - intros h' l' Hl' He'. destruct (decide (h' = h)) as [->|Hne].
    + rewrite list_lookup_insert_eq in Hl' by by eapply lookup_lt_Some. injection Hl' as <-. by rewrite Hid.
    + rewrite list_lookup_insert_ne in Hl' by done. by apply A3.
  - by apply (conns_quiet a).
Qed.

Lemma wp_locked {T} (m : CM T) id h Q a :
  app_ok a → current a id h → section_ok id m → (∀ r a', app_ok a' → current a' id h → Q r a') →
  wp (locked h m) Q a.
Proof.
  intros Ha Hh Hm HQ. apply (wp_locked_at m id h); [done..| |done]. intros l Hl Hw Hc.
  apply Hm, inv_start; [apply Ha|done|done].
Qed.

(** Looking at the resident copy of a wave. *)
Lemma wp_peek id h Q a :
  app_ok a → current a id h →
  (∀ l a', app_heap a !! h = Some l → who l = (id, false) → quiet a a' → Q (Ok l) a') → wp (locked h get_live) Q a.
Proof.
  intros Ha Hh HQ. destruct (ao_waves _ Ha _ _ Hh) as (l & Hl & Hw & _). unfold wp, locked. rewrite Hl. simpl.
  apply (HQ l); [done..|]. split_and!; try done. simpl. by apply list_insert_id.
Qed.

(** ** Eviction *)

Lemma evict_ok a id h l l' out :
  app_ok a → app_waves a !! id = Some h → app_heap a !! h = Some l →
  app_ok (put_out out (put_waves (<[h := set_evicted true l']> (app_heap a)) (delete id (app_waves a)) a)).
Proof.
  intros [A1 A2 A3 A4] Hh Hl. constructor; simpl; [done| | |by apply (conns_quiet a)].
  - intros id' h' [Hne Hh']%lookup_delete_Some. destruct (A2 _ _ Hh') as (x & Hx & Hw & Hc). exists x.
    split; [|done]. rewrite list_lookup_insert_ne; [done|]. intros ->.
    destruct (A2 _ _ Hh) as (y & Hy & Hw' & _). congruence.
  - intros h' x Hx He. destruct (decide (h' = h)) as [->|Hne].
    + rewrite list_lookup_insert_eq in Hx by by eapply lookup_lt_Some. by injection Hx as <-.
    + rewrite list_lookup_insert_ne in Hx by done. pose proof (A3 _ _ Hx He) as H.
      rewrite lookup_delete_ne; [done|]. intros E. congruence.
Qed.

Lemma maybe_evict_ok id a : app_ok a → app_ok (maybe_evict id a).
Proof.
  intros Ha. unfold maybe_evict. destruct (app_waves a !! id) as [h|] eqn:Eh; [|done].
  destruct (app_heap a !! h) as [l|] eqn:El; [|done]. case_decide; [|done].
  apply (quiet_ok (put_out (app_out a) (put_waves (<[h := set_evicted true l]> (app_heap a)) (delete id (app_waves a)) a)));
    [done|by eapply evict_ok].
Qed.

Lemma evict_after_panic_ok id a : app_ok a → app_ok (evict_after_panic id a).
Proof.
  intros Ha. unfold evict_after_panic. destruct (app_waves a !! id) as [h|] eqn:Eh; [|done].
  destruct (app_heap a !! h) as [l|] eqn:El; [|done]. destruct (disconnect _ _ _) as [l' out]. by eapply evict_ok.
Qed.

(** ** Connections *)

Lemma register_conn_ok user token_hash a :
  app_ok a → (app_next_conn a + 1 < two64)%N → app_ok (register_conn user MAX_CONNECTIONS_PER_USER token_hash a).2.
Proof.
  intros [A1 A2 A3 [C1 C2 C3 C4]] Hn. unfold register_conn. destruct (_ <=? _)%nat eqn:E; constructor; simpl; try done.
  - constructor; simpl.
    + intros c hd Hc. destruct (C1 _ _ Hc) as (cs & Hcs & Hin). destruct (decide (conn_user hd = user)) as [E0|Hne].
      * rewrite E0 in *. rewrite lookup_insert_eq, Hcs. by eexists.
      * rewrite lookup_insert_ne by done. eauto.
    + intros u cs c [[<- <-]|[Hne Hcs]]%lookup_insert_Some Hin; [|by eapply C2].
      destruct (app_user_conns a !! user) as [cs|] eqn:Eu; simpl in Hin; [by eapply C2|set_solver].
    + intros u cs [[<- <-]|[Hne Hcs]]%lookup_insert_Some; [|by eapply C3].
      destruct (app_user_conns a !! user) as [cs|] eqn:Eu; [by eapply C3|]. simpl.
      vm_compute. lia.
    + done.
  - apply Nat.leb_gt in E. assert (app_conns a !! app_next_conn a = None) as Hfresh.
    { apply eq_None_not_Some. intros H%C4. lia. }
    constructor; simpl.
    + intros c hd [[<- <-]|[Hne Hc]]%lookup_insert_Some; simpl.
      * rewrite lookup_insert_eq. eexists. split; [done|set_solver].
      * destruct (C1 _ _ Hc) as (cs & Hcs & Hin). destruct (decide (conn_user hd = user)) as [E0|Hneu].
        -- rewrite E0 in *. rewrite lookup_insert_eq, Hcs. eexists. split; [done|set_solver].
        -- rewrite lookup_insert_ne by done. eauto.
    + intros u cs c [[<- <-]|[Hne Hcs]]%lookup_insert_Some.
      * intros [->%elem_of_singleton|Hin]%elem_of_union; [rewrite lookup_insert_eq; eauto|].
        destruct (app_user_conns a !! user) as [cs|] eqn:Eu; simpl in Hin; [|set_solver].
        destruct (C2 _ _ _ Eu Hin) as (hd & Hhd & Hu). rewrite lookup_insert_ne by congruence. eauto.
      * intros Hin. destruct (C2 _ _ _ Hcs Hin) as (hd & Hhd & Hu). rewrite lookup_insert_ne by congruence. eauto.
    + intros u cs [[<- <-]|[Hne Hcs]]%lookup_insert_Some; [|by eapply C3].
      pose proof (size_union_alt {[app_next_conn a]} (default ∅ (app_user_conns a !! user))) as Hs.
      pose proof (subseteq_size (default ∅ (app_user_conns a !! user) ∖ {[app_next_conn a]})
        (default ∅ (app_user_conns a !! user)) ltac:(set_solver)). rewrite size_singleton in Hs. lia.
    + intros c [hd [[<- _]|[Hne Hc]]%lookup_insert_Some]; rewrite wadd_small by (unfold usize_max, two64 in *; lia); [lia|].
      pose proof (C4 c ltac:(eauto)). lia.
Qed.

Lemma unregister_conn_ok conn a : app_ok a → app_ok (unregister_conn conn a).
Proof.
  intros [A1 A2 A3 [C1 C2 C3 C4]]. unfold unregister_conn. destruct (app_conns a !! conn) as [hd|] eqn:Ec; [|done].
  destruct (C1 _ _ Ec) as (cs & Hcs & Hin). rewrite lookup_alter_eq, Hcs. simpl. constructor; simpl; try done.
  assert (∀ u s, (if decide (cs ∖ {[conn]} = ∅) then delete (conn_user hd) (alter (λ s, s ∖ {[conn]}) (conn_user hd) (app_user_conns a))
    else alter (λ s, s ∖ {[conn]}) (conn_user hd) (app_user_conns a)) !! u = Some s →
    (u = conn_user hd ∧ s = cs ∖ {[conn]}) ∨ (u ≠ conn_user hd ∧ app_user_conns a !! u = Some s)) as Hback.
  { intros u s. destruct (decide (u = conn_user hd)) as [->|Hne].
    - case_decide; [by rewrite lookup_delete_eq|]. rewrite lookup_alter_eq, Hcs. intros [= <-]. by left.
    - case_decide; [rewrite lookup_delete_ne by done|]; rewrite lookup_alter_ne by done; by right. }
  constructor; simpl.
  - intros c hd' [Hne Hc]%lookup_delete_Some. destruct (C1 _ _ Hc) as (cs' & Hcs' & Hin').
    destruct (decide (conn_user hd' = conn_user hd)) as [E|E].
    + assert (cs' = cs) as -> by congruence. rewrite decide_False by set_solver.
      rewrite E, lookup_alter_eq, Hcs. eexists. split; [done|set_solver].
    + exists cs'. split; [|done]. case_decide; [rewrite lookup_delete_ne by done|]; by rewrite lookup_alter_ne.
  - intros u s c Hs Hc. destruct (Hback _ _ Hs) as [[-> ->]|[Hne Hs']].
    + apply elem_of_difference in Hc as [Hc Hnc]. destruct (C2 _ _ _ Hcs Hc) as (hd' & Hhd' & Hu).
      exists hd'. rewrite lookup_delete_ne by set_solver. done.
    + destruct (C2 _ _ _ Hs' Hc) as (hd' & Hhd' & Hu). exists hd'. rewrite lookup_delete_ne; [done|].
      intros ->. congruence.
  - intros u s Hs. destruct (Hback _ _ Hs) as [[-> ->]|[Hne Hs']]; [|by eapply C3].
    pose proof (C3 _ _ Hcs). pose proof (subseteq_size (cs ∖ {[conn]}) cs ltac:(set_solver)). lia.
  - intros c [hd' [_ Hc]%lookup_delete_Some]. apply C4. eauto.
Qed.

End theory.
