(* ===== verification/Limit.v ===== *)
(** * The rate limiter ([crates/gal-server/src/limit.rs])

    A token bucket per key.  Times are seconds since the limiter was made and token counts are exact
    rationals; the rounding of [f64] is not modelled. *)

From Stdlib Require Import QArith Qminmax Lqa.
From S2P Require Import Prelude Strings Unicode Json Model Protocol.

#[local] Open Scope Q_scope.

Section limit.

Record Bucket := mkBucket { bk_tokens : Q; bk_last : Q }.

Definition CLEANUP_INTERVAL : Q := 60.

Record RateLimiter := mkLimiter {
  rl_entries : gmap str Bucket;
  rl_last_cleanup : Q;
  rl_capacity : Q;
  rl_refill_per_sec : Q;
  rl_idle_eviction : Q;
}.

Definition limiter_new (now capacity per_sec : Q) : RateLimiter :=
  mkLimiter ∅ now capacity per_sec (Qmax (capacity / per_sec) 600).

(** [now.duration_since(earlier)]: zero when time has not passed. *)
Definition duration_since (now earlier : Q) : Q := Qmax 0 (now - earlier).

Definition idle (rl : RateLimiter) (now : Q) (b : Bucket) : bool :=
  Qle_bool (rl_idle_eviction rl) (duration_since now (bk_last b)).

(** Forget idle keys, when there are many and it was not done recently. *)
Definition cleanup (now : Q) (rl : RateLimiter) : RateLimiter :=
  if (4096 <? N.of_nat (size (rl_entries rl)))%N && Qle_bool CLEANUP_INTERVAL (duration_since now (rl_last_cleanup rl))
  then mkLimiter (filter (λ e, idle rl now e.2 = false) (rl_entries rl)) now (rl_capacity rl)
         (rl_refill_per_sec rl) (rl_idle_eviction rl)
  else rl.

Definition refilled (rl : RateLimiter) (now : Q) (b : Bucket) : Q :=
  Qmin (bk_tokens b + duration_since now (bk_last b) * rl_refill_per_sec rl) (rl_capacity rl).

Definition take_tokens (now : Q) (key : str) (cost : Q) (consume : bool) (rl : RateLimiter) : bool * RateLimiter :=
  let rl := cleanup now rl in
  let bucket := default (mkBucket (rl_capacity rl) now) (rl_entries rl !! key) in
  let tokens := refilled rl now bucket in
  let allowed := Qle_bool cost tokens in
  let left := if allowed && consume then tokens - cost else tokens in
  (allowed, mkLimiter (<[key := mkBucket left now]> (rl_entries rl)) (rl_last_cleanup rl) (rl_capacity rl)
              (rl_refill_per_sec rl) (rl_idle_eviction rl)).

Definition check_cost (now : Q) (key : str) (cost : Q) : RateLimiter → bool * RateLimiter :=
  take_tokens now key cost true.
Definition check (now : Q) (key : str) : RateLimiter → bool * RateLimiter := check_cost now key 1.
Definition would_allow (now : Q) (key : str) : RateLimiter → bool * RateLimiter := take_tokens now key 1 false.

(** [value.split(',').next()]. *)
Fixpoint before_comma (s : str) : str :=
  match s with
  | [] => []
  | c :: s => if (c =? 44)%N then [] else c :: before_comma s
  end.

Definition client_key (peer forwarded : option str) (trust_forwarded : bool) : str :=
  let direct := default (lit "unknown") peer in
  match forwarded with
  | Some value =>
      let first := trim (before_comma value) in
      if trust_forwarded && negb (bool_decide (first = [])) then first else direct
  | None => direct
  end.

(** ** The limiters of the server ([AppState]) *)

Record Limiters := mkLimiters {
  auth_limiter : RateLimiter;
  lookup_limiter : RateLimiter;
  account_limiter : RateLimiter;
  command_limiter : RateLimiter;
}.

Definition limiters_new (now : Q) : Limiters :=
  mkLimiters (limiter_new now 10 (1 # 2)) (limiter_new now 30 2) (limiter_new now 10 (1 # 120))
    (limiter_new now 1200 200).

Definition account_key `{Unicode} (name : str) : str := lit "account:" ++ to_lowercase (trim name).

Definition check_auth_rate (now : Q) (trust : bool) (forwarded peer : option str) (ls : Limiters) : bool * Limiters :=
  let '(ok, l) := check now (client_key peer forwarded trust) (auth_limiter ls) in
  (ok, mkLimiters l (lookup_limiter ls) (account_limiter ls) (command_limiter ls)).

Definition check_lookup_rate (now : Q) (trust : bool) (forwarded peer : option str) (ls : Limiters) : bool * Limiters :=
  let '(ok, l) := check now (client_key peer forwarded trust) (lookup_limiter ls) in
  (ok, mkLimiters (auth_limiter ls) l (account_limiter ls) (command_limiter ls)).

Definition account_is_throttled `{Unicode} (now : Q) (name : str) (ls : Limiters) : bool * Limiters :=
  let '(ok, l) := would_allow now (account_key name) (account_limiter ls) in
  (negb ok, mkLimiters (auth_limiter ls) (lookup_limiter ls) l (command_limiter ls)).

Definition note_failed_signin `{Unicode} (now : Q) (name : str) (ls : Limiters) : Limiters :=
  mkLimiters (auth_limiter ls) (lookup_limiter ls) (check now (account_key name) (account_limiter ls)).2
    (command_limiter ls).

Definition check_command_rate `{Json} (now : Q) (user : UserId) (command : ClientMessage) (ls : Limiters)
    : bool * Limiters :=
  let '(ok, l) := check_cost now user (cost command) (command_limiter ls) in
  (ok, mkLimiters (auth_limiter ls) (lookup_limiter ls) (account_limiter ls) l).

(** ** What a key may spend *)

(** Every bucket was last touched before [now] and holds between nothing and the capacity; a bucket is
    only forgotten once it would have filled up. *)
Record limiter_ok (rl : RateLimiter) (now : Q) : Prop := {
  lo_rate : 0 < rl_refill_per_sec rl;
  lo_capacity : 0 <= rl_capacity rl;
  lo_idle : rl_capacity rl <= rl_idle_eviction rl * rl_refill_per_sec rl;
  lo_buckets : map_Forall (λ _ b, 0 <= bk_tokens b /\ bk_tokens b <= rl_capacity rl /\ bk_last b <= now) (rl_entries rl);
}.

(** The tokens a key has at a time. *)
Definition available (rl : RateLimiter) (now : Q) (key : str) : Q :=
  match rl_entries rl !! key with Some b => refilled rl now b | None => rl_capacity rl end.

Lemma Qmax_cases x y : (x <= y /\ Qmax x y == y) \/ (y <= x /\ Qmax x y == x).
Proof. destruct (Q.max_spec x y) as [[H E]|[H E]]; [left|right]; split; lra. Qed.

Lemma Qmin_cases x y : (x <= y /\ Qmin x y == x) \/ (y <= x /\ Qmin x y == y).
Proof. destruct (Q.min_spec x y) as [[H E]|[H E]]; [left|right]; split; lra. Qed.

Lemma duration_forward now earlier : earlier <= now -> duration_since now earlier == now - earlier.
Proof. intros H. unfold duration_since. destruct (Qmax_cases 0 (now - earlier)) as [[? ->]|[? ->]]; lra. Qed.

Lemma limiter_new_ok now capacity per_sec : 0 < per_sec -> 0 <= capacity -> limiter_ok (limiter_new now capacity per_sec) now.
Proof.
  intros Hr Hc. constructor; simpl; try done.
  apply Qle_trans with (capacity / per_sec * per_sec); [apply Qle_lteq; right; field; lra|].
  apply Qmult_le_compat_r; [|lra]. apply Q.le_max_l.
Qed.

Lemma duration_nonneg now earlier : 0 <= duration_since now earlier.
Proof. unfold duration_since. destruct (Qmax_cases 0 (now - earlier)) as [[? ->]|[? ->]]; lra. Qed.

Section allowance.
Implicit Types rl : RateLimiter.

Lemma refilled_range rl now t key b :
  limiter_ok rl t -> rl_entries rl !! key = Some b -> t <= now ->
  0 <= refilled rl now b /\ refilled rl now b <= rl_capacity rl /\
  refilled rl now b == Qmin (bk_tokens b + (now - bk_last b) * rl_refill_per_sec rl) (rl_capacity rl).
Proof.
  intros [Hr Hc Hi Hb] Hk Ht. destruct (Hb _ _ Hk) as (H0 & H1 & H2). unfold refilled.
  rewrite (duration_forward now (bk_last b)) by lra.
  assert (0 <= (now - bk_last b) * rl_refill_per_sec rl) by (apply Qmult_le_0_compat; lra).
  destruct (Qmin_cases (bk_tokens b + (now - bk_last b) * rl_refill_per_sec rl) (rl_capacity rl)) as [[? E]|[? E]];
    rewrite E; repeat split; lra.
Qed.

(** Time gives at most the refill rate. *)
Lemma available_later rl t now now' key :
  limiter_ok rl t -> t <= now -> now <= now' ->
  available rl now' key <= available rl now key + (now' - now) * rl_refill_per_sec rl.
Proof.
  intros Hok Ht Hn. pose proof (lo_rate _ _ Hok). unfold available.
  assert (0 <= (now' - now) * rl_refill_per_sec rl) by (apply Qmult_le_0_compat; lra).
  destruct (rl_entries rl !! key) as [b|] eqn:E; [|lra].
  destruct (refilled_range _ now _ _ _ Hok E Ht) as (_ & _ & ->).
  destruct (refilled_range _ now' _ _ _ Hok E) as (_ & _ & ->); [lra|].
  destruct (Qmin_cases (bk_tokens b + (now - bk_last b) * rl_refill_per_sec rl) (rl_capacity rl)) as [[? ->]|[? ->]],
    (Qmin_cases (bk_tokens b + (now' - bk_last b) * rl_refill_per_sec rl) (rl_capacity rl)) as [[? ->]|[? ->]]; lra.
Qed.

Lemma cleanup_ok rl t now : limiter_ok rl t -> limiter_ok (cleanup now rl) t.
Proof.
  intros [Hr Hc Hi Hb]. unfold cleanup. destruct (_ && _); [|done]. constructor; simpl; try done.
  intros k b [Hk _]%map_lookup_filter_Some. by apply (Hb k).
Qed.

(** A forgotten bucket would have been full. *)
Lemma cleanup_available rl t now key :
  limiter_ok rl t -> t <= now -> available (cleanup now rl) now key == available rl now key.
Proof.
  intros Hok Ht. unfold cleanup. destruct (_ && _); [|reflexivity]. unfold available. simpl.
  destruct (rl_entries rl !! key) as [b|] eqn:E.
  - destruct (decide (idle rl now b = false)) as [Hidle|Hidle].
    + rewrite (map_lookup_filter_Some_2 _ _ _ _ E Hidle). reflexivity.
    + rewrite (proj2 (map_lookup_filter_None _ _ _)); [|right; intros x Ex; by simplify_eq/=].
      apply not_false_is_true in Hidle. unfold idle in Hidle. apply Qle_bool_iff in Hidle.
      destruct (refilled_range _ now _ _ _ Hok E Ht) as (_ & _ & ->).
      pose proof (lo_rate _ _ Hok) as Hr. pose proof (lo_idle _ _ Hok) as Hi. destruct (lo_buckets _ _ Hok _ _ E) as (H0 & _ & H2).
      rewrite (duration_forward now (bk_last b)) in Hidle by lra.
      assert (rl_idle_eviction rl * rl_refill_per_sec rl <= (now - bk_last b) * rl_refill_per_sec rl)
        by (apply Qmult_le_compat_r; lra).
      destruct (Qmin_cases (bk_tokens b + (now - bk_last b) * rl_refill_per_sec rl) (rl_capacity rl)) as [[? ->]|[? ->]]; lra.
  - rewrite (proj2 (map_lookup_filter_None _ _ _)); [reflexivity|by left].
Qed.

(** One call: what is taken comes off what was available, and nobody else is touched. *)
Lemma take_spec rl t now key cost consume :
  limiter_ok rl t -> t <= now -> 0 <= cost ->
  let r := take_tokens now key cost consume rl in
  limiter_ok r.2 now /\ rl_capacity r.2 = rl_capacity rl /\ rl_refill_per_sec r.2 = rl_refill_per_sec rl /\
  (r.1 = true <-> cost <= available rl now key) /\
  available r.2 now key == available rl now key - (if r.1 && consume then cost else 0) /\
  forall other, other <> key -> available r.2 now other == available rl now other.
Proof.
  intros Hok Ht Hcost r. pose proof (cleanup_ok _ _ now Hok) as Hok'.
  pose proof (cleanup_available _ _ now key Hok Ht) as Hav.
  assert (rl_capacity (cleanup now rl) = rl_capacity rl /\ rl_refill_per_sec (cleanup now rl) = rl_refill_per_sec rl /\
          rl_idle_eviction (cleanup now rl) = rl_idle_eviction rl) as (Ecap & Erate & Eidle).
  { unfold cleanup. by destruct (_ && _). }
  set (b := default (mkBucket (rl_capacity (cleanup now rl)) now) (rl_entries (cleanup now rl) !! key)).
  assert (0 <= refilled (cleanup now rl) now b /\ refilled (cleanup now rl) now b <= rl_capacity rl /\
          refilled (cleanup now rl) now b == available rl now key) as (R0 & R1 & R2).
  { rewrite <- Hav. unfold available, b. destruct (rl_entries (cleanup now rl) !! key) as [x|] eqn:E; simpl.
    - destruct (refilled_range _ now _ _ _ Hok' E Ht) as (? & ? & _). rewrite Ecap in *. repeat split; try done; reflexivity.
    - unfold refilled. simpl. rewrite (duration_forward now now) by lra. rewrite Ecap.
      pose proof (lo_capacity _ _ Hok).
      destruct (Qmin_cases (rl_capacity rl + (now - now) * rl_refill_per_sec (cleanup now rl)) (rl_capacity rl)) as [[? ->]|[? ->]];
        repeat split; lra. }
  set (left := if r.1 && consume then refilled (cleanup now rl) now b - cost else refilled (cleanup now rl) now b).
  assert (r.1 = true <-> cost <= refilled (cleanup now rl) now b) as Hall by apply Qle_bool_iff.
  assert (0 <= left /\ left <= rl_capacity rl /\ left == available rl now key - (if r.1 && consume then cost else 0)) as (L0 & L1 & L2).
  { unfold left. destruct (r.1) eqn:E; [pose proof (proj1 Hall eq_refl)|]; destruct consume; simpl; repeat split; lra. }
  assert (r.2 = mkLimiter (<[key := mkBucket left now]> (rl_entries (cleanup now rl))) (rl_last_cleanup (cleanup now rl))
    (rl_capacity (cleanup now rl)) (rl_refill_per_sec (cleanup now rl)) (rl_idle_eviction (cleanup now rl))) as Er by done.
  split; [|split; [|split; [|split; [|split]]]].
  - rewrite Er. destruct Hok' as [Hr Hc Hi Hb]. constructor; simpl; try done.
    apply map_Forall_insert_2; simpl; [rewrite Ecap; repeat split; try done; lra|].
    intros k x Hx. destruct (Hb k x Hx) as (? & ? & ?). repeat split; try done; lra.
  - by rewrite Er.
  - by rewrite Er.
  - rewrite <- R2. exact Hall.
  - rewrite <- L2, Er. unfold available. simpl. rewrite lookup_insert_eq. unfold refilled. simpl.
    rewrite (duration_forward now now) by lra. rewrite Ecap.
    destruct (Qmin_cases (left + (now - now) * rl_refill_per_sec (cleanup now rl)) (rl_capacity rl)) as [[? ->]|[? ->]]; lra.
  - intros other Hne. rewrite <- (cleanup_available _ _ now other Hok Ht), Er. unfold available. simpl.
    rewrite lookup_insert_ne by done. reflexivity.
Qed.

(** The tokens granted to a key over a sequence of calls, each with its time, key and price. *)
Fixpoint granted (key : str) (calls : list (Q * str * Q)) rl : Q :=
  match calls with
  | [] => 0
  | (now, k, cost) :: calls =>
      let '(ok, rl) := check_cost now k cost rl in
      (if ok && str_eqb k key then cost else 0) + granted key calls rl
  end.

(** Calls in order of time, none before the start or after the end, none with a negative price. *)
Fixpoint in_window (start end_ : Q) (calls : list (Q * str * Q)) : Prop :=
  match calls with
  | [] => start <= end_
  | (now, _, cost) :: calls => start <= now /\ 0 <= cost /\ in_window now end_ calls
  end.

Lemma in_window_le start end_ calls : in_window start end_ calls -> start <= end_.
Proof.
  revert start. induction calls as [|[[now k] cost] calls IH]; intros start; simpl; [done|].
  intros (H1 & _ & H2%IH). lra.
Qed.

Lemma granted_available key calls rl start end_ :
  limiter_ok rl start -> in_window start end_ calls ->
  granted key calls rl <= available rl start key + (end_ - start) * rl_refill_per_sec rl.
Proof.
  revert rl start. induction calls as [|[[now k] cost] calls IH]; intros rl start Hok Hw; cbn [granted].
  - simpl in Hw. assert (0 <= available rl start key).
    { unfold available. destruct (rl_entries rl !! key) eqn:E; [|apply Hok].
      eapply (refilled_range rl start); [done..|lra]. }
    assert (0 <= (end_ - start) * rl_refill_per_sec rl) by (apply Qmult_le_0_compat; [lra|]; pose proof (lo_rate _ _ Hok); lra).
    lra.
  - destruct Hw as (Hnow & Hcost & Hw). pose proof (in_window_le _ _ _ Hw) as Hend.
    destruct (take_spec rl start now k cost true Hok Hnow Hcost) as (Hok' & _ & Erate & _ & Hav & Hother).
    unfold check_cost. destruct (take_tokens now k cost true rl) as [ok rl'] eqn:E. cbn [fst snd] in *. rewrite andb_true_r in Hav.
    pose proof (IH rl' now Hok' Hw) as H. rewrite Erate in H.
    pose proof (available_later rl start start now key Hok (Qle_refl _) Hnow) as Hl.
    assert (available rl' now key == available rl now key - (if ok && str_eqb k key then cost else 0)) as Ha.
    { unfold str_eqb. case_bool_decide as Ek; [subst k; rewrite Hav; by destruct ok|].
      rewrite Hother by done. destruct ok; simpl; lra. }
    rewrite Ha in H. lra.
Qed.

End allowance.

End limit.

(** ** What a key can spend *)

(** C29: allowance.  Over any sequence of calls in order of time, on any keys, a key is granted no more than a
    burst of the capacity and the refill of the time that passed. *)
Theorem allowance_is_kept key calls start end_ capacity per_sec :
  0 < per_sec → 0 <= capacity → in_window start end_ calls →
  granted key calls (limiter_new start capacity per_sec) <= capacity + (end_ - start) * per_sec.
Proof.
  intros Hr Hc Hw.
  apply (granted_available key calls (limiter_new start capacity per_sec) start end_ (limiter_new_ok _ _ _ Hr Hc) Hw).
Qed.

(** Ten tokens and one a second: of three calls for eight tokens at 0, 1 and 9 seconds, two are granted. *)
Definition three_calls : list (Q * str * Q) := [(0, lit "ann", 8); (1, lit "ann", 8); (9, lit "ann", 8)].

Lemma allowance_is_kept_witness :
  granted (lit "ann") three_calls (limiter_new 0 10 1) == 16 /\
  granted (lit "ann") three_calls (limiter_new 0 10 1) <= 10 + (9 - 0) * 1.
Proof.
  split; [vm_compute; reflexivity|]. apply (allowance_is_kept (lit "ann") three_calls 0 9 10 1); [reflexivity|discriminate|].
  repeat split; discriminate.
Defined.
