(* ===== verification/Dispatch.v ===== *)
(** * Handling a client's command ([crates/gal-server/src/ws.rs])

    From the allowance check to the reply: finding the wave a command is about among those the
    connection watches, the checks made before its lock is taken, the critical section, and what goes
    back to the sender.  A [HashSet] of watched waves is visited in the order of [elements]. *)

From Stdlib Require Import QArith.
From S2P Require Import Prelude Tables Strings Unicode Json Attributes Text Delta Model Protocol ServerDoc.
From S2P Require Import Content LiveWave Snippet Storage Queries Effects Critical Handlers App Limit.

Section dispatch.
Context `{J : Json} `{U : Unicode} `{W : World}.
Context (fts_match : str → list SearchRow → list (SearchRow * str)).

(** The parts of a connection's state that never change. *)
Record Session := mkSess { s_conn : ConnId; s_user : User; s_token_hash : str }.

Definition me (s : Session) : UserId := user_id (s_user s).

Definition subscribed (s : Session) (a : App) : gset WaveId := default ∅ (app_subscribed a !! s_conn s).

Definition watch (f : gset WaveId → gset WaveId) (s : Session) (a : App) : App :=
  put_subscribed (<[s_conn s := f (subscribed s a)]> (app_subscribed a)) a.

(** [Session::send]. *)
Definition session_send (s : Session) (m : ServerMessage) : AM () :=
  modify (λ a, put_out (conn_send m (app_out a) (s_conn s)) a).

(** ** Finding the wave *)

(** A resident wave, or refuse: [open_wave(..).await.map_err(internal)?.ok_or_else(not_found)?]. *)
Definition resident (id : WaveId) : AM Handle :=
  r <-! open_wave id;
  match r with
  | Ok (Some h) => cm_ret h
  | Ok None => cm_throw not_found
  | Err _ => cm_throw internal
  end.

Definition peek (h : Handle) : AM LiveWave := locked h get_live.

(** The first watched wave whose resident copy satisfies a test. *)
Fixpoint find_among (p : LiveWave → bool) (waves : list WaveId) : AM (WaveId * Handle) :=
  match waves with
  | [] => cm_throw not_found
  | id :: waves =>
      r <-! open_wave id;
      match r with
      | Ok (Some h) => l <-! peek h; (if p l then cm_ret (id, h) else find_among p waves)
      | _ => find_among p waves
      end
  end.

Definition find_watched (s : Session) (p : LiveWave → bool) : AM (WaveId * Handle) :=
  a <-! get_app;
  find_among p (elements (subscribed s a)).

Definition is_some {A} (o : option A) : bool := match o with Some _ => true | None => false end.

Definition find_wavelet (s : Session) (id : WaveletId) : AM (WaveId * Handle) :=
  find_watched s (λ l, is_some (LiveWave.wavelet l id)).
Definition find_blip (s : Session) (id : BlipId) : AM (WaveId * Handle) :=
  find_watched s (λ l, is_some (lw_blips l !! id)).
Definition find_comment (s : Session) (id : CommentId) : AM (WaveId * Handle) :=
  find_watched s (λ l, is_some (lw_comments l !! id)).

Definition require_participant (s : Session) (id : WaveId) : AM () :=
  ok <-! db_read (λ db, is_participant db (me s) id);
  guard ok not_found.

(** ** Opening, leaving, creating *)

Definition read_marks_of (s : Session) (id : WaveId) : AM (gmap BlipId N) :=
  r <-! try_db (reading (λ db, read_marks db (me s) id));
  cm_ret match r with Ok marks => collect marks | Err _ => ∅ end.

Definition flags_of (s : Session) (id : WaveId) : AM WaveFlags :=
  r <-! try_db (reading (λ db, flags db (me s) id));
  cm_ret match r with Ok f => f | Err _ => flags_default end.

Definition open_command (s : Session) (id : WaveId) : AM () :=
  marks <-! read_marks_of s id;
  fl <-! flags_of s id;
  h <-! resident id;
  l <-! peek h;
  h <-! (if lw_evicted l then resident id else cm_ret h);
  locked h (open_locked (me s) (s_conn s) id marks fl) ;!
  modify (watch (union {[id]}) s).

Definition leave_command (s : Session) (id : WaveId) : AM () :=
  a <-! get_app;
  if negb (bool_decide (id ∈ subscribed s a)) then cm_ret tt
  else
    modify (watch (λ w, w ∖ {[id]}) s) ;!
    r <-! open_wave id;
    match r with Ok (Some h) => locked h (leave_locked (s_conn s) id) | _ => cm_ret tt end ;!
    modify (maybe_evict id).

Definition no_such_users (missing : list str) : ServerMessage :=
  error BadRequest (lit "No such user: " ++ join (lit ", ") missing).

(** The caller first, once. *)
Definition caller_first (user : UserId) (ids : list UserId) : list UserId := user :: filter (λ id, id ≠ user) ids.

Definition create_wave_command (s : Session) (title : str) (participants : list str) (content : option Delta)
    (mode : option WaveMode) : AM () :=
  found <-! db_read (λ db, resolve_names db participants);
  guard (bool_decide (found.2 = [])) (no_such_users found.2) ;!
  content <-! lift (seed_content content);
  wave_uuid <-! uuid_;
  wavelet_uuid <-! uuid_;
  blip_uuid <-! uuid_;
  ts <-! now_;
  blip_ts <-! now_;
  created <-! db_call (λ db, create_wave_with_blip db wave_uuid wavelet_uuid blip_uuid ts blip_ts (me s)
    (normalise_title title) (caller_first (me s) found.1) (default Document mode) (default [] content));
  open_command s (wave_id created.1) ;!
  modify (queue_inbox_update (wave_id created.1)).

(** ** Commands on a wave the connection watches *)

Definition submit_command (s : Session) (blip : BlipId) (revision : N) (delta : Delta) (op_id : option str) : AM () :=
  lift match check_embeds delta with
       | Ok _ => map_err (λ refusal, name_blip refusal blip) (check_attributes delta)
       | Err refusal => Err (name_blip refusal blip)
       end ;!
  found <-! find_blip s blip;
  locked found.2 (apply_op (s_conn s) (me s) (mkSubmission blip revision delta op_id)).

Definition create_comment_command (s : Session) (wavelet : WaveletId) (target : BlipId) (comment : CommentId)
    (content : option Delta) : AM () :=
  guard (comment_id_is_well_formed comment) (error BadRequest (lit "That is not a usable comment id.")) ;!
  found <-! find_wavelet s wavelet;
  content <-! lift (seed_content content);
  locked found.2 (create_comment_locked (me s) found.1 wavelet target comment content).

Definition set_mode_command (s : Session) (id : WaveId) (mode : WaveMode) : AM () :=
  a <-! get_app;
  guard (bool_decide (id ∈ subscribed s a)) not_found ;!
  h <-! resident id;
  locked h (set_mode_locked (me s) id mode).

Definition add_participant_command (s : Session) (wavelet : WaveletId) (name : str) : AM () :=
  found <-! find_wavelet s wavelet;
  user <-! db_read (λ db, user_by_name db name);
  match user with
  | None => cm_throw (error BadRequest (lit "No user called " ++ name ++ lit "."))
  | Some user => locked found.2 (add_participant_locked (me s) found.1 wavelet user)
  end.

Definition private_reply_command (s : Session) (wavelet : WaveletId) (anchor : BlipId) (participants : list str) : AM () :=
  found <-! find_wavelet s wavelet;
  users <-! db_read (λ db, resolve_names db participants);
  guard (bool_decide (users.2 = [])) (no_such_users users.2) ;!
  locked found.2 (private_reply_locked (me s) found.1 wavelet anchor users.1).

Definition cursor_command (s : Session) (id : WaveId) (blip : BlipId) (index length : N) : AM () :=
  a <-! get_app;
  if negb (bool_decide (id ∈ subscribed s a)) then cm_ret tt
  else
    r <-! open_wave id;
    match r with
    | Ok (Some h) => locked h (cursor_locked (me s) (s_conn s) id blip index length)
    | _ => cm_ret tt
    end.

(** One refreshed inbox row for the sender. *)
Definition send_inbox_row (s : Session) (id : WaveId) : AM () :=
  r <-! try_db (reading (λ db, wave_summary db (me s) id));
  match r with Ok (Some summary) => session_send s (InboxUpdated summary) | _ => cm_ret tt end.

(** ** Dispatch *)

Definition dispatch (s : Session) (m : ClientMessage) : AM () :=
  match m with
  | Ping => session_send s Pong
  | Open id => open_command s id
  | Close id => leave_command s id
  | CreateWave title participants content mode => create_wave_command s title participants content mode
  | Submit blip revision delta op_id => submit_command s blip revision delta op_id
  | CreateBlip wavelet parent content =>
      found <-! find_wavelet s wavelet;
      locked found.2 (create_blip_locked (me s) found.1 wavelet parent content)
  | DeleteBlip blip =>
      found <-! find_blip s blip;
      locked found.2 (delete_blip_locked (me s) found.1 blip)
  | SetTitle wavelet title =>
      found <-! find_wavelet s wavelet;
      locked found.2 (set_title_locked (me s) found.1 wavelet title)
  | SetMode id mode => set_mode_command s id mode
  | AddParticipant wavelet name => add_participant_command s wavelet name
  | RemoveParticipant wavelet user =>
      found <-! find_wavelet s wavelet;
      locked found.2 (remove_participant_locked (me s) found.1 wavelet user)
  | PrivateReply wavelet anchor participants => private_reply_command s wavelet anchor participants
  | CreateComment wavelet blip comment content => create_comment_command s wavelet blip comment content
  | ReplyToComment comment content =>
      found <-! find_comment s comment;
      content <-! lift (seed_content content);
      locked found.2 (reply_to_comment_locked (me s) found.1 comment content)
  | ResolveComment comment resolved =>
      found <-! find_comment s comment;
      locked found.2 (resolve_comment_locked (me s) found.1 comment resolved)
  | Cursor id blip index length => cursor_command s id blip index length
  | MarkRead id =>
      require_participant s id ;!
      db_write (λ db, mark_wave_read db (me s) id) ;!
      send_inbox_row s id
  | SetFlags id fl =>
      require_participant s id ;!
      db_write (λ db, set_flags db (me s) id fl) ;!
      send_inbox_row s id
  | RequestPlayback id =>
      require_participant s id ;!
      frames <-! db_read (λ db, playback db (me s) id);
      session_send s (Playback id frames)
  | Search query =>
      hits <-! db_read (λ db, search fts_match db (me s) query);
      session_send s (SearchResults query hits)
  end.

(** How to say "too fast": a refused edit names the blip it was for. *)
Definition over_allowance (m : ClientMessage) : ServerMessage :=
  match m with
  | Submit blip _ _ _ =>
      resync blip (lit "Edits are arriving faster than this server will take them; reloading this message.")
  | _ => error TooManyRequests (lit "You are doing that too fast. Wait a moment and try again.")
  end.

(** One parsed command of the reading loop, panics apart. *)
Definition read_command (s : Session) (at_ : Q) (m : ClientMessage) (limits : Limiters) : AM Limiters :=
  let '(ok, limits) := check_command_rate at_ (me s) m limits in
  if negb ok then session_send s (over_allowance m) ;! cm_ret limits
  else λ a,
    match dispatch s m a with
    | (Ok _, a) => (Ok limits, a)
    | (Err reply, a) => (session_send s reply ;! cm_ret limits) a
    end.

(** A command that panicked: its waves are thrown away and the sender told; the connection then ends. *)
Definition after_panic (s : Session) : AM () :=
  a <-! get_app;
  cm_each (λ id, modify (evict_after_panic id)) (elements (subscribed s a)) ;!
  session_send s (error Internal (lit "Something went wrong handling that. Reconnecting.")).

(** The start of a connection: a slot, the session rechecked, the inbox as greeting. *)
Definition greet (s : Session) : AM bool :=
  ts <-! now_;
  expiry <-! try_db (reading (λ db, session_expiry db ts (s_token_hash s)));
  match expiry with
  | Ok None => session_send s (error Forbidden (lit "Your session has ended. Sign in again.")) ;! cm_ret false
  | Err _ => session_send s internal ;! cm_ret false
  | Ok (Some _) =>
      loaded <-! try_db (reading (λ db, inbox db (me s)));
      match loaded with
      | Ok inbox => session_send s (Welcome (public (s_user s)) inbox) ;! cm_ret true
      | Err _ => session_send s (error Internal (lit "could not load your inbox; reconnect to try again")) ;! cm_ret false
      end
  end.

(** The end of a connection: leave every wave, then give up the slot. *)
Definition hang_up (s : Session) : AM () :=
  a <-! get_app;
  cm_each (leave_command s) (elements (subscribed s a)) ;!
  modify (unregister_conn (s_conn s)).

End dispatch.
