(* ===== verification/Commands.v ===== *)
(** * Every command keeps the server's invariant

    [dispatch] from any state in order, whatever fails on the way, ends in a state in order. *)

From Stdlib Require Import QArith.
From S2P Require Import Prelude Tables Strings Unicode Json Attributes Text Delta Model Protocol ServerDoc.
From S2P Require Import ServerDocTheory Content DocBounds LiveWave LiveWaveTheory Snippet Storage OpLog Queries Effects Critical Handlers.
From S2P Require Import Coherence CoherenceLemmas CoherenceMembers CoherenceFrame CoherenceHandlers Submission.
From S2P Require Import App AppTheory Limit Dispatch.

Section commands.
Context `{J : Json} `{U : Unicode} `{W : World}.
Context (fts_match : str → list SearchRow → list (SearchRow * str)).
Implicit Types a : App.

(** ** What clients send *)

(** Texts and changes as a client encodes them; everything else is free. *)
Definition wire_message (m : ClientMessage) : Prop :=
  match m with
  | Submit _ _ delta _ => wire_change delta
  | CreateWave _ _ content _ | CreateBlip _ _ content | CreateComment _ _ _ content
  | ReplyToComment _ content => wire_seed content
  | _ => True
  end.

(** No message has used up its revision numbers. *)
Definition revisions_left (db : Db) : Prop := ∀ b, b ∈ db_blips db → (blip_revision b < usize_max)%N.

(** ** Steps *)

Definition keeps {T} (m : AM T) : Prop := ∀ a, app_ok a → wp m (λ _ a', app_ok a') a.

Lemma keeps_bind {T V} (m : AM T) (f : T → AM V) : keeps m → (∀ t, keeps (f t)) → keeps (cm_bind m f).
Proof.
  intros Hm Hf a Ha. apply wp_bind. specialize (Hm a Ha). unfold wp in *. destruct (m a).1; [by apply Hf|done].
Qed.

Lemma keeps_quiet {T} (m : AM T) : (∀ a, quiet a (m a).2) → keeps m.
Proof. intros H a Ha. exact (quiet_ok _ _ (H a) Ha). Qed.

Lemma keeps_ret {T} (t : T) : keeps (cm_ret (S := App) t).
Proof. intros a Ha. exact Ha. Qed.
Lemma keeps_throw {T} e : keeps (cm_throw (S := App) (T := T) e).
Proof. intros a Ha. exact Ha. Qed.
Lemma keeps_guard ok e : keeps (guard (S := App) ok e).
Proof. destruct ok; intros a Ha; exact Ha. Qed.
Lemma keeps_get : keeps get_app.
Proof. intros a Ha. exact Ha. Qed.
Lemma keeps_read {T} (f : Db → T) : keeps (db_read (S := App) f).
Proof. intros a Ha. apply wp_db_read; intros a' Hq; exact (quiet_ok _ _ Hq Ha). Qed.
Lemma keeps_try_read {T} (f : Db → T) : keeps (try_db (S := App) (reading f)).
Proof. intros a Ha. apply wp_try_read; intros; by eapply (quiet_ok a). Qed.
Lemma keeps_send s m : keeps (session_send s m).
Proof. by apply keeps_quiet. Qed.
Lemma keeps_notify user m : keeps (notify user m).
Proof. by apply keeps_quiet. Qed.
Lemma keeps_watch f s : keeps (modify (watch f s)).
Proof. by apply keeps_quiet. Qed.
Lemma keeps_queue id : keeps (modify (queue_inbox_update id)).
Proof. by apply keeps_quiet. Qed.
Lemma keeps_each {A} (f : A → AM ()) xs : (∀ x, keeps (f x)) → keeps (cm_each f xs).
Proof.
  intros Hf. induction xs as [|x xs IH]; [apply keeps_ret|]. apply keeps_bind; [apply Hf|by intros []].
Qed.

(** A write to tables no resident wave is made of. *)
Lemma keeps_write (f : Db → DbResult Db) :
  (∀ db db', f db = Ok db' → same_core db db') → keeps (db_write (S := App) f).
Proof.
  intros H a Ha. apply wp_stored_write; [|by apply (quiet_ok a)]. intros db Hdb.
  by eapply (core_ok a); [apply (H _ _ Hdb)|..].
Qed.

Lemma mark_wave_read_core me wave db db' : mark_wave_read db me wave = Ok db' → same_core db db'.
Proof. unfold mark_wave_read. destruct (_ && _); [done|]. by intros [= <-]. Qed.

Lemma set_flags_core me wave fl db db' : set_flags db me wave fl = Ok db' → same_core db db'.
Proof. unfold set_flags. destruct (exists_row _ _); [by intros [= <-]|]. by intros (t & _ & [= <-])%bind_ok. Qed.

(** ** Finding the wave of a command *)

(** The wave found is resident, and finding it changed nothing that waves are made of. *)
Definition found a (r : result (WaveId * Handle) ServerMessage) a' : Prop :=
  app_ok a' ∧ same_core (app_db a) (app_db a') ∧ match r with Ok (id, h) => current a' id h | Err _ => True end.

Lemma core_refl db : same_core db db.
Proof. done. Qed.

Lemma core_trans db1 db2 db3 : same_core db1 db2 → same_core db2 db3 → same_core db1 db3.
Proof. unfold same_core. intuition congruence. Qed.

Lemma wp_find_among p ws a a0 :
  app_ok a → same_core (app_db a0) (app_db a) → wp (find_among p ws) (found a0) a.
Proof.
  revert a. induction ws as [|id ws IH]; intros a Ha Hc; simpl; [by apply wp_throw|].
  apply wp_bind, wp_open_wave; [done|]. intros r a1 Ha1 Hc1 Hr. pose proof (core_trans _ _ _ Hc Hc1) as Hc1'.
  destruct r as [[h|]|e]; [|by apply IH..]. apply wp_bind, (wp_peek id); [done..|].
  intros l a2 Hl Hw Hq. pose proof (quiet_ok _ _ Hq Ha1) as Ha2.
  assert (same_core (app_db a0) (app_db a2)) as Hc2 by (destruct Hq as (-> & _); done).
  destruct (p l); [|by apply IH]. apply wp_ret. split_and!; [done..|]. by eapply quiet_current.
Qed.

Lemma wp_found s p {T} (k : WaveId * Handle → AM T) (Q : result T ServerMessage → App → Prop) a :
  app_ok a →
  (∀ e a', app_ok a' → Q (Err e) a') →
  (∀ id h a', app_ok a' → same_core (app_db a) (app_db a') → current a' id h → wp (k (id, h)) Q a') →
  wp (cm_bind (find_watched s p) k) Q a.
Proof.
  intros Ha He Hk. apply wp_bind. unfold find_watched. apply wp_bind, wp_get_app.
  eapply wp_mono; [|by apply wp_find_among]. intros [[id h]|e] a' (Ha' & Hc & Hr); [by apply Hk|by apply He].
Qed.

(** Find, then a critical section. *)
Lemma keeps_on_found s p {T} (m : WaveId → CM T) :
  (∀ id, section_ok id (m id)) → keeps (found <-! find_watched s p; locked found.2 (m found.1)).
Proof.
  intros Hm a Ha. apply wp_found; [done..|]. intros id h a' Ha' _ Hh. by apply (wp_locked (m id) id).
Qed.

Lemma wp_resident id {T} (k : Handle → AM T) (Q : result T ServerMessage → App → Prop) a :
  app_ok a → (∀ e a', app_ok a' → Q (Err e) a') →
  (∀ h a', app_ok a' → current a' id h → wp (k h) Q a') → wp (cm_bind (resident id) k) Q a.
Proof.
  intros Ha He Hk. apply wp_bind. unfold resident. apply wp_bind, wp_open_wave; [done|].
  intros [[h|]|e] a' Ha' _ Hr; [apply wp_ret; by apply Hk|by apply wp_throw, He..].
Qed.

(** ** Sections *)

Ltac section_of L :=
  let s := fresh "s" in let Hi := fresh "Hi" in
  intros s Hi; apply L; first [done|pose proof Hi as (_ & _ & [= ? _] & _); congruence].

Lemma create_blip_ok user id wavelet parent content :
  wire_seed content → section_ok id (create_blip_locked user id wavelet parent content).
Proof. intros Hw. section_of create_blip_inv. Qed.

Lemma create_comment_ok user id wavelet target comment content :
  (∀ d, content = Some d → good_text d) → section_ok id (create_comment_locked user id wavelet target comment content).
Proof. intros Hw. section_of create_comment_inv'. Qed.

Lemma reply_to_comment_ok user id comment content :
  (∀ d, content = Some d → good_text d) → section_ok id (reply_to_comment_locked user id comment content).
Proof. intros Hw. section_of reply_to_comment_inv. Qed.

Lemma set_mode_ok user id mode : section_ok id (set_mode_locked user id mode).
Proof. section_of set_mode_locked_inv. Qed.

Lemma private_reply_ok user id wavelet anchor ids : section_ok id (private_reply_locked user id wavelet anchor ids).
Proof. section_of private_reply_locked_inv. Qed.

Lemma seeded_good content content' :
  wire_seed content → seed_content content = Ok content' → ∀ d, content' = Some d → good_text d.
Proof. intros Hw Hs d ->. by eapply seed_content_good. Qed.

(** ** Opening and leaving *)

Lemma keeps_marks s id : keeps (read_marks_of s id).
Proof. apply keeps_bind; [apply keeps_try_read|intros; apply keeps_ret]. Qed.

Lemma keeps_flags s id : keeps (flags_of s id).
Proof. apply keeps_bind; [apply keeps_try_read|intros; apply keeps_ret]. Qed.

Lemma keeps_open s id : keeps (open_command s id).
Proof.
  unfold open_command. apply keeps_bind; [apply keeps_marks|intros marks]. apply keeps_bind; [apply keeps_flags|intros fl].
  intros a Ha. apply wp_resident; [done..|]. intros h a1 Ha1 Hh. apply wp_bind, (wp_peek id); [done..|].
  intros l a2 _ [= _ He] Hq. rewrite He. pose proof (quiet_ok _ _ Hq Ha1) as Ha2.
  pose proof (quiet_current _ _ _ _ Hq Hh) as Hh2. apply wp_bind, wp_ret, wp_bind.
  apply (wp_locked _ id); [done..| |].
  - intros s' Hi. by apply open_locked_inv.
  - intros [[]|e] a3 Ha3 _; [by apply keeps_watch|done].
Qed.

Lemma keeps_leave s id : keeps (leave_command s id).
Proof.
  unfold leave_command. apply keeps_bind; [apply keeps_get|intros a0]. destruct (negb _); [apply keeps_ret|].
  apply keeps_bind; [apply keeps_watch|intros _]. intros a Ha. apply wp_bind, wp_open_wave; [done|].
  intros r a1 Ha1 _ Hr. apply wp_bind.
  apply (wp_mono _ (λ _ a', app_ok a')).
  { intros [[]|e] a2 Ha2; [|done]. apply wp_modify. by apply maybe_evict_ok. }
  destruct r as [[h|]|e]; [|done..]. apply (wp_locked _ id); [done..| |done]. intros s' Hi. by apply leave_locked_inv.
Qed.

(** ** A new wave *)

(** The wave is new: no resident wave can have its id. *)
Lemma local_insert_wave db w db' : insert_wave db w = Ok db' → local (wave_id w) db db' ∧ wave_exists db (wave_id w) = false.
Proof.
  unfold insert_wave. intros (t & [Hok ->]%insert_into_inv & [= <-])%bind_ok. apply negb_true_iff in Hok. split; [|done].
  intros w' Hne. constructor; simpl; try done; intros; try by apply kept_row. apply elem_of_app. by left.
Qed.

Lemma sound_insert_wave db w db' : db_sound db → insert_wave db w = Ok db' → db_sound db'.
Proof.
  unfold insert_wave. intros [Kw Kl Kb Kc Rp Rc Ck Cd Rr Rb Lo] (t & [Hok ->]%insert_into_inv & [= <-])%bind_ok.
  constructor; simpl; try done; [|by apply (ops_ok_same db)]. apply keyed_snoc; [done|]. intros r Hr E. apply negb_true_iff in Hok.
  unfold wave_exists in Hok. rewrite exists_row_false in Hok. specialize (Hok r Hr). by apply bool_decide_eq_false in Hok.
Qed.

Lemma create_wave_effect db wu wlu bu ts bts creator title participants mode content w wl db' :
  db_sound db → good_text content →
  create_wave_with_blip db wu wlu bu ts bts creator title participants mode content = Ok ((w, wl), db') →
  db_sound db' ∧ local (wave_id w) db db' ∧ wave_exists db (wave_id w) = false.
Proof.
  unfold create_wave_with_blip, create_wave_inner. intros Hd Hg (db1 & H1 & (db2 & H2 & (db3 & H3 & E)%bind_ok)%bind_ok)%bind_ok.
  injection E as <- <- <-. pose proof (local_insert_wave _ _ _ H1) as [L1 Hf]. pose proof (sound_insert_wave _ _ _ Hd H1) as Hd1.
  pose proof (local_insert_wavelet _ _ _ Hd1 H2) as L2. pose proof (sound_insert_wavelet _ _ _ Hd1 H2) as Hd2.
  pose proof (local_insert_seeded _ _ _ H3) as L3. split_and!; [| |done].
  - apply (sound_seeded _ _ _ Hd2 H3); case_decide; try done; first [by left|by right|by apply anchored_none].
  - eapply local_trans; [done|]. eapply local_trans; [exact L2|]. revert L3. by case_decide.
Qed.

Lemma local_new_ok a w db' a' :
  app_ok a → db_sound db' → local w (app_db a) db' → wave_exists (app_db a) w = false →
  quiet (put_db db' a) a' → app_ok a'.
Proof.
  intros [A1 A2 A3 A4] Hd Hl Hf Hq. eapply quiet_ok; [done|]. constructor; try done; [|by apply (conns_quiet a)].
  intros id h Hh. destruct (A2 _ _ Hh) as (l & Hlk & Hw & Hc). exists l. split_and!; [done..|].
  eapply coherent_frame; [apply Hl|done]. pose proof Hw as [= Hid _]. rewrite Hid. intros ->.
  destruct (co_wave _ _ Hc) as (r & Hr & E & _). unfold wave_exists in Hf. rewrite exists_row_false in Hf.
  specialize (Hf r Hr). apply bool_decide_eq_false in Hf. congruence.
Qed.

Lemma keeps_uuid : keeps (uuid_ (S := App)).
Proof. by apply keeps_quiet. Qed.
Lemma keeps_now : keeps (now_ (S := App)).
Proof. by apply keeps_quiet. Qed.

Lemma keeps_create_wave s title participants content mode :
  wire_seed content → keeps (create_wave_command s title participants content mode).
Proof.
  intros Hw. unfold create_wave_command. apply keeps_bind; [apply keeps_read|intros found0].
  apply keeps_bind; [apply keeps_guard|intros _]. intros a Ha. apply wp_bind, wp_lift.
  destruct (seed_content content) as [content'|e] eqn:Hs; [|done].
  assert (good_text (default [] content')) as Hg.
  { destruct content' as [d|]; simpl; [by eapply seed_content_good|apply good_text_nil]. }
  revert a Ha. change (∀ a, app_ok a → wp ?m (λ _ a', app_ok a') a) with (keeps m). clear Hs.
  do 3 (apply keeps_bind; [apply keeps_uuid|intros ?]). do 2 (apply keeps_bind; [apply keeps_now|intros ?]).
  apply keeps_bind.
  - intros a Ha. apply wp_stored_call; [|by apply (quiet_ok a)]. intros [w wl] db' H.
    destruct (create_wave_effect _ _ _ _ _ _ _ _ _ _ _ _ _ _ (ao_db _ Ha) Hg H) as (Hd & Hl & Hf).
    by eapply local_new_ok.
  - intros created. apply keeps_bind; [apply keeps_open|intros _]. apply keeps_queue.
Qed.

(** ** Edits *)

Lemma editable_here a l blip delta :
  wire_change delta → revisions_left (app_db a) → coherent (app_db a) l → editable blip delta l.
Proof.
  intros Hw Hr Hc. split; [done|]. intros lb Hl. destruct (co_docs _ _ Hc _ _ Hl) as (_ & _ & -> & _).
  apply Hr. by apply (blip_row_here _ _ _ _ Hc Hl).
Qed.

Lemma keeps_submit s blip revision delta op_id a :
  app_ok a → wire_change delta → revisions_left (app_db a) →
  wp (submit_command s blip revision delta op_id) (λ _ a', app_ok a') a.
Proof.
  intros Ha Hw Hr. unfold submit_command. apply wp_bind, wp_lift. destruct (match check_embeds delta with Ok _ => _ | Err _ => _ end); [|done].
  apply wp_found; [done..|]. intros id h a' Ha' Hcore Hh. apply (wp_locked_at _ id); [done..| |done].
  intros l Hl Hwho Hc. simpl. apply (apply_op_inv (s_conn s) (me s) blip revision delta op_id).
  - apply inv_start; [apply Ha'|done|done].
  - apply (editable_here a'); [done| |done]. intros b Hb. apply Hr. destruct Hcore as (_ & _ & _ & E & _). by rewrite <- E.
Qed.

(** ** Other commands *)

Lemma keeps_set_mode s id mode : keeps (set_mode_command s id mode).
Proof.
  unfold set_mode_command. apply keeps_bind; [apply keeps_get|intros a0]. apply keeps_bind; [apply keeps_guard|intros _].
  intros a Ha. apply wp_resident; [done..|]. intros h a' Ha' Hh. apply (wp_locked _ id); [done..|apply set_mode_ok|done].
Qed.

Lemma keeps_add_participant s wavelet name : keeps (add_participant_command s wavelet name).
Proof.
  intros a Ha. apply wp_found; [done..|]. intros id h a1 Ha1 _ Hh. apply wp_bind, wp_db_read; intros a2 Hq;
    pose proof (quiet_ok _ _ Hq Ha1) as Ha2; [|done]. destruct (user_by_name _ _) as [user|]; [|done].
  apply (wp_locked _ id); [done|by eapply quiet_current| |done]. intros s' Hi. by apply add_participant_locked_inv.
Qed.

Lemma keeps_private_reply s wavelet anchor participants : keeps (private_reply_command s wavelet anchor participants).
Proof.
  intros a Ha. apply wp_found; [done..|]. intros id h a1 Ha1 _ Hh. apply wp_bind, wp_db_read; intros a2 Hq;
    pose proof (quiet_ok _ _ Hq Ha1) as Ha2; [|done]. apply wp_bind, wp_guard; [intros _|done].
  apply (wp_locked _ id); [done|by eapply quiet_current|apply private_reply_ok|done].
Qed.

Lemma keeps_create_comment s wavelet target comment content :
  wire_seed content → keeps (create_comment_command s wavelet target comment content).
Proof.
  intros Hw. unfold create_comment_command. apply keeps_bind; [apply keeps_guard|intros _]. intros a Ha.
  apply wp_found; [done..|]. intros id h a1 Ha1 _ Hh. apply wp_bind, wp_lift.
  destruct (seed_content content) as [content'|e] eqn:Hs; [|done].
  apply (wp_locked _ id); [done..| |done]. apply create_comment_ok. by eapply seeded_good.
Qed.

Lemma keeps_reply_to_comment s comment content :
  wire_seed content →
  keeps (found <-! find_comment s comment; content <-! lift (seed_content content);
         locked found.2 (reply_to_comment_locked (me s) found.1 comment content)).
Proof.
  intros Hw a Ha. apply wp_found; [done..|]. intros id h a1 Ha1 _ Hh. apply wp_bind, wp_lift.
  destruct (seed_content content) as [content'|e] eqn:Hs; [|done].
  apply (wp_locked _ id); [done..| |done]. apply reply_to_comment_ok. by eapply seeded_good.
Qed.

Lemma keeps_cursor s id blip index length : keeps (cursor_command s id blip index length).
Proof.
  unfold cursor_command. apply keeps_bind; [apply keeps_get|intros a0]. destruct (negb _); [apply keeps_ret|].
  intros a Ha. apply wp_bind, wp_open_wave; [done|]. intros [[h|]|e] a1 Ha1 _ Hr; [|done..].
  apply (wp_locked _ id); [done..| |done]. intros s' Hi. by apply cursor_locked_inv.
Qed.

Lemma keeps_inbox_row s id : keeps (send_inbox_row s id).
Proof.
  apply keeps_bind; [apply keeps_try_read|]. intros [[summary|]|e]; [apply keeps_send|apply keeps_ret..].
Qed.

Lemma keeps_participant s id : keeps (require_participant s id).
Proof. apply keeps_bind; [apply keeps_read|intros; apply keeps_guard]. Qed.

End commands.

Create HintDb keeps.
#[export] Hint Resolve keeps_bind keeps_ret keeps_throw keeps_guard keeps_get keeps_read keeps_try_read keeps_send
  keeps_notify keeps_watch keeps_queue keeps_each keeps_write keeps_open keeps_leave keeps_set_mode
  keeps_add_participant keeps_private_reply keeps_cursor keeps_inbox_row keeps_participant keeps_now keeps_uuid : keeps.
