(* ===== verification/Agent.v ===== *)
(** * The agent surface ([crates/gal-server/src/agent.rs])

    One credential, one wavelet: creating, listing and revoking credentials, the context an agent reads,
    and the replies it posts.  Hashing, random tokens and the printing of the request as JSON are third
    party code, and so parameters. *)

From Stdlib Require Import QArith.
From S2P Require Import Prelude Tables Strings Unicode Json Attributes Text Delta Model Protocol ServerDoc.
From S2P Require Import Content LiveWave Snippet Storage Queries Effects Critical Handlers App Limit.

(** What is sent back, in place of an HTTP response. *)
Inductive AgentResponse :=
| RBadRequest (message : str)
| RNotFound (message : str)
| RUnauthorised
| RServerError
| RRateLimited
| RAgentError (status : N) (code message : str)
| RProtocol (status : N) (message : str) (code : ErrorCode)
| RTokenCreated (token : str) (credential : AgentToken)
| RCredentials (tokens : list AgentToken)
| RNoContent
| RContext (c : AgentContext)
| RReceipt (created : bool) (receipt : ReplyReceipt).

Record AgentIdentity := mkIdentity { ai_token : AgentToken; ai_token_hash : str }.

Record CreateToken := mkCreateToken {
  ct_wavelet : WaveletId;
  ct_label : str;
  ct_scope : AgentScope;
  ct_expires_in_seconds : Z;     (** a [u32] *)
}.

Record ContextQuery := mkContextQuery { cq_after : option str; cq_limit : N; cq_text_units : N }.

Record ReplyRequest := mkReplyRequest { rq_request_id : str; rq_parent : option BlipId; rq_text : str }.

Definition valid_id (id prefix : str) : bool :=
  match strip_prefix id prefix with
  | Some suffix => negb (bool_decide (suffix = [])) && (str_len id <=? 64)%N && forallb is_ascii_alphanumeric suffix
  | None => false
  end.

(** The token of an [Authorization] header. *)
Definition bearer_token (authorization : option str) : option str :=
  header ← authorization;
  '(scheme, token) ← split_once 32 header;
  if str_eqb (to_ascii_lowercase <$> scheme) (lit "bearer") && negb (bool_decide (token = [])) then Some token else None.

Section agent.
Context `{J : Json} `{W : World}.
Context (hash_token : str → str) (generate_token : nat → str) (request_json : ReplyRequest → str).

(** Database calls of a handler that answers with responses of its own: [None] is a failed call. *)
Definition attempt {S} `{!Stored S} {T} (f : Db → DbResult (T * Db)) : SM S (option T) :=
  r <-! try_db f;
  cm_ret match r with Ok t => Some t | Err _ => None end.

(** The extractor in front of the agent's handlers. *)
Definition agent_identity (authorization : option str) : AM (result AgentIdentity AgentResponse) :=
  match bearer_token authorization with
  | None => cm_ret (Err RUnauthorised)
  | Some bearer =>
      let hash := hash_token bearer in
      ts <-! now_;
      found <-! attempt (reading (λ db, valid_agent_token db ts hash));
      cm_ret match found with
             | None => Err RServerError
             | Some None => Err RUnauthorised
             | Some (Some token) => Ok (mkIdentity token hash)
             end
  end.

(** ** Credentials *)

Definition bad_token_request : AgentResponse :=
  RBadRequest (lit "Use a label of 1" ++ [8211%N] ++ lit "100 bytes, a wavelet id, and an expiry of 1" ++ [8211%N]
               ++ lit "2592000 seconds.").

Definition token_request_ok (body : CreateToken) : bool :=
  let label := trim (ct_label body) in
  negb (bool_decide (label = [])) && (str_len label <=? 100)%N && forallb (λ c, negb (is_control c)) label
  && valid_id (ct_wavelet body) (lit "s-")
  && negb (ct_expires_in_seconds body =? 0)%Z && (ct_expires_in_seconds body <=? 30 * 24 * 60 * 60)%Z.

Definition wavelet_unavailable : AgentResponse := RNotFound (lit "That wavelet is not available.").

Definition create_token (at_ : Q) (user : UserId) (body : CreateToken) (limits : Limiters)
    : AM (AgentResponse * Limiters) :=
  if negb (token_request_ok body) then cm_ret (bad_token_request, limits)
  else
    let '(ok, limits) := check_command_rate at_ user (Open []) limits in
    if negb ok then cm_ret (RRateLimited, limits)
    else
      wave <-! attempt (reading (λ db, wave_for_participant db user (ct_wavelet body)));
      match wave with
      | None => cm_ret (RServerError, limits)
      | Some None => cm_ret (wavelet_unavailable, limits)
      | Some (Some wave) =>
          created_at <-! now_;
          uuid <-! uuid_;
          secret <-! (λ a, (Ok (generate_token (app_tick a)), app_step a));
          let metadata := mkAgentToken uuid user wave (ct_wavelet body) (trim (ct_label body)) (ct_scope body)
                            created_at (created_at + ct_expires_in_seconds body * 1000) in
          let token := lit "gal_agent_" ++ secret in
          stored <-! attempt (λ db, create_agent_token db metadata (hash_token token));
          cm_ret (match stored with
                  | None => RServerError
                  | Some true => RTokenCreated token metadata
                  | Some false => wavelet_unavailable
                  end, limits)
      end.

Definition list_tokens (user : UserId) : AM AgentResponse :=
  ts <-! now_;
  tokens <-! attempt (reading (λ db, agent_tokens db ts user));
  cm_ret match tokens with Some tokens => RCredentials tokens | None => RServerError end.

Definition revoke_token (user : UserId) (id : str) : AM AgentResponse :=
  revoked <-! attempt (λ db, Ok (revoke_agent_token db user id));
  cm_ret match revoked with
         | Some true => RNoContent
         | Some false => RNotFound (lit "That credential is not available.")
         | None => RServerError
         end.

(** ** Reading *)

Definition bad_cursor : AgentResponse := RBadRequest (lit "Invalid context cursor.").

Definition parse_cursor (cursor : str) : option (Z * BlipId) :=
  '(seq, id) ← split_once 58 cursor;
  if valid_id id (lit "b-") then
    seq ← parse_i64 seq;
    if (0 <=? seq)%Z then Some (seq, id) else None
  else None.

Definition context (at_ : Q) (identity : AgentIdentity) (query : ContextQuery) (limits : Limiters)
    : AM (AgentResponse * Limiters) :=
  if negb ((1 <=? cq_limit query) && (cq_limit query <=? 100) && (2 <=? cq_text_units query)
           && (cq_text_units query <=? 64000))%N
  then cm_ret (RBadRequest (lit "limit must be 1" ++ [8211%N] ++ lit "100 and textUnits must be 2" ++ [8211%N]
                            ++ lit "64000."), limits)
  else
    match match cq_after query with None => Some ((-1)%Z, []) | Some cursor => parse_cursor cursor end with
    | None => cm_ret (bad_cursor, limits)
    | Some after =>
        let '(ok, limits) := check_command_rate at_ (tok_user_id (ai_token identity))
                               (Open (tok_wave_id (ai_token identity))) limits in
        if negb ok then cm_ret (RRateLimited, limits)
        else
          ts <-! now_;
          found <-! attempt (λ db,
            match agent_context db ts (ai_token_hash identity) after (N.to_nat (cq_limit query)) (cq_text_units query) with
            | Some (Ok c) => Ok (c, db)
            | Some (Err e) => Err e
            | None => Err Unavailable
            end);
          cm_ret (match found with
                  | None => RServerError
                  | Some None => RUnauthorised
                  | Some (Some c) => RContext c
                  end, limits)
    end.

(** ** Replying *)

Definition protocol_error (m : ServerMessage) : AgentResponse :=
  match m with
  | SError code message _ =>
      RProtocol match code with
                | NotFound => 404 | Forbidden => 403 | BadRequest => 400 | TooManyRequests => 429
                | Resync => 409 | Internal => 500
                end message code
  | _ => RAgentError 500 (lit "internal") (lit "Unexpected reply failure.")
  end.

Definition request_conflict : AgentResponse :=
  RAgentError 409 (lit "requestConflict") (lit "That requestId was already used for different content.").

(** One turn of [create_reply]'s loop under the wave lock; [None] is [continue]. *)
Definition reply_locked (identity : AgentIdentity) (body : ReplyRequest) : CM (option AgentResponse) :=
  let token := ai_token identity in
  let request_hash := hash_token (request_json body) in
  l <-! get_live;
  if lw_evicted l then cm_ret None
  else if negb (may_access l (tok_user_id token) (tok_wavelet_id token)) then cm_ret (Some wavelet_unavailable)
  else
    ts <-! now_;
    live <-! attempt (reading (λ db, valid_agent_token db ts (ai_token_hash identity)));
    match live with
    | None => cm_ret (Some RServerError)
    | Some None => cm_ret (Some RUnauthorised)
    | Some (Some _) =>
        before <-! attempt (reading (λ db, agent_reply_receipt db token (rq_request_id body)));
        match before with
        | None => cm_ret (Some RServerError)
        | Some (Some stored) =>
            cm_ret (Some (if str_eqb (sp_request_hash stored) request_hash then RReceipt false (sp_receipt stored)
                          else request_conflict))
        | Some None =>
            uuid <-! uuid_;
            blip_ts <-! now_;
            match prepare_blip uuid blip_ts l (tok_user_id token) (tok_wavelet_id token) (rq_parent body)
                    (Some (document (rq_text body))) with
            | Err refusal => cm_ret (Some (protocol_error refusal))
            | Ok blip =>
                check_ts <-! now_;
                stored <-! attempt (λ db, create_agent_reply db check_ts (ai_token_hash identity) (rq_request_id body)
                                            request_hash blip);
                match stored with
                | None => cm_ret (Some RServerError)
                | Some false => cm_ret (Some RUnauthorised)
                | Some true =>
                    cm_publish blip ;!
                    schedule_inbox_update (tok_wave_id token) ;!
                    cm_ret (Some (RReceipt true (mkReceipt (rq_request_id body) (tok_wave_id token)
                                                   (blip_wavelet_id blip) (blip_id blip) (blip_revision blip))))
                end
            end
        end
    end.

(** The loop; every turn but the last met a discarded copy.  No fuel left: still spinning. *)
Fixpoint create_reply (fuel : nat) (identity : AgentIdentity) (body : ReplyRequest) : AM (option AgentResponse) :=
  match fuel with
  | O => cm_ret None
  | S fuel =>
      r <-! open_wave (tok_wave_id (ai_token identity));
      match r with
      | Err _ => cm_ret (Some RServerError)
      | Ok None => cm_ret (Some wavelet_unavailable)
      | Ok (Some h) =>
          answer <-! locked h (reply_locked identity body);
          match answer with
          | Some answer => cm_ret (Some answer)
          | None => create_reply fuel identity body
          end
      end
  end.

Definition bad_reply_request : AgentResponse :=
  RBadRequest (lit "Use a requestId of 1" ++ [8211%N] ++ lit "100 letters, digits, hyphens or underscores, a valid parent id, "
               ++ lit "and non-empty text within the document limit.").

Definition reply_request_ok (body : ReplyRequest) : bool :=
  negb (bool_decide (rq_request_id body = [])) && (str_len (rq_request_id body) <=? 100)%N
  && forallb (λ c, is_ascii_alphanumeric c || (c =? 45)%N || (c =? 95)%N) (rq_request_id body)
  && match rq_parent body with Some id => valid_id id (lit "b-") | None => true end
  && negb (bool_decide (rq_text body = [])) && (utf16_len (rq_text body) <=? MAX_BLIP_UNITS)%N.

(** A panic of the spawned task is [evict_after_panic]'s business. *)
Definition reply (fuel : nat) (at_ : Q) (identity : AgentIdentity) (body : ReplyRequest) (limits : Limiters)
    : AM (option AgentResponse * Limiters) :=
  let token := ai_token identity in
  if negb (bool_decide (tok_scope token = ReplyScope)) then
    cm_ret (Some (RAgentError 403 (lit "forbidden") (lit "This credential permits reading only.")), limits)
  else if negb (reply_request_ok body) then cm_ret (Some bad_reply_request, limits)
  else
    let '(ok, limits) := check_command_rate at_ (tok_user_id token)
                           (CreateBlip (tok_wavelet_id token) (rq_parent body) None) limits in
    if negb ok then cm_ret (Some RRateLimited, limits)
    else
      answer <-! create_reply fuel identity body;
      modify (match answer with Some _ => maybe_evict (tok_wave_id token) | None => λ a, a end) ;!
      cm_ret (answer, limits).

End agent.
