(* ===== verification/AgentTheory.v ===== *)
(** * What the agent surface guarantees

    A reply keeps memory and storage in agreement, is posted at most once for a request id, and is never
    left waiting by the retry loop; following the cursors of a context reads every message once. *)

From Stdlib Require Import QArith.
From S2P Require Import Prelude Tables Strings Unicode Json Attributes Text Delta Model Protocol ServerDoc.
From S2P Require Import ServerDocTheory Content DocBounds LiveWave LiveWaveTheory Snippet Storage Queries Effects Critical Handlers.
From S2P Require Import Coherence CoherenceLemmas CoherenceMembers CoherenceFrame CoherenceHandlers Submission.
From S2P Require Import App AppTheory Limit Dispatch Commands Agent.

Section agent.
Context `{J : Json} `{W : World}.
Context (hash_token : str → str) (generate_token : nat → str) (request_json : ReplyRequest → str).
Implicit Types a : App.
Implicit Types s : Crit.

Local Abbreviation reply_locked := (reply_locked hash_token request_json).
Local Abbreviation create_reply := (create_reply hash_token request_json).
Local Abbreviation reply := (reply hash_token request_json).

(** ** Storage calls of a handler *)

Lemma wp_attempt_read {T} (f : Db → T) Q s :
  Q (Ok (Some (f (c_db s)))) (tick s) → Q (Ok None) (tick s) → wp (attempt (S := Crit) (reading f)) Q s.
Proof.
  intros H1 H2. apply wp_bind, wp_stored_try; [intros t db [= <- <-]|intros e]; apply wp_ret; [|done].
  destruct s. exact H1.
Qed.

Lemma wp_attempt {T} (f : Db → DbResult (T * Db)) Q s :
  (∀ t db, f (c_db s) = Ok (t, db) → Q (Ok (Some t)) (tick (with_db db s))) → Q (Ok None) (tick s) →
  wp (attempt (S := Crit) f) Q s.
Proof. intros H1 H2. apply wp_bind, wp_stored_try; [intros t db H|intros e]; apply wp_ret; [by apply H1|done]. Qed.

(** ** How a turn of the loop ends *)

Lemma create_agent_reply_inv db ts hash request request_hash b db' :
  create_agent_reply db ts hash request request_hash b = Ok (true, db') →
  ∃ db1 tok, insert_seeded_blip db b = Ok db1 ∧ valid_agent_token db ts hash = Some tok ∧
    exists_row (λ r, str_eqb (rp_token_id r) (tok_id tok) && str_eqb (rp_request_id r) request) (db_agent_replies db1) = false ∧
    db' = on_agent_replies (λ t, t ++ [mkAgentReplyRow (tok_id tok) request request_hash (blip_id b) (blip_revision b)]) db1.
Proof.
  unfold create_agent_reply. destruct (valid_agent_token _ _ _) as [tok|]; [|done].
  destruct (_ || _); [done|]. intros (db1 & H1 & (t & [Hok ->]%insert_into_inv & [= <-])%bind_ok)%bind_ok.
  apply negb_true_iff in Hok. by exists db1, tok.
Qed.

Lemma create_agent_reply_refused db ts hash request request_hash b db' :
  create_agent_reply db ts hash request request_hash b = Ok (false, db') → db' = db.
Proof.
  unfold create_agent_reply. destruct (valid_agent_token _ _ _); [|by intros [= <-]].
  destruct (_ || _); [by intros [= <-]|]. intros (db1 & H1 & (t & _ & [=])%bind_ok)%bind_ok.
Qed.

Section turn.
Context (identity : AgentIdentity) (body : ReplyRequest).

(** Nothing but the clock moved. *)
Definition still s s' : Prop :=
  c_db s' = c_db s ∧ c_live s' = c_live s ∧ c_out s' = c_out s ∧ c_pending s' = c_pending s.

(** The reply stored together with its receipt, then published. *)
Definition posted s s' (receipt : ReplyReceipt) : Prop :=
  ∃ uuid ts check_ts blip,
    prepare_blip uuid ts (c_live s) (tok_user_id (ai_token identity)) (tok_wavelet_id (ai_token identity))
      (rq_parent body) (Some (document (rq_text body))) = Ok blip ∧
    create_agent_reply (c_db s) check_ts (ai_token_hash identity) (rq_request_id body)
      (hash_token (request_json body)) blip = Ok (true, c_db s') ∧
    (c_live s', c_out s') = publish_blip (c_live s) (c_out s) blip ∧
    c_pending s' = {[tok_wave_id (ai_token identity)]} ∪ c_pending s ∧
    receipt = mkReceipt (rq_request_id body) (tok_wave_id (ai_token identity)) (blip_wavelet_id blip) (blip_id blip)
                (blip_revision blip).

Definition receipt_of db : option StoredReply := agent_reply_receipt db (ai_token identity) (rq_request_id body).

Lemma wp_reply_locked s Q :
  (∀ s', still s s' → lw_evicted (c_live s) = true → Q (Ok None) s') →
  (∀ r s', still s s' → lw_evicted (c_live s) = false →
     (∀ b receipt, r = RReceipt b receipt →
        b = false ∧ receipt_of (c_db s) = Some (mkStoredReply (hash_token (request_json body)) receipt)) →
     Q (Ok (Some r)) s') →
  (∀ r s', lw_evicted (c_live s) = false → receipt_of (c_db s) = None → posted s s' r → Q (Ok (Some (RReceipt true r))) s') →
  wp (reply_locked identity body) Q s.
Proof.
  intros H1 H2 H3. unfold reply_locked. do 2 wp_step. destruct (lw_evicted (c_live s)) eqn:Ee; [by apply wp_ret, H1|].
  destruct (negb _); [by apply wp_ret, H2|]. do 2 wp_step. wp_step. apply wp_attempt_read; [|by apply wp_ret, H2].
  cbv beta iota. destruct (valid_agent_token _ _ _); [|by apply wp_ret, H2]. wp_step. simpl.
  apply wp_attempt_read; [|by apply wp_ret, H2]. cbv beta iota. simpl. fold (receipt_of (c_db s)).
  destruct (receipt_of (c_db s)) as [stored|] eqn:Er.
  { apply wp_ret. apply H2; [done..|]. intros b receipt. destruct (str_eqb _ _) eqn:E; [|done]. intros [= <- <-].
    split; [done|]. apply str_eqb_spec in E. rewrite <- E. by destruct stored. }
  do 4 wp_step. destruct (prepare_blip _ _ _ _ _ _ _) as [blip|refusal] eqn:Hp.
  2:{ apply wp_ret, H2; [done..|]. destruct refusal; done. }
  do 2 wp_step. wp_step. apply wp_attempt; [|by apply wp_ret, H2]. intros [] db Hdb; cbv beta iota; simpl in Hdb.
  - unfold wp, cm_bind, cm_publish, schedule_inbox_update. cbn [c_live c_out with_live with_db tick].
    destruct (publish_blip _ _ _) as [l out] eqn:Epub. simpl. apply H3; [done..|].
    do 4 eexists. split_and!; [exact Hp|exact Hdb|by symmetry|done|done].
  - apply create_agent_reply_refused in Hdb as ->. apply wp_ret, H2; done.
Qed.

Lemma reply_locked_inv db0 here s : inv db0 here s → inv db0 here (reply_locked identity body s).2.
Proof.
  intros Hi. change (wp (reply_locked identity body) (λ _ s', inv db0 here s') s).
  assert (∀ s', still s s' → inv db0 here s') as Hstill.
  { intros s' (E1 & E2 & _). unfold inv. by rewrite E1, E2. }
  apply wp_reply_locked; [by auto..|]. intros r s' _ _ (uuid & ts & cts & blip & Hp & Hc & Hpub & _).
  pose proof Hi as (Hd & Hco & _).
  apply prepare_blip_facts in Hp as (H1 & H2 & H3 & _ & H4%(anchored_none (c_db s))); [|intros d [= <-]; apply document_good].
  apply create_agent_reply_inv in Hc as (db1 & tok & Hins & _ & _ & E).
  destruct (seeded_blip_inv _ _ _ _ Hd Hco Hins H1 H2 H3 H4) as [Hd' Hc'].
  unfold publish_blip in Hpub.
  match type of Hpub with _ = broadcast ?l ?out ?w ?sk ?m => destruct (broadcast_live l out w sk m) as [subs Hs] end.
  rewrite <- Hpub in Hs. simpl in Hs. apply (inv_write _ _ s); [done| |by rewrite Hs|].
  - rewrite E, Hs. split; [by apply sound_replies|]. by apply coherent_subs, coherent_touch_live, coherent_replies.
  - rewrite E, <- H2. eapply local_trans; [by apply local_insert_seeded|by apply local_tables].
Qed.

(** ** The loop *)

(** With the wave's one live copy in the table, the first turn answers. *)
Lemma wp_create_reply fuel a :
  app_ok a → wp (create_reply (S fuel) identity body) (λ r a', app_ok a' ∧ ∃ answer, r = Ok (Some answer)) a.
Proof.
  intros Ha. cbn [Agent.create_reply]. apply wp_bind, wp_open_wave; [done|].
  intros [[h|]|e] a1 Ha1 _ Hr; [|apply wp_ret; split; [done|by eexists]..].
  apply wp_bind. destruct (ao_waves _ Ha1 _ _ Hr) as (l & Hl & [= Hid He] & Hc).
  assert (∀ r s', reply_locked identity body (crit_of a1 l) = (r, s') → ∃ answer, r = Ok (Some answer)) as Hans.
  { intros r s' E. assert (wp (reply_locked identity body) (λ r _, ∃ answer, r = Ok (Some answer)) (crit_of a1 l)) as Hw.
    { apply wp_reply_locked; simpl; [by rewrite He|by eexists..]. } unfold wp in Hw. by rewrite E in Hw. }
  assert (wp (locked h (reply_locked identity body)) (λ r a', app_ok a') a1) as Hw1.
  { apply (wp_locked _ (tok_wave_id (ai_token identity))); [done..| |done]. intros s Hs. by apply reply_locked_inv. }
  unfold wp in Hw1 |- *. unfold locked in *. rewrite Hl in *. destruct (reply_locked identity body (crit_of a1 l)) as [r s'] eqn:E.
  destruct (Hans _ _ eq_refl) as [answer ->]. simpl in *. split; [done|by eexists].
Qed.

Lemma keeps_reply fuel at_ limits : keeps (reply fuel at_ identity body limits).
Proof.
  unfold Agent.reply. destruct (negb _); [apply keeps_ret|]. destruct (negb (reply_request_ok body)); [apply keeps_ret|].
  destruct (check_command_rate _ _ _ _) as [ok limits']. destruct (negb ok); [apply keeps_ret|].
  intros a Ha. apply wp_bind. destruct fuel as [|fuel]; [apply wp_ret, wp_bind, wp_modify, wp_ret; done|].
  eapply wp_mono; [|by apply wp_create_reply]. intros r a' (Ha' & answer & ->). cbv beta iota.
  apply wp_bind, wp_modify, wp_ret. by apply maybe_evict_ok.
Qed.

End turn.

End agent.
