(* ===== verification/Sections.v ===== *)
(** * What runs under the lock of a wave

    Every critical section as one kind of command, [execute].  Each keeps memory and storage in agreement, and is all
    or nothing: a command that is refused, for whatever reason, a failing disk included, leaves storage, the resident wave
    and every queue as they were: all its checks come before its one write, and nothing after the write fails. *)

From S2P Require Import Prelude Tables Strings Unicode Json Attributes Text Delta Model Protocol ServerDoc.
From S2P Require Import Content DocBounds LiveWave LiveWaveTheory Storage OpLog Queries Effects Critical Handlers.
From S2P Require Import Coherence CoherenceLemmas CoherenceMembers CoherenceFrame CoherenceHandlers Submission.
From S2P Require Import App AppTheory Limit Agent AgentTheory.

Section sections.
Context `{J : Json} `{W : World}.
Context (hash_token : str → str) (request_json : ReplyRequest → str).
Implicit Types l : LiveWave.
Implicit Types s : Crit.

Inductive Locked : Type :=
| LSubmit (blip : BlipId) (revision : N) (delta : Delta) (op_id : option str)
| LCreateBlip (wavelet : WaveletId) (parent : option BlipId) (content : option Delta)
| LCreateComment (wavelet : WaveletId) (target : BlipId) (comment : CommentId) (content : option Delta)
| LReplyToComment (comment : CommentId) (content : option Delta)
| LResolveComment (comment : CommentId) (resolved : bool)
| LDeleteBlip (blip : BlipId)
| LSetTitle (wavelet : WaveletId) (title : str)
| LSetMode (mode : WaveMode)
| LAddParticipant (wavelet : WaveletId) (user : User)
| LRemoveParticipant (wavelet : WaveletId) (user : UserId)
| LPrivateReply (wavelet : WaveletId) (anchor : BlipId) (ids : list UserId)
| LCursor (blip : BlipId) (index length : N)
| LOpen (marks : gmap BlipId N) (fl : WaveFlags)
| LLeave
| LAgentReply (identity : AgentIdentity) (body : ReplyRequest).

Definition execute (user : UserId) (conn : ConnId) (wave : WaveId) (c : Locked) : CM () :=
  match c with
  | LSubmit blip revision delta op_id => apply_op conn user (mkSubmission blip revision delta op_id)
  | LCreateBlip wavelet parent content => create_blip_locked user wave wavelet parent content
  | LCreateComment wavelet target comment content => create_comment_locked user wave wavelet target comment content
  | LReplyToComment comment content => reply_to_comment_locked user wave comment content
  | LResolveComment comment resolved => resolve_comment_locked user wave comment resolved
  | LDeleteBlip blip => delete_blip_locked user wave blip
  | LSetTitle wavelet title => set_title_locked user wave wavelet title
  | LSetMode mode => set_mode_locked user wave mode
  | LAddParticipant wavelet added => add_participant_locked user wave wavelet added
  | LRemoveParticipant wavelet removed => remove_participant_locked user wave wavelet removed
  | LPrivateReply wavelet anchor ids => private_reply_locked user wave wavelet anchor ids
  | LCursor blip index length => cursor_locked user conn wave blip index length
  | LOpen marks fl => open_locked user conn wave marks fl
  | LLeave => leave_locked conn wave
  | LAgentReply identity body => cm_bind (reply_locked hash_token request_json identity body) (λ _, cm_ret tt)
  end.

(** An edit comes from the wire; see [Submission.editable]. *)
Definition from_wire l (c : Locked) : Prop :=
  match c with LSubmit blip _ delta _ => editable blip delta l | _ => True end.

Lemma answered identity body s :
  cm_bind (reply_locked hash_token request_json identity body) (λ _, cm_ret tt) s =
  (Ok tt, (reply_locked hash_token request_json identity body s).2).
Proof.
  assert (wp (reply_locked hash_token request_json identity body) (λ r _, is_ok r = true) s) as H by by apply wp_reply_locked.
  unfold wp in H. unfold cm_bind. by destruct (reply_locked _ _ _ _ s) as [[] s'].
Qed.

(** What a section needs to keep memory and storage in agreement: what it carries is as a client encodes it. *)
Definition well_encoded l (c : Locked) : Prop :=
  from_wire l c ∧
  match c with
  | LCreateBlip _ _ content => wire_seed content
  | LCreateComment _ _ _ content | LReplyToComment _ content => ∀ d, content = Some d → good_text d
  | _ => True
  end.

Lemma execute_inv db0 user conn c s :
  inv db0 (wave_id (lw_wave (c_live s))) s → well_encoded (c_live s) c →
  inv db0 (wave_id (lw_wave (c_live s))) (execute user conn (wave_id (lw_wave (c_live s))) c s).2.
Proof.
  intros Hi [Hw Hc]. destruct c; cbn [execute]; cbn in Hw, Hc.
  - by apply apply_op_inv.
  - by apply create_blip_inv.
  - by apply create_comment_inv'.
  - by apply reply_to_comment_inv.
  - by apply resolve_comment_inv.
  - by apply delete_blip_locked_inv.
  - by apply set_title_locked_inv.
  - by apply set_mode_locked_inv.
  - by apply add_participant_locked_inv.
  - by apply remove_participant_locked_inv.
  - by apply private_reply_locked_inv.
  - by apply cursor_locked_inv.
  - by apply open_locked_inv.
  - by apply leave_locked_inv.
  - rewrite answered. by apply reply_locked_inv.
Qed.

End sections.

Section atomic.
Context `{J : Json} `{W : World}.
Implicit Types s : Crit.

(** ** What cannot fail *)

Definition settles {T} (m : CM T) : Prop := ∀ s, is_ok (m s).1 = true.

Lemma settles_bind {T U} (m : CM T) (f : T → CM U) : settles m → (∀ t, settles (f t)) → settles (cm_bind m f).
Proof. intros Hm Hf s. unfold cm_bind. specialize (Hm s). destruct (m s) as [[t|e] s']; [apply Hf|done]. Qed.

Lemma settles_ret {T} (t : T) : settles (cm_ret (S := Crit) t).
Proof. by intros s. Qed.
Lemma settles_get : settles get_live.
Proof. by intros s. Qed.
Lemma settles_put l : settles (put_live l).
Proof. by intros s. Qed.
Lemma settles_broadcast wavelet skip m : settles (cm_broadcast wavelet skip m).
Proof. intros s. unfold cm_broadcast. by destruct (broadcast _ _ _ _ _). Qed.
Lemma settles_presence wave : settles (cm_presence wave).
Proof. intros s. unfold cm_presence. by destruct (broadcast_presence _ _ _). Qed.
Lemma settles_send_to conn m : settles (cm_send_to conn m).
Proof. intros s. unfold cm_send_to. by destruct (send_to _ _ _ _). Qed.
Lemma settles_publish b : settles (cm_publish b).
Proof. intros s. unfold cm_publish. by destruct (publish_blip _ _ _). Qed.
Lemma settles_admit b : settles (admit_blip b).
Proof. by intros s. Qed.
Lemma settles_send_to_user user m : settles (cm_send_to_user user m).
Proof. by intros s. Qed.
Lemma settles_schedule wave : settles (schedule_inbox_update wave).
Proof. by intros s. Qed.
Lemma settles_each {A} (f : A → CM ()) xs : (∀ x, settles (f x)) → settles (cm_each f xs).
Proof. intros Hf. induction xs as [|x xs IH]; [apply settles_ret|]. apply settles_bind; [apply Hf|by intros []]. Qed.

(** ** What a refusal leaves *)

Definition unless_ok {T} s (r : result T ServerMessage) s' : Prop := is_ok r = false → nothing_happened s s'.

Definition all_or_nothing {T} (m : CM T) s : Prop := unless_ok s (m s).1 (m s).2.

Lemma refuse {T} s s' (e : ServerMessage) :
  c_db s' = c_db s → c_live s' = c_live s → c_out s' = c_out s → c_pending s' = c_pending s →
  unless_ok (T := T) s (Err e) s'.
Proof. intros H1 H2 H3 H4 _. by apply nothing_eq. Qed.

Lemma wp_settled {T} (m : CM T) s s' : settles m → wp m (unless_ok s) s'.
Proof. intros H E. specialize (H s'). congruence. Qed.

End atomic.

Create HintDb settles.
#[export] Hint Resolve settles_bind settles_ret settles_get settles_put settles_broadcast settles_presence settles_send_to
  settles_publish settles_admit settles_send_to_user settles_schedule settles_each : settles.
#[export] Hint Extern 1 (settles (match ?x with _ => _ end)) => destruct x : settles.

(** Through the checks, up to the write; behind it nothing fails. *)
Ltac to_write :=
  repeat match goal with
  | |- unless_ok _ (Err _) _ => by apply refuse
  | |- unless_ok _ (Ok _) _ => done
  | |- wp _ _ _ => apply wp_settled; solve [eauto 20 with settles]
  | |- wp (guard _ _) _ _ => apply wp_guard; [intros _|intros _; by apply refuse]
  | |- wp (cm_bind (db_write _) _) _ _ => apply wp_bind, wp_db_write; [intros ? _|by apply refuse]
  | |- wp (db_write _) _ _ => apply wp_db_write; [intros ? _|by apply refuse]
  | |- wp _ _ _ => wp_step
  | |- wp (match ?x with _ => _ end) _ _ => destruct x
  | |- match ?x with _ => _ end => destruct x
  | |- wp (let '_ := ?x in _) _ _ => destruct x
  end; cbv beta iota zeta.

Section handlers.
Context `{J : Json} `{W : World}.
Implicit Types s : Crit.

(** Every command by the same steps. *)
Ltac atomic m := apply (wp_mono _ _ (unless_ok _) _ (λ _ _ H, H)); unfold m, guard_access; to_write.

Lemma create_blip_atomic s user wave wavelet parent content : all_or_nothing (create_blip_locked user wave wavelet parent content) s.
Proof. atomic @create_blip_locked. Qed.

Lemma create_comment_atomic s user wave wavelet target comment content : all_or_nothing (create_comment_locked user wave wavelet target comment content) s.
Proof. atomic @create_comment_locked. Qed.

Lemma reply_to_comment_atomic s user wave comment content : all_or_nothing (reply_to_comment_locked user wave comment content) s.
Proof. atomic @reply_to_comment_locked. Qed.

Lemma resolve_comment_atomic s user wave comment resolved : all_or_nothing (resolve_comment_locked user wave comment resolved) s.
Proof. atomic @resolve_comment_locked. Qed.

Lemma delete_blip_atomic s user wave blip : all_or_nothing (delete_blip_locked user wave blip) s.
Proof. atomic @delete_blip_locked. Qed.

Lemma set_title_atomic s user wave wavelet title : all_or_nothing (set_title_locked user wave wavelet title) s.
Proof. atomic @set_title_locked. Qed.

Lemma set_mode_atomic s user wave mode : all_or_nothing (set_mode_locked user wave mode) s.
Proof. atomic @set_mode_locked. Qed.

Lemma add_participant_atomic s caller wave wavelet user : all_or_nothing (add_participant_locked caller wave wavelet user) s.
Proof. atomic @add_participant_locked. Qed.

Lemma remove_participant_atomic s caller wave wavelet user : all_or_nothing (remove_participant_locked caller wave wavelet user) s.
Proof. atomic @remove_participant_locked. Qed.

Lemma private_reply_atomic s user wave wavelet anchor ids : all_or_nothing (private_reply_locked user wave wavelet anchor ids) s.
Proof. atomic @private_reply_locked. Qed.

Lemma cursor_atomic s user conn wave blip index length : all_or_nothing (cursor_locked user conn wave blip index length) s.
Proof. atomic @cursor_locked. Qed.

Lemma open_atomic s user conn wave marks fl : all_or_nothing (open_locked user conn wave marks fl) s.
Proof. atomic @open_locked. Qed.

Lemma leave_atomic s conn wave : all_or_nothing (leave_locked conn wave) s.
Proof. atomic @leave_locked. Qed.

End handlers.
