(* ===== verification/Server.v ===== *)
(** * The server as a transition system

    What can happen to the server's state: a connection comes or goes, a command is handled, an agent
    replies, the inbox task runs, a wave is evicted, a command panicked.  Storage may fail at any call.
    Every state reached from sound tables is in order. *)

From Stdlib Require Import QArith.
From S2P Require Import Prelude Tables Strings Unicode Json Attributes Text Delta Model Protocol ServerDoc.
From S2P Require Import ServerDocTheory Content DocBounds LiveWave LiveWaveTheory Snippet Storage Queries Effects Critical Handlers.
From S2P Require Import Coherence CoherenceLemmas CoherenceMembers CoherenceFrame CoherenceHandlers Submission.
From S2P Require Import App AppTheory Limit Dispatch Commands Agent AgentTheory.

Section server.
Context `{J : Json} `{U : Unicode} `{W : World}.
Context (fts_match : str → list SearchRow → list (SearchRow * str)).
Context (hash_token : str → str) (generate_token : nat → str) (request_json : ReplyRequest → str).
Implicit Types a : App.

Local Abbreviation dispatch := (dispatch fts_match).
Local Abbreviation read_command := (read_command fts_match).

(** ** Commands *)

Definition is_submit (m : ClientMessage) : bool := match m with Submit _ _ _ _ => true | _ => false end.

Lemma keeps_dispatch s m : wire_message m → is_submit m = false → keeps (dispatch s m).
Proof.
  intros Hm Hs. destruct m; simpl in Hm, Hs; cbn [Dispatch.dispatch]; try done.
  all: try solve [eauto 8 with keeps nocore].
  - by apply keeps_create_wave.
  - eapply (keeps_on_found _ _ (λ id, create_blip_locked _ id _ _ _)). intros id. by apply create_blip_ok.
  - eapply (keeps_on_found _ _ (λ id, delete_blip_locked _ id _)). intros id s' Hi. by apply delete_blip_locked_inv.
  - eapply (keeps_on_found _ _ (λ id, set_title_locked _ id _ _)). intros id s' Hi. by apply set_title_locked_inv.
  - eapply (keeps_on_found _ _ (λ id, remove_participant_locked _ id _ _)). intros id s' Hi.
    by apply remove_participant_locked_inv.
  - by apply keeps_create_comment.
  - by apply keeps_reply_to_comment.
  - eapply (keeps_on_found _ _ (λ id, resolve_comment_locked _ id _ _)). intros id s' Hi. by apply resolve_comment_inv.
  - apply keeps_bind; [apply keeps_participant|intros _].
    apply keeps_bind; [apply keeps_write, mark_wave_read_core|intros _; apply keeps_inbox_row].
  - apply keeps_bind; [apply keeps_participant|intros _].
    apply keeps_bind; [apply keeps_write, set_flags_core|intros _; apply keeps_inbox_row].
Qed.

Lemma wp_dispatch s m a :
  app_ok a → wire_message m → revisions_left (app_db a) → wp (dispatch s m) (λ _ a', app_ok a') a.
Proof.
  intros Ha Hm Hr. destruct (is_submit m) eqn:E; [|by apply keeps_dispatch].
  destruct m; try done. by apply keeps_submit.
Qed.

(** ** The rest of a connection's life *)

Lemma keeps_bump {T} (m : AM T) : (∀ a, app_ok a → app_ok (m a).2) → keeps m.
Proof. intros H a Ha. by apply H. Qed.

Lemma keeps_greet s : keeps (greet s).
Proof.
  unfold greet. apply keeps_bind; [apply keeps_now|intros ts]. apply keeps_bind; [apply keeps_try_read|intros [[expiry|]|e]];
    eauto 6 with keeps nocore.
  apply keeps_bind; [apply keeps_try_read|intros [i|e]]; eauto 6 with keeps nocore.
Qed.

Lemma keeps_after_panic s : keeps (after_panic s).
Proof.
  apply keeps_bind; [apply keeps_get|intros a0]. apply keeps_bind; [|intros _; apply keeps_send].
  apply keeps_each. intros id. apply keeps_bump. intros a Ha. by apply evict_after_panic_ok.
Qed.

Lemma keeps_hang_up s : keeps (hang_up s).
Proof.
  apply keeps_bind; [apply keeps_get|intros a0]. apply keeps_bind; [apply keeps_each, keeps_leave|intros _].
  apply keeps_bump. intros a Ha. by apply unregister_conn_ok.
Qed.

Lemma keeps_inbox_task id : keeps (inbox_task id).
Proof.
  apply keeps_bind; [by apply keeps_quiet|intros _]. apply keeps_bind; [apply keeps_try_read|intros [users|e]];
    [|apply keeps_ret]. apply keeps_each. intros user. apply keeps_bind; [apply keeps_get|intros a0].
  destruct (app_user_conns a0 !! user); [|apply keeps_ret].
  apply keeps_bind; [apply keeps_try_read|intros [[x|]|e]]; eauto with keeps nocore.
Qed.

Lemma read_command_ok s at_ m limits a :
  app_ok a → wire_message m → revisions_left (app_db a) → app_ok (read_command s at_ m limits a).2.
Proof.
  intros Ha Hm Hr. unfold Dispatch.read_command. destruct (check_command_rate _ _ _ _) as [ok limits'].
  destruct (negb ok); [by apply (quiet_ok a)|]. pose proof (wp_dispatch s m a Ha Hm Hr) as H. unfold wp in H.
  destruct (dispatch s m a) as [[[]|reply] a']; [done|]. simpl in *. by apply (quiet_ok a').
Qed.

(** ** Agents *)

Lemma keeps_attempt_read {T} (f : Db → T) : keeps (attempt (S := App) (reading f)).
Proof. apply keeps_bind; [apply keeps_try_read|intros; apply keeps_ret]. Qed.

Lemma keeps_attempt {T} (f : Db → DbResult (T * Db)) :
  (∀ db t db', f db = Ok (t, db') → same_core db db') → keeps (attempt (S := App) f).
Proof.
  intros H. apply keeps_bind; [|intros; apply keeps_ret]. intros a Ha.
  apply wp_stored_try; [intros t db Hdb|intros e; by apply (quiet_ok a)]. by apply (core_ok a); [eapply H|..].
Qed.

Lemma keeps_create_token at_ user body limits : keeps (create_token hash_token generate_token at_ user body limits).
Proof.
  unfold create_token. destruct (negb _); [apply keeps_ret|]. destruct (check_command_rate _ _ _ _) as [ok limits'].
  destruct (negb ok); [apply keeps_ret|]. apply keeps_bind; [apply keeps_attempt_read|intros [[w|]|]]; [|apply keeps_ret..].
  apply keeps_bind; [apply keeps_now|intros ts]. apply keeps_bind; [apply keeps_uuid|intros uuid].
  apply keeps_bind; [by apply keeps_quiet|intros secret]. apply keeps_bind; [|intros; apply keeps_ret].
  apply keeps_attempt. intros db t db'. unfold create_agent_token. destruct (negb _); [by intros [= <- <-]|].
  by intros (rows & _ & [= <- <-])%bind_ok.
Qed.

Lemma keeps_revoke_token user id : keeps (revoke_token user id).
Proof. apply keeps_bind; [|intros; apply keeps_ret]. apply keeps_attempt. by intros db t db' [= <- <-]. Qed.

(** ** Everything that can happen *)

Inductive happens : App → App → Prop :=
| h_connect a user token_hash :
    (app_next_conn a + 1 < two64)%N → happens a (register_conn user MAX_CONNECTIONS_PER_USER token_hash a).2
| h_greet a s : happens a (greet s a).2
| h_command a s at_ m limits :
    wire_message m → revisions_left (app_db a) → happens a (read_command s at_ m limits a).2
| h_panic a s : happens a (after_panic s a).2
| h_hang_up a s : happens a (hang_up s a).2
| h_inbox_task a id : happens a (inbox_task id a).2
| h_agent_reply a fuel at_ identity body limits :
    happens a (reply hash_token request_json fuel at_ identity body limits a).2
| h_agent_panic a id : happens a (evict_after_panic id a)
| h_create_token a at_ user body limits : happens a (create_token hash_token generate_token at_ user body limits a).2
| h_revoke_token a user id : happens a (revoke_token user id a).2
(** Sign-ups, sessions, passwords, uploads. *)
| h_account a a' : aside a a' → happens a a'.

Lemma happens_ok a a' : happens a a' → app_ok a → app_ok a'.
Proof.
  intros [] Ha.
  - by apply register_conn_ok.
  - by apply keeps_greet.
  - by apply read_command_ok.
  - by apply keeps_after_panic.
  - by apply keeps_hang_up.
  - by apply keeps_inbox_task.
  - by apply keeps_reply.
  - by apply evict_after_panic_ok.
  - by apply keeps_create_token.
  - by apply keeps_revoke_token.
  - by eapply aside_ok.
Qed.

Lemma app_new_ok db : db_sound db → app_ok (app_new db).
Proof. intros Hd. constructor; try done. constructor; simpl; try done. by intros c [? ?]. Qed.

Lemma reached_ok db a : db_sound db → rtc happens (app_new db) a → app_ok a.
Proof.
  intros Hd H. apply app_new_ok in Hd. revert Hd. induction H; [done|]. intros Hd. apply IHrtc. by eapply happens_ok.
Qed.

End server.
