(* ===== verification/Watchers.v ===== *)
(** * Who watches a wave

    A resident wave lists its watchers; a connection keeps the set of waves it watches; the server keeps the table of
    connections.  [watched_ok] says that the three agree.  Sections under a lock only ever take watchers away, opening
    a wave apart; so the agreement is carried through every command without looking at storage. *)

From Stdlib Require Import QArith.
From S2P Require Import Prelude Tables Strings Unicode Json Attributes Text Delta Model Protocol ServerDoc.
From S2P Require Import Content LiveWave Storage Queries Effects Critical Handlers Coherence App AppTheory.
From S2P Require Import Limit Dispatch Agent.

Section watchers.
Context `{J : Json} `{U : Unicode} `{W : World}.
Implicit Types l : LiveWave.
Implicit Types s : Crit.
Implicit Types a : App.

(** ** Sections *)

Section thin.
(** The watchers a wave may have, and which copy it is. *)
Context (P : ConnId → UserId → ConnId → Prop) (w0 : WaveId * bool).

Definition kept l : Prop :=
  who l = w0 ∧ ∀ c sub, lw_subscribers l !! c = Some sub → P c (sub_user_id sub) (sub_tx sub).

Definition thin {T} (m : CM T) : Prop := ∀ s, kept (c_live s) → kept (c_live (m s).2).

Lemma kept_same l l' : who l' = who l → lw_subscribers l' = lw_subscribers l → kept l → kept l'.
Proof. unfold kept. by intros -> ->. Qed.

Lemma kept_fewer l subs : (∀ c sub, subs !! c = Some sub → lw_subscribers l !! c = Some sub) → kept l → kept (set_subscribers subs l).
Proof. intros H [Hw Hk]. split; [done|]. intros c sub Hc. by apply Hk, H. Qed.

Lemma kept_disconnect l out ids : kept l → kept (disconnect l out ids).1.
Proof.
  intros Hl. unfold disconnect. induction ids as [|c ids IH] using rev_ind; [done|].
  rewrite foldl_app. destruct (foldl _ _ ids) as [l' out']. simpl in *.
  destruct (lw_subscribers l' !! c); [|done]. apply kept_fewer; [|done]. by intros c' sub [_ ?]%lookup_delete_Some.
Qed.

Lemma kept_broadcast l out wavelet skip m : kept l → kept (broadcast l out wavelet skip m).1.
Proof. unfold broadcast. destruct (foldl _ _ _) as [out' failed]. apply kept_disconnect. Qed.

Lemma kept_presence l out wave : kept l → kept (broadcast_presence l out wave).1.
Proof. unfold broadcast_presence. destruct (foldl _ _ _) as [out' failed]. apply kept_disconnect. Qed.

Lemma kept_send_to l out conn m : kept l → kept (send_to l out conn m).1.
Proof. intros Hl. unfold send_to. repeat case_match; try done. by apply kept_disconnect. Qed.

Lemma thin_bind {T V} (m : CM T) (f : T → CM V) : thin m → (∀ t, thin (f t)) → thin (cm_bind m f).
Proof.
  intros Hm Hf s Hs. specialize (Hm s Hs). unfold cm_bind. destruct (m s) as [[t|e] s']; [by apply Hf|done].
Qed.

Lemma thin_live {V} (f : LiveWave → CM V) : (∀ l, kept l → thin (f l)) → thin (cm_bind get_live f).
Proof. intros Hf s Hs. by apply (Hf (c_live s)). Qed.

Lemma thin_put l : kept l → thin (put_live l).
Proof. by intros Hl s Hs. Qed.

Lemma thin_same {T} (m : CM T) : (∀ s, c_live (m s).2 = c_live s) → thin m.
Proof. intros H s. by rewrite H. Qed.

Lemma thin_try {T} (f : Db → DbResult (T * Db)) : thin (try_db f).
Proof. apply thin_same. intros s. unfold try_db. by repeat case_match. Qed.

Lemma thin_call {T} (f : Db → DbResult (T * Db)) : thin (db_call f).
Proof. apply thin_same. intros s. unfold db_call, try_db. by repeat (case_match; simplify_eq/=). Qed.

Lemma thin_broadcast wavelet skip m : thin (cm_broadcast wavelet skip m).
Proof.
  intros s Hs. unfold cm_broadcast. pose proof (kept_broadcast _ (c_out s) wavelet skip m Hs) as H.
  by destruct (broadcast _ _ _ _ _).
Qed.

Lemma thin_presence wave : thin (cm_presence wave).
Proof.
  intros s Hs. unfold cm_presence. pose proof (kept_presence _ (c_out s) wave Hs) as H. by destruct (broadcast_presence _ _ _).
Qed.

Lemma thin_send_to conn m : thin (cm_send_to conn m).
Proof.
  intros s Hs. unfold cm_send_to. pose proof (kept_send_to _ (c_out s) conn m Hs) as H. by destruct (send_to _ _ _ _).
Qed.

Lemma thin_publish b : thin (cm_publish b).
Proof.
  intros s Hs. unfold cm_publish, publish_blip.
  set (l := wavelet_mut _ _ _). assert (kept l) as Hl by by apply (kept_same (c_live s)).
  pose proof (kept_broadcast _ (c_out s) (blip_wavelet_id b) None (BlipAdded (blip_wave_id b) (blip_view b ∅)) Hl) as H.
  by destruct (broadcast _ _ _ _ _).
Qed.

Lemma thin_guard (ok : bool) refusal : thin (guard ok refusal).
Proof. apply thin_same. intros s. by destruct ok. Qed.

Lemma thin_admit b : thin (admit_blip b).
Proof. intros s Hs. by apply (kept_same (c_live s)). Qed.

Lemma thin_each {A} (f : A → CM ()) xs : (∀ x, thin (f x)) → thin (cm_each f xs).
Proof. intros Hf. induction xs as [|x xs IH]; [by intros s|]. apply thin_bind; [apply Hf|done]. Qed.

End thin.

(** One step: name the wave read, split a sequence, a case or a loop, or finish. *)
Ltac thin_step :=
  match goal with
  | |- thin _ _ (cm_bind get_live _) => apply thin_live; intros ? ?
  | |- thin _ _ (cm_bind _ _) => apply thin_bind; [|intros ?]
  | |- thin _ _ (cm_broadcast _ _ _) => apply thin_broadcast
  | |- thin _ _ (cm_presence _) => apply thin_presence
  | |- thin _ _ (cm_send_to _ _) => apply thin_send_to
  | |- thin _ _ (cm_publish _) => apply thin_publish
  | |- thin _ _ (guard _ _) => apply thin_guard
  | |- thin _ _ (admit_blip _) => apply thin_admit
  | |- thin _ _ (cm_each _ _) => apply thin_each; intros ?
  | |- thin _ _ (try_db _) => apply thin_try
  | |- thin _ _ (db_call _) => apply thin_call
  | |- thin _ _ (db_write _) => apply thin_call
  | |- thin _ _ (db_read _) => apply thin_call
  | |- thin _ _ (put_live _) => apply thin_put
  | |- kept _ _ _ => first [done | eapply kept_same; [| |eassumption]; done]
  | |- thin _ _ (match ?x with _ => _ end) => destruct x
  | |- thin _ _ (let '_ := ?x in _) => destruct x
  | |- thin _ _ _ => by apply thin_same
  end.
Ltac thinning m := intros; unfold m, guard_access, attempt, cascade; cbv beta iota zeta; repeat thin_step.

Section handlers.
Context (P : ConnId → UserId → ConnId → Prop) (w0 : WaveId * bool).
#[local] Abbreviation thin := (thin P w0).

Lemma thin_apply_op conn author submission : thin (apply_op conn author submission).
Proof. thinning @apply_op; thinning @committed_before; thinning @commit_applied. Qed.

Lemma thin_create_blip user wave wavelet parent content : thin (create_blip_locked user wave wavelet parent content).
Proof. thinning @create_blip_locked. Qed.

Lemma thin_create_comment user wave wavelet target comment content :
  thin (create_comment_locked user wave wavelet target comment content).
Proof. thinning @create_comment_locked. Qed.

Lemma thin_reply_to_comment user wave comment content : thin (reply_to_comment_locked user wave comment content).
Proof. thinning @reply_to_comment_locked. Qed.

Lemma thin_resolve_comment user wave comment resolved : thin (resolve_comment_locked user wave comment resolved).
Proof. thinning @resolve_comment_locked. Qed.

Lemma thin_delete_blip user wave blip : thin (delete_blip_locked user wave blip).
Proof. thinning @delete_blip_locked. Qed.

Lemma thin_set_title user wave wavelet title : thin (set_title_locked user wave wavelet title).
Proof. thinning @set_title_locked. Qed.

Lemma thin_set_mode user wave mode : thin (set_mode_locked user wave mode).
Proof. thinning @set_mode_locked. Qed.

Lemma thin_add_participant caller wave wavelet user : thin (add_participant_locked caller wave wavelet user).
Proof. thinning @add_participant_locked. Qed.

Lemma thin_remove_participant caller wave wavelet user : thin (remove_participant_locked caller wave wavelet user).
Proof.
  thinning @remove_participant_locked. apply kept_fewer; [|done].
  by intros c sub [? _]%map_lookup_filter_Some.
Qed.

Lemma thin_private_reply user wave wavelet anchor ids : thin (private_reply_locked user wave wavelet anchor ids).
Proof. thinning @private_reply_locked. Qed.

Lemma thin_cursor user conn wave blip index length : thin (cursor_locked user conn wave blip index length).
Proof.
  thinning @cursor_locked. match goal with H : kept _ _ _ |- _ => destruct H as [Hw Hk] end. split; [done|].
  intros c sub. cbn. destruct (decide (c = conn)) as [->|Hne]; [rewrite lookup_alter_eq|rewrite lookup_alter_ne by done; apply Hk].
  intros (sub' & Hs & ->)%fmap_Some. by apply Hk in Hs.
Qed.

Lemma thin_leave conn wave : thin (leave_locked conn wave).
Proof.
  thinning @leave_locked. apply kept_fewer; [|done]. by intros c sub [_ ?]%lookup_delete_Some.
Qed.

Lemma thin_reply hash_token request_json identity body : thin (reply_locked hash_token request_json identity body).
Proof. thinning @reply_locked. Qed.
End handlers.

(** ** The tables of the server *)

(** The connection [c] is one of user [u], and watches the wave [id]. *)
Definition watches a (id : WaveId) (c : ConnId) (u : UserId) (tx : ConnId) : Prop :=
  tx = c ∧ (∃ hd, app_conns a !! c = Some hd ∧ conn_user hd = u) ∧ id ∈ default ∅ (app_subscribed a !! c).

Record resident_ok a : Prop := {
  ro_waves : ∀ id h, app_waves a !! id = Some h → ∃ l, app_heap a !! h = Some l ∧ who l = (id, false);
  ro_live : ∀ h l, app_heap a !! h = Some l → lw_evicted l = false → app_waves a !! wave_id (lw_wave l) = Some h;
}.

(** The watchers of the live copies are connections that watch them, but for the exceptions [E]. *)
Record watched_but (E : ConnId → WaveId → Prop) a : Prop := {
  wo_resident : resident_ok a;
  wo_watch : ∀ h l c sub, app_heap a !! h = Some l → lw_evicted l = false → lw_subscribers l !! c = Some sub →
    E c (wave_id (lw_wave l)) ∨ watches a (wave_id (lw_wave l)) c (sub_user_id sub) (sub_tx sub);
  wo_ids : ∀ c, is_Some (app_conns a !! c) → (c < app_next_conn a)%N;
}.

(** Nothing of the connections changed; nothing of them but what they watch. *)
Definition same_table a a' : Prop :=
  app_conns a' = app_conns a ∧ app_user_conns a' = app_user_conns a ∧ app_next_conn a' = app_next_conn a.
Definition same_conns a a' : Prop := same_table a a' ∧ app_subscribed a' = app_subscribed a.
(** Nothing of the waves in memory changed either. *)
Definition still a a' : Prop := same_conns a a' ∧ app_heap a' = app_heap a ∧ app_waves a' = app_waves a.

Lemma still_refl a : still a a.
Proof. done. Qed.

Lemma still_trans a1 a2 a3 : still a1 a2 → still a2 a3 → still a1 a3.
Proof. unfold still, same_conns, same_table. intuition congruence. Qed.

Lemma same_conns_trans a1 a2 a3 : same_conns a1 a2 → same_conns a2 a3 → same_conns a1 a3.
Proof. unfold same_conns, same_table. intuition congruence. Qed.

Lemma same_table_trans a1 a2 a3 : same_table a1 a2 → same_table a2 a3 → same_table a1 a3.
Proof. unfold same_table. intuition congruence. Qed.

Lemma resident_still a a' : still a a' → resident_ok a → resident_ok a'.
Proof. intros (_ & E1 & E2) []. by constructor; rewrite E1, E2. Qed.

(** Under a lock the exceptions may change, as the copies left alone and the one worked on allow. *)
Lemma watched_locked {T} (E E' : ConnId → WaveId → Prop) h (m : CM T) a :
  watched_but E a →
  (∀ l, app_heap a !! h = Some l →
     kept (λ c u tx, lw_evicted l = false → E' c (wave_id (lw_wave l)) ∨ watches a (wave_id (lw_wave l)) c u tx) (who l)
       (c_live (m (crit_of a l)).2)) →
  (∀ h' l' c, h' ≠ h → app_heap a !! h' = Some l' → lw_evicted l' = false →
     E c (wave_id (lw_wave l')) → E' c (wave_id (lw_wave l'))) →
  watched_but E' (locked h m a).2.
Proof.
  intros [[Hr Hl] Hw Hi] Hm HE.
  assert (∀ h' l' c sub, h' ≠ h → app_heap a !! h' = Some l' → lw_evicted l' = false → lw_subscribers l' !! c = Some sub →
    E' c (wave_id (lw_wave l')) ∨ watches a (wave_id (lw_wave l')) c (sub_user_id sub) (sub_tx sub)) as Hother.
  { intros h' l' c sub Hne Hl' He Hc. destruct (Hw _ _ _ _ Hl' He Hc); [left|by right]. by eapply HE. }
  unfold locked. destruct (app_heap a !! h) as [l|] eqn:El.
  2:{ constructor; [done| |done]. cbn. intros h' l' c sub Hl'. apply (Hother h'); [congruence|done]. }
  destruct (Hm l eq_refl) as [Hwho Hsubs].
  destruct (m (crit_of a l)) as [r s]. cbn [snd] in *. injection Hwho as Hid Hev.
  assert (h < length (app_heap a))%nat as Hlt by by eapply lookup_lt_Some.
  constructor; [constructor| |done]; cbn.
  - intros id' h' Hh'. destruct (Hr _ _ Hh') as (l' & Hl' & Hw'). destruct (decide (h' = h)) as [->|Hne].
    + exists (c_live s). rewrite list_lookup_insert_eq by done. split; [done|]. unfold who. rewrite Hid, Hev.
      assert (l' = l) as -> by congruence. exact Hw'.
    + exists l'. by rewrite list_lookup_insert_ne.
  - intros h' l' [(<- & <- & _)|[Hne Hl']]%list_lookup_insert_Some He; [|by apply Hl].
    rewrite Hid. apply Hl; congruence.
  - intros h' l' c sub [(<- & <- & _)|[Hne Hl']]%list_lookup_insert_Some He Hc; [|by eapply Hother].
    rewrite Hid. apply Hsubs; [done|]. congruence.
Qed.

Section but.
Context (E : ConnId → WaveId → Prop).
#[local] Abbreviation watched_ok := (watched_but E).

Lemma watched_still a a' : still a a' → watched_ok a → watched_ok a'.
Proof.
  intros Hs [Hr Hw Hi]. pose proof Hs as (((E1 & E2 & E3) & E4) & E5 & E6).
  constructor; [by apply (resident_still a)| |by rewrite E1, E3]. unfold watches. by rewrite E1, E4, E5.
Qed.

(** *** What leaves the connections alone *)

Definition minds {T} (m : AM T) : Prop := ∀ a, watched_ok a → watched_ok (m a).2 ∧ same_conns a (m a).2.

Lemma minds_bind {T V} (m : AM T) (f : T → AM V) : minds m → (∀ t, minds (f t)) → minds (cm_bind m f).
Proof.
  intros Hm Hf a Ha. unfold cm_bind. destruct (Hm a Ha) as [Hw Hs]. destruct (m a) as [[t|e] a']; [|done].
  destruct (Hf t a' Hw) as [Hw' Hs']. split; [done|]. by eapply same_conns_trans.
Qed.

Lemma minds_still {T} (m : AM T) : (∀ a, still a (m a).2) → minds m.
Proof. intros H a Ha. specialize (H a). split; [by apply (watched_still a)|apply H]. Qed.

Lemma still_try {T} (f : Db → DbResult (T * Db)) a : still a (try_db (S := App) f a).2.
Proof. unfold try_db. by repeat case_match. Qed.

Lemma minds_try {T} (f : Db → DbResult (T * Db)) : minds (try_db (S := App) f).
Proof. apply minds_still. intros a. apply still_try. Qed.

Lemma minds_call {T} (f : Db → DbResult (T * Db)) : minds (db_call (S := App) f).
Proof.
  apply minds_still. intros a. unfold db_call. pose proof (still_try f a) as H.
  by destruct (try_db f a) as [[[t|e]|e] a'].
Qed.

Lemma minds_guard (ok : bool) refusal : minds (guard (S := App) ok refusal).
Proof. apply minds_still. intros a. by destruct ok. Qed.

Lemma minds_each {A} (f : A → AM ()) xs : (∀ x, minds (f x)) → minds (cm_each f xs).
Proof. intros Hf. induction xs as [|x xs IH]; [by apply minds_still|]. apply minds_bind; [apply Hf|done]. Qed.

(** A section that takes watchers away at most. *)
Lemma minds_locked {T} h (m : CM T) : (∀ P w0, thin P w0 m) → minds (locked h m).
Proof.
  intros Hm a Ha. split; [|unfold locked; by repeat case_match].
  apply (watched_locked E); [done| |by intros]. intros l Hl. apply Hm. split; [done|]. intros c sub Hc He. by eapply Ha.
Qed.

(** *** Loading *)

(** Nothing goes; what comes has no watchers and is the copy of its wave. *)
Record loads (id0 : WaveId) a a' : Prop := {
  ld_heap : ∀ h l, app_heap a !! h = Some l → app_heap a' !! h = Some l;
  ld_waves : ∀ id h, app_waves a !! id = Some h → app_waves a' !! id = Some h;
  ld_new : ∀ h l, app_heap a' !! h = Some l → app_heap a !! h = Some l ∨ lw_subscribers l = ∅;
  ld_only : ∀ id h, id ≠ id0 → app_waves a' !! id = Some h → app_waves a !! id = Some h;
  ld_conns : same_conns a a';
  ld_resident : resident_ok a → resident_ok a';
}.

Lemma loads_still id a a' : still a a' → loads id a a'.
Proof.
  intros Hs. pose proof Hs as (Hc & E1 & E2). constructor; rewrite ?E1, ?E2; auto. by apply resident_still.
Qed.

Lemma loads_trans id a1 a2 a3 : loads id a1 a2 → loads id a2 a3 → loads id a1 a3.
Proof.
  intros [] []. constructor; eauto.
  - intros h l Hl. destruct (ld_new1 _ _ Hl) as [Hl'|]; [by apply ld_new0|by right].
  - by eapply same_conns_trans.
Qed.

Lemma loads_watched id a a' : loads id a a' → watched_ok a → watched_ok a'.
Proof.
  intros [H1 H2 H3 _ ((E1 & E2 & E3) & E4) H5] [Hr Hw Hi]. constructor; [by apply H5| |by rewrite E1, E3].
  intros h l c sub Hl He Hc. destruct (H3 _ _ Hl) as [Hl'|E0]; [|by rewrite E0, lookup_empty in Hc].
  unfold watches. rewrite E1, E4. by eapply Hw.
Qed.

Lemma loads_copy a id l :
  app_waves a !! id = None → who l = (id, false) → lw_subscribers l = ∅ →
  loads id a (put_waves (app_heap a ++ [l]) (<[id := length (app_heap a)]> (app_waves a)) a).
Proof.
  intros Hid [= Hw He] Hs. constructor; cbn.
  - intros h l' Hl. by apply lookup_app_l_Some.
  - intros id' h Hh. rewrite lookup_insert_ne; [done|]. intros ->. congruence.
  - intros h l' [Hl|[_ [_ <-]%list_lookup_singleton_Some]]%lookup_app_Some; [by left|by right].
  - intros id' h Hne. by rewrite lookup_insert_ne.
  - done.
  - intros [Hr Hl]. constructor; cbn.
    + intros id' h [[<- <-]|[Hne Hh]]%lookup_insert_Some.
      * exists l. rewrite list_lookup_middle by done. unfold who. by rewrite Hw, He.
      * destruct (Hr _ _ Hh) as (l' & Hl' & ?). exists l'. split; [|done]. by apply lookup_app_l_Some.
    + intros h l' [Hl'|[Hge [Hh <-]%list_lookup_singleton_Some]]%lookup_app_Some He'.
      * pose proof (Hl _ _ Hl' He') as H. rewrite lookup_insert_ne; [done|]. intros ?. congruence.
      * rewrite Hw, lookup_insert_eq. f_equal. lia.
Qed.

(** A read of storage on the way: it fails, or goes on. *)
Lemma wp_or_fail_still {T V} (f : Db → DbResult (T * Db)) (k : T → AM (DbResult V)) Q a0 a :
  still a0 a →
  (∀ t a', still a0 a' → (∃ db db', f db = Ok (t, db')) → wp (k t) Q a') →
  (∀ e a', still a0 a' → Q (Ok (Err e)) a') → wp (or_fail f k) Q a.
Proof.
  intros Hs Hk He. unfold or_fail. apply wp_bind, wp_stored_try.
  - intros t db Hdb. cbv beta iota. apply Hk; [by apply (still_trans _ a)|eauto].
  - intros e. cbv beta iota. apply wp_ret, He. by apply (still_trans _ a).
Qed.

Lemma wave_named db id w : wave db id = Ok (Some w) → wave_id w = id.
Proof.
  unfold wave. destruct (find_row _ _) as [r|] eqn:Er; [|done]. destruct (mode_parse _); [|done]. intros [= <-]. cbn.
  apply find_row_some in Er as [_ Er]. by apply bool_decide_eq_true_1 in Er.
Qed.

Lemma wp_load id Q a :
  (∀ r a', loads id a a' → match r with Ok (Some h) => current a' id h | _ => app_waves a' !! id = None end → Q (Ok r) a') →
  wp (open_wave id) Q a.
Proof.
  intros HQ. unfold open_wave. apply wp_bind, wp_get_app. destruct (app_waves a !! id) as [h|] eqn:Eh.
  { apply wp_ret, HQ; [by apply loads_still|done]. }
  assert (∀ r a', still a a' → match r with Ok (Some _) => False | _ => True end → Q (Ok r) a') as Hnone.
  { intros r a' Hs Hr. pose proof Hs as (_ & _ & Ew). apply HQ; [by apply loads_still|].
    destruct r as [[h|]|e]; [done|by rewrite Ew..]. }
  apply (wp_or_fail_still _ _ _ a); [done| |intros; by apply Hnone].
  intros w a1 Hs1 (db & db' & Hw). destruct (wave db id) as [w'|] eqn:Ew; [|done]. injection Hw as -> ->.
  destruct w as [w|]; [|by apply wp_ret, Hnone]. apply wave_named in Ew as Hid.
  do 4 (apply (wp_or_fail_still _ _ _ a); [done| |intros; by apply Hnone]; clear dependent a1; intros ? a1 Hs1 _).
  apply wp_bind, wp_get_app. cbv zeta. apply wp_bind, wp_modify, wp_ret. pose proof Hs1 as (_ & _ & E1).
  apply HQ; [|apply lookup_insert_eq]. apply (loads_trans _ _ a1); [by apply loads_still|].
  apply loads_copy; [by rewrite E1| |done]. unfold who. cbn. by rewrite Hid.
Qed.

Lemma minds_open_wave id : minds (open_wave id).
Proof.
  intros a Ha. apply (wp_load id (λ _ a', watched_ok a' ∧ same_conns a a')). intros r a' Hl _.
  split; [by eapply loads_watched|apply Hl].
Qed.

Lemma minds_resident id : minds (resident id).
Proof. apply minds_bind; [apply minds_open_wave|]. intros [[h|]|e]; by apply minds_still. Qed.

Lemma minds_peek h : minds (peek h).
Proof. apply minds_locked. by intros P w0 s. Qed.

Lemma minds_find_among p ws : minds (find_among p ws).
Proof.
  induction ws as [|id ws IH]; [by apply minds_still|]. apply minds_bind; [apply minds_open_wave|].
  intros [[h|]|e]; [|done..]. apply minds_bind; [apply minds_peek|]. intros l. destruct (p l); [by apply minds_still|done].
Qed.

Lemma minds_find_watched sess p : minds (find_watched sess p).
Proof. apply minds_bind; [by apply minds_still|]. intros a. apply minds_find_among. Qed.

(** *** Eviction *)

Lemma evicted_watched a id h l l' out :
  app_waves a !! id = Some h → app_heap a !! h = Some l → watched_ok a →
  watched_ok (put_out out (put_waves (<[h := set_evicted true l']> (app_heap a)) (delete id (app_waves a)) a)).
Proof.
  intros Hh Hl [[Hr Hlive] Hw Hi]. destruct (Hr _ _ Hh) as (y & Hy & Hwho).
  constructor; [constructor| |done]; cbn.
  - intros id' h' [Hne Hh']%lookup_delete_Some. destruct (Hr _ _ Hh') as (x & Hx & Hx'). exists x. split; [|done].
    rewrite list_lookup_insert_ne; [done|]. intros ->. congruence.
  - intros h' x [(<- & <- & _)|[Hne Hx]]%list_lookup_insert_Some He; [done|]. pose proof (Hlive _ _ Hx He) as H.
    rewrite lookup_delete_ne; [done|]. intros ?. congruence.
  - intros h' x c sub [(<- & <- & _)|[Hne Hx]]%list_lookup_insert_Some He Hc; [done|]. by eapply Hw.
Qed.

Lemma minds_evict id : minds (modify (maybe_evict id)).
Proof.
  intros a Ha. cbn. unfold maybe_evict. destruct (app_waves a !! id) as [h|] eqn:Eh; [|done].
  destruct (app_heap a !! h) as [l|] eqn:El; [|done]. case_decide; [|done]. split; [|done].
  apply (watched_still (put_out (app_out a) (put_waves (<[h := set_evicted true l]> (app_heap a)) (delete id (app_waves a)) a)));
    [done|by eapply evicted_watched].
Qed.

Lemma minds_panic id : minds (modify (evict_after_panic id)).
Proof.
  intros a Ha. cbn. unfold evict_after_panic. destruct (app_waves a !! id) as [h|] eqn:Eh; [|done].
  destruct (app_heap a !! h) as [l|] eqn:El; [|done]. destruct (disconnect _ _ _) as [l' out].
  split; [by eapply evicted_watched|done].
Qed.
End but.

(** *** Commands *)

Definition watched_ok : App → Prop := watched_but (λ _ _, False).

Lemma watched_weaken (E E' : ConnId → WaveId → Prop) a :
  (∀ c id, E c id → E' c id) → watched_but E a → watched_but E' a.
Proof. intros H [Hr Hw Hi]. constructor; [done| |done]. intros h l c sub Hl He Hc. destruct (Hw _ _ _ _ Hl He Hc); auto. Qed.

(** The connection of a session is the one in the table. *)
Definition registered (sess : Session) a : Prop :=
  app_conns a !! s_conn sess = Some (mkConn (me sess) (s_token_hash sess)).

Definition serves {T} (sess : Session) (m : AM T) : Prop :=
  ∀ a, watched_ok a → registered sess a → watched_ok (m a).2 ∧ same_table a (m a).2.

Lemma registered_same sess a a' : same_table a a' → registered sess a → registered sess a'.
Proof. unfold registered. by intros (-> & _). Qed.

Lemma serves_minds {T} sess (m : AM T) : (∀ E, minds E m) → serves sess m.
Proof. intros H a Ha _. destruct (H _ a Ha) as [? [? _]]. done. Qed.

Lemma serves_bind {T V} sess (m : AM T) (f : T → AM V) :
  serves sess m → (∀ t, serves sess (f t)) → serves sess (cm_bind m f).
Proof.
  intros Hm Hf a Ha Hr. unfold cm_bind. destruct (Hm a Ha Hr) as [Hw Hs]. destruct (m a) as [[t|e] a']; [|done].
  destruct (Hf t a' Hw) as [Hw' Hs']; [by eapply registered_same|]. split; [done|]. by eapply same_table_trans.
Qed.

Lemma serves_each {A} sess (f : A → AM ()) xs : (∀ x, serves sess (f x)) → serves sess (cm_each f xs).
Proof. intros Hf. induction xs as [|x xs IH]; [by intros a|]. apply serves_bind; [apply Hf|done]. Qed.

(** Opening: the wave lists the connection, then the connection the wave. *)
Lemma thin_open P w0 user conn wave marks fl :
  P conn user conn → thin P w0 (open_locked user conn wave marks fl).
Proof.
  intros HP. thinning @open_locked. match goal with H : kept _ _ _ |- _ => destruct H as [Hw Hk] end. split; [done|]. cbn.
  intros c sub [[<- <-]|[Hne Hc]]%lookup_insert_Some; [done|by apply Hk].
Qed.

(** Refused, or attached. *)
Lemma open_locked_result user conn wave marks fl s :
  match (open_locked user conn wave marks fl s).1 with Ok _ => True | Err _ => c_live (open_locked user conn wave marks fl s).2 = c_live s end.
Proof.
  unfold open_locked, cm_bind, get_live. unfold guard. destruct (may_view _ _); [|done]. cbn.
  unfold cm_send_to. destruct (send_to _ _ _ _) as [l out]. unfold cm_presence. by destruct (broadcast_presence _ _ _).
Qed.

Lemma watched_more sess ws a : watched_ok a → watched_ok (watch (union ws) sess a).
Proof.
  intros [Hr Hw Hi]. constructor; [by destruct Hr; constructor| |done]. cbn. intros h l c sub Hl He Hc.
  destruct (Hw _ _ _ _ Hl He Hc) as [|(Htx & Hhd & Hid)]; [done|]. right. split_and!; [done..|]. cbn.
  destruct (decide (c = s_conn sess)) as [->|Hne]; [rewrite lookup_insert_eq; unfold subscribed; set_solver|by rewrite lookup_insert_ne].
Qed.

Lemma wp_resident_at id Q a :
  watched_ok a →
  (∀ r a', watched_ok a' → same_conns a a' → match r with Ok h => current a' id h | Err _ => True end → Q r a') →
  wp (resident id) Q a.
Proof.
  intros Ha HQ. unfold resident. apply wp_bind, wp_load. intros r a' Hl Hr.
  pose proof (loads_watched _ _ _ _ Hl Ha) as Ha'. destruct Hl as [_ _ _ _ Hs _].
  destruct r as [[h|]|e]; [apply wp_ret, HQ|apply wp_throw, HQ..]; done.
Qed.

Lemma serves_attach sess id h marks fl a :
  watched_ok a → registered sess a → current a id h →
  wp (locked h (open_locked (me sess) (s_conn sess) id marks fl) ;! modify (watch (union {[id]}) sess))
    (λ _ a', watched_ok a' ∧ same_table a a') a.
Proof.
  intros Ha Hreg Hh. pose proof Ha as [[Hr _] _ _]. destruct (Hr _ _ Hh) as (l & Hl & [= Hid He]).
  set (m := open_locked (me sess) (s_conn sess) id marks fl).
  pose proof (open_locked_result (me sess) (s_conn sess) id marks fl (crit_of a l)) as Hres. fold m in Hres.
  unfold wp, cm_bind, locked. rewrite Hl. destruct (m (crit_of a l)) as [[[]|e] s] eqn:Em; cbn [fst snd] in *.
  - split; [|done]. set (a1 := watch (union {[id]}) sess a).
    assert (watched_ok a1) as Ha1 by by apply watched_more.
    assert (watched_ok (locked h m a1).2) as Hdone.
    { apply (watched_locked (λ _ _, False)); [done| |done]. intros l' Hl'. assert (l' = l) as -> by (cbn in Hl'; congruence).
      apply thin_open.
      - intros _. right. rewrite Hid. split; [done|]. split; [by eexists|]. cbn. rewrite lookup_insert_eq. set_solver.
      - split; [done|]. intros c sub Hc He'. by eapply (wo_watch _ _ Ha1). }
    unfold locked in Hdone. change (app_heap a1) with (app_heap a) in Hdone. rewrite Hl in Hdone.
    change (crit_of a1 l) with (crit_of a l) in Hdone. by rewrite Em in Hdone.
  - split; [|done]. apply (watched_still _ a); [|done]. split_and!; [done| |done]. cbn. rewrite Hres.
    by apply list_insert_id.
Qed.

Lemma serves_open sess id : serves sess (open_command sess id).
Proof.
  unfold open_command. apply serves_bind; [apply serves_minds; intros E; apply minds_bind; [apply minds_try|by intros; apply minds_still]|].
  intros marks. apply serves_bind; [apply serves_minds; intros E; apply minds_bind; [apply minds_try|by intros; apply minds_still]|].
  intros fl a Ha Hr. match goal with |- watched_ok (?m a).2 ∧ _ => change (wp m (λ _ a', watched_ok a' ∧ same_table a a') a) end.
  apply wp_bind, (wp_resident_at id); [done|]. intros [h|e] a1 Ha1 [Hs1 _] Hh; [|done].
  pose proof (registered_same _ _ _ Hs1 Hr) as Hr1. destruct (wo_resident _ _ Ha1) as [Hro _].
  destruct (Hro _ _ Hh) as (l & Hl & [= _ He]). apply wp_bind.
  destruct (minds_peek (λ _ _, False) h a1 Ha1) as [Ha2 [Hs2 _]]. unfold wp.
  assert (peek h a1 = (Ok l, app_of (crit_of a1 l) h a1)) as E by (unfold peek, locked; by rewrite Hl).
  rewrite E in *. cbn [fst snd] in *. rewrite He. unfold cm_bind at 1, cm_ret at 1.
  destruct (serves_attach sess id h marks fl (app_of (crit_of a1 l) h a1)) as [Hw Hs]; [done|by eapply registered_same|done|].
  split; [done|]. eapply same_table_trans; [done|]. by eapply same_table_trans.
Qed.

(** Leaving: the connection forgets the wave, then the wave the connection; a wave nobody watches is let go. *)
Lemma leave_thin P w0 conn wave s :
  kept P w0 (c_live s) →
  (leave_locked conn wave s).1 = Ok tt ∧
  kept (λ c u tx, c ≠ conn ∧ P c u tx) w0 (c_live (leave_locked conn wave s).2).
Proof.
  intros [Hw Hk]. set (l := set_subscribers (delete conn (lw_subscribers (c_live s))) (c_live s)).
  assert (kept (λ c u tx, c ≠ conn ∧ P c u tx) w0 l) as Hl.
  { split; [done|]. cbn. intros c sub [Hne Hc]%lookup_delete_Some. split; [done|by apply Hk]. }
  apply (kept_presence _ _ _ (c_out s) wave) in Hl. unfold leave_locked, cm_bind, get_live, put_live, cm_presence. cbn -[broadcast_presence].
  fold l. destruct (broadcast_presence l (c_out s) wave) as [l' out']. done.
Qed.

Record left_wave (sess : Session) (id : WaveId) a a' : Prop := {
  lf_ok : watched_ok a';
  lf_table : same_table a a';
  lf_subscribed : app_subscribed a' = <[s_conn sess := subscribed sess a ∖ {[id]}]> (app_subscribed a);
  lf_idle : ∀ h l, app_waves a' !! id = Some h → app_heap a' !! h = Some l → lw_subscribers l ≠ ∅;
  lf_others : ∀ id' h, id' ≠ id → app_waves a' !! id' = Some h →
    app_waves a !! id' = Some h ∧ app_heap a' !! h = app_heap a !! h;
}.

Definition leaving (sess : Session) (id : WaveId) : ConnId → WaveId → Prop := λ c i, c = s_conn sess ∧ i = id.

Lemma forget_watched sess id a :
  watched_ok a → watched_but (leaving sess id) (watch (λ w, w ∖ {[id]}) sess a).
Proof.
  intros [Hr Hw Hi]. constructor; [by destruct Hr; constructor| |done]. cbn. intros h l c sub Hl He Hc.
  destruct (Hw _ _ _ _ Hl He Hc) as [|(Htx & Hhd & Hid)]; [done|].
  destruct (decide (c = s_conn sess ∧ wave_id (lw_wave l) = id)) as [Hex|Hno]; [by left|right]. split_and!; [done..|]. cbn.
  destruct (decide (c = s_conn sess)) as [->|Hne]; [|by rewrite lookup_insert_ne].
  rewrite lookup_insert_eq. unfold subscribed. set_solver.
Qed.

(** The wave is not in memory: there is no copy to leave. *)
Lemma gone_watched sess id a : watched_but (leaving sess id) a → app_waves a !! id = None → watched_ok a.
Proof.
  intros [Hr Hw Hi] Hn. constructor; [done| |done]. intros h l c sub Hl He Hc.
  destruct (Hw _ _ _ _ Hl He Hc) as [[_ E]|]; [|by right]. pose proof (ro_live _ Hr _ _ Hl He). congruence.
Qed.

(** It is: its one live copy forgets the connection. *)
Lemma locked_left sess id h a :
  watched_but (leaving sess id) a → current a id h →
  (locked h (leave_locked (s_conn sess) id) a).1 = Ok tt ∧ watched_ok (locked h (leave_locked (s_conn sess) id) a).2 ∧
  same_conns a (locked h (leave_locked (s_conn sess) id) a).2 ∧
  app_waves (locked h (leave_locked (s_conn sess) id) a).2 = app_waves a ∧
  ∀ h', h' ≠ h → app_heap (locked h (leave_locked (s_conn sess) id) a).2 !! h' = app_heap a !! h'.
Proof.
  intros Ha Hh. destruct (ro_waves _ (wo_resident _ _ Ha) _ _ Hh) as (l & Hl & [= Hid He]).
  assert (∀ P, kept P (who l) l → (leave_locked (s_conn sess) id (crit_of a l)).1 = Ok tt ∧
    kept (λ c u tx, c ≠ s_conn sess ∧ P c u tx) (who l) (c_live (leave_locked (s_conn sess) id (crit_of a l)).2)) as Hleave
    by (intros P; apply (leave_thin P (who l) (s_conn sess) id (crit_of a l))).
  split_and!.
  - destruct (Hleave (λ _ _ _, True)) as [E _]; [done|]. unfold locked. rewrite Hl. by destruct (leave_locked _ _ _).
  - apply (watched_locked (leaving sess id)); [done| |].
    + intros l' Hl'. assert (l' = l) as -> by congruence.
      destruct (Hleave (λ c u tx, leaving sess id c id ∨ watches a id c u tx)) as [_ [Hw Hk]].
      { split; [done|]. intros c sub Hc. pose proof (wo_watch _ _ Ha _ _ _ _ Hl He Hc) as H. by rewrite Hid in H. }
      split; [done|]. intros c sub Hc _. right. rewrite Hid. by destruct (Hk _ _ Hc) as [Hne [[? _]|]].
    + intros h' l' c Hne Hl' He' [_ E]. pose proof (ro_live _ (wo_resident _ _ Ha) _ _ Hl' He') as H.
      rewrite E in H. unfold current in Hh. congruence.
  - unfold locked. by repeat case_match.
  - unfold locked. by repeat case_match.
  - intros h' Hne. unfold locked. rewrite Hl. destruct (leave_locked _ _ _) as [r s]. cbn. by rewrite list_lookup_insert_ne.
Qed.

Lemma evict_idle id a h l :
  resident_ok a → app_waves (maybe_evict id a) !! id = Some h → app_heap (maybe_evict id a) !! h = Some l → lw_subscribers l ≠ ∅.
Proof.
  intros [Hr _]. unfold maybe_evict. destruct (app_waves a !! id) as [h0|] eqn:Eh; [|congruence].
  destruct (Hr _ _ Eh) as (l0 & Hl0 & _). rewrite Hl0. case_decide as Hs; cbn; [by rewrite lookup_delete_eq|]. congruence.
Qed.

Lemma evict_others id a id' h :
  resident_ok a → id' ≠ id → app_waves (maybe_evict id a) !! id' = Some h →
  app_waves a !! id' = Some h ∧ app_heap (maybe_evict id a) !! h = app_heap a !! h.
Proof.
  intros [Hr _] Hne. unfold maybe_evict. destruct (app_waves a !! id) as [h0|] eqn:Eh; [|done].
  destruct (app_heap a !! h0) as [l0|] eqn:El; [|done]. case_decide as Hs; cbn; [|done].
  rewrite lookup_delete_ne by done. intros Hh. split; [done|]. apply list_lookup_insert_ne. intros ->.
  destruct (Hr _ _ Hh) as (? & ? & ?), (Hr _ _ Eh) as (? & ? & ?). congruence.
Qed.

Lemma leave_left sess id a :
  watched_ok a → id ∈ subscribed sess a →
  (leave_command sess id a).1 = Ok tt ∧ left_wave sess id a (leave_command sess id a).2.
Proof.
  intros Ha Hin. change (wp (leave_command sess id) (λ r a', r = Ok tt ∧ left_wave sess id a a') a).
  unfold leave_command. apply wp_bind, wp_get_app. rewrite bool_decide_eq_true_2 by done. cbn [negb].
  apply wp_bind, wp_modify. set (a1 := watch (λ w, w ∖ {[id]}) sess a).
  pose proof (forget_watched sess id a Ha) as Ha1. fold a1 in Ha1.
  apply wp_bind, wp_load. intros r a2 Hld Hr. pose proof (loads_watched _ _ _ _ Hld Ha1) as Ha2.
  destruct Hld as [Hheap _ _ Honly [Ht2 Hs2] _].
  assert (∀ id' h, id' ≠ id → app_waves a2 !! id' = Some h → app_waves a !! id' = Some h ∧ app_heap a2 !! h = app_heap a !! h) as Hoth.
  { intros id' h Hne Hh. apply Honly in Hh; [|done]. split; [done|].
    destruct (ro_waves _ (wo_resident _ _ Ha) _ _ Hh) as (l & Hl & _). rewrite Hl. by apply Hheap. }
  assert (∀ a3, watched_ok a3 → same_conns a2 a3 →
    (∀ id' h, id' ≠ id → app_waves a3 !! id' = Some h → app_waves a2 !! id' = Some h ∧ app_heap a3 !! h = app_heap a2 !! h) →
    left_wave sess id a (maybe_evict id a3)) as Hend.
  { intros a3 Ha3 [Ht3 Hs3] Ho3. destruct (minds_evict (λ _ _, False) id a3 Ha3) as [Ha4 [Ht4 Hs4]]. cbn in Ha4, Ht4, Hs4.
    constructor; [done| | | |].
    - eapply same_table_trans; [|exact Ht4]. eapply same_table_trans; [|exact Ht3]. exact Ht2.
    - by rewrite Hs4, Hs3, Hs2.
    - intros h l. apply evict_idle, Ha3.
    - intros id' h Hne Hh. apply evict_others in Hh as [Hh E]; [|apply Ha3|done].
      destruct (Ho3 _ _ Hne Hh) as [Hh' E']. destruct (Hoth _ _ Hne Hh') as [? E'']. split; [done|]. congruence. }
  destruct r as [[h|]|e].
  - destruct (locked_left sess id h a2 Ha2 Hr) as (Hok & Ha3 & Hsc & Hw3 & Hh3). apply wp_bind. unfold wp. rewrite Hok.
    split; [done|]. apply Hend; [done..|]. intros id' h' Hne. rewrite Hw3. intros Hh'. split; [done|]. apply Hh3.
    intros ->. destruct (ro_waves _ (wo_resident _ _ Ha2) _ _ Hh') as (? & ? & ?), (ro_waves _ (wo_resident _ _ Ha2) _ _ Hr) as (? & ? & ?).
    congruence.
  - apply wp_bind, wp_ret, wp_modify. split; [done|]. apply Hend; [by eapply gone_watched|done|done].
  - apply wp_bind, wp_ret, wp_modify. split; [done|]. apply Hend; [by eapply gone_watched|done|done].
Qed.

Lemma serves_leave sess id : serves sess (leave_command sess id).
Proof.
  intros a Ha Hr. destruct (decide (id ∈ subscribed sess a)) as [Hin|Hout].
  - destruct (leave_left sess id a Ha Hin) as [_ []]. by split.
  - unfold leave_command, cm_bind, get_app. by rewrite bool_decide_eq_false_2.
Qed.
End watchers.
