(* ===== verification/Lifecycle.v ===== *)
(** * The life of a connection ([crates/gal-server/src/ws.rs], [connection] and [read_commands])

    A turn of the reading loop, and what can happen to the server when every command comes from a connection that is
    in its table.  The streams and timers of a socket are the inputs of a turn; a panic is an event of its own. *)

From Stdlib Require Import QArith.
From S2P Require Import Prelude Tables Strings Unicode Json Attributes Text Delta Model Protocol ServerDoc.
From S2P Require Import Content LiveWave Storage Queries Effects Critical Handlers Coherence Submission App AppTheory.
From S2P Require Import Limit Dispatch Commands Agent AgentTheory Server Watchers.

Section lifecycle.
Context `{J : Json} `{U : Unicode} `{W : World}.
Context (fts_match : str → list SearchRow → list (SearchRow * str)).
Context (hash_token : str → str) (generate_token : nat → str) (request_json : ReplyRequest → str).
Implicit Types a : App.

Local Abbreviation dispatch := (dispatch fts_match).
Local Abbreviation read_command := (read_command fts_match).

(** ** A turn *)

Inductive Frame :=
| Command (m : ClientMessage)
| Unparseable (why : str)
| CloseFrame
| OtherFrame.

(** What the loop wakes up for, when nothing told it to stop. *)
Inductive Wake :=
| KeepaliveTick (idle_too_long : bool)
| StreamEnds
| Arrived (f : Frame).

Record Turn := mkTurn { tu_shutdown : bool; tu_now : Timestamp; tu_at : Q; tu_wake : Wake }.

(** [kill.notified()]: a permit is stored. *)
Definition killed (conn : ConnId) (a : App) : bool :=
  match out_channels (app_out a) !! conn with Some ch => ch_kill ch | None => false end.

(** Whether the loop goes round again, and the limiters. *)
Definition turn (sess : Session) (expires : Timestamp) (t : Turn) (limits : Limiters) : AM (bool * Limiters) :=
  a <-! get_app;
  if tu_shutdown t then cm_ret (false, limits)
  else if killed (s_conn sess) a then cm_ret (false, limits)
  else if (expires <=? tu_now t)%Z then cm_ret (false, limits)
  else
    match tu_wake t with
    | KeepaliveTick idle_too_long => cm_ret (negb idle_too_long, limits)
    | StreamEnds | Arrived CloseFrame => cm_ret (false, limits)
    | Arrived OtherFrame => cm_ret (true, limits)
    | Arrived (Command m) => limits <-! read_command sess (tu_at t) m limits; cm_ret (true, limits)
    | Arrived (Unparseable why) =>
        session_send sess (error BadRequest (lit "Could not understand that message: " ++ why)) ;! cm_ret (true, limits)
    end.

(** A command on the wire, and room for one more revision. *)
Definition turn_fits (t : Turn) (a : App) : Prop :=
  match tu_wake t with Arrived (Command m) => wire_message m ∧ revisions_left (app_db a) | _ => True end.

(** ** Everything that can happen *)

Inductive lives : App → App → Prop :=
| l_connect a user token_hash :
    (app_next_conn a + 1 < two64)%N → lives a (register_conn user MAX_CONNECTIONS_PER_USER token_hash a).2
| l_greet a sess : registered sess a → lives a (greet sess a).2
| l_turn a sess expires t limits : registered sess a → turn_fits t a → lives a (turn sess expires t limits a).2
| l_panic a sess : registered sess a → lives a (after_panic sess a).2
| l_hang_up a sess : registered sess a → lives a (hang_up sess a).2
| l_inbox_task a id : lives a (inbox_task id a).2
| l_agent_reply a fuel at_ identity body limits :
    lives a (reply hash_token request_json fuel at_ identity body limits a).2
| l_agent_panic a id : lives a (evict_after_panic id a)
| l_create_token a at_ user body limits : lives a (create_token hash_token generate_token at_ user body limits a).2
| l_revoke_token a user id : lives a (revoke_token user id a).2
| l_account a a' : aside a a' → lives a a'.

(** ** Commands keep watchers and connections in agreement *)

Lemma serves_send sess m : serves sess (session_send sess m).
Proof. apply serves_minds. intros E. by apply minds_still. Qed.

Lemma serves_still {T} sess (m : AM T) : (∀ a, still a (m a).2) → serves sess m.
Proof. intros H. apply serves_minds. intros E. by apply minds_still. Qed.

Lemma serves_call {T} sess (f : Db → DbResult (T * Db)) : serves sess (db_call (S := App) f).
Proof. apply serves_minds. intros E. apply minds_call. Qed.

Lemma serves_try {T} sess (f : Db → DbResult (T * Db)) : serves sess (try_db (S := App) f).
Proof. apply serves_minds. intros E. apply minds_try. Qed.

Lemma serves_guard sess (ok : bool) refusal : serves sess (guard (S := App) ok refusal).
Proof. apply serves_minds. intros E. apply minds_guard. Qed.

Lemma serves_found sess p : serves sess (find_watched sess p).
Proof. apply serves_minds. intros E. apply minds_find_watched. Qed.

Lemma serves_resident sess id : serves sess (resident id).
Proof. apply serves_minds. intros E. apply minds_resident. Qed.

Lemma serves_load sess id : serves sess (open_wave id).
Proof. apply serves_minds. intros E. apply minds_open_wave. Qed.

Lemma serves_locked {T} sess h (m : CM T) : (∀ P w0, thin P w0 m) → serves sess (locked h m).
Proof. intros Hm. apply serves_minds. intros E. by apply minds_locked. Qed.

Lemma serves_row sess id : serves sess (send_inbox_row sess id).
Proof.
  apply serves_bind; [apply serves_try|]. intros [[x|]|e]; [apply serves_send|by apply serves_still..].
Qed.

End lifecycle.

(** One step of a command: a sequence, a case, a section, or a leaf. *)
Ltac serve :=
  match goal with
  | |- serves _ (cm_bind _ _) => apply serves_bind; [|intros ?]
  | |- serves _ (session_send _ _) => apply serves_send
  | |- serves _ (open_command _ _) => apply serves_open
  | |- serves _ (leave_command _ _) => apply serves_leave
  | |- serves _ (guard _ _) => apply serves_guard
  | |- serves _ (try_db _) => apply serves_try
  | |- serves _ (db_call _) => apply serves_call
  | |- serves _ (db_write _) => apply serves_call
  | |- serves _ (db_read _) => apply serves_call
  | |- serves _ (find_wavelet _ _) => apply serves_found
  | |- serves _ (find_blip _ _) => apply serves_found
  | |- serves _ (find_comment _ _) => apply serves_found
  | |- serves _ (resident _) => apply serves_resident
  | |- serves _ (open_wave _) => apply serves_load
  | |- serves _ (send_inbox_row _ _) => apply serves_row
  | |- serves _ (locked _ _) => apply serves_locked; intros P w0
  | |- thin _ _ (apply_op _ _ _) => apply thin_apply_op
  | |- thin _ _ (create_blip_locked _ _ _ _ _) => apply thin_create_blip
  | |- thin _ _ (create_comment_locked _ _ _ _ _ _) => apply thin_create_comment
  | |- thin _ _ (reply_to_comment_locked _ _ _ _) => apply thin_reply_to_comment
  | |- thin _ _ (resolve_comment_locked _ _ _ _) => apply thin_resolve_comment
  | |- thin _ _ (delete_blip_locked _ _ _) => apply thin_delete_blip
  | |- thin _ _ (set_title_locked _ _ _ _) => apply thin_set_title
  | |- thin _ _ (set_mode_locked _ _ _) => apply thin_set_mode
  | |- thin _ _ (add_participant_locked _ _ _ _) => apply thin_add_participant
  | |- thin _ _ (remove_participant_locked _ _ _ _) => apply thin_remove_participant
  | |- thin _ _ (private_reply_locked _ _ _ _ _) => apply thin_private_reply
  | |- thin _ _ (cursor_locked _ _ _ _ _ _) => apply thin_cursor
  | |- serves _ (match ?x with _ => _ end) => destruct x
  | |- serves _ _ => by apply serves_still
  end.

Section lifecycle.
Context `{J : Json} `{U : Unicode} `{W : World}.
Context (fts_match : str → list SearchRow → list (SearchRow * str)).
Context (hash_token : str → str) (generate_token : nat → str) (request_json : ReplyRequest → str).
Implicit Types a : App.

Lemma serves_dispatch sess m : serves sess (dispatch fts_match sess m).
Proof.
  destruct m; cbn [dispatch];
    unfold create_wave_command, submit_command, create_comment_command, set_mode_command, add_participant_command,
      private_reply_command, cursor_command, require_participant; repeat serve.
Qed.

Lemma serves_read_command sess at_ m limits : serves sess (read_command fts_match sess at_ m limits).
Proof.
  unfold read_command. destruct (check_command_rate _ _ _ _) as [ok limits']. destruct (negb ok); [repeat serve|].
  intros a Ha Hr. destruct (serves_dispatch sess m a Ha Hr) as [Ha' Hs'].
  destruct (dispatch fts_match sess m a) as [[[]|reply] a']; [done|].
  destruct (serves_send sess reply a') as [Ha'' Hs'']; [done|by eapply registered_same|].
  split; [exact Ha''|]. by eapply same_table_trans.
Qed.

Lemma serves_turn sess expires t limits : serves sess (turn fts_match sess expires t limits).
Proof.
  unfold turn. repeat serve. apply serves_read_command.
Qed.

Lemma serves_greet sess : serves sess (greet sess).
Proof. unfold greet. repeat serve. Qed.

Lemma serves_after_panic sess : serves sess (after_panic sess).
Proof.
  unfold after_panic. apply serves_bind; [by apply serves_still|intros a0]. apply serves_bind; [|intros; apply serves_send].
  apply serves_each. intros id. apply serves_minds. intros E. apply minds_panic.
Qed.

(** ** Everything else leaves the connections alone *)

Lemma minds_watched {T} (m : AM T) a : (∀ E, minds E m) → watched_ok a → watched_ok (m a).2.
Proof. intros Hm Ha. by apply Hm. Qed.

Lemma minds_notify E user m : minds E (notify user m).
Proof. by apply minds_still. Qed.

Lemma minds_inbox_task E id : minds E (inbox_task id).
Proof.
  apply minds_bind; [by apply minds_still|intros _]. apply minds_bind; [apply minds_try|intros [users|e]; [|by apply minds_still]].
  apply minds_each. intros user. apply minds_bind; [by apply minds_still|intros a0].
  destruct (app_user_conns a0 !! user); [|by apply minds_still].
  apply minds_bind; [apply minds_try|]. intros [[x|]|e]; by apply minds_still.
Qed.

Lemma minds_attempt {T} E (f : Db → DbResult (T * Db)) : minds E (attempt (S := App) f).
Proof. apply minds_bind; [apply minds_try|]. intros. by apply minds_still. Qed.

Lemma minds_create_reply E fuel identity body : minds E (create_reply hash_token request_json fuel identity body).
Proof.
  induction fuel as [|fuel IH]; [by apply minds_still|]. apply minds_bind; [apply minds_open_wave|].
  intros [[h|]|e]; [|by apply minds_still..]. apply minds_bind; [apply minds_locked; intros; apply thin_reply|].
  intros [answer|]; [by apply minds_still|done].
Qed.

Lemma minds_reply E fuel at_ identity body limits : minds E (reply hash_token request_json fuel at_ identity body limits).
Proof.
  unfold reply. destruct (negb _); [by apply minds_still|]. destruct (negb _); [by apply minds_still|].
  destruct (check_command_rate _ _ _ _) as [ok limits']. destruct (negb ok); [by apply minds_still|].
  apply minds_bind; [apply minds_create_reply|]. intros answer. apply minds_bind; [|intros; by apply minds_still].
  destruct answer; [apply minds_evict|by apply minds_still].
Qed.

Lemma minds_create_token E at_ user body limits : minds E (create_token hash_token generate_token at_ user body limits).
Proof.
  unfold create_token. destruct (negb _); [by apply minds_still|]. destruct (check_command_rate _ _ _ _) as [ok limits'].
  destruct (negb ok); [by apply minds_still|]. apply minds_bind; [apply minds_attempt|].
  intros [[w|]|]; [|by apply minds_still..]. apply minds_bind; [by apply minds_still|intros ts].
  apply minds_bind; [by apply minds_still|intros uuid]. apply minds_bind; [by apply minds_still|intros secret].
  apply minds_bind; [apply minds_attempt|]. intros. by apply minds_still.
Qed.

Lemma minds_revoke E user id : minds E (revoke_token user id).
Proof. apply minds_bind; [apply minds_attempt|]. intros. by apply minds_still. Qed.

End lifecycle.

(** ** Coming *)

Section connections.
Context `{J : Json} `{U : Unicode} `{W : World}.
Implicit Types a : App.

Lemma register_watched user limit token_hash a :
  watched_ok a → (app_next_conn a + 1 < two64)%N → watched_ok (register_conn user limit token_hash a).2.
Proof.
  intros Ha Hn. pose proof Ha as [Hr Hw Hi]. unfold register_conn. destruct (_ <=? _)%nat.
  - constructor; [by destruct Hr; constructor|done|done].
  - constructor; [by destruct Hr; constructor| |]; cbn.
    + intros h l c sub Hl He Hc. destruct (Hw _ _ _ _ Hl He Hc) as [|(Htx & (hd & Hhd & Hu) & Hid)]; [done|]. right.
      split; [done|]. split; [|done]. exists hd. split; [|done]. cbn. rewrite lookup_insert_ne; [done|]. intros <-.
      assert (is_Some (app_conns a !! app_next_conn a)) as H%Hi by eauto. lia.
    + intros c [hd [[<- _]|[Hne Hc]]%lookup_insert_Some]; rewrite wadd_small by (unfold usize_max, two64 in *; lia); [lia|].
      pose proof (Hi c ltac:(eauto)). lia.
Qed.

(** ** Going *)

(** The resident copy of a wave, if there is one, has a watcher. *)
Definition attended a (id : WaveId) : Prop :=
  ∀ h l, app_waves a !! id = Some h → app_heap a !! h = Some l → lw_subscribers l ≠ ∅.

Lemma leave_all sess ws a :
  NoDup ws → watched_ok a → (∀ id, id ∈ ws → id ∈ subscribed sess a) →
  (cm_each (leave_command sess) ws a).1 = Ok tt ∧ watched_ok (cm_each (leave_command sess) ws a).2 ∧
  same_table a (cm_each (leave_command sess) ws a).2 ∧
  (∀ id, id ∈ subscribed sess (cm_each (leave_command sess) ws a).2 → id ∈ subscribed sess a ∧ id ∉ ws) ∧
  (∀ id, id ∈ ws → attended (cm_each (leave_command sess) ws a).2 id) ∧
  (∀ id h, id ∉ ws → app_waves (cm_each (leave_command sess) ws a).2 !! id = Some h →
     app_waves a !! id = Some h ∧ app_heap (cm_each (leave_command sess) ws a).2 !! h = app_heap a !! h).
Proof.
  revert a. induction ws as [|id ws IH]; intros a Hnd Ha Hin.
  { cbn. split_and!; try done; [set_solver|set_solver]. }
  apply list.NoDup_cons in Hnd as [Hni Hnd].
  destruct (leave_left sess id a Ha (Hin id ltac:(set_solver))) as [Hok [Ha1 Ht1 Hs1 Hidle Hoth]].
  change (cm_each (leave_command sess) (id :: ws) a)
    with (cm_bind (leave_command sess id) (λ _, cm_each (leave_command sess) ws) a).
  unfold cm_bind. destruct (leave_command sess id a) as [r a1]. cbn [fst snd] in *. subst r.
  assert (subscribed sess a1 = subscribed sess a ∖ {[id]}) as Es by (unfold subscribed at 1; by rewrite Hs1, lookup_insert_eq).
  destruct (IH a1) as (Hok2 & Ha2 & Ht2 & Hs2 & Hi2 & Ho2); [done|done|intros i Hi; rewrite Es; set_solver|].
  split_and!; [done|done|by eapply same_table_trans| | |].
  - intros i Hi. apply Hs2 in Hi as [Hi Hn]. rewrite Es in Hi. set_solver.
  - intros i [->|Hi]%elem_of_cons; [|by apply Hi2]. intros h l Hh Hl. destruct (Ho2 _ _ Hni Hh) as [Hh' E].
    rewrite E in Hl. by eapply Hidle.
  - intros i h [Hne Hi]%not_elem_of_cons Hh. destruct (Ho2 _ _ Hi Hh) as [Hh' E].
    destruct (Hoth _ _ Hne Hh') as [? E']. split; [done|]. congruence.
Qed.

Lemma unregister_still conn a :
  app_heap (unregister_conn conn a) = app_heap a ∧ app_waves (unregister_conn conn a) = app_waves a ∧
  app_subscribed (unregister_conn conn a) = app_subscribed a ∧ app_next_conn (unregister_conn conn a) = app_next_conn a ∧
  app_conns (unregister_conn conn a) = delete conn (app_conns a).
Proof.
  unfold unregister_conn. destruct (app_conns a !! conn) eqn:E; [done|]. split_and!; try done. by rewrite delete_id.
Qed.

(** A connection that watches nothing is listed by no live copy. *)
Lemma unwatched a c : watched_ok a → default ∅ (app_subscribed a !! c) = ∅ →
  ∀ h l, app_heap a !! h = Some l → lw_evicted l = false → lw_subscribers l !! c = None.
Proof.
  intros [_ Hw _] Hs h l Hl He. destruct (lw_subscribers l !! c) as [sub|] eqn:E; [|done].
  destruct (Hw _ _ _ _ Hl He E) as [|(_ & _ & Hid)]; [done|]. rewrite Hs in Hid. set_solver.
Qed.

Lemma unregister_watched conn a :
  watched_ok a → default ∅ (app_subscribed a !! conn) = ∅ → watched_ok (unregister_conn conn a).
Proof.
  intros Ha Hs. pose proof (unwatched a conn Ha Hs) as Hnone. destruct Ha as [[Hr Hl] Hw Hi].
  destruct (unregister_still conn a) as (E1 & E2 & E3 & E4 & E5).
  constructor; [by constructor; rewrite ?E1, ?E2|rewrite E1|rewrite E4, E5].
  - intros h l c sub Hl' He Hc. destruct (Hw _ _ _ _ Hl' He Hc) as [|(Htx & (hd & Hhd & Hu) & Hid)]; [done|]. right.
    split; [done|]. rewrite E5, E3. split; [|done]. exists hd. split; [|done]. apply lookup_delete_Some. split; [|done].
    intros <-. by rewrite (Hnone _ _ Hl' He) in Hc.
  - intros c [hd [_ Hc]%lookup_delete_Some]. eauto.
Qed.

(** What hanging up leaves: nothing. *)
Record departed (sess : Session) a a' : Prop := {
  dp_watched : watched_ok a';
  dp_conns : app_conns a' = delete (s_conn sess) (app_conns a);
  dp_subscribed : subscribed sess a' = ∅;
  dp_unlisted : ∀ h l, app_heap a' !! h = Some l → lw_evicted l = false → lw_subscribers l !! s_conn sess = None;
  dp_attended : ∀ id, id ∈ subscribed sess a → attended a' id;
}.

Lemma hang_up_departs sess a :
  watched_ok a → (hang_up sess a).1 = Ok tt ∧ departed sess a (hang_up sess a).2.
Proof.
  intros Ha. unfold hang_up, cm_bind at 1, get_app.
  destruct (leave_all sess (elements (subscribed sess a)) a) as (Hok & Ha1 & (Ht1 & _) & Hs1 & Hi1 & _);
    [apply NoDup_elements|done|set_solver|].
  unfold cm_bind. destruct (cm_each _ _ a) as [r a1]. cbn [fst snd] in *. subst r. split; [done|]. cbn [modify snd].
  assert (subscribed sess a1 = ∅) as He by set_solver.
  destruct (unregister_still (s_conn sess) a1) as (E1 & E2 & E3 & E4 & E5).
  assert (watched_ok (unregister_conn (s_conn sess) a1)) as Hw by by apply unregister_watched.
  assert (subscribed sess (unregister_conn (s_conn sess) a1) = ∅) as Hs by (unfold subscribed; by rewrite E3).
  constructor; [done|by rewrite E5, Ht1|done|by apply unwatched|].
  intros id Hid h l. rewrite E1, E2. apply Hi1. set_solver.
Qed.

Lemma hang_up_unregisters sess a :
  watched_ok a → ∃ a1, same_table a a1 ∧ (hang_up sess a).2 = unregister_conn (s_conn sess) a1.
Proof.
  intros Ha. unfold hang_up, cm_bind at 1, get_app.
  destruct (leave_all sess (elements (subscribed sess a)) a) as (Hok & _ & Ht & _); [apply NoDup_elements|done|set_solver|].
  unfold cm_bind. destruct (cm_each _ _ a) as [r a1]. cbn [fst snd] in *. subst r. by exists a1.
Qed.

(** The slot is free again. *)
Lemma slot_freed a conn hd :
  conns_ok a → app_conns a !! conn = Some hd →
  connections_for (conn_user hd) (unregister_conn conn a) = (connections_for (conn_user hd) a - 1)%nat ∧
  (connections_for (conn_user hd) a <= MAX_CONNECTIONS_PER_USER)%nat ∧ (0 < connections_for (conn_user hd) a)%nat.
Proof.
  intros [C1 C2 C3 C4] Hc. destruct (C1 _ _ Hc) as (cs & Hcs & Hin). pose proof (C3 _ _ Hcs) as Hmax.
  unfold connections_for. rewrite Hcs. unfold unregister_conn. rewrite Hc, lookup_alter_eq, Hcs. cbn.
  assert (size (cs ∖ {[conn]}) = (size cs - 1)%nat) as Hsize by (rewrite size_difference, size_singleton by set_solver; done).
  assert (0 < size cs)%nat by (apply Nat.neq_0_lt_0; intros ?%size_empty_inv; set_solver).
  split; [|done]. rewrite <- Hsize. case_decide as He; [rewrite lookup_delete_eq, He; by rewrite size_empty|].
  by rewrite lookup_alter_eq, Hcs.
Qed.

Lemma hang_up_slot sess a token_hash :
  conns_ok a → watched_ok a → registered sess a →
  is_Some (register_conn (me sess) MAX_CONNECTIONS_PER_USER token_hash (hang_up sess a).2).1.
Proof.
  intros Hc Hw Hr. destruct (hang_up_unregisters sess a Hw) as (a1 & (E1 & E2 & E3) & ->).
  assert (conns_ok a1) as Hc1 by by apply (conns_quiet a).
  destruct (slot_freed a1 (s_conn sess) (mkConn (me sess) (s_token_hash sess)) Hc1) as (Hs & Hmax & Hpos); [by rewrite E1|].
  cbn [conn_user] in *. revert Hs. unfold register_conn, connections_for.
  set (a2 := unregister_conn (s_conn sess) a1). intros Hs.
  assert (size (default ∅ (app_user_conns a2 !! me sess)) < MAX_CONNECTIONS_PER_USER)%nat as Hlt.
  { unfold connections_for in *. destruct (app_user_conns a2 !! me sess); cbn; [lia|]. rewrite size_empty. unfold MAX_CONNECTIONS_PER_USER. lia. }
  rewrite (proj2 (Nat.leb_gt _ _)) by done. by eexists.
Qed.

End connections.

Section reachable.
Context `{J : Json} `{U : Unicode} `{W : World}.
Context (fts_match : str → list SearchRow → list (SearchRow * str)).
Context (hash_token : str → str) (generate_token : nat → str) (request_json : ReplyRequest → str).
Implicit Types a : App.

#[local] Abbreviation lives := (lives fts_match hash_token generate_token request_json).
#[local] Abbreviation turn := (turn fts_match).

Lemma turn_ok sess expires t limits a : app_ok a → turn_fits t a → app_ok (turn sess expires t limits a).2.
Proof.
  intros Ha Ht. unfold Lifecycle.turn, cm_bind at 1, get_app.
  destruct (tu_shutdown t); [done|]. destruct (killed _ _); [done|]. destruct (_ <=? _)%Z; [done|].
  unfold turn_fits in Ht. destruct (tu_wake t) as [idle| |[m|why| |]]; try done.
  - destruct Ht as [Hm Hr]. pose proof (read_command_ok fts_match sess (tu_at t) m limits a Ha Hm Hr) as H.
    unfold cm_bind. by destruct (read_command _ _ _ _ _ _) as [[]].
  - by apply (quiet_ok a).
Qed.

(** A turn that is not told to stop handles the command that arrived. *)
Lemma turn_command sess expires now at_ m limits a :
  killed (s_conn sess) a = false → (now < expires)%Z →
  (turn sess expires (mkTurn false now at_ (Arrived (Command m))) limits a).2 = (read_command fts_match sess at_ m limits a).2.
Proof.
  intros Hk He. unfold Lifecycle.turn, cm_bind at 1, get_app. cbn [tu_shutdown tu_now tu_at tu_wake]. rewrite Hk.
  rewrite (proj2 (Z.leb_gt _ _)) by done. unfold cm_bind. by destruct (read_command _ _ _ _ _ _) as [[]].
Qed.

Lemma lives_ok a a' : lives a a' → app_ok a ∧ watched_ok a → app_ok a' ∧ watched_ok a'.
Proof.
  intros [] [Ha Hw].
  - split; [by apply register_conn_ok|by apply register_watched].
  - split; [by apply keeps_greet|by apply serves_greet].
  - split; [by apply turn_ok|by apply serves_turn].
  - split; [by apply keeps_after_panic|by apply serves_after_panic].
  - split; [by apply keeps_hang_up|by apply hang_up_departs].
  - split; [by apply keeps_inbox_task|apply minds_watched; [intros; apply minds_inbox_task|done]].
  - split; [by apply keeps_reply|apply minds_watched; [intros; apply minds_reply|done]].
  - split; [by apply evict_after_panic_ok|by apply (minds_panic (λ _ _, False))].
  - split; [by apply keeps_create_token|apply minds_watched; [intros; apply minds_create_token|done]].
  - split; [by apply keeps_revoke_token|apply minds_watched; [intros; apply minds_revoke|done]].
  - split; [by eapply aside_ok|]. destruct H as (_ & E1 & E2 & E3 & E4 & E5 & E6 & _). apply (watched_still (λ _ _, False) a0); [|exact Hw].
    by unfold still, same_conns, same_table.
Qed.

Lemma lived_ok db a : db_sound db → rtc lives (app_new db) a → app_ok a ∧ watched_ok a.
Proof.
  intros Hd H. assert (app_ok (app_new db) ∧ watched_ok (app_new db)) as Hnew.
  { split; [by apply app_new_ok|]. constructor; [by constructor|done|]. by intros c [? ?]. }
  revert Hnew. induction H; [done|]. intros Hx. apply IHrtc. by eapply lives_ok.
Qed.
End reachable.
