(* ===== verification/Scenario.v ===== *)
(** * A server in use

    Two accounts and three connections: a wave is created, opened by the other member, edited, answered by an
    agent.  The concrete states here are where the guarantees are applied. *)

From Stdlib Require Import QArith.
From S2P Require Import Prelude Tables Strings Unicode Json Attributes Text Delta Model Protocol ServerDoc.
From S2P Require Import ServerDocTheory DocGuarantees Content DocBounds LiveWave Snippet Storage OpLog Queries Effects Critical Handlers.
From S2P Require Import Coherence App Limit Dispatch Commands Agent Server.

(** A clock that never stops, ids that count, a disk that works. *)
#[export] Instance world_good : World := {|
  clock n := Z.of_nat n;
  fresh_uuid n := decimal (N.of_nat n);
  disk_fails _ := false;
|}.

Definition no_match (query : str) (rows : list SearchRow) : list (SearchRow * str) := [].
Definition plain_hash (s : str) : str := 35%N :: s.
Definition token_text (n : nat) : str := decimal (N.of_nat n).
Definition request_text (r : ReplyRequest) : str := rq_request_id r ++ 47%N :: default [] (rq_parent r) ++ 47%N :: rq_text r.

Definition ann : User := mkUser (lit "u-ann") (lit "ann") (lit "Ann") [] (lit "x") 1 0.
Definition bob : User := mkUser (lit "u-bob") (lit "bob") (lit "Bob") [] (lit "x") 2 0.

Definition db_start : Db := mkDb [ann; bob] [] [] [] [] [] [] [] [] [] [] [] [] [] [] [].

Definition ann_session : Session := mkSess 1 ann (lit "a").
Definition bob_session : Session := mkSess 2 bob (lit "b").

Definition limits0 : Limiters := limiters_new 0.

Definition after_command (s : Session) (m : ClientMessage) (a : App) : App := (read_command no_match s 0 m limits0 a).2.

Definition ann_here : App := (register_conn (lit "u-ann") MAX_CONNECTIONS_PER_USER (lit "a") (app_new db_start)).2.
Definition connected : App := (register_conn (lit "u-bob") MAX_CONNECTIONS_PER_USER (lit "b") ann_here).2.

Definition create_message : ClientMessage :=
  CreateWave (lit "Plan") [lit "bob"] (Some (document (lit "hello"))) None.

Definition created : App := after_command ann_session create_message connected.

Definition the_wave : WaveId := lit "w-1".
Definition the_wavelet : WaveletId := lit "s-2".
Definition the_blip : BlipId := lit "b-3".

Definition shared : App := after_command bob_session (Open the_wave) created.

Definition submit_message : ClientMessage := Submit the_blip 1 edit1 (Some (lit "op1")).

Definition edited_wave : App := after_command ann_session submit_message shared.

Lemma db_start_sound : db_sound db_start.
Proof.
  constructor; try apply base.NoDup_nil_2; try (intros x Hx; by apply elem_of_nil in Hx).
  - intros b c Hb. by apply elem_of_nil in Hb.
  - constructor; [intros x Hx; by apply elem_of_nil in Hx..|]. intros id op_id. simpl. lia.
Qed.

Lemma wire_create : wire_message create_message.
Proof. intros d [= <-]. apply document_good. Qed.

Lemma wire_edit1 : wire_change edit1.
Proof. split_and!; [concrete|apply clean_plain; concrete|done]. Qed.

Definition all_revisions_left (db : Db) : bool := forallb (λ b, (blip_revision b <? usize_max)%N) (db_blips db).

Lemma revisions_left_by db : all_revisions_left db = true → revisions_left db.
Proof.
  intros H b Hb. unfold all_revisions_left in H. rewrite forallb_forall in H. apply N.ltb_lt, H. by apply list_elem_of_In.
Qed.

Local Abbreviation happens := (happens no_match plain_hash token_text request_text).

Lemma step_command s m a :
  wire_message m → all_revisions_left (app_db a) = true → happens a (after_command s m a).
Proof. intros Hm Hr. exact (h_command _ _ _ _ a s 0 m limits0 Hm (revisions_left_by _ Hr)). Qed.

Lemma ann_connects : happens (app_new db_start) ann_here.
Proof. by apply h_connect. Qed.

Lemma bob_connects : happens ann_here connected.
Proof. apply h_connect. vm_compute. reflexivity. Qed.

Lemma shared_reached : rtc happens (app_new db_start) shared.
Proof.
  apply (rtc_l _ _ ann_here _ ann_connects), (rtc_l _ _ connected _ bob_connects).
  apply (rtc_l _ _ created); [apply step_command; [exact wire_create|vm_compute; reflexivity]|].
  apply (rtc_l _ _ shared); [apply step_command; [exact I|vm_compute; reflexivity]|].
  apply rtc_refl.
Qed.

Lemma scenario_reached : rtc happens (app_new db_start) edited_wave.
Proof.
  apply (rtc_r _ _ _ shared_reached), step_command; [exact wire_edit1|vm_compute; reflexivity].
Qed.

(** What the scenario ends in: the edited text in storage, its log, and the op in the other's queue. *)
Example scenario_text : bool_decide (blip_content <$> db_blips (app_db edited_wave) = [document (lit "hello!")]) = true.
Proof. vm_compute. reflexivity. Qed.

Example scenario_log : or_revision <$> db_ops (app_db edited_wave) = [1%N; 2%N].
Proof. vm_compute. reflexivity. Qed.

Definition is_op (revision : N) (m : ServerMessage) : bool :=
  match m with SOp _ _ r _ _ => (r =? revision)%N | _ => false end.

Example scenario_queue :
  (match out_channels (app_out edited_wave) !! 2%N with
   | Some ch => existsb (is_op 2) (ch_sent ch) | None => false end) = true.
Proof. vm_compute. reflexivity. Qed.
