(* ===== verification/ServerGuarantees.v ===== *)
(** * What the server guarantees

    The headline properties of the server's state and of an edit: memory and storage agree in every state
    reached, a refused edit changes nothing, an accepted one is stored before it is announced, a retried one
    is not applied twice, and the op log replays to the text. *)

From Stdlib Require Import QArith.
From S2P Require Import Prelude Tables Strings Unicode Json Attributes Text Delta Model Protocol ServerDoc.
From S2P Require Import ServerDocTheory DocGuarantees Content DocBounds LiveWave LiveWaveTheory Snippet Storage OpLog Queries.
From S2P Require Import Effects Critical Handlers Coherence CoherenceLemmas CoherenceMembers CoherenceFrame CoherenceHandlers Submission.
From S2P Require Import App AppTheory Limit Dispatch Commands Agent AgentTheory Server Watchers Lifecycle Scenario.

Section guarantees.
Context `{J : Json} `{U : Unicode} `{W : World}.
Context (fts_match : str → list SearchRow → list (SearchRow * str)).
Context (hash_token : str → str) (generate_token : nat → str) (request_json : ReplyRequest → str).

Local Abbreviation happens := (happens fts_match hash_token generate_token request_json).



(** C15: loading.  A wave that [open_wave] hands out, from memory or from storage, is the wave asked for,
    agrees with storage, and is the copy everybody else gets. *)
Theorem open_wave_agrees id a h a' :
  app_ok a → open_wave id a = (Ok (Ok (Some h)), a') →
  app_waves a' !! id = Some h ∧ ∃ l, app_heap a' !! h = Some l ∧ who l = (id, false) ∧ coherent (app_db a') l.
Proof.
  intros Ha E.
  assert (wp (open_wave id) (λ r a', app_ok a' ∧ match r with Ok (Ok (Some h)) => current a' id h | _ => True end) a) as H.
  { apply wp_open_wave; [done|]. intros r a1 Ha1 _ Hr. by destruct r as [[]|]. }
  unfold wp in H. rewrite E in H. destruct H as [Ha' Hh]. split; [done|]. by apply (ao_waves _ Ha').
Qed.

(** C14: connections.  In every state reached, whoever a wave lists as a watcher is a connection in the table, of the user
    it is listed for, that watches the wave.  A connection told to stop, by a full queue, an ended session or a
    shutdown, handles nothing more; when it has hung up no wave lists it, every wave it watched has another watcher or
    is out of memory, and its slot is free. *)
Theorem departed_connections_leave_nothing db a sess :
  db_sound db → rtc (lives fts_match hash_token generate_token request_json) (app_new db) a → registered sess a →
  (∀ h l c sub, app_heap a !! h = Some l → lw_evicted l = false → lw_subscribers l !! c = Some sub →
     watches a (wave_id (lw_wave l)) c (sub_user_id sub) (sub_tx sub)) ∧
  (∀ expires t limits, tu_shutdown t = true ∨ killed (s_conn sess) a = true ∨ (expires <= tu_now t)%Z →
     turn fts_match sess expires t limits a = (Ok (false, limits), a)) ∧
  let '(r, a') := hang_up sess a in
  r = Ok tt ∧ app_conns a' = delete (s_conn sess) (app_conns a) ∧
  (∀ h l, app_heap a' !! h = Some l → lw_evicted l = false → lw_subscribers l !! s_conn sess = None) ∧
  (∀ id, id ∈ subscribed sess a → attended a' id) ∧
  ∀ token, is_Some (register_conn (me sess) MAX_CONNECTIONS_PER_USER token a').1.
Proof.
  intros Hd Hr Hs. destruct (lived_ok _ _ _ _ _ _ Hd Hr) as [Ha Hw]. split; [|split].
  - intros h l c sub Hl He Hc. by destruct (wo_watch _ _ Hw _ _ _ _ Hl He Hc).
  - intros expires t limits Hstop. unfold turn, cm_bind at 1, get_app. destruct (tu_shutdown t); [done|].
    destruct (killed _ _); [done|]. destruct Hstop as [|[|Hstop]]; [done..|]. by rewrite (proj2 (Z.leb_le _ _)).
  - pose proof (hang_up_slot sess a) as Hslot. destruct (hang_up_departs sess a Hw) as [Hok []].
    destruct (hang_up sess a) as [r a']. cbn [fst snd] in *. split_and!; try done. intros token. apply Hslot; [apply Ha|done..].
Qed.

(** ** Edits *)

Section edit.
Context (conn : ConnId) (author : UserId) (blip : BlipId) (revision : N) (delta : Delta) (op_id : option str).


(** An op id not seen before cannot be acknowledged again. *)
Lemma fresh_edit_committed s :
  db_sound (c_db s) → coherent (c_db s) (c_live s) → editable blip delta (c_live s) →
  (∀ op, op_id = Some op → length (with_op_id (c_db s) blip op) = 0%nat) →
  is_ok (apply_op conn author (the_edit blip revision delta op_id) s).1 = true →
  committed_and_announced conn author blip revision delta op_id s
    (apply_op conn author (the_edit blip revision delta op_id) s).2.
Proof.
  intros Hd Hc He Hnew.
  apply (wp_apply_op conn author blip revision delta op_id s (λ r s', is_ok r = true → committed_and_announced _ _ _ _ _ _ s s')); [done..| |done].
  intros s' (_ & op & row & Eop & Hrow & Hb & Ho & _) _. exfalso. specialize (Hnew op Eop). apply nil_length_inv in Hnew.
  assert (row ∈ with_op_id (c_db s) blip op) as H.
  { apply list_elem_of_filter. by rewrite Hb, Ho. }
  rewrite Hnew in H. by apply elem_of_nil in H.
Qed.

(** What a committed op leaves under its id. *)
Lemma committed_revision s s1 op :
  committed_and_announced conn author blip revision delta (Some op) s s1 → coherent (c_db s) (c_live s) →
  ∃ entry doc lb, lw_blips (c_live s) !! blip = Some lb ∧ apply (lb_doc lb) revision delta author = Ok (entry, doc) ∧
    revision_for_op (c_db s1) blip op = Some (rev_revision entry).
Proof.
  intros (_ & lb & entry & doc & ts & Hl & Ha & _ & Hcommit & _) Hc. exists entry, doc, lb. split_and!; [done..|].
  destruct (co_docs _ _ Hc _ _ Hl) as (Hid & _).
  apply commit_op_inv in Hcommit as (f & g & E & Honce). specialize (Honce op eq_refl). rewrite E. clear E. unfold revision_for_op.
  simpl in *. rewrite Hid in *. rewrite (find_row_unique _ _ (mkOpRow blip (doc_revision doc) (blip_wave_id (lb_meta lb)) author ts (rev_delta entry) (Some op))).
  - simpl. f_equal. by apply apply_inv in Ha as (_ & _ & -> & ->).
  - apply elem_of_app. right. by apply list_elem_of_singleton.
  - simpl. unfold str_eqb. by rewrite !bool_decide_eq_true_2.
  - intros r [Hr|Hr%list_elem_of_singleton]%elem_of_app.
    + intros [E1%str_eqb_spec E2%bool_decide_eq_true]%andb_true_iff. exfalso.
      assert (r ∈ with_op_id (c_db s) blip op) as H by (unfold with_op_id; apply list_elem_of_filter; auto).
      rewrite Honce in H. by apply elem_of_nil in H.
    + by intros _.
Qed.

End edit.

Lemma committed_before_found blip op r s :
  disk_fails (c_tick s) = false → revision_for_op (c_db s) blip op = Some r →
  committed_before blip (Some op) s = (Ok (Some (r, op)), tick (with_db (c_db s) s)).
Proof. intros Hdisk Hr. unfold committed_before, cm_bind, try_db. cbn [st_tick st_db crit_stored]. by rewrite Hdisk, Hr. Qed.


End guarantees.

(** ** Concrete instances *)

Lemma scenario_ok : app_ok edited_wave.
Proof. exact (reached_ok _ _ _ _ _ _ db_start_sound scenario_reached). Qed.

Definition no_wave : LiveWave := live_of (mkWave [] [] 0 Document) [] [] [] [].
Definition resident_copy (a : App) (h : Handle) : LiveWave := default no_wave (app_heap a !! h).

Lemma resident_ok a id h :
  app_ok a → app_waves a !! id = Some h → db_sound (app_db a) ∧ coherent (app_db a) (resident_copy a h).
Proof.
  intros Ha Hh. destruct (ao_waves _ Ha _ _ Hh) as (l & Hl & _ & Hc). split; [apply Ha|].
  unfold resident_copy. by rewrite Hl.
Qed.


Lemma turns_live s m a :
  registered s a → wire_message m → all_revisions_left (app_db a) = true → killed (s_conn s) a = false →
  lives no_match plain_hash token_text request_text a (after_command s m a).
Proof.
  intros Hs Hm Hr Hk. unfold after_command. rewrite <- (turn_command no_match s 1 0) by done.
  apply l_turn; [done|]. split; [done|]. by apply revisions_left_by.
Qed.

Lemma shared_lived : rtc (lives no_match plain_hash token_text request_text) (app_new db_start) shared.
Proof.
  apply (rtc_l _ _ ann_here); [by apply l_connect|].
  apply (rtc_l _ _ connected); [apply l_connect; vm_compute; reflexivity|].
  apply (rtc_l _ _ created); [apply turns_live; [vm_compute; reflexivity|exact wire_create|vm_compute; reflexivity..]|].
  apply (rtc_l _ _ shared); [apply turns_live; [vm_compute; reflexivity|exact I|vm_compute; reflexivity..]|].
  apply rtc_refl.
Qed.

Lemma departed_connections_leave_nothing_witness :
  the_wave ∈ subscribed bob_session shared ∧ app_conns (hang_up bob_session shared).2 !! 2%N = None ∧
  attended (hang_up bob_session shared).2 the_wave.
Proof.
  assert (the_wave ∈ subscribed bob_session shared) as Hin by (refine (bool_decide_eq_true_1 _ _); vm_compute; reflexivity).
  assert (registered bob_session shared) as Hreg by (vm_compute; reflexivity).
  destruct (departed_connections_leave_nothing no_match plain_hash token_text request_text db_start shared bob_session
    db_start_sound shared_lived Hreg) as (_ & _ & H).
  destruct (hang_up bob_session shared) as [r a']. destruct H as (_ & Hc & _ & Hat & _).
  split; [exact Hin|]. split; [cbn [snd]; rewrite Hc; apply lookup_delete_eq|]. apply Hat. exact Hin.
Defined.


Lemma shared_ok : app_ok shared.
Proof. exact (reached_ok _ _ _ _ _ _ db_start_sound shared_reached). Qed.

(** The wave as its lock holder sees it, before and after the edit of the scenario. *)
Definition before_edit : Crit := crit_of shared (resident_copy shared 0).
Definition after_edit : Crit := (apply_op 1 (lit "u-ann") (the_edit the_blip 1 edit1 (Some (lit "op1"))) before_edit).2.
Definition other_edit : Delta := from_ops [op_insert (lit "?")].

Lemma before_edit_ok : db_sound (c_db before_edit) ∧ coherent (c_db before_edit) (c_live before_edit).
Proof. apply (resident_ok _ the_wave 0 shared_ok). concrete. Qed.

Lemma before_edit_editable : editable the_blip edit1 (c_live before_edit).
Proof.
  apply (editable_here shared); [exact wire_edit1| |apply before_edit_ok].
  apply revisions_left_by. vm_compute. reflexivity.
Qed.

Lemma edit_made : committed_and_announced 1 (lit "u-ann") the_blip 1 edit1 (Some (lit "op1")) before_edit after_edit.
Proof.
  apply fresh_edit_committed; [apply before_edit_ok..|apply before_edit_editable| |vm_compute; reflexivity].
  intros op [= <-]. vm_compute. reflexivity.
Qed.

Lemma before_edit_member lb :
  lw_blips (c_live after_edit) !! the_blip = Some lb →
  may_access (c_live after_edit) (lit "u-ann") (blip_wavelet_id (lb_meta lb)) = true.
Proof.
  assert (match lw_blips (c_live after_edit) !! the_blip with
    | Some lb => may_access (c_live after_edit) (lit "u-ann") (blip_wavelet_id (lb_meta lb)) | None => false end = true) as H.
  { vm_compute. reflexivity. }
  intros Hl. by rewrite Hl in H.
Qed.

Lemma after_edit_blip : ∃ lb, lw_blips (c_live after_edit) !! the_blip = Some lb.
Proof.
  assert (bool_decide (is_Some (lw_blips (c_live after_edit) !! the_blip)) = true) as H by (vm_compute; reflexivity).
  by apply bool_decide_eq_true in H.
Qed.

Lemma open_wave_agrees_witness :
  let '(r, a') := open_wave the_wave shared in
  match r with
  | Ok (Ok (Some h)) =>
      app_waves a' !! the_wave = Some h ∧
      ∃ l, app_heap a' !! h = Some l ∧ who l = (the_wave, false) ∧ coherent (app_db a') l
  | _ => False
  end.
Proof.
  assert (match (open_wave the_wave shared).1 with Ok (Ok (Some h)) => true | _ => false end = true) as H by (vm_compute; reflexivity).
  destruct (open_wave the_wave shared) as [[[[h|]|]|] a'] eqn:E; try discriminate H.
  exact (open_wave_agrees _ _ _ _ shared_ok E).
Defined.


