(* ===== verification/Audience.v ===== *)
(** * Who is told what

    [about db m w]: the message [m] speaks of the wavelet [w].  [told db out0 out]: everything queued since
    [out0] went to connections whose user is, by [db], a member of every wavelet spoken of.  This file has
    the rules for delivery; the commands are in [AudienceHandlers.v]. *)

From S2P Require Import Prelude Tables Strings Unicode Json Attributes Text Delta Model Protocol ServerDoc.
From S2P Require Import Content DocBounds LiveWave LiveWaveTheory Storage OpLog Queries Effects Critical Handlers.
From S2P Require Import Coherence CoherenceLemmas CoherenceMembers CoherenceFrame CoherenceHandlers.

Section audience.
Context `{J : Json} `{W : World}.
Context (owner : ConnId → UserId).
Implicit Types db : Db.
Implicit Types l : LiveWave.
Implicit Types s : Crit.
Implicit Types out : Outbound.

(** ** What a message speaks of *)

Definition blip_in db (blip : BlipId) (w : WaveletId) : Prop :=
  ∃ b, b ∈ db_blips db ∧ blip_id b = blip ∧ blip_wavelet_id b = w.

Definition view_about (v : WaveletView) (w : WaveletId) : Prop :=
  wv_id v = w ∨ (∃ b, b ∈ wv_blips v ∧ bv_wavelet_id b = w) ∨ (∃ t, t ∈ wv_comments v ∧ ct_wavelet_id t = w).

Definition about db (m : ServerMessage) (w : WaveletId) : Prop :=
  match m with
  | WaveState view => ∃ v, v ∈ view_wavelets view ∧ view_about v w
  | SOp _ blip _ _ _ | Ack _ blip _ _ _ | BlipRemoved _ blip | SCursor _ blip _ _ _ => blip_in db blip w
  | BlipAdded _ b => bv_wavelet_id b = w
  | CommentAdded _ t b => ct_wavelet_id t = w ∨ bv_wavelet_id b = w
  | CommentResolved _ c _ _ => ∃ r, r ∈ db_comments db ∧ ct_id (cr_thread r) = c ∧ ct_wavelet_id (cr_thread r) = w
  | TitleChanged _ wavelet _ | ParticipantAdded _ wavelet _ | ParticipantRemoved _ wavelet _ => wavelet = w
  | WaveletAdded _ v => view_about v w
  | Presence _ users => ∃ e blip, e ∈ users ∧ pe_editing e = Some blip ∧ blip_in db blip w
  | Playback _ frames => ∃ f, f ∈ frames ∧ blip_in db (pf_blip_id f) w
  | SearchResults _ hits => ∃ h, h ∈ hits ∧ blip_in db (sh_blip_id h) w
  | Welcome _ _ | ModeChanged _ _ | InboxUpdated _ | WaveRemoved _ | SError _ _ _ | Pong => False
  end.

Definition sent out (c : ConnId) : list ServerMessage :=
  match out_channels out !! c with Some ch => ch_sent ch | None => [] end.

Definition member db (u : UserId) (w : WaveletId) : Prop := is_wavelet_participant db u w = true.

Definition may_hear db (c : ConnId) (m : ServerMessage) : Prop := ∀ w, about db m w → member db (owner c) w.

Definition told db out0 out : Prop :=
  ∀ c, ∃ new, sent out c = sent out0 c ++ new ∧ ∀ m, m ∈ new → may_hear db c m.

Lemma told_refl db out : told db out out.
Proof. intros c. exists []. rewrite app_nil_r. split; [done|]. by intros m ?%elem_of_nil. Qed.

Lemma told_trans db out1 out2 out3 : told db out1 out2 → told db out2 out3 → told db out1 out3.
Proof.
  intros H1 H2 c. destruct (H1 c) as (n1 & E1 & F1), (H2 c) as (n2 & E2 & F2). exists (n1 ++ n2).
  rewrite E2, E1, <- app_assoc. split; [done|]. intros m [Hm|Hm]%elem_of_app; auto.
Qed.

(** ** Watchers *)

(** Every subscription is under its own connection, with that connection's user. *)
Definition owned l : Prop := ∀ c sub, lw_subscribers l !! c = Some sub → sub_tx sub = c ∧ sub_user_id sub = owner c.

Lemma owned_tx l : owned l → tx_own l.
Proof. intros H c sub Hc. by apply H. Qed.

Lemma owned_subs l l' : owned l → lw_subscribers l' = lw_subscribers l → owned l'.
Proof. intros H E c sub. rewrite E. apply H. Qed.

(** Nobody is a member in memory who is not one in storage. *)
Definition members db l : Prop := ∀ w u, w ∈ lw_wavelets l → u ∈ wl_participants w → member db u (wl_id w).

Lemma members_coherent db l : coherent db l → members db l.
Proof. intros Hc w u Hw Hu. destruct (co_wavelets _ _ Hc _ Hw) as (r & _ & (_ & _ & _ & _ & _ & H) & _). by apply H. Qed.

Lemma members_wavelets db l l' : lw_wavelets l' = lw_wavelets l → members db l → members db l'.
Proof. intros E H w u. rewrite E. apply H. Qed.

Lemma members_rows db db' l : db_participants db' = db_participants db → members db l → members db' l.
Proof. intros E H w u Hw Hu. unfold member, is_wavelet_participant. rewrite E. by apply H. Qed.

Lemma elem_of_update_first (p : Wavelet → bool) f ws w : w ∈ update_first p f ws → ∃ w0, w0 ∈ ws ∧ (w = w0 ∨ w = f w0).
Proof.
  induction ws as [|x ws IH]; simpl; [by intros ?%elem_of_nil|].
  destruct (p x); intros [->|H]%elem_of_cons.
  - exists x. split; [by left|by right].
  - exists w. split; [by right|by left].
  - exists x. split; [by left|by left].
  - destruct (IH H) as (w0 & ? & ?). exists w0. split; [by right|done].
Qed.

Lemma members_mut db l id f :
  (∀ w, wl_id (f w) = wl_id w ∧ wl_participants (f w) = wl_participants w) → members db l → members db (wavelet_mut id f l).
Proof.
  intros Hf H w u (w0 & Hw0 & [->| ->])%elem_of_update_first Hu; [by apply H|].
  destruct (Hf w0) as [-> E]. rewrite E in Hu. by apply H.
Qed.

Lemma member_of db l u w : members db l → may_access l u w = true → member db u w.
Proof. intros H (x & Hx & <- & Hu)%may_access_wavelet. by apply H. Qed.

(** ** Delivery *)

(** The shape every delivery has: some subscribers fall away, and the rest are told. *)
Definition delivered db l out (res : LiveWave * Outbound) : Prop :=
  told db out res.2 ∧ ∃ subs, res.1 = set_subscribers subs l ∧ (∀ c sub, subs !! c = Some sub → lw_subscribers l !! c = Some sub).

Lemma sent_enqueue (m : ServerMessage) out out' c :
  has_room out c = true → out_channels out' !! c = enqueue m <$> out_channels out !! c → sent out' c = sent out c ++ [m].
Proof. unfold has_room, sent. intros H ->. by destruct (out_channels out !! c). Qed.

Lemma sent_killed out out' c : out_channels out' !! c = killed <$> out_channels out !! c → sent out' c = sent out c.
Proof. unfold sent. intros ->. by destruct (out_channels out !! c). Qed.

Lemma sent_same out out' c : out_channels out' !! c = out_channels out !! c → sent out' c = sent out c.
Proof. unfold sent. by intros ->. Qed.

Lemma told_nothing db out out' c : sent out' c = sent out c → ∃ new, sent out' c = sent out c ++ new ∧ ∀ m, m ∈ new → may_hear db c m.
Proof. intros E. exists []. rewrite app_nil_r. split; [done|]. by intros m ?%elem_of_nil. Qed.

Lemma sent_to_delivered db l out chosen f res :
  owned l → sent_to l out chosen f res →
  (∀ c sub, lw_subscribers l !! c = Some sub → chosen c sub = true → may_hear db c (f (owner c))) → delivered db l out res.
Proof.
  intros Ho (subs & Es & H) Hm. split.
  - intros c. specialize (H c). destruct (lw_subscribers l !! c) as [sub|] eqn:El; [|destruct H; by apply told_nothing, sent_same].
    destruct (chosen c sub) eqn:Ec; [|destruct H; by apply told_nothing, sent_same].
    destruct (has_room out c) eqn:Er; destruct H as [_ H]; [|by apply told_nothing, sent_killed].
    destruct (Ho _ _ El) as [_ E]. rewrite E in H. exists [f (owner c)]. split; [by apply sent_enqueue|].
    intros m ->%list_elem_of_singleton. by apply (Hm c sub).
  - exists subs. split; [done|]. intros c sub Hc. specialize (H c). destruct (lw_subscribers l !! c) as [sub'|].
    + destruct (chosen c sub'); [destruct (has_room out c)|]; destruct H as [H _]; congruence.
    + destruct H as [H _]. congruence.
Qed.

Lemma broadcast_delivered db l out wavelet skip m :
  owned l → (∀ c w, may_access l (owner c) wavelet = true → about db m w → member db (owner c) w) →
  delivered db l out (broadcast l out wavelet skip m).
Proof.
  intros Ho Hm. eapply sent_to_delivered; [done|by apply broadcast_sent, owned_tx|].
  intros c sub Hc Hr. unfold may_receive in Hr. apply andb_true_iff in Hr as [_ Hr]. simpl in Hr.
  destruct (Ho _ _ Hc) as [_ E]. rewrite E in Hr. intros w Hw. by apply Hm.
Qed.

Lemma presence_delivered db l out wave :
  owned l → (∀ c, may_hear db c (Presence wave (presence_for l (owner c)))) → delivered db l out (broadcast_presence l out wave).
Proof. intros Ho Hm. eapply sent_to_delivered; [done|by apply broadcast_presence_sent, owned_tx|]. auto. Qed.

Lemma send_to_delivered db l out conn m : owned l → may_hear db conn m → delivered db l out (send_to l out conn m).
Proof.
  intros Ho Hm. assert (l = set_subscribers (lw_subscribers l) l) as Hl by by destruct l.
  assert (delivered db l out (l, out)) as Hsame by (split; [apply told_refl|by exists (lw_subscribers l)]).
  unfold send_to. destruct (lw_subscribers l !! conn) as [sub|] eqn:El; [|done].
  destruct (Ho _ _ El) as [Etx _]. rewrite Etx, try_send_spec. destruct (has_room out conn) eqn:Er.
  - split; [|by exists (lw_subscribers l)]. intros c. destruct (decide (c = conn)) as [->|Hne].
    + exists [m]. split; [|by intros x ->%list_elem_of_singleton]. apply sent_enqueue; [done|]. simpl. by rewrite lookup_alter_eq.
    + apply told_nothing, sent_same. simpl. by rewrite lookup_alter_ne.
  - destruct (disconnect_spec l out [conn] (owned_tx _ Ho)) as (subs & out' & -> & Hs & Hch). split; simpl.
    + intros c. apply told_nothing. specialize (Hch c). case_decide; [by apply sent_killed|by apply sent_same].
    + exists subs. split; [done|]. intros c sub' Hc. rewrite Hs in Hc. by case_decide.
Qed.

(** ** Critical sections *)

(** Storage is [db] for good and what was queued since [out0] is in order. *)
Record telling db out0 s : Prop := {
  te_db : c_db s = db;
  te_owned : owned (c_live s);
  te_members : members db (c_live s);
  te_told : told db out0 (c_out s);
}.

Definition tells db out0 {T} (m : CM T) : Prop := ∀ s, telling db out0 s → wp m (λ _ s', telling db out0 s') s.

(** [m] speaks of no other wavelet than [w]. *)
Definition only db (m : ServerMessage) (w : WaveletId) : Prop := ∀ w', about db m w' → w' = w.

Lemma delivered_wave db s res :
  delivered db (c_live s) (c_out s) res → owned (c_live s) →
  owned res.1 ∧ lw_wavelets res.1 = lw_wavelets (c_live s) ∧ told db (c_out s) res.2.
Proof.
  intros (Ht & subs & -> & Hs) Ho. split_and!; [|done..]. intros c sub Hc. by apply Ho, Hs.
Qed.

Lemma telling_delivered db out0 s l out :
  telling db out0 s → delivered db (c_live s) (c_out s) (l, out) → telling db out0 (with_wave_out l out s).
Proof.
  intros [Hd Ho Hm Ht] Hdel. destruct (delivered_wave _ _ _ Hdel Ho) as (H1 & H2 & H3). constructor; simpl in *.
  - done.
  - done.
  - by apply (members_wavelets _ (c_live s)).
  - by eapply told_trans.
Qed.

Lemma tells_broadcast db out0 wavelet skip m : only db m wavelet → tells db out0 (cm_broadcast wavelet skip m).
Proof.
  intros Hm s Hs. unfold wp, cm_broadcast. destruct (broadcast _ _ _ _ _) as [l out] eqn:E. simpl.
  apply telling_delivered; [done|]. rewrite <- E. apply broadcast_delivered; [apply Hs|].
  intros c w Hc ->%Hm. by eapply member_of; [apply Hs|].
Qed.

Lemma tells_send_to db out0 conn m : may_hear db conn m → tells db out0 (cm_send_to conn m).
Proof.
  intros Hm s Hs. unfold wp, cm_send_to. destruct (send_to _ _ _ _) as [l out] eqn:E. simpl.
  apply telling_delivered; [done|]. rewrite <- E. apply send_to_delivered; [apply Hs|done].
Qed.

Lemma tells_bind db out0 {T U} (m : CM T) (f : T → CM U) :
  tells db out0 m → (∀ t, tells db out0 (f t)) → tells db out0 (cm_bind m f).
Proof.
  intros Hm Hf s Hs. apply wp_bind. specialize (Hm s Hs). unfold wp in *. destruct (m s).1; [by apply Hf|done].
Qed.

Lemma tells_ret db out0 {T} (t : T) : tells db out0 (cm_ret (S := Crit) t).
Proof. by intros s. Qed.
Lemma tells_throw db out0 {T} e : tells db out0 (cm_throw (S := Crit) (T := T) e).
Proof. by intros s. Qed.
Lemma tells_schedule db out0 wave : tells db out0 (schedule_inbox_update wave).
Proof. intros s []. by constructor. Qed.

Lemma tells_each db out0 {A} (f : A → CM ()) xs : (∀ x, x ∈ xs → tells db out0 (f x)) → tells db out0 (cm_each f xs).
Proof.
  intros Hf. induction xs as [|x xs IH]; [apply tells_ret|].
  apply tells_bind; [apply Hf; by left|]. intros []. apply IH. intros y Hy. apply Hf. by right.
Qed.

Lemma conn_send_told db out conn m : (∀ w, ¬ about db m w) → told db out (conn_send m out conn).
Proof.
  intros Hm c. unfold conn_send. rewrite try_send_spec. destruct (has_room out conn) eqn:Er; destruct (decide (c = conn)) as [->|Hne].
  - exists [m]. split; [|intros x ->%list_elem_of_singleton w Hw; by destruct (Hm w)].
    apply sent_enqueue; [done|]. simpl. by rewrite lookup_alter_eq.
  - apply told_nothing, sent_same. simpl. by rewrite lookup_alter_ne.
  - apply told_nothing, sent_killed. simpl. by rewrite lookup_alter_eq.
  - apply told_nothing, sent_same. simpl. by rewrite lookup_alter_ne.
Qed.

Lemma tells_send_to_user db out0 user m : (∀ w, ¬ about db m w) → tells db out0 (cm_send_to_user user m).
Proof.
  intros Hm s [Hd Ho Hme Ht]. constructor; simpl; try done. eapply told_trans; [exact Ht|].
  unfold send_to_user. destruct (_ !! user) as [conns|]; [|apply told_refl]. generalize (c_out s). clear Ht.
  induction (elements conns) as [|c cs IH]; intros out; simpl; [apply told_refl|].
  eapply told_trans; [by apply conn_send_told|apply IH].
Qed.

(** ** The verdict on a section *)

Definition discreet s s' : Prop := told (c_db s') (c_out s) (c_out s') ∧ owned (c_live s').

Lemma discreet_telling db s s' : telling db (c_out s) s' → discreet s s'.
Proof. intros [<- Ho _ Ht]. done. Qed.

Lemma discreet_silent s s' :
  owned (c_live s) → c_out s' = c_out s → lw_subscribers (c_live s') = lw_subscribers (c_live s) → discreet s s'.
Proof. intros Ho E1 E2. split; [rewrite E1; apply told_refl|by apply (owned_subs (c_live s))]. Qed.

(** The state a section is in when it starts to send. *)
Lemma telling_start s s' :
  owned (c_live s) → c_out s' = c_out s → lw_subscribers (c_live s') = lw_subscribers (c_live s) →
  members (c_db s') (c_live s') → telling (c_db s') (c_out s) s'.
Proof.
  intros Ho E1 E2 Hm. constructor; [done|by apply (owned_subs (c_live s))|done|rewrite E1; apply told_refl].
Qed.

Lemma discreet_rest {T} (m : CM T) s s' :
  owned (c_live s) → c_out s' = c_out s → lw_subscribers (c_live s') = lw_subscribers (c_live s) →
  members (c_db s') (c_live s') → tells (c_db s') (c_out s) m → wp m (λ _ s', discreet s s') s'.
Proof.
  intros Ho E1 E2 Hm Ht. apply (wp_mono _ (λ _ s'', telling (c_db s') (c_out s) s'')); [intros _ s'' H; by eapply discreet_telling|].
  by apply Ht, telling_start.
Qed.

End audience.

Create HintDb tells.
#[export] Hint Resolve tells_ret tells_throw tells_schedule tells_bind : tells.
