(* ===== verification/Client.v ===== *)
(** * A client of the protocol ([crates/gal-server/src/e2e.rs], [TestClient])

    The state machine a client runs for each message it has open: the document as shown, the change on its way to the
    server, and what was typed meanwhile.  The repository's end-to-end client keeps it exactly as the browser's does. *)

From S2P Require Import Prelude Tables Strings Unicode Json Attributes Text Delta Model Protocol ServerDoc Snippet.

Section client.
Context `{J : Json}.

Record ClientDoc := mkClientDoc {
  cl_doc : Delta;
  cl_revision : N;
  cl_outstanding : option Delta;
  cl_buffer : option Delta;
}.

(** Without its socket. *)
Record TestClient := mkClient {
  tc_user : PublicUser;
  tc_docs : gmap BlipId ClientDoc;
  tc_presence : list PresenceEntry;
  tc_inbox : list WaveSummary;
  tc_op_counter : N;
}.

(** [connect_raw], then the greeting that [connect] waits for. *)
Definition connect_raw : TestClient := mkClient (mkPublicUser [] [] [] 0) ∅ [] [] 0.

Definition connect (welcome : ServerMessage) : option TestClient :=
  match welcome with
  | Welcome user inbox => Some (mkClient user (tc_docs connect_raw) (tc_presence connect_raw) inbox (tc_op_counter connect_raw))
  | _ => None
  end.

Definition on_docs (f : gmap BlipId ClientDoc → gmap BlipId ClientDoc) (c : TestClient) : TestClient :=
  mkClient (tc_user c) (f (tc_docs c)) (tc_presence c) (tc_inbox c) (tc_op_counter c).

Definition next_op_id (c : TestClient) : str * TestClient :=
  let counter := wadd (tc_op_counter c) 1 in
  (pu_id (tc_user c) ++ lit "-" ++ decimal counter,
   mkClient (tc_user c) (tc_docs c) (tc_presence c) (tc_inbox c) counter).

(** ** What arrives *)

Definition doc_of_view (blip : BlipView) : ClientDoc := mkClientDoc (bv_content blip) (bv_revision blip) None None.

(** [insert], and [entry(..).or_insert_with(..)]. *)
Definition insert_view (docs : gmap BlipId ClientDoc) (blip : BlipView) : gmap BlipId ClientDoc :=
  <[bv_id blip := doc_of_view blip]> docs.
Definition or_insert_view (docs : gmap BlipId ClientDoc) (blip : BlipView) : gmap BlipId ClientDoc :=
  match docs !! bv_id blip with Some _ => docs | None => insert_view docs blip end.

(** An op of somebody else. *)
Definition remote_op (state : ClientDoc) (revision : N) (delta : Delta) : ClientDoc :=
  match cl_outstanding state with
  | None => mkClientDoc (compose (cl_doc state) delta) revision None (cl_buffer state)
  | Some outstanding =>
      let new_outstanding := transform delta outstanding true in
      let rebased := transform outstanding delta false in
      let '(new_buffer, rebased) :=
        match cl_buffer state with
        | Some buffer => (Some (transform rebased buffer true), transform buffer rebased false)
        | None => (None, rebased)
        end in
      mkClientDoc (compose (cl_doc state) rebased) revision (Some new_outstanding) new_buffer
  end.

(** The op in flight is committed; what queued up behind it takes its place. *)
Definition acknowledged (state : ClientDoc) (revision : N) : ClientDoc :=
  mkClientDoc (cl_doc state) revision (cl_buffer state) None.

(** The op the caller must now send, if any. *)
Definition absorb (message : ServerMessage) (c : TestClient) : option ClientMessage * TestClient :=
  match message with
  | WaveState wave =>
      (None, on_docs (λ docs, foldl (λ docs w, foldl insert_view docs (wv_blips w)) docs (view_wavelets wave)) c)
  | CommentAdded _ _ blip | BlipAdded _ blip => (None, on_docs (λ docs, or_insert_view docs blip) c)
  | WaveletAdded _ wavelet => (None, on_docs (λ docs, foldl or_insert_view docs (wv_blips wavelet)) c)
  | SOp _ blip_id revision _ delta =>
      match tc_docs c !! blip_id with
      | None => (None, c)
      | Some state => (None, on_docs (<[blip_id := remote_op state revision delta]>) c)
      end
  | Presence _ users =>
      (None, mkClient (tc_user c) (tc_docs c) (tc_presence c ++ users) (tc_inbox c) (tc_op_counter c))
  | Ack _ blip_id revision _ _ =>
      match tc_docs c !! blip_id with
      | None => (None, c)
      | Some state =>
          let state := acknowledged state revision in
          let c := on_docs (<[blip_id := state]>) c in
          match cl_outstanding state with
          | None => (None, c)
          | Some delta =>
              let '(op_id, c) := next_op_id c in
              (Some (Submit blip_id (cl_revision state) delta (Some op_id)), c)
          end
      end
  | _ => (None, c)
  end.

(** ** What is typed *)

Definition typed_into (state : ClientDoc) (delta : Delta) : ClientDoc * option Delta :=
  let doc := compose (cl_doc state) delta in
  match cl_outstanding state with
  | None => (mkClientDoc doc (cl_revision state) (Some delta) (cl_buffer state), Some delta)
  | Some _ =>
      (mkClientDoc doc (cl_revision state) (cl_outstanding state)
         (Some match cl_buffer state with Some buffer => compose buffer delta | None => delta end), None)
  end.

(** [None] is the panic on a message that is not open. *)
Definition edit (blip_id : BlipId) (delta : Delta) (c : TestClient) : option (option ClientMessage * TestClient) :=
  match tc_docs c !! blip_id with
  | None => None
  | Some state =>
      let '(state, to_send) := typed_into state delta in
      let c := on_docs (<[blip_id := state]>) c in
      Some match to_send with
           | None => (None, c)
           | Some delta =>
               let '(op_id, c) := next_op_id c in
               (Some (Submit blip_id (cl_revision state) delta (Some op_id)), c)
           end
  end.

(** [in_flight] and [text]. *)
Definition in_flight (blip_id : BlipId) (c : TestClient) : bool :=
  match tc_docs c !! blip_id with
  | Some d => bool_decide (is_Some (cl_outstanding d)) || bool_decide (is_Some (cl_buffer d))
  | None => false
  end.

Definition client_text (blip_id : BlipId) (c : TestClient) : str :=
  match tc_docs c !! blip_id with Some d => to_plain_text (cl_doc d) | None => [] end.

End client.
