(* ===== verification/ClientTheory.v ===== *)
(** * What a client knows of the server's document

    A client is synced when the messages still on their way to it lead from the revision it shows to the server's
    content, its own change, rebased over them, is what the server will commit or has committed, and what it shows is
    its revision with its own changes on top.  Every step of the protocol keeps it so. *)

From S2P Require Import Prelude Json Attributes Text Delta DeltaSpec DeltaAlg DeltaPush DeltaCanon.
From S2P Require Import DeltaTotal DeltaIter DeltaLoops DeltaTransform DeltaTheory DeltaApply DeltaValidate.
From S2P Require Import ServerDoc ServerDocTheory DeltaSequence DocGuarantees.
From S2P Require Import Model Protocol Client.

Section sync.
Context `{J : Json}.
Implicit Types a b c d base : list Op.
Implicit Types h : list Revision.
Implicit Types sd : ServerDoc.
Implicit Types cd : ClientDoc.
Implicit Types n : N.

(** ** Changes of bounded size *)

(** A change of [d] that inserts at most [n] units. *)
Definition change n c d : Prop := nonempty c ∧ valid c d ∧ clean_mops (den c) ∧ (inserted c ≤ n)%N.

(** Far from the end of [usize]. *)
Definition roomy n : Prop := (64 * n < usize_max)%N.

Lemma change_mono n n' c d : (n ≤ n')%N → change n c d → change n' c d.
Proof. intros Hn (? & ? & ? & ?). split_and!; [done..|lia]. Qed.

Lemma change_total n c d : change n c d → (total c ≤ total d + n)%N.
Proof. intros (_ & Hv & _ & Hi). pose proof (valid_total c d Hv). lia. Qed.

Lemma change_good n c d : roomy n → (total d ≤ 4 * n)%N → change n c d → good_change c d.
Proof.
  intros Hs Hd Hc. pose proof (change_total _ _ _ Hc). destruct Hc as (? & ? & ? & _). unfold roomy in Hs.
  split_and!; [done..|lia].
Qed.

Lemma length_tsyms (l : list mop) : (length (tsyms l) ≤ nbase l + ninserts l)%nat.
Proof.
  induction l as [|m l IH]; [done|].
  assert (length (tsyms (m :: l)) ≤ S (length (tsyms l)))%nat as H
    by (destruct m; [exact (le_n _)|exact (le_n _)|exact (Nat.le_succ_diag_r _)]). destruct m; simpl; lia.
Qed.

Lemma change_longer n c d : roomy n → (total d ≤ 4 * n)%N → good_doc d → change n c d → (total (compose d c) ≤ total d + n)%N.
Proof.
  intros Hs Hd Hg Hc. pose proof (change_good _ _ _ Hs Hd Hc) as (Hn & Hv & _ & Ht). pose proof (good_nonempty d Hg).
  destruct Hg as (Hdo & _). destruct (compose_apply d c) as (E & _); [done..|lia|].
  assert (length (den (compose d c)) = length (tsyms (den c)) + (length (den d) - nbase (den c)))%nat as El.
  { rewrite E. apply length_mcompose; [by apply document_all_ins|]. destruct Hv as [_ Hv]. rewrite <- blen_nbase, length_den. lia. }
  pose proof (length_tsyms (den c)). destruct Hc as (_ & [_ Hl] & _ & Hi). unfold inserted in Hi.
  rewrite !length_den, <- blen_nbase in El. rewrite <- blen_nbase in H0. lia.
Qed.

Lemma change_doc n c d : roomy n → (total d ≤ 4 * n)%N → good_doc d → change n c d → good_doc (compose d c).
Proof. intros Hs Hd Hg Hc. by apply good_apply, (change_good n). Qed.

Lemma change_transform n a c d p :
  roomy n → (total d ≤ 4 * n)%N → good_doc d → change n a d → change n c d → change n (transform a c p) (compose d a).
Proof.
  intros Hs Hd Hg Ha Hc. pose proof (change_total _ _ _ Ha). pose proof (change_total _ _ _ Hc). unfold roomy in Hs.
  destruct Ha as (Hna & Hva & _), Hc as (Hnc & Hvc & Hcl & Hi). pose proof (good_nonempty d Hg). destruct Hg as (Hdo & _).
  split_and!.
  - apply transform_nonempty; [done..|lia].
  - apply transform_valid; [done..|lia|lia].
  - apply transform_clean; [done..|lia|done].
  - rewrite inserted_transform by (done || lia). done.
Qed.

Lemma change_diamond n a c d :
  roomy n → (total d ≤ 4 * n)%N → good_doc d → change n a d → change n c d →
  compose (compose d a) (transform a c true) = compose (compose d c) (transform c a false).
Proof.
  intros Hs Hd Hg Ha Hc. pose proof (change_total _ _ _ Ha). pose proof (change_total _ _ _ Hc). unfold roomy in Hs.
  apply doc_diamond; [done|by apply (change_good n)..|lia].
Qed.

Lemma change_compose n m a c d :
  roomy (n + m) → (total d ≤ 4 * n)%N → good_doc d → change n a d → change m c (compose d a) →
  change (n + m) (compose a c) d ∧ compose (compose d a) c = compose d (compose a c).
Proof.
  intros Hs Hd Hg Ha Hc. assert (roomy n) as Hsn by (unfold roomy in *; lia).
  pose proof (change_total _ _ _ Ha). pose proof (change_longer n a d Hsn Hd Hg Ha). pose proof (change_total _ _ _ Hc).
  unfold roomy in Hs. destruct Ha as (Hna & Hva & Hcla & Hia), Hc as (Hnc & Hvc & Hclc & Hic).
  pose proof (good_nonempty d Hg) as Hnd. pose proof Hg as (Hdo & _).
  assert (fits (tsyms (den a)) c) as Hf by (apply (valid_fits_change d); [done..|lia|done]).
  split; [|apply compose_assoc; [done..|lia]]. split_and!.
  - destruct (compose_den a c) as (Hch & _); [done..|lia|]. by apply chopped_nonempty.
  - apply compose_valid; [done..|lia|lia].
  - apply clean_compose; [done..|lia|done|done].
  - pose proof (inserted_compose a c Hna Hnc Hf ltac:(lia)). lia.
Qed.

(** ** Runs of committed changes *)

(** The documents along a run of committed changes, and the changes, are of bounded size. *)
Fixpoint light n h base : Prop :=
  (total base ≤ n)%N ∧
  match h with [] => True | r :: h => (inserted (rev_delta r) ≤ n)%N ∧ light n h (compose base (rev_delta r)) end.

Lemma light_mono n n' h base : (n ≤ n')%N → light n h base → light n' h base.
Proof.
  intros Hn. revert base. induction h as [|r h IH]; intros base; simpl; [intros [? _]; split; [lia|done]|].
  intros (? & ? & ?). split_and!; [lia|lia|by apply IH].
Qed.

Lemma light_base n h base : light n h base → (total base ≤ n)%N.
Proof. destruct h; by intros [? _]. Qed.

Lemma good_is_change n c d : good_change c d → (inserted c ≤ n)%N → change n c d.
Proof. by intros (? & ? & ? & _). Qed.

Lemma rebase_light n h base rev content a :
  roomy n → good_doc base → hist_ok h base rev content → light n h base → change n a base → change n (rebase h a) content.
Proof.
  intros Hs. revert base rev a. induction h as [|r h IH]; intros base rev a Hb Hh Hl Ha; simpl in *; [by subst|].
  destruct Hh as (_ & Hg & _ & Hh), Hl as (Hlb & Hi & Hl). pose proof (good_is_change n _ _ Hg Hi) as Hr.
  eapply IH; [by apply good_apply|done..|]. apply change_transform; [done|lia|done..].
Qed.

Lemma hist_light_snoc n h base rev content r :
  hist_ok h base rev content → light n h base → rev_revision r = (rev + N.of_nat (length h) + 1)%N →
  good_change (rev_delta r) content → rev_undo r = invert (rev_delta r) content →
  (inserted (rev_delta r) ≤ n)%N → (total (compose content (rev_delta r)) ≤ n)%N →
  hist_ok (h ++ [r]) base rev (compose content (rev_delta r)) ∧ light n (h ++ [r]) base.
Proof.
  intros Hh Hl Hr Hg Hu Hi Ht. split; [apply hist_app; exists content; split; [done|by split_and!]|].
  revert base rev Hh Hl Hr. induction h as [|q h IH]; intros base rev Hh Hl Hr; simpl in *.
  - subst. split_and!; try done. apply Hl.
  - destruct Hh as (_ & _ & _ & Hh), Hl as (? & ? & Hl). split_and!; [done..|]. eapply IH; [done..|lia].
Qed.

Lemma rebase_app h1 h2 a : rebase (h1 ++ h2) a = rebase h2 (rebase h1 a).
Proof. apply foldl_app. Qed.

(** ** The history a client has not heard yet *)

(** [entry] was committed to [sd], inserting at most [n] units. *)
Record commits n sd (entry : Revision) sd' : Prop := {
  cm_ok : doc_ok sd';
  cm_good : good_change (rev_delta entry) (doc_content sd);
  cm_undo : rev_undo entry = invert (rev_delta entry) (doc_content sd);
  cm_units : (inserted (rev_delta entry) ≤ n)%N;
  cm_entry : rev_revision entry = (doc_revision sd + 1)%N;
  cm_revision : doc_revision sd' = (doc_revision sd + 1)%N;
  cm_content : doc_content sd' = compose (doc_content sd) (rev_delta entry);
  cm_history : doc_history sd' = trim_history (doc_history sd ++ [entry]);
}.

Lemma history_since_now sd : doc_ok sd → history_since sd (doc_revision sd) = [].
Proof.
  intros (base & rev & _ & Hh & Hr & _). unfold history_since. rewrite (history_since_drop _ _ _ _ _ Hh) by lia.
  apply drop_ge. lia.
Qed.

Lemma committed_history n sd entry sd' r :
  doc_ok sd → commits n sd entry sd' → (oldest_retained sd' ≤ r ≤ doc_revision sd)%N →
  (oldest_retained sd ≤ r)%N ∧ history_since sd' r = history_since sd r ++ [entry].
Proof.
  intros (base & rev & _ & Hh & Hr & _) [(base' & rev' & _ & Hh' & Hr' & _) _ _ _ _ Hrev _ Htrim] Hle.
  rewrite (oldest_retained_base _ _ _ Hh' Hr') in Hle. rewrite (oldest_retained_base _ _ _ Hh Hr).
  set (k := (length (doc_history sd ++ [entry]) - MAX_HISTORY)%nat).
  assert (doc_history sd' = drop k (doc_history sd ++ [entry])) as E by done.
  assert (length (doc_history sd') = length (doc_history sd) + 1 - k)%nat as El by (rewrite E, length_drop, length_app; done).
  assert (k ≤ length (doc_history sd) + 1)%nat by (unfold k; rewrite length_app; simpl; lia).
  split; [lia|]. unfold history_since. rewrite (history_since_drop _ _ _ _ _ Hh'), (history_since_drop _ _ _ _ _ Hh) by lia.
  rewrite E, drop_drop. rewrite drop_app_le by lia. do 2 f_equal. lia.
Qed.

(** [h] is what was committed after revision [rev], as far back as the server remembers. *)
Definition remembers sd (rev : N) h : Prop :=
  ∀ r, (rev ≤ r ≤ doc_revision sd)%N → (oldest_retained sd ≤ r)%N → history_since sd r = drop (N.to_nat (r - rev)) h.

Lemma remembers_now sd : doc_ok sd → remembers sd (doc_revision sd) [].
Proof. intros Hok r Hr _. replace r with (doc_revision sd) by lia. by rewrite drop_nil, history_since_now. Qed.

Lemma remembers_next sd rev r h : remembers sd rev (r :: h) → remembers sd (rev + 1) h.
Proof.
  intros H k Hk Ho. rewrite H by lia. by replace (N.to_nat (k - rev)) with (S (N.to_nat (k - (rev + 1)))) by lia.
Qed.

Lemma remembers_commit n sd entry sd' rev h :
  doc_ok sd → commits n sd entry sd' → doc_revision sd = (rev + N.of_nat (length h))%N →
  remembers sd rev h → remembers sd' rev (h ++ [entry]).
Proof.
  intros Hok Hc Hr Ha r Hle Ho. destruct (decide (r ≤ doc_revision sd)%N) as [Hd|Hd].
  - destruct (committed_history _ _ _ _ r Hok Hc) as [Ho' ->]; [lia|]. rewrite Ha by lia. by rewrite drop_app_le by lia.
  - destruct Hc as [Hok' _ _ _ _ Hrev _ _]. replace r with (doc_revision sd') in * by lia.
    rewrite history_since_now by done. symmetry. apply drop_ge. rewrite length_app. simpl. lia.
Qed.

(** ** The invariant *)

(** The client shows [base] with its own changes on top. *)
Definition pending n cd base : Prop :=
  match cl_outstanding cd with
  | None => cl_buffer cd = None ∧ cl_doc cd = base
  | Some a =>
      change n a base ∧
      match cl_buffer cd with
      | None => cl_doc cd = compose base a
      | Some b => change n b (compose base a) ∧ cl_doc cd = compose (compose base a) b
      end
  end.

(** What the client has not heard yet, its own commits marked. *)
Abbreviation News := (list (bool * Revision)).

Definition others (xs : News) : Prop := Forall (λ x, x.1 = false) xs.

(** Where the op in flight is: nowhere, on its way up, or committed. *)
Definition in_transit sd cd (up : option (N * Delta)) (xs : News) : Prop :=
  match cl_outstanding cd, up with
  | None, None => others xs
  | None, Some _ => False
  | Some a, Some (s, sent) =>
      others xs ∧ (s ≤ cl_revision cd)%N ∧
      ∃ heard, a = rebase heard sent ∧ ((oldest_retained sd ≤ s)%N → history_since sd s = heard ++ xs.*2)
  | Some a, None =>
      ∃ before entry after, xs = before ++ (true, entry) :: after ∧ others before ∧ others after ∧
        rev_delta entry = rebase (before.*2) a
  end.

Definition synced n sd cd (up : option (N * Delta)) (xs : News) : Prop :=
  ∃ base, good_doc base ∧ hist_ok xs.*2 base (cl_revision cd) (doc_content sd) ∧ light n xs.*2 base ∧
    doc_revision sd = (cl_revision cd + N.of_nat (length xs))%N ∧ remembers sd (cl_revision cd) xs.*2 ∧
    pending n cd base ∧ in_transit sd cd up xs.

Lemma pending_mono n n' cd base : (n ≤ n')%N → pending n cd base → pending n' cd base.
Proof.
  unfold pending. intros Hn. destruct (cl_outstanding cd); [|done]. intros [Ha Hb]. split; [by apply (change_mono n)|].
  destruct (cl_buffer cd); [|done]. destruct Hb. split; [by apply (change_mono n)|done].
Qed.

Lemma synced_joins n sd :
  doc_ok sd → (total (doc_content sd) ≤ n)%N → synced n sd (mkClientDoc (doc_content sd) (doc_revision sd) None None) None [].
Proof.
  intros Hok Ht. exists (doc_content sd). split_and!; try done; [by apply doc_ok_good|cbn; lia|by apply remembers_now|constructor].
Qed.

(** Everything delivered, nothing in flight: the client has the server's document. *)
Lemma synced_settled n sd cd :
  synced n sd cd None [] → cd = mkClientDoc (doc_content sd) (doc_revision sd) None None.
Proof.
  intros (base & _ & Hh & _ & Hr & _ & Hp & Ht). unfold pending, in_transit in *. cbn in *.
  destruct cd as [d r [a|] b]; cbn in *.
  - destruct Ht as (before & entry & after & E & _). by destruct before.
  - destruct Hp as [-> ->]. subst. f_equal. lia.
Qed.

Lemma synced_idle n sd cd up :
  synced n sd cd up [] → cl_outstanding cd = None → cd = mkClientDoc (doc_content sd) (doc_revision sd) None None.
Proof.
  intros Hs E. destruct up as [u|]; [|by eapply synced_settled].
  destruct Hs as (base & _ & _ & _ & _ & _ & _ & Ht). unfold in_transit in Ht. by rewrite E in Ht.
Qed.

(** ** The server commits *)

Lemma light_last n h base rev content : light n h base → hist_ok h base rev content → (total content ≤ n)%N.
Proof.
  revert base rev. induction h as [|r h IH]; intros base rev; simpl; [by intros [? _] <-|].
  intros (_ & _ & Hl) (_ & _ & _ & Hh). by eapply IH.
Qed.

Lemma news_grow n n' sd entry sd' rev base (xs : News) own :
  (n ≤ n')%N → commits n sd entry sd' → (total (doc_content sd') ≤ n')%N →
  hist_ok xs.*2 base rev (doc_content sd) → light n xs.*2 base → doc_revision sd = (rev + N.of_nat (length xs))%N →
  hist_ok (xs ++ [(own, entry)]).*2 base rev (doc_content sd') ∧ light n' (xs ++ [(own, entry)]).*2 base.
Proof.
  intros Hn [_ Hg Hu Hi He _ Hc _] Ht Hh Hl Hr. rewrite fmap_app. cbn. rewrite Hc in *.
  apply hist_light_snoc; try done; [by apply (light_mono n)|rewrite length_fmap; lia|lia].
Qed.

(** Somebody else's change. *)
Lemma synced_other n n' sd entry sd' cd up xs :
  doc_ok sd → (n ≤ n')%N → commits n sd entry sd' → (total (doc_content sd') ≤ n')%N →
  synced n sd cd up xs → synced n' sd' cd up (xs ++ [(false, entry)]).
Proof.
  intros Hok Hn Hc Ht (base & Hb & Hh & Hl & Hr & Ha & Hp & Htr). exists base.
  destruct (news_grow n n' sd entry sd' (cl_revision cd) base xs false) as [Hh' Hl']; [done..|].
  pose proof (cm_revision _ _ _ _ Hc) as Hr'. split_and!; [done..| | |by apply (pending_mono n)|].
  - rewrite length_app. simpl. lia.
  - rewrite fmap_app. eapply remembers_commit; [done..|by rewrite length_fmap|done].
  - unfold in_transit in *. assert (others [(false, entry)]) as Ho by by constructor.
    destruct (cl_outstanding cd) as [a|], up as [[s sent]|].
    + destruct Htr as (Hx & Hs & heard & E & Hsince). split_and!; [by apply Forall_app|done|]. exists heard. split; [done|].
      intros Hold. destruct (committed_history _ _ _ _ s Hok Hc) as [Hold' ->]; [lia|]. by rewrite Hsince, fmap_app, app_assoc.
    + destruct Htr as (before & e & after & -> & H1 & H2 & E). exists before, e, (after ++ [(false, entry)]).
      split_and!; [by rewrite <- app_assoc|done|by apply Forall_app|done].
    + done.
    + by apply Forall_app.
Qed.

(** A change is accepted unless the server has forgotten the revision it was written at, and is then what the client
    has in flight, carried over everything the client has not heard yet. *)
Lemma synced_accepted n sd cd s sent xs author :
  doc_ok sd → roomy n → (doc_revision sd < usize_max)%N → synced n sd cd (Some (s, sent)) xs →
  (oldest_retained sd ≤ s)%N →
  ∃ a entry sd', cl_outstanding cd = Some a ∧ apply sd s sent author = Ok (entry, sd') ∧ commits n sd entry sd' ∧
    rev_delta entry = rebase xs.*2 a.
Proof.
  intros Hok Hs Hmax (base & Hb & Hh & Hl & Hr & _ & Hp & Ht) Hold. unfold pending, in_transit in *.
  destruct (cl_outstanding cd) as [a|]; [|done]. destruct Hp as [Hca _]. destruct Ht as (_ & Hsr & heard & Ea & Hsince).
  assert (rebase (history_since sd s) sent = rebase xs.*2 a) as Er by (by rewrite Hsince, rebase_app, <- Ea).
  pose proof (rebase_light n _ _ _ _ a Hs Hb Hh Hl Hca) as Hc. pose proof (light_last _ _ _ _ _ Hl Hh) as Ht.
  pose proof (change_good n (rebase xs.*2 a) (doc_content sd) Hs ltac:(lia) Hc) as Hg. pose proof (commit_ok sd (rebase xs.*2 a) author Hok Hg Hmax) as Hok'.
  exists a. eexists _, _. split; [done|]. split.
  { unfold apply. rewrite (proj2 (N.ltb_ge _ _)) by lia. rewrite (proj2 (N.ltb_ge s _)) by lia. rewrite Er.
    rewrite (proj2 (validate_valid _ _ (proj1 (doc_ok_good _ Hok)))) by apply Hg. simpl. reflexivity. }
  split; [|done]. constructor; cbn; [done|done|done|apply Hc|by apply wadd_small; lia|by apply wadd_small; lia|done..].
Qed.

Lemma synced_own n n' sd entry sd' cd s sent xs :
  doc_ok sd → (n ≤ n')%N → commits n sd entry sd' → (total (doc_content sd') ≤ n')%N →
  (∀ a, cl_outstanding cd = Some a → rev_delta entry = rebase xs.*2 a) →
  synced n sd cd (Some (s, sent)) xs → synced n' sd' cd None (xs ++ [(true, entry)]).
Proof.
  intros Hok Hn Hc Ht Hown (base & Hb & Hh & Hl & Hr & Ha & Hp & Htr). exists base.
  destruct (news_grow n n' sd entry sd' (cl_revision cd) base xs true) as [Hh' Hl']; [done..|].
  pose proof (cm_revision _ _ _ _ Hc) as Hr'. split_and!; [done..| | |by apply (pending_mono n)|].
  - rewrite length_app. simpl. lia.
  - rewrite fmap_app. eapply remembers_commit; [done..|by rewrite length_fmap|done].
  - unfold in_transit in *. destruct (cl_outstanding cd) as [a|]; [|done]. destruct Htr as (Hx & _).
    exists xs, entry, []. split_and!; [done|done|constructor|by apply Hown].
Qed.

(** ** The client hears *)

Lemma heard_base n r h base rev content :
  good_doc base → hist_ok (r :: h) base rev content → light n (r :: h) base →
  good_doc (compose base (rev_delta r)) ∧ change n (rev_delta r) base ∧ (total base ≤ n)%N ∧ rev_revision r = (rev + 1)%N ∧
  hist_ok h (compose base (rev_delta r)) (rev + 1) content ∧ light n h (compose base (rev_delta r)).
Proof.
  intros Hb (Hr & Hg & _ & Hh) (Ht & Hi & Hl). split_and!; try done; [by apply good_apply|by apply good_is_change].
Qed.

(** The diamond, twice: under the change in flight, then under what is queued behind it. *)
Lemma pending_remote n cd base rev delta :
  roomy n → good_doc base → (total base ≤ n)%N → change n delta base → pending n cd base →
  pending n (remote_op cd rev delta) (compose base delta).
Proof.
  intros Hs Hb Ht Hd Hp. unfold pending, remote_op in *. destruct (cl_outstanding cd) as [a|]; cbn; [|by destruct Hp as [-> ->]].
  destruct Hp as [Ha Hp]. pose proof (change_longer n a base Hs ltac:(lia) Hb Ha) as Hla.
  pose proof (change_doc n a base Hs ltac:(lia) Hb Ha) as Hda.
  pose proof (change_transform n a delta base false Hs ltac:(lia) Hb Ha Hd) as Hr.
  pose proof (change_diamond n delta a base Hs ltac:(lia) Hb Hd Ha) as Hdia.
  destruct (cl_buffer cd) as [b|]; cbn.
  - destruct Hp as [Hcb ->]. split; [apply change_transform; [done|lia|done..]|]. rewrite Hdia.
    split; [apply change_transform; [done|lia|done..]|]. symmetry. apply (change_diamond n); [done|lia|done..].
  - split; [apply change_transform; [done|lia|done..]|]. by rewrite Hp.
Qed.

Lemma synced_hears_op n sd cd up entry xs :
  roomy n → synced n sd cd up ((false, entry) :: xs) →
  synced n sd (remote_op cd (rev_revision entry) (rev_delta entry)) up xs.
Proof.
  intros Hs (base & Hb & Hh & Hl & Hr & Ha & Hp & Ht). cbn [fmap list_fmap snd] in *.
  destruct (heard_base n entry _ base _ _ Hb Hh Hl) as (Hb' & Hc & Htb & Er & Hh' & Hl').
  assert (cl_revision (remote_op cd (rev_revision entry) (rev_delta entry)) = (cl_revision cd + 1)%N) as Erev.
  { unfold remote_op. destruct (cl_outstanding cd); [|done]. by destruct (cl_buffer cd). }
  exists (compose base (rev_delta entry)). rewrite Erev.
  split_and!; [done..|cbn in Hr; lia|by eapply remembers_next|by apply pending_remote|].
  unfold in_transit in *. unfold remote_op. rewrite Er. destruct (cl_outstanding cd) as [a|]; cbn.
  - assert (∀ x y : option Delta * Delta, True) as _ by done.
    destruct (cl_buffer cd) as [b|]; cbn; destruct up as [[s sent]|].
    1, 3: destruct Ht as ([_ Hx]%list.Forall_cons & Hsr & heard & Ea & Hsince); split_and!; [done|lia|];
      exists (heard ++ [entry]); split; [by rewrite rebase_app, <- Ea|intros Ho; by rewrite Hsince, <- app_assoc].
    all: destruct Ht as (before & e & after & E & H1 & H2 & Ee); destruct before as [|x before]; [done|];
      injection E as <- ->; apply list.Forall_cons in H1 as [_ H1]; by exists before, e, after.
  - destruct up; [done|]. by apply list.Forall_cons in Ht as [_ Ht].
Qed.

(** The acknowledgement of its own change; what queued up behind it goes on the wire. *)
Lemma synced_hears_ack n sd cd up entry xs :
  roomy n → synced n sd cd up ((true, entry) :: xs) →
  up = None ∧ let cd' := acknowledged cd (rev_revision entry) in
  synced n sd cd' ((λ delta, (cl_revision cd', delta)) <$> cl_outstanding cd') xs.
Proof.
  intros Hs (base & Hb & Hh & Hl & Hr & Ha & Hp & Ht). cbn [fmap list_fmap snd] in *.
  destruct (heard_base n entry _ base _ _ Hb Hh Hl) as (Hb' & Hc & Htb & Er & Hh' & Hl').
  unfold in_transit, pending in *. destruct (cl_outstanding cd) as [a|] eqn:Ea.
  2: { destruct up; [done|]. by apply list.Forall_cons in Ht as [? _]. }
  destruct up as [[s sent]|]; [by destruct Ht as ([? _]%list.Forall_cons & _)|].
  destruct Ht as (before & e & after & E & H1 & H2 & Ee). destruct before as [|x before].
  2: { injection E as <- _. by apply list.Forall_cons in H1 as [? _]. }
  injection E as -> ->. cbn in Ee. subst a. destruct Hp as [_ Hp]. split; [done|]. cbn zeta.
  exists (compose base (rev_delta e)). unfold acknowledged. cbn. rewrite Er.
  pose proof (remembers_next _ _ _ _ Ha) as Ha'.
  split_and!; [done|done|done|cbn in Hr; lia|done|..]; unfold pending, in_transit; cbn; destruct (cl_buffer cd) as [b|]; cbn; try done.
  split_and!; [done|lia|]. exists []. split; [done|]. intros Ho.
  rewrite (Ha' (cl_revision cd + 1)%N ltac:(cbn in Hr; lia) Ho). by rewrite N.sub_diag.
Qed.

(** ** The client types *)

Lemma synced_types n m sd cd up xs delta :
  roomy (n + m) → change m delta (cl_doc cd) → synced n sd cd up xs →
  let '(cd', send) := typed_into cd delta in
  match send with
  | Some delta => up = None ∧ synced (n + m) sd cd' (Some (cl_revision cd', delta)) xs
  | None => synced (n + m) sd cd' up xs
  end.
Proof.
  intros Hs Hd (base & Hb & Hh & Hl & Hr & Ha & Hp & Ht). assert (roomy n) as Hsn by (unfold roomy in *; lia).
  pose proof (light_base _ _ _ Hl) as Htb. assert (light (n + m) xs.*2 base) as Hl' by (eapply light_mono; [|done]; lia).
  assert (∀ c d, change n c d → change (n + m) c d) as Hmono by (intros c d; apply change_mono; lia).
  assert (∀ c d, change m c d → change (n + m) c d) as Hmono' by (intros c d; apply change_mono; lia).
  unfold typed_into, in_transit, pending in *. destruct (cl_outstanding cd) as [a|] eqn:Ea; cbn.
  - destruct Hp as [Hca Hp]. exists base. split_and!; try done.
    unfold pending. cbn. split; [by apply Hmono|]. pose proof (change_longer n a base Hsn ltac:(lia) Hb Hca).
      pose proof (change_doc n a base Hsn ltac:(lia) Hb Hca). destruct (cl_buffer cd) as [b|].
    + destruct Hp as [Hcb Ed]. rewrite Ed in *. apply (change_compose n m b delta); [done|lia|done..].
    + rewrite Hp in *. split; [by apply Hmono'|done].
  - destruct up; [done|]. destruct Hp as [Hbuf Ed]. split; [done|]. exists base. rewrite Hbuf, Ed in *. split_and!; try done.
    + unfold pending. cbn. split; [by apply Hmono'|done].
    + unfold in_transit. cbn. split_and!; [done|lia|]. exists []. split; [done|]. intros Ho.
      rewrite Ha by (done || lia). by rewrite N.sub_diag.
Qed.

(** ** What changes nothing *)

Lemma synced_mono n n' sd cd up xs : (n ≤ n')%N → synced n sd cd up xs → synced n' sd cd up xs.
Proof.
  intros Hn (base & ? & ? & ? & ? & ? & ? & ?). exists base.
  split_and!; [done|done|by apply (light_mono n)|done|done|by apply (pending_mono n)|done].
Qed.

(** A commit that was taken back: the history may have lost its oldest changes. *)
Lemma shorter_history sd sd' k r :
  doc_ok sd → doc_ok sd' → doc_revision sd' = doc_revision sd → doc_history sd' = drop k (doc_history sd) →
  (oldest_retained sd' ≤ r ≤ doc_revision sd)%N → (oldest_retained sd ≤ r)%N ∧ history_since sd' r = history_since sd r.
Proof.
  intros (base & rev & _ & Hh & Hr & _) (base' & rev' & _ & Hh' & Hr' & _) E1 E2 Hle.
  rewrite (oldest_retained_base _ _ _ Hh' Hr') in Hle. rewrite (oldest_retained_base _ _ _ Hh Hr).
  assert (length (doc_history sd') = length (doc_history sd) - k)%nat as El by (by rewrite E2, length_drop).
  split; [lia|]. unfold history_since. rewrite (history_since_drop _ _ _ _ _ Hh'), (history_since_drop _ _ _ _ _ Hh) by lia.
  rewrite E2, drop_drop. destruct (decide (k ≤ length (doc_history sd))%nat).
  - f_equal. lia.
  - rewrite !drop_ge by lia. done.
Qed.

Lemma synced_same n sd sd' cd up xs :
  doc_ok sd → doc_ok sd' → doc_content sd' = doc_content sd → doc_revision sd' = doc_revision sd →
  (∃ k, doc_history sd' = drop k (doc_history sd)) → synced n sd cd up xs → synced n sd' cd up xs.
Proof.
  intros Hok Hok' E1 E2 [k E3] (base & Hb & Hh & Hl & Hr & Ha & Hp & Ht). exists base. rewrite E1, E2.
  split_and!; try done.
  - intros r Hle Ho. rewrite E2 in Hle. destruct (shorter_history sd sd' k r Hok Hok' E2 E3) as [Ho' ->]; [lia|]. by apply Ha.
  - unfold in_transit in *. destruct (cl_outstanding cd), up as [[s sent]|]; try done.
    destruct Ht as (? & Hs & heard & E & Hsince). split_and!; [done..|]. exists heard. split; [done|]. intros Ho.
    destruct (shorter_history sd sd' k s Hok Hok' E2 E3) as [Ho' ->]; [lia|]. by apply Hsince.
Qed.

Lemma synced_doc_good n sd cd up xs : roomy n → synced n sd cd up xs → good_doc (cl_doc cd).
Proof.
  intros Hs (base & Hb & _ & Hl & _ & _ & Hp & _). pose proof (light_base _ _ _ Hl). unfold pending in Hp.
  destruct (cl_outstanding cd) as [a|]; [|by destruct Hp as [_ ->]]. destruct Hp as [Ha Hp].
  pose proof (change_longer n a base Hs ltac:(lia) Hb Ha). pose proof (change_doc n a base Hs ltac:(lia) Hb Ha).
  destruct (cl_buffer cd) as [b|]; [|by rewrite Hp]. destruct Hp as [Hcb ->]. by apply (change_doc n); [|lia|..].
Qed.

(** ** Messages *)

(** The messages of the wave that [m] shows or changes. *)
Definition names (m : ServerMessage) : list BlipId :=
  match m with
  | SOp _ b _ _ _ | Ack _ b _ _ _ => [b]
  | WaveState v => view_wavelets v ≫= λ w, bv_id <$> wv_blips w
  | BlipAdded _ b | CommentAdded _ _ b => [bv_id b]
  | WaveletAdded _ w => bv_id <$> wv_blips w
  | _ => []
  end.

(** A client that has the message open acts on [m]. *)
Definition concerns (blip : BlipId) (m : ServerMessage) : Prop :=
  match m with SOp _ _ _ _ _ | Ack _ _ _ _ _ | WaveState _ => blip ∈ names m | _ => False end.

#[global] Instance concerns_dec blip m : Decision (concerns blip m).
Proof. unfold concerns. destruct m; apply _. Defined.

Lemma concerns_names blip m : concerns blip m → blip ∈ names m.
Proof. by destruct m. Qed.

(** [m] is how the client is told of the commit [x]. *)
Definition tells (blip : BlipId) (m : ServerMessage) (x : bool * Revision) : Prop :=
  match m with
  | SOp _ b r _ delta => b = blip ∧ x.1 = false ∧ r = rev_revision x.2 ∧ delta = rev_delta x.2
  | Ack _ b r _ _ => b = blip ∧ x.1 = true ∧ r = rev_revision x.2
  | _ => False
  end.

Definition submits (blip : BlipId) (m : ClientMessage) : option (N * Delta) :=
  match m with Submit b r delta _ => if decide (b = blip) then Some (r, delta) else None | _ => None end.

(** The submissions of [blip] on their way up: at most one. *)
Definition on_its_way (blip : BlipId) (up : list ClientMessage) (o : option (N * Delta)) : Prop :=
  omap (submits blip) up = match o with Some x => [x] | None => [] end.

(** What is queued tells of these commits, one by one. *)
Definition news_in (blip : BlipId) (down : list ServerMessage) (xs : News) : Prop :=
  Forall2 (tells blip) (filter (concerns blip) down) xs.

(** The client has the message open, and the queues say the rest. *)
Definition follows n sd (blip : BlipId) (client : TestClient) (up : list ClientMessage) (down : list ServerMessage) : Prop :=
  ∃ cd xs o, tc_docs client !! blip = Some cd ∧ news_in blip down xs ∧ on_its_way blip up o ∧ synced n sd cd o xs.

(** [m] opens the message in a client that does not have it. *)
Definition brings (blip : BlipId) (m : ServerMessage) (cd : ClientDoc) : Prop :=
  ∀ client, tc_docs client !! blip = None → tc_docs (absorb m client).2 !! blip = Some cd ∧ (absorb m client).1 = None.

(** What opens the message is queued, with nothing about it before. *)
Definition awaits n sd (blip : BlipId) (client : TestClient) (up : list ClientMessage) (down : list ServerMessage) : Prop :=
  tc_docs client !! blip = None ∧ on_its_way blip up None ∧
  ∃ before m rest cd xs, down = before ++ m :: rest ∧ Forall (λ m, blip ∉ names m) before ∧ brings blip m cd ∧
    news_in blip rest xs ∧ synced n sd cd None xs.

Definition attends n sd (blip : BlipId) (client : TestClient) (up : list ClientMessage) (down : list ServerMessage) : Prop :=
  follows n sd blip client up down ∨ awaits n sd blip client up down.

Lemma news_app blip down down' xs xs' : news_in blip down xs → news_in blip down' xs' → news_in blip (down ++ down') (xs ++ xs').
Proof. unfold news_in. rewrite list.filter_app. apply Forall2_app. Qed.

Lemma no_news blip down : Forall (λ m, ¬ concerns blip m) down → news_in blip down [].
Proof.
  unfold news_in. intros H. assert (filter (concerns blip) down = []) as ->; [|constructor].
  induction H as [|m down Hm _ IH]; [done|]. by rewrite filter_cons_False.
Qed.

Lemma one_news blip m x : tells blip m x → news_in blip [m] [x].
Proof.
  intros H. unfold news_in. rewrite filter_cons_True; [by repeat constructor|].
  destruct m; try done; destruct H as [-> _]; by apply list_elem_of_singleton.
Qed.

Lemma on_its_way_app blip up m o : on_its_way blip up o → submits blip m = None → on_its_way blip (up ++ [m]) o.
Proof. unfold on_its_way. intros E Hm. rewrite omap_app, E. cbn. rewrite Hm. by rewrite app_nil_r. Qed.

Lemma on_its_way_new blip up r delta op : on_its_way blip up None → on_its_way blip (up ++ [Submit blip r delta op]) (Some (r, delta)).
Proof. unfold on_its_way. intros E. rewrite omap_app, E. cbn. by rewrite decide_True. Qed.

(** ** What a message does to a client *)

Lemma learns_keeps blip bs docs cd : docs !! blip = Some cd → foldl or_insert_view docs bs !! blip = Some cd.
Proof.
  revert docs. induction bs as [|b bs IH]; intros docs Hb; [done|]. cbn. apply IH. unfold or_insert_view, insert_view.
  destruct (docs !! bv_id b) eqn:E; [done|]. rewrite lookup_insert_ne; [done|]. congruence.
Qed.

Lemma views_elsewhere blip bs docs : blip ∉ bv_id <$> bs → foldl insert_view docs bs !! blip = docs !! blip.
Proof.
  revert docs. induction bs as [|b bs IH]; intros docs Hb; [done|]. cbn in *. apply not_elem_of_cons in Hb as [Hne Hb].
  rewrite IH by done. unfold insert_view. by rewrite lookup_insert_ne.
Qed.

Lemma learns_elsewhere blip bs docs : blip ∉ bv_id <$> bs → foldl or_insert_view docs bs !! blip = docs !! blip.
Proof.
  revert docs. induction bs as [|b bs IH]; intros docs Hb; [done|]. cbn in *. apply not_elem_of_cons in Hb as [Hne Hb].
  rewrite IH by done. unfold or_insert_view, insert_view. destruct (docs !! bv_id b); [done|]. by rewrite lookup_insert_ne.
Qed.

Lemma snapshot_elsewhere blip ws docs :
  blip ∉ (ws ≫= λ w, bv_id <$> wv_blips w) → foldl (λ docs w, foldl insert_view docs (wv_blips w)) docs ws !! blip = docs !! blip.
Proof.
  revert docs. induction ws as [|w ws IH]; intros docs Hb; [done|]. rewrite bind_cons in Hb. apply not_elem_of_app in Hb as [H1 H2].
  cbn. rewrite IH by done. by apply views_elsewhere.
Qed.

Lemma absorb_op w blip r author delta client cd :
  tc_docs client !! blip = Some cd →
  absorb (SOp w blip r author delta) client = (None, on_docs (<[blip := remote_op cd r delta]>) client).
Proof. intros H. cbn [absorb]. by rewrite H. Qed.

Lemma absorb_ack w blip r delta op client cd :
  tc_docs client !! blip = Some cd →
  tc_docs (absorb (Ack w blip r delta op) client).2 = <[blip := acknowledged cd r]> (tc_docs client) ∧
  match cl_outstanding (acknowledged cd r) with
  | Some a => ∃ id, (absorb (Ack w blip r delta op) client).1 = Some (Submit blip r a (Some id))
  | None => (absorb (Ack w blip r delta op) client).1 = None
  end.
Proof.
  intros H. cbn [absorb]. rewrite H. destruct (cl_outstanding (acknowledged cd r)) as [a|] eqn:E; [|done].
  split; [done|]. by eexists.
Qed.

(** A message about something else. *)
Lemma absorb_elsewhere blip m client :
  blip ∉ names m → tc_docs (absorb m client).2 !! blip = tc_docs client !! blip ∧
  ((absorb m client).1 = None ∨ ∃ x, (absorb m client).1 = Some x ∧ submits blip x = None).
Proof.
  intros Hn. destruct m; try (split; [done|by left]).
  - split; [|by left]. by apply snapshot_elsewhere.
  - cbn in Hn. apply not_elem_of_cons in Hn as [Hne _].
    destruct (tc_docs client !! blip_id) as [st|] eqn:E; [rewrite (absorb_op _ _ _ _ _ _ _ E)|cbn [absorb]; rewrite E];
      (split; [|by left]); [|done]. cbn. by rewrite lookup_insert_ne.
  - cbn in Hn. apply not_elem_of_cons in Hn as [Hne _].
    destruct (tc_docs client !! blip_id) as [st|] eqn:E; [|cbn [absorb]; rewrite E; by eauto].
    destruct (absorb_ack wave_id blip_id revision delta op_id client st E) as [-> Ho]. rewrite lookup_insert_ne by done.
    split; [done|]. destruct (cl_outstanding _); [|by left]. destruct Ho as [id ->]. right. eexists. split; [done|].
    cbn. by rewrite decide_False.
  - split; [|by left]. by apply (learns_elsewhere blip [blip0]).
  - split; [|by left]. by apply (learns_elsewhere blip [blip0]).
  - split; [|by left]. by apply learns_elsewhere.
Qed.

(** A message it need not act on. *)
Lemma absorb_other blip m client cd :
  ¬ concerns blip m → tc_docs client !! blip = Some cd →
  tc_docs (absorb m client).2 !! blip = Some cd ∧
  ((absorb m client).1 = None ∨ ∃ x, (absorb m client).1 = Some x ∧ submits blip x = None).
Proof.
  intros Hc Hcd. destruct (decide (blip ∈ names m)) as [Hn|Hn]; [|by rewrite <- Hcd; apply absorb_elsewhere].
  destruct m; try (by destruct Hc); (split; [|by left]); try done.
  - by apply (learns_keeps blip [blip0]).
  - by apply (learns_keeps blip [blip0]).
  - by apply learns_keeps.
Qed.

Lemma follows_hears n sd blip client up m down :
  roomy n → follows n sd blip client up (m :: down) →
  follows n sd blip (absorb m client).2 (up ++ option_list (absorb m client).1) down.
Proof.
  intros Hs (cd & xs & o & Hcd & Hf & Ho & Hy). unfold news_in in Hf. rewrite filter_cons in Hf. destruct (decide (concerns blip m)) as [Hc|Hc].
  - apply Forall2_cons_inv_l in Hf as (x & xs' & Hx & Hf & ->). destruct x as [own entry].
    destruct m; try done; cbn in Hx.
    + destruct Hx as (-> & -> & -> & ->). rewrite (absorb_op _ _ _ _ _ _ _ Hcd). cbn [fst snd option_list]. rewrite app_nil_r.
      eexists _, xs', o. split_and!; [apply lookup_insert_eq|done|done|by apply synced_hears_op].
    + destruct Hx as (-> & -> & ->). apply synced_hears_ack in Hy as [-> Hy]; [|done].
      destruct (absorb_ack wave_id blip (rev_revision entry) delta op_id client cd Hcd) as [Ed Eo].
      eexists _, xs', _. rewrite Ed. split_and!; [apply lookup_insert_eq|done| |exact Hy].
      destruct (cl_outstanding _) as [a|]; [|by rewrite Eo, app_nil_r]. destruct Eo as [id ->]. by apply on_its_way_new.
  - destruct (absorb_other blip m client cd Hc Hcd) as [Hcd' Hout]. exists cd, xs, o. split_and!; [done..| |done].
    destruct Hout as [->|(x & -> & Hx)]; [by rewrite app_nil_r|by apply on_its_way_app].
Qed.

Lemma awaits_hears n sd blip client up m down :
  awaits n sd blip client up (m :: down) →
  attends n sd blip (absorb m client).2 (up ++ option_list (absorb m client).1) down.
Proof.
  intros (Hd & Ho & before & m' & rest & cd & xs & E & Hb & Hm & Hf & Hy). destruct before as [|m0 before]; injection E as -> ->.
  - left. destruct (Hm client Hd) as [Hcd ->]. exists cd, xs, None. rewrite app_nil_r. by split_and!.
  - right. apply list.Forall_cons in Hb as [Hm0 Hb]. destruct (absorb_elsewhere blip m0 client Hm0) as [Hd' Hout].
    split; [by rewrite Hd'|]. split; [destruct Hout as [->|(x & -> & Hx)]; [by rewrite app_nil_r|by apply on_its_way_app]|].
    by exists before, m', rest, cd, xs.
Qed.

Lemma attends_hears n sd blip client up m down :
  roomy n → attends n sd blip client up (m :: down) →
  attends n sd blip (absorb m client).2 (up ++ option_list (absorb m client).1) down.
Proof. intros Hs [Hf|Hf]; [left; by apply follows_hears|by apply awaits_hears]. Qed.

(** ** What is typed *)

Lemma edit_docs blip delta client out client' cd :
  tc_docs client !! blip = Some cd → edit blip delta client = Some (out, client') →
  let '(cd', send) := typed_into cd delta in
  tc_docs client' = <[blip := cd']> (tc_docs client) ∧
  match send with Some d => ∃ id, out = Some (Submit blip (cl_revision cd') d (Some id)) | None => out = None end.
Proof.
  intros Hcd. unfold edit. rewrite Hcd. destruct (typed_into cd delta) as [cd' [d|]]; intros [= <- <-]; [|done].
  split; [done|]. by eexists.
Qed.

Lemma follows_types n m sd blip blip' client client' up down delta out :
  roomy (n + m) → follows n sd blip client up down → edit blip' delta client = Some (out, client') →
  (∀ cd, tc_docs client !! blip' = Some cd → blip' = blip → change m delta (cl_doc cd)) →
  follows (n + m) sd blip client' (up ++ option_list out) down.
Proof.
  intros Hs (cd & xs & o & Hcd & Hf & Ho & Hy) He Hd. destruct (tc_docs client !! blip') as [cd'|] eqn:Hcd'.
  2: { unfold edit in He. by rewrite Hcd' in He. }
  pose proof (edit_docs _ _ _ _ _ _ Hcd' He) as H. destruct (decide (blip' = blip)) as [->|Hne].
  - assert (cd' = cd) as -> by congruence. specialize (Hd cd eq_refl eq_refl).
    pose proof (synced_types n m sd cd o xs delta Hs Hd Hy) as Ht. destruct (typed_into cd delta) as [cd' [d|]].
    + destruct H as [E [id ->]], Ht as [-> Ht]. eexists cd', xs, _. rewrite E. split_and!; [apply lookup_insert_eq|done|by apply on_its_way_new|done].
    + destruct H as [E ->]. exists cd', xs, o. rewrite E. cbn. rewrite app_nil_r. split_and!; [apply lookup_insert_eq|done..].
  - exists cd, xs, o. split_and!; [| |destruct (typed_into cd' delta) as [cd2 [d|]], H as [_ H]|eapply synced_mono; [|done]; lia].
    + destruct (typed_into cd' delta) as [cd2 s], H as [-> _]. by rewrite lookup_insert_ne.
    + done.
    + destruct H as [id ->]. apply on_its_way_app; [done|]. cbn. by rewrite decide_False.
    + by rewrite H, app_nil_r.
Qed.

Lemma attends_types n m sd blip blip' client client' up down delta out :
  roomy (n + m) → attends n sd blip client up down → edit blip' delta client = Some (out, client') →
  (∀ cd, tc_docs client !! blip' = Some cd → blip' = blip → change m delta (cl_doc cd)) →
  attends (n + m) sd blip client' (up ++ option_list out) down.
Proof.
  intros Hs [Hf|(Hn & Ho & before & m0 & rest & cd & xs & -> & Hb & Hm & Hf & Hy)] He Hd; [left; by eapply follows_types|right].
  destruct (tc_docs client !! blip') as [cd'|] eqn:Hcd'; [|unfold edit in He; by rewrite Hcd' in He].
  assert (blip' ≠ blip) as Hne by congruence. pose proof (edit_docs _ _ _ _ _ _ Hcd' He) as H. split_and!.
  - destruct (typed_into cd' delta) as [cd2 s], H as [-> _]. by rewrite lookup_insert_ne.
  - destruct (typed_into cd' delta) as [cd2 [d|]], H as [_ H]; [|by rewrite H, app_nil_r].
    destruct H as [id ->]. apply on_its_way_app; [done|]. cbn. by rewrite decide_False.
  - exists before, m0, rest, cd, xs. split_and!; [done..|]. eapply synced_mono; [|done]. lia.
Qed.

(** ** What the server does *)

Lemma follows_grows n n' sd sd' blip client up up' down new :
  follows n sd blip client up down →
  (∀ cd xs o, on_its_way blip up o → synced n sd cd o xs →
     ∃ xs' o', news_in blip new xs' ∧ on_its_way blip up' o' ∧ synced n' sd' cd o' (xs ++ xs')) →
  follows n' sd' blip client up' (down ++ new).
Proof.
  intros (cd & xs & o & Hcd & Hf & Ho & Hy) H. destruct (H cd xs o Ho Hy) as (xs' & o' & Hf' & Ho' & Hy').
  exists cd, (xs ++ xs'), o'. split_and!; [done|by apply news_app|done|done].
Qed.

Lemma attends_grows n n' sd sd' blip client up down new :
  attends n sd blip client up down →
  (∀ cd xs o, synced n sd cd o xs → ∃ xs', news_in blip new xs' ∧ synced n' sd' cd o (xs ++ xs')) →
  attends n' sd' blip client up (down ++ new).
Proof.
  intros [Hf|(Hn & Ho & before & m & rest & cd & xs & -> & Hb & Hm & Hf & Hy)] H.
  - left. eapply follows_grows; [done|]. intros cd xs o Ho Hy. destruct (H cd xs o Hy) as (xs' & ? & ?). by exists xs', o.
  - right. destruct (H cd xs None Hy) as (xs' & ? & ?). split_and!; [done..|].
    exists before, m, (rest ++ new), cd, (xs ++ xs'). rewrite <- app_assoc. split_and!; try done. by apply news_app.
Qed.

(** Nothing about this message. *)
Lemma attends_hush n n' sd sd' blip client up down new :
  (n ≤ n')%N → doc_ok sd → doc_ok sd' → doc_content sd' = doc_content sd → doc_revision sd' = doc_revision sd →
  (∃ k, doc_history sd' = drop k (doc_history sd)) → Forall (λ m, ¬ concerns blip m) new →
  attends n sd blip client up down → attends n' sd' blip client up (down ++ new).
Proof.
  intros Hn Hok Hok' E1 E2 E3 Hnew Ha. eapply attends_grows; [done|]. intros cd xs o Hy. exists [].
  rewrite app_nil_r. split; [by apply no_news|by apply (synced_mono n), (synced_same n sd)].
Qed.

Lemma attends_other n n' sd entry sd' blip client up down w author :
  doc_ok sd → (n ≤ n')%N → commits n sd entry sd' → (total (doc_content sd') ≤ n')%N → attends n sd blip client up down →
  attends n' sd' blip client up (down ++ [SOp w blip (rev_revision entry) author (rev_delta entry)]).
Proof.
  intros Hok Hn Hc Ht Ha. eapply attends_grows; [done|]. intros cd xs o Hy. exists [(false, entry)].
  split; [by apply one_news|by apply (synced_other n _ sd)].
Qed.

(** A message that has just been added, and what opens it queued behind what the client has not heard. *)
Lemma attends_new n sd blip client up down before m rest :
  doc_ok sd → (total (doc_content sd) ≤ n)%N → tc_docs client !! blip = None → on_its_way blip up None →
  Forall (λ m, blip ∉ names m) down → Forall (λ m, blip ∉ names m) before → Forall (λ m, blip ∉ names m) rest →
  brings blip m (mkClientDoc (doc_content sd) (doc_revision sd) None None) →
  attends n sd blip client up (down ++ before ++ m :: rest).
Proof.
  intros Hok Ht Hn Ho Hd Hb Hr Hm. right. split_and!; [done..|]. exists (down ++ before), m, rest, (mkClientDoc (doc_content sd) (doc_revision sd) None None), [].
  rewrite <- app_assoc. split_and!; [done|by apply list.Forall_app_2|exact Hm| |by apply synced_joins].
  apply no_news. eapply list.Forall_impl; [exact Hr|]. intros x Hx Hc. by apply Hx, concerns_names.
Qed.

(** Its own change, the next on its way up: accepted unless the server has forgotten the revision it was made at. *)
Lemma follows_accepted n sd blip client up down r delta op author :
  doc_ok sd → roomy n → (doc_revision sd < usize_max)%N →
  follows n sd blip client (Submit blip r delta op :: up) down → (oldest_retained sd ≤ r)%N →
  ∃ entry sd', apply sd r delta author = Ok (entry, sd') ∧ commits n sd entry sd' ∧
    ∀ n' w id, (n ≤ n')%N → (total (doc_content sd') ≤ n')%N →
      follows n' sd' blip client up (down ++ [Ack w blip (rev_revision entry) (rev_delta entry) id]).
Proof.
  intros Hok Hs Hmax Hf Hold. pose proof Hf as (cd & xs & o & Hcd & Hnews & Ho & Hy). unfold on_its_way in Ho. cbn in Ho.
  rewrite decide_True in Ho by done. destruct o as [[s sent]|]; [|done]. injection Ho as <- <- Hup.
  destruct (synced_accepted n sd cd r delta xs author Hok Hs Hmax Hy Hold) as (a & entry & sd' & Ea & Hap & Hc & Er).
  exists entry, sd'. split_and!; [done..|]. intros n' w id Hn Ht. exists cd, (xs ++ [(true, entry)]), None.
  split_and!; [done| |done|].
  - by apply news_app, one_news.
  - apply (synced_own n n' sd entry sd' cd r delta); [done..| |done]. intros a' E. by assert (a' = a) as -> by congruence.
Qed.

End sync.
