(* ===== verification/Listening.v ===== *)
(** * What a section means to those who follow

    One lemma per command that runs under the lock of a wave, edits, opening and leaving apart: whoever goes on
    watching hears nothing that changes a message it knows, and of each message that is new to it what opens it. *)

From S2P Require Import Prelude Tables Strings Unicode Json Attributes Text Delta Model Protocol ServerDoc.
From S2P Require Import Content DocBounds LiveWave LiveWaveTheory Storage OpLog Queries Effects Critical Handlers.
From S2P Require Import Coherence CoherenceLemmas CoherenceMembers CoherenceFrame CoherenceHandlers Submission.
From S2P Require Import App AppTheory Limit Agent AgentTheory Sections Audience Client ClientTheory.

Section listening.
Context `{J : Json} `{W : World}.
Implicit Types s : Crit.
Implicit Types l : LiveWave.
Implicit Types out : Outbound.

(** ** Delivery *)

Lemma send_to_sent l out c m :
  tx_own l → sent_to l out (λ c' _, bool_decide (c' = c)) (λ _, m) (send_to l out c m).
Proof.
  intros Htx. unfold send_to. destruct (lw_subscribers l !! c) as [sub|] eqn:El.
  - rewrite (Htx c sub El), try_send_spec. destruct (has_room out c) eqn:Er.
    + exists (lw_subscribers l). split; [by destruct l|]. intros c'. cbn. destruct (decide (c' = c)) as [->|Hne].
      * rewrite El, bool_decide_eq_true_2, Er by done. split; [done|]. by rewrite lookup_alter_eq.
      * rewrite bool_decide_eq_false_2 by done. rewrite lookup_alter_ne by done. by destruct (lw_subscribers l !! c').
    + destruct (disconnect_spec l out [c] Htx) as (subs & out' & -> & Hs & Ho). exists subs. split; [done|].
      intros c'. rewrite Hs, Ho. destruct (decide (c' = c)) as [->|Hne].
      * rewrite El, bool_decide_eq_true_2, Er, !decide_True by (done || (split; [set_solver|done]) || set_solver). done.
      * rewrite bool_decide_eq_false_2 by done. rewrite !decide_False by set_solver. by destruct (lw_subscribers l !! c').
  - exists (lw_subscribers l). split; [by destruct l|]. intros c'. cbn. destruct (decide (c' = c)) as [->|Hne]; [by rewrite El|].
    rewrite bool_decide_eq_false_2 by done. by destruct (lw_subscribers l !! c').
Qed.

(** Who is left got the message if it was chosen, and nothing else. *)
Lemma sent_to_left l out chosen f res c sub :
  sent_to l out chosen f res → lw_subscribers res.1 !! c = Some sub →
  lw_subscribers l !! c = Some sub ∧
  sent res.2 c = sent out c ++ (if chosen c sub then [f (sub_user_id sub)] else []).
Proof.
  intros (subs & -> & H) Hc. specialize (H c). cbn in Hc. destruct (lw_subscribers l !! c) as [sub'|]; [|by destruct H as [H _]; congruence].
  destruct (chosen c sub') eqn:E.
  - destruct (has_room out c) eqn:Er; destruct H as [H1 H2]; [|congruence]. assert (sub' = sub) as -> by congruence.
    rewrite E. split; [done|]. by eapply sent_enqueue.
  - destruct H as [H1 H2]. assert (sub' = sub) as -> by congruence. rewrite E, app_nil_r. split; [done|]. by apply sent_same.
Qed.

Lemma sent_to_tx l out chosen f res : tx_own l → sent_to l out chosen f res → tx_own res.1.
Proof. intros Htx H c sub Hc. eapply Htx. by eapply sent_to_left. Qed.

Lemma sent_to_live l out chosen f res : sent_to l out chosen f res → ∃ subs, res.1 = set_subscribers subs l.
Proof. intros (subs & ? & _). eauto. Qed.

(** Modification times are no matter of access. *)
Lemma find_list_cons {A} (p : A → bool) (y : A) ys : find_list p (y :: ys) = if p y then Some y else find_list p ys.
Proof.
  unfold find_list. cbn. destruct (p y); [by rewrite decide_True|]. rewrite decide_False by done.
  by destruct (list_find _ ys) as [[]|].
Qed.

Lemma access_touch l id ts user w : may_access (wavelet_mut id (touch_wavelet ts) l) user w = may_access l user w.
Proof.
  unfold may_access, wavelet, wavelet_mut. cbn [lw_wavelets set_wavelets]. induction (lw_wavelets l) as [|x ws IH]; [done|]. cbn [update_first].
  destruct (str_eqb (wl_id x) id); rewrite !find_list_cons.
  - cbv beta. change (wl_id (touch_wavelet ts x)) with (wl_id x). by destruct (str_eqb (wl_id x) w).
  - by destruct (str_eqb (wl_id x) w).
Qed.

(** ** What a section may do *)

(** Of a message of the wave, a watcher that may read it knows already and hears nothing, or is just shown it. *)
Definition shown (lb : LiveBlip) : ClientDoc := mkClientDoc (doc_content (lb_doc lb)) (doc_revision (lb_doc lb)) None None.

Definition informed s (u : UserId) (blip : BlipId) (lb' : LiveBlip) (new : list ServerMessage) : Prop :=
  (∃ lb, lw_blips (c_live s) !! blip = Some lb ∧ unchanged lb lb' ∧
     may_access (c_live s) u (blip_wavelet_id (lb_meta lb)) = true ∧ Forall (λ m, ¬ concerns blip m) new) ∨
  (blip_exists (c_db s) blip = false ∧ ∃ before m rest, new = before ++ m :: rest ∧
     Forall (λ m, blip ∉ names m) before ∧ Forall (λ m, blip ∉ names m) rest ∧ brings blip m (shown lb')).

Record affects s s' : Prop := {
  af_tx : tx_own (c_live s');
  af_rows : ∀ b, blip_exists (c_db s) b = true → blip_exists (c_db s') b = true;
  af_heard : ∀ c sub', lw_subscribers (c_live s') !! c = Some sub' →
    ∃ sub new, lw_subscribers (c_live s) !! c = Some sub ∧ sub_user_id sub' = sub_user_id sub ∧
      sent (c_out s') c = sent (c_out s) c ++ new ∧
      (∀ m b, m ∈ new → b ∈ names m → blip_exists (c_db s') b = true) ∧
      ∀ blip lb', lw_blips (c_live s') !! blip = Some lb' →
        may_access (c_live s') (sub_user_id sub') (blip_wavelet_id (lb_meta lb')) = true →
        informed s (sub_user_id sub') blip lb' new;
}.

(** What is queued names no message. *)
Definition quiet (m : ServerMessage) : Prop := names m = [].

Lemma quiet_unconcerned blip m : quiet m → ¬ concerns blip m.
Proof. intros H Hc%concerns_names. rewrite H in Hc. by apply elem_of_nil in Hc. Qed.

(** Since [s1] nothing but delivery of quiet messages and the loss of watchers and members. *)
Record listening s1 s : Prop := {
  li_db : c_db s = c_db s1;
  li_blips : lw_blips (c_live s) = lw_blips (c_live s1);
  li_access : ∀ u w, may_access (c_live s) u w = true → may_access (c_live s1) u w = true;
  li_tx : tx_own (c_live s);
  li_left : ∀ c sub', lw_subscribers (c_live s) !! c = Some sub' →
    ∃ new, lw_subscribers (c_live s1) !! c = Some sub' ∧ sent (c_out s) c = sent (c_out s1) c ++ new ∧ Forall quiet new;
}.

Lemma listening_refl s : tx_own (c_live s) → listening s s.
Proof. intros H. constructor; try done. intros c sub' Hc. exists []. by rewrite app_nil_r. Qed.

Definition hushes {T} (m : CM T) : Prop := ∀ s1 s, listening s1 s → wp m (λ _ s', listening s1 s') s.

Lemma hushes_bind {T V} (m : CM T) (f : T → CM V) : hushes m → (∀ t, hushes (f t)) → hushes (cm_bind m f).
Proof.
  intros Hm Hf s1 s Hs. apply wp_bind. specialize (Hm s1 s Hs). unfold wp in *. destruct (m s).1; [by apply Hf|done].
Qed.
Lemma hushes_ret {T} (t : T) : hushes (cm_ret (S := Crit) t).
Proof. by intros s1 s. Qed.
Lemma hushes_throw {T} e : hushes (cm_throw (S := Crit) (T := T) e).
Proof. by intros s1 s. Qed.
Lemma hushes_schedule wave : hushes (schedule_inbox_update wave).
Proof. intros s1 s []. by constructor. Qed.

Lemma hushes_each {A} (f : A → CM ()) ys : (∀ y, hushes (f y)) → hushes (cm_each f ys).
Proof. intros Hf. induction ys as [|y ys IH]; [apply hushes_ret|]. apply hushes_bind; [done|]. by intros []. Qed.

Lemma listening_sent s1 s chosen f res :
  listening s1 s → sent_to (c_live s) (c_out s) chosen f res → (∀ u, quiet (f u)) →
  listening s1 (with_wave_out res.1 res.2 s).
Proof.
  intros [Hd Hb Ha Htx Hl] Hs Hq. destruct (sent_to_live _ _ _ _ _ Hs) as [subs E]. constructor; cbn.
  - done.
  - by rewrite E.
  - intros u w. rewrite E. apply Ha.
  - by eapply sent_to_tx.
  - intros c sub' Hc. destruct (sent_to_left _ _ _ _ _ _ _ Hs Hc) as [Hc' Es]. destruct (Hl c sub' Hc') as (new & H1 & H2 & H3).
    rewrite Es, H2, <- app_assoc. eexists. split_and!; [done|done|]. apply list.Forall_app_2; [done|].
    destruct (chosen c sub'); [by repeat constructor|constructor].
Qed.

Lemma hushes_broadcast wavelet skip m : quiet m → hushes (cm_broadcast wavelet skip m).
Proof.
  intros Hq s1 s Hs. pose proof (broadcast_sent (c_live s) (c_out s) wavelet skip m (li_tx _ _ Hs)) as H.
  pose proof (listening_sent _ _ _ _ _ Hs H (λ _, Hq)) as H'. unfold wp, cm_broadcast. by destruct (broadcast _ _ _ _ _).
Qed.

Lemma hushes_presence wave : hushes (cm_presence wave).
Proof.
  intros s1 s Hs. pose proof (broadcast_presence_sent (c_live s) (c_out s) wave (li_tx _ _ Hs)) as H.
  pose proof (listening_sent _ _ _ _ _ Hs H (λ _, eq_refl)) as H'. unfold wp, cm_presence. by destruct (broadcast_presence _ _ _).
Qed.

Lemma hushes_send_to_user user m : quiet m → hushes (cm_send_to_user user m).
Proof.
  intros Hq s1 s [Hd Hb Ha Htx Hl]. constructor; cbn; try done. unfold send_to_user. destruct (_ !! user) as [conns|]; [|done].
  revert Hl. generalize (c_out s). induction (elements conns) as [|c cs IH]; intros out Hl; cbn; [done|]. apply IH.
  intros c' sub' Hc'. destruct (Hl c' sub' Hc') as (new & H1 & H2 & H3). unfold conn_send. rewrite try_send_spec.
  destruct (has_room out c) eqn:Er; destruct (decide (c' = c)) as [->|Hne].
  - exists (new ++ [m]). rewrite app_assoc, <- H2. split_and!; [done| |by apply list.Forall_app_2; [|repeat constructor]].
    apply sent_enqueue; [done|]. cbn. by rewrite lookup_alter_eq.
  - exists new. split_and!; [done| |done]. rewrite <- H2. apply sent_same. cbn. by rewrite lookup_alter_ne.
  - exists new. split_and!; [done| |done]. rewrite <- H2. apply sent_killed. cbn. by rewrite lookup_alter_eq.
  - exists new. split_and!; [done| |done]. rewrite <- H2. apply sent_same. cbn. by rewrite lookup_alter_ne.
Qed.

(** ** Sections that say nothing of the text *)

(** What such a section does before it starts to send. *)
Record quietly s s1 : Prop := {
  qu_out : c_out s1 = c_out s;
  qu_tx : tx_own (c_live s1);
  qu_subs : ∀ c sub', lw_subscribers (c_live s1) !! c = Some sub' →
    ∃ sub, lw_subscribers (c_live s) !! c = Some sub ∧ sub_user_id sub' = sub_user_id sub;
  qu_rows : ∀ b, blip_exists (c_db s) b = true → blip_exists (c_db s1) b = true;
  qu_blips : ∀ blip lb', lw_blips (c_live s1) !! blip = Some lb' → ∃ lb, lw_blips (c_live s) !! blip = Some lb ∧ unchanged lb lb';
  qu_access : ∀ c sub w, lw_subscribers (c_live s) !! c = Some sub →
    may_access (c_live s1) (sub_user_id sub) w = true → may_access (c_live s) (sub_user_id sub) w = true;
}.

Lemma affects_quiet s s1 s' : quietly s s1 → listening s1 s' → affects s s'.
Proof.
  intros [Eo _ Hs Hr Hb Ha] [Ed Eb Ha' Htx Hl]. constructor; [done|by rewrite Ed; apply Hr|].
  intros c sub' Hc. destruct (Hl c sub' Hc) as (new & Hc1 & Es & Hq). destruct (Hs c sub' Hc1) as (sub & Hc0 & Eu).
  exists sub, new. rewrite Es, Eo. rewrite list.Forall_forall in Hq. split_and!; [done..| |].
  - intros m b Hm. rewrite (Hq m Hm). by intros ?%elem_of_nil.
  - intros blip lb' Hlb Hacc. left. rewrite Eb in Hlb. destruct (Hb blip lb' Hlb) as (lb & Hlb0 & Hu). exists lb.
    pose proof (proj1 Hu) as Em. split_and!; [done|done| |].
    + rewrite Eu in *. apply (Ha c); [done|]. rewrite <- Em. by apply Ha'.
    + apply list.Forall_forall. intros m Hm. by apply quiet_unconcerned, Hq.
Qed.

Lemma quietly_same s s1 :
  tx_own (c_live s) → db_blips (c_db s1) = db_blips (c_db s) → c_out s1 = c_out s →
  lw_subscribers (c_live s1) = lw_subscribers (c_live s) → lw_blips (c_live s1) = lw_blips (c_live s) →
  (∀ u w, may_access (c_live s1) u w = may_access (c_live s) u w) → quietly s s1.
Proof.
  intros Htx Ed Eo Es Eb Ea. constructor; [done|unfold tx_own; by rewrite Es| |unfold blip_exists; by rewrite Ed| |].
  - intros c sub' Hc. exists sub'. by rewrite <- Es.
  - intros blip lb' Hb. exists lb'. rewrite <- Eb. split; [done|apply unchanged_refl].
  - intros c sub w _. by rewrite Ea.
Qed.

Lemma affects_same s s' : tx_own (c_live s) → c_db s' = c_db s → c_out s' = c_out s → c_live s' = c_live s → affects s s'.
Proof.
  intros Htx Ed Eo El. assert (quietly s s') as Hq by (apply quietly_same; by rewrite ?Ed, ?El).
  apply (affects_quiet s s' s'); [done|]. by apply listening_refl, (qu_tx _ _ Hq).
Qed.

Lemma affects_rest {T} (m : CM T) s s1 : quietly s s1 → hushes m → wp m (λ _ s', affects s s') s1.
Proof.
  intros Hq Hm. apply (wp_mono _ (λ _ s', listening s1 s')); [intros _ s' H; by eapply affects_quiet|].
  apply Hm, listening_refl, Hq.
Qed.

(** A refusal. *)
Ltac silent := by apply affects_same.
Ltac ask H := apply wp_bind, wp_guard; cbv beta iota; [intros H|intros _; silent].
Ltac ask_permit := apply wp_bind, wp_lift; destruct (permit _ _ _) as [[]|]; [|silent].

Lemma blip_exists_in db id : blip_exists db id = true ↔ ∃ b, b ∈ db_blips db ∧ blip_id b = id.
Proof. unfold blip_exists. rewrite exists_row_spec. unfold str_eqb. by setoid_rewrite bool_decide_eq_true. Qed.

(** Rows are marked and rewritten, never dropped. *)
Lemma rows_updated p f (rows : list Blip) id :
  (∀ b, blip_id (f b) = blip_id b) → (∃ b, b ∈ rows ∧ blip_id b = id) → ∃ b, b ∈ update_where p f rows ∧ blip_id b = id.
Proof.
  intros Hf (b & Hb & <-). exists (if p b then f b else b). split; [apply elem_of_update; by exists b|]. by destruct (p b).
Qed.

Lemma access_mut l id f u w :
  (∀ x, wl_id (f x) = wl_id x ∧ wl_participants (f x) = wl_participants x) → may_access (wavelet_mut id f l) u w = may_access l u w.
Proof.
  intros Hf. unfold may_access, LiveWave.wavelet, wavelet_mut. cbn [lw_wavelets set_wavelets].
  induction (lw_wavelets l) as [|x ws IH]; [done|]. cbn [update_first].
  destruct (str_eqb (wl_id x) id); rewrite !find_list_cons.
  - destruct (Hf x) as [E1 E2]. rewrite E1. destruct (str_eqb (wl_id x) w); [|done]. unfold has_participant. by rewrite E2.
  - by destruct (str_eqb (wl_id x) w).
Qed.

Lemma set_title_affects s user wave wavelet title :
  tx_own (c_live s) → affects s (set_title_locked user wave wavelet title s).2.
Proof.
  intros Htx. change (wp (set_title_locked user wave wavelet title) (λ _ s', affects s s') s).
  unfold set_title_locked, guard_access. do 2 wp_step. ask Ha. ask_permit. do 3 wp_step. apply wp_db_write; [|silent].
  intros db [= <-]. cbv beta iota. do 2 wp_step. apply affects_rest.
  - apply quietly_same; try done. intros u w. by apply access_mut.
  - apply hushes_bind; [by apply hushes_broadcast|intros; apply hushes_schedule].
Qed.

Lemma set_mode_affects s user wave mode : tx_own (c_live s) → affects s (set_mode_locked user wave mode s).2.
Proof.
  intros Htx. change (wp (set_mode_locked user wave mode) (λ _ s', affects s s') s).
  unfold set_mode_locked. do 2 wp_step. ask Ha. ask_permit. cbv zeta. case_decide; [silent|]. wp_step.
  apply wp_db_write; [|silent]. intros db [= <-]. cbv beta iota. do 2 wp_step. apply affects_rest.
  - by apply quietly_same.
  - apply hushes_bind; [|intros; apply hushes_schedule]. apply hushes_each. intros id. by apply hushes_broadcast.
Qed.

Lemma resolve_comment_affects s user wave comment resolved :
  tx_own (c_live s) → affects s (resolve_comment_locked user wave comment resolved s).2.
Proof.
  intros Htx. change (wp (resolve_comment_locked user wave comment resolved) (λ _ s', affects s s') s).
  unfold resolve_comment_locked, guard_access. do 2 wp_step. destruct (lw_comments _ !! comment) as [t|] eqn:Ht; [|silent].
  ask Ha. ask_permit. destruct (Bool.eqb _ _); [silent|].
  assert (∀ by_ at_ s', c_db s' = c_db s → c_out s' = c_out s → c_live s' = c_live s →
    wp (db_write (λ db, Ok (set_comment_resolved db comment by_ at_)) ;!
    put_live (set_comments (alter (with_resolution by_ at_) comment (lw_comments (c_live s))) (c_live s)) ;!
    cm_broadcast (ct_wavelet_id t) None (CommentResolved wave comment by_ at_)) (λ _ s', affects s s') s') as H.
  { intros by_ at_ s' E1 E2 E3. wp_step. apply wp_db_write; [|apply affects_same; [exact Htx|simpl; congruence..]]. intros db [= <-].
    cbv beta iota. do 2 wp_step. apply affects_rest; [|by apply hushes_broadcast].
    constructor; cbn; [done|done|by eauto|by rewrite E1|intros blip lb' Hb; exists lb'; split; [done|apply unchanged_refl]|done]. }
  destruct resolved; [do 4 wp_step|do 2 wp_step]; by apply H.
Qed.

Lemma cursor_affects s user conn wave blip index length :
  tx_own (c_live s) → affects s (cursor_locked user conn wave blip index length s).2.
Proof.
  intros Htx. change (wp (cursor_locked user conn wave blip index length) (λ _ s', affects s s') s).
  unfold cursor_locked. do 2 wp_step. destruct (lw_blips _ !! blip) as [b|] eqn:Hb; [|silent]. cbv zeta.
  destruct (negb _); [silent|]. do 2 wp_step. apply affects_rest.
  - assert (∀ c sub', alter (edit_at blip) conn (lw_subscribers (c_live s)) !! c = Some sub' →
      ∃ sub, lw_subscribers (c_live s) !! c = Some sub ∧ sub_user_id sub' = sub_user_id sub ∧ sub_tx sub' = sub_tx sub) as Halter.
    { intros c sub'. destruct (decide (c = conn)) as [->|Hne]; [|rewrite lookup_alter_ne by done; by eauto].
      rewrite lookup_alter_eq. intros (x & Hx & ->)%fmap_Some. by exists x. }
    constructor; cbn; [done| | |done|intros id lb' Hl; exists lb'; split; [done|apply unchanged_refl]|done].
    + intros c sub' Hc. destruct (Halter c sub' Hc) as (sub & Hs & _ & ->). by apply Htx.
    + intros c sub' Hc. destruct (Halter c sub' Hc) as (sub & Hs & Eu & _). by exists sub.
  - apply hushes_bind; [by apply hushes_broadcast|intros; apply hushes_presence].
Qed.

Lemma delete_blip_affects s user wave blip : tx_own (c_live s) → affects s (delete_blip_locked user wave blip s).2.
Proof.
  intros Htx. change (wp (delete_blip_locked user wave blip) (λ _ s', affects s s') s).
  unfold delete_blip_locked, guard_access. do 2 wp_step. destruct (lw_blips _ !! blip) as [b|] eqn:Hb; [|silent]. cbv zeta.
  ask Ha. ask Hcom. ask Hby. ask_permit. ask Hr. wp_step. apply wp_db_write; [|silent]. intros db [= <-]. cbv beta iota.
  do 2 wp_step. apply affects_rest.
  - constructor; cbn; [done|done|by eauto| | |done].
    + intros id. rewrite !blip_exists_in. intros H. unfold delete_blip.
      destruct (find_row _ _); cbn; apply rows_updated, rows_updated; done.
    + intros id lb' Hl. exists lb'. split; [|apply unchanged_refl]. rewrite lookup_foldr_delete in Hl. case_bool_decide; [done|].
      by apply lookup_delete_Some in Hl as [_ Hl].
  - apply hushes_bind; [apply hushes_each; intros id; by apply hushes_broadcast|intros _].
    apply hushes_bind; [by apply hushes_broadcast|intros; apply hushes_schedule].
Qed.

(** ** Sections that add a message *)

Lemma brings_seed b : seed_shape b →
  doc_of_view (blip_view b ∅) = shown (live_blip_new b).
Proof.
  intros Hs. assert (good_text (blip_content b)) as Hg by (destruct Hs as [[_ ->]|[_ ?]]; [by apply good_text_nil|done]).
  destruct (live_blip_new_doc b Hg) as (Ec & Er & _). unfold shown. by rewrite Ec, Er.
Qed.

Lemma brings_learnt b m (f : TestClient → TestClient) :
  seed_shape b → (∀ client, absorb m client = (None, f client) ∧
    tc_docs (f client) = or_insert_view (tc_docs client) (blip_view b ∅)) →
  brings (blip_id b) m (shown (live_blip_new b)).
Proof.
  intros Hs Hm client Hn. destruct (Hm client) as [-> E]. split; [|done]. cbn. rewrite E. unfold or_insert_view.
  change (bv_id (blip_view b ∅)) with (blip_id b). rewrite Hn. unfold insert_view.
  change (bv_id (blip_view b ∅)) with (blip_id b). by rewrite lookup_insert_eq, brings_seed.
Qed.

Lemma affects_added s s' l1 b m :
  tx_own (c_live s) → coherent (c_db s) (c_live s) → blip_exists (c_db s) (blip_id b) = false →
  (∀ id, id = blip_id b ∨ blip_exists (c_db s) id = true → blip_exists (c_db s') id = true) →
  lw_subscribers l1 = lw_subscribers (c_live s) → lw_blips l1 = <[blip_id b := live_blip_new b]> (lw_blips (c_live s)) →
  (∀ id lb u, lw_blips (c_live s) !! id = Some lb →
     may_access l1 u (blip_wavelet_id (lb_meta lb)) = may_access (c_live s) u (blip_wavelet_id (lb_meta lb))) →
  names m = [blip_id b] → brings (blip_id b) m (shown (live_blip_new b)) →
  (c_live s', c_out s') = broadcast l1 (c_out s) (blip_wavelet_id b) None m → affects s s'.
Proof.
  intros Htx Hc Hfresh Hrows Es Eb Ea Em Hm Hsent. assert (tx_own l1) as Htx1 by (unfold tx_own; by rewrite Es).
  pose proof (broadcast_sent l1 (c_out s) (blip_wavelet_id b) None m Htx1) as H. rewrite <- Hsent in H.
  destruct (sent_to_live _ _ _ _ _ H) as [subs El]. cbn in El. constructor; [exact (sent_to_tx _ _ _ _ _ Htx1 H)|by auto|].
  intros c sub' Hc'. destruct (sent_to_left _ _ _ _ _ _ _ H Hc') as [Hc1 Eo]. cbn in Eo. rewrite Es in Hc1.
  exists sub'. eexists. split_and!; [done|done|exact Eo| |].
  - intros m' id Hm' Hid. apply Hrows. destruct (may_receive _ _ _ _); [|by apply elem_of_nil in Hm'].
    apply list_elem_of_singleton in Hm' as ->. rewrite Em in Hid. apply list_elem_of_singleton in Hid as ->. by left.
  - intros id lb' Hl Hacc. rewrite El in Hl, Hacc. cbn in Hl. rewrite Eb in Hl. destruct (decide (id = blip_id b)) as [->|Hne].
    + rewrite lookup_insert_eq in Hl. injection Hl as <-. right. split; [done|]. exists [], m, [].
      unfold may_receive. cbn. change (may_access l1 (sub_user_id sub') (blip_wavelet_id b) = true) in Hacc. rewrite Hacc.
      rewrite bool_decide_eq_false_2 by done. by split_and!.
    + rewrite lookup_insert_ne in Hl by done. left. exists lb'. pose proof (Ea id lb' (sub_user_id sub') Hl) as E.
      change (may_access l1 (sub_user_id sub') (blip_wavelet_id (lb_meta lb')) = true) in Hacc.
      split_and!; [done|apply unchanged_refl|congruence|]. destruct (may_receive _ _ _ _); repeat constructor.
      intros Hcon%concerns_names. rewrite Em in Hcon. by apply list_elem_of_singleton in Hcon.
Qed.

(** Only ids known to storage are taken. *)
Lemma seed_takes_id db b db' : insert_seeded_blip db b = Ok db' →
  blip_exists db (blip_id b) = false ∧ ∀ id, id = blip_id b ∨ blip_exists db id = true → blip_exists db' id = true.
Proof.
  intros (f & g & rows & -> & _ & Hf & _)%insert_seeded_blip_inv. split; [done|]. intros id. rewrite !blip_exists_in. cbn.
  intros [->|(r & Hr & E)]; [exists (undeleted b)|exists r]; rewrite elem_of_app; (split; [|done]); [right; by apply list_elem_of_singleton|by left].
Qed.

Lemma affects_broadcast s s1 b m wave wavelet :
  blip_wavelet_id b = wavelet → tx_own (c_live s) → coherent (c_db s) (c_live s) → blip_exists (c_db s) (blip_id b) = false →
  (∀ id, id = blip_id b ∨ blip_exists (c_db s) id = true → blip_exists (c_db s1) id = true) → c_out s1 = c_out s →
  lw_subscribers (c_live s1) = lw_subscribers (c_live s) →
  lw_blips (c_live s1) = <[blip_id b := live_blip_new b]> (lw_blips (c_live s)) →
  (∀ id lb u, lw_blips (c_live s) !! id = Some lb →
     may_access (c_live s1) u (blip_wavelet_id (lb_meta lb)) = may_access (c_live s) u (blip_wavelet_id (lb_meta lb))) →
  names m = [blip_id b] → brings (blip_id b) m (shown (live_blip_new b)) →
  wp (cm_broadcast wavelet None m ;! schedule_inbox_update wave) (λ _ s', affects s s') s1.
Proof.
  intros <- Htx Hc Hf Hr Eo Es Eb Ea Em Hm. unfold wp, cm_bind, cm_broadcast, schedule_inbox_update. rewrite Eo.
  destruct (broadcast (c_live s1) (c_out s) _ None m) as [l out] eqn:E. cbn [fst snd].
  by apply (affects_added s _ (c_live s1) b m).
Qed.

(** [publish_blip] after the row is stored. *)
Lemma publish_affects s s' b :
  tx_own (c_live s) → coherent (c_db s) (c_live s) → seed_shape b → blip_exists (c_db s) (blip_id b) = false →
  (∀ id, id = blip_id b ∨ blip_exists (c_db s) id = true → blip_exists (c_db s') id = true) →
  (c_live s', c_out s') = publish_blip (c_live s) (c_out s) b → affects s s'.
Proof.
  intros Htx Hc Hs Hf Hr E. unfold publish_blip in E. eapply (affects_added s s' _ b); [..|exact E]; try done.
  - intros id lb u _. by rewrite access_touch.
  - by apply (brings_learnt b _ (on_docs (λ docs, or_insert_view docs (blip_view b ∅)))).
Qed.

Lemma create_blip_affects s user wave wavelet parent content :
  tx_own (c_live s) → coherent (c_db s) (c_live s) → wire_seed content →
  affects s (create_blip_locked user wave wavelet parent content s).2.
Proof.
  intros Htx Hc Hcont. change (wp (create_blip_locked user wave wavelet parent content) (λ _ s', affects s s') s).
  unfold create_blip_locked. repeat wp_step. destruct (prepare_blip _ _ _ _ _ _ _) as [b|e] eqn:Hb; [|silent].
  apply prepare_blip_facts in Hb as (_ & _ & H3 & _); [|done].
  repeat wp_step. apply wp_db_write; [|silent]. intros db [Hf Hr]%seed_takes_id. cbv beta iota.
  unfold wp, cm_bind, cm_publish, schedule_inbox_update. destruct (publish_blip _ _ _) as [l out] eqn:E. cbn [fst snd].
  by apply (publish_affects s _ b).
Qed.

Lemma reply_affects hash_token request_json identity body s :
  tx_own (c_live s) → coherent (c_db s) (c_live s) → affects s (reply_locked hash_token request_json identity body s).2.
Proof.
  intros Htx Hc. change (wp (reply_locked hash_token request_json identity body) (λ _ s', affects s s') s).
  apply wp_reply_locked.
  1, 2: intros; match goal with H : still _ _ |- _ => destruct H as (? & ? & ? & _) end; by apply affects_same.
  intros r s' _ _ (uuid & ts & cts & b & Hp & Hcr & Hpub & _).
  apply prepare_blip_facts in Hp as (_ & _ & H3 & _); [|intros d [= <-]; apply document_good].
  apply create_agent_reply_inv in Hcr as (db1 & tok & [Hf Hr]%seed_takes_id & _ & _ & E).
  apply (publish_affects s s' b); try done. intros id Hid. rewrite E. by apply Hr.
Qed.

Lemma create_comment_affects s user wave wavelet target comment content :
  tx_own (c_live s) → coherent (c_db s) (c_live s) → (∀ d, content = Some d → good_text d) →
  affects s (create_comment_locked user wave wavelet target comment content s).2.
Proof.
  intros Htx Hc Hcont. change (wp (create_comment_locked user wave wavelet target comment content) (λ _ s', affects s s') s).
  unfold create_comment_locked, guard_access. do 2 wp_step. ask Ha. ask_permit. ask Hn.
  destruct (lw_blips _ !! target) as [b|] eqn:Hb; [|silent]. ask Hw. ask Hk. repeat wp_step. apply wp_db_write; [|silent].
  intros db Hdb. cbv beta iota. match type of Hdb with create_comment _ _ (seeded content ?x) = _ =>
    destruct (seeded_facts content x) as (_ & _ & H3 & _ & H5) end; [done..|].
  unfold create_comment, insert_comment in Hdb. apply bind_ok in Hdb as (db1 & (t & _ & [= <-])%bind_ok & [Hf Hr]%seed_takes_id).
  do 3 wp_step. apply wp_admit. cbv beta iota. eapply affects_broadcast; [exact H5|done..| | |]; try done.
  - intros id lb u _. cbn. by rewrite access_touch.
  - eapply (brings_learnt _ _ (on_docs (λ docs, or_insert_view docs (blip_view _ ∅)))); [exact H3|]. by intros.
Qed.

Lemma reply_to_comment_affects s user wave comment content :
  tx_own (c_live s) → coherent (c_db s) (c_live s) → (∀ d, content = Some d → good_text d) →
  affects s (reply_to_comment_locked user wave comment content s).2.
Proof.
  intros Htx Hc Hcont. change (wp (reply_to_comment_locked user wave comment content) (λ _ s', affects s s') s).
  unfold reply_to_comment_locked, guard_access. do 2 wp_step. destruct (lw_comments _ !! comment) as [thread|] eqn:Ht; [|silent].
  ask Ha. ask_permit. ask Hn. repeat wp_step. apply wp_db_write; [|silent].
  intros db Hdb. cbv beta iota. match type of Hdb with create_blip _ (seeded content ?x) = _ =>
    destruct (seeded_facts content x) as (_ & _ & H3 & _ & H5) end; [done..|].
  apply seed_takes_id in Hdb as [Hf Hr]. wp_step. apply wp_admit. cbv beta iota. eapply affects_broadcast; [exact H5|done..| | |]; try done.
  - intros id lb u _. cbn. by rewrite access_touch.
  - eapply (brings_learnt _ _ (on_docs (λ docs, or_insert_view docs (blip_view _ ∅)))); [exact H3|]. by intros.
Qed.

(** A wavelet nobody knew of takes nothing from the others. *)
Lemma find_list_snoc {A} (p : A → bool) ys y : p y = false → find_list p (ys ++ [y]) = find_list p ys.
Proof.
  intros Hy. induction ys as [|x ys IH]; cbn [app]; rewrite find_list_cons; [by rewrite Hy|]. by rewrite find_list_cons, IH.
Qed.

Lemma access_added db l w db' id lb u :
  db_sound db → coherent db l → insert_wavelet db w = Ok db' → lw_blips l !! id = Some lb →
  may_access (set_wavelets (lw_wavelets l ++ [w]) l) u (blip_wavelet_id (lb_meta lb)) = may_access l u (blip_wavelet_id (lb_meta lb)).
Proof.
  intros Hd Hc Hins Hl. destruct (blip_row_here _ _ _ _ Hc Hl) as [Hb _]. pose proof (ref_blips _ Hd _ Hb) as Hw.
  unfold insert_wavelet in Hins. apply bind_ok in Hins as (t & [[Hn%negb_true_iff _]%andb_true_iff _]%insert_into_inv & _).
  unfold may_access, LiveWave.wavelet. cbn [lw_wavelets set_wavelets]. rewrite find_list_snoc; [done|].
  apply bool_decide_eq_false. intros E. rewrite E in Hn. congruence.
Qed.

Lemma wavelet_blips db w db' id : insert_wavelet db w = Ok db' → blip_exists db' id = blip_exists db id.
Proof. unfold insert_wavelet. by intros (t & _ & ([f ->] & _)%insert_participants_inv)%bind_ok. Qed.

Lemma private_reply_affects s user wave wavelet anchor ids :
  tx_own (c_live s) → db_sound (c_db s) → coherent (c_db s) (c_live s) → affects s (private_reply_locked user wave wavelet anchor ids s).2.
Proof.
  intros Htx Hd Hc. change (wp (private_reply_locked user wave wavelet anchor ids) (λ _ s', affects s s') s).
  unfold private_reply_locked, guard_access. do 2 wp_step. ask Ha. ask_permit. ask Hn. cbv zeta.
  destruct (find_list _ _); [silent|]. repeat wp_step. apply wp_db_write; [|silent]. intros db Hdb. cbv beta iota.
  unfold create_private_reply in Hdb. apply bind_ok in Hdb as (db1 & H1 & [Hf Hr]%seed_takes_id). do 2 wp_step.
  rewrite (wavelet_blips _ _ _ _ H1) in Hf. setoid_rewrite (wavelet_blips _ _ _ _ H1) in Hr.
  match goal with |- wp _ _ (with_live (set_blips (<[_ := live_blip_new ?b]> _) _) _) =>
    apply (affects_broadcast s _ b); try done; [|apply (brings_learnt b _ (on_docs (λ docs, or_insert_view docs (blip_view b ∅))))] end.
  - intros id lb u Hl. by apply (access_added (c_db s) (c_live s) _ db1 id lb u).
  - by left.
  - by intros.
Qed.

(** ** Members *)

(** Whatever only takes members and watchers away. *)
Definition shrinks (f : LiveWave → LiveWave) : Prop := ∀ l,
  lw_blips (f l) = lw_blips l ∧ lw_subscribers (f l) ⊆ lw_subscribers l ∧
  ∀ u w, may_access (f l) u w = true → may_access l u w = true.

Lemma listening_shrunk s1 s f : shrinks f → listening s1 s → listening s1 (with_live (f (c_live s)) s).
Proof.
  intros Hf [Hd Hb Ha Htx Hl]. destruct (Hf (c_live s)) as (Eb & Hs & Ha'). constructor; cbn.
  - done.
  - by rewrite Eb.
  - intros u w H. by apply Ha, Ha'.
  - intros c sub Hc. apply Htx. by eapply lookup_weaken.
  - intros c sub Hc. apply Hl. by eapply lookup_weaken.
Qed.

Lemma hushes_shrink {T} f (k : LiveWave → CM T) :
  shrinks f → (∀ l, hushes (k l)) → hushes (l <-! get_live; put_live (f l) ;! k l).
Proof. intros Hf Hk s1 s Hs. do 4 wp_step. by apply Hk, listening_shrunk. Qed.

Lemma may_access_update p f ws l u w :
  (∀ x, wl_id (f x) = wl_id x ∧ ∀ u, u ∈ wl_participants (f x) → u ∈ wl_participants x) →
  ws = lw_wavelets l → may_access (set_wavelets (update_where p f ws) l) u w = true → may_access l u w = true.
Proof.
  intros Hf ->. unfold may_access, LiveWave.wavelet. cbn [lw_wavelets set_wavelets].
  induction (lw_wavelets l) as [|x ws IH]; [done|]. unfold update_where. cbn [fmap list_fmap]. fold (update_where p f ws).
  rewrite !find_list_cons. assert (wl_id (if p x then f x else x) = wl_id x) as -> by (destruct (p x); [apply Hf|done]).
  destruct (str_eqb (wl_id x) w); [|done]. rewrite !has_participant_spec. destruct (p x); [apply Hf|done].
Qed.

Lemma drop_keeps user x : wl_id (drop_participant user x) = wl_id x ∧
  ∀ u, u ∈ wl_participants (drop_participant user x) → u ∈ wl_participants x.
Proof. split; [done|]. intros u. cbn. by intros [_ ?]%list_elem_of_filter. Qed.

Lemma access_dropped l wavelet user u w :
  may_access (wavelet_mut wavelet (drop_participant user) l) u w = true → may_access l u w = true.
Proof.
  unfold may_access, LiveWave.wavelet, wavelet_mut. cbn [lw_wavelets set_wavelets].
  induction (lw_wavelets l) as [|x ws IH]; [done|]. cbn [update_first]. destruct (str_eqb (wl_id x) wavelet); rewrite !find_list_cons.
  - destruct (drop_keeps user x) as [-> H]. destruct (str_eqb (wl_id x) w); [|done]. rewrite !has_participant_spec. apply H.
  - by destruct (str_eqb (wl_id x) w).
Qed.

Lemma cascade_shrinks user : shrinks (λ l, (cascade user l).2).
Proof. intros l. split_and!; [done..|]. intros u w. apply may_access_update; [apply drop_keeps|done]. Qed.

Lemma unsubscribe_shrinks user : shrinks (unsubscribe user).
Proof. intros l. split_and!; [done|apply map_filter_subseteq|done]. Qed.

Lemma remove_participant_affects s caller wave wavelet user :
  tx_own (c_live s) → affects s (remove_participant_locked caller wave wavelet user s).2.
Proof.
  intros Htx. change (wp (remove_participant_locked caller wave wavelet user) (λ _ s', affects s s') s).
  unfold remove_participant_locked, guard_access. do 2 wp_step. ask Ha. ask Hm.
  destruct (LiveWave.wavelet _ _) as [w|] eqn:Hw; [|silent]. destruct (negb (has_participant w user)); [silent|].
  ask Hn. wp_step. apply wp_db_write; [|silent]. intros db [= <-]. cbv beta iota. do 2 wp_step. apply affects_rest.
  { constructor; cbn; [done|done|by eauto|done|intros blip lb' Hl; exists lb'; split; [done|apply unchanged_refl]|].
    intros c sub w' _. apply access_dropped. }
  apply hushes_bind; [by apply hushes_broadcast|intros _]. apply hushes_bind; [|intros _].
  - case_decide; [|apply hushes_ret]. apply (hushes_shrink (λ l, (cascade user l).2)); [apply cascade_shrinks|].
    intros l. apply hushes_each. intros id. by apply hushes_broadcast.
  - intros s1 s2 Hs. do 2 wp_step. destruct (may_view _ _); [by apply (hushes_schedule wave)|].
    apply wp_bind. do 2 wp_step. apply (wp_mono _ (λ _ s', listening s1 s')).
    + intros [] s3 Hs3; [by apply (hushes_schedule wave)|done].
    + by apply hushes_send_to_user, (listening_shrunk s1 s2 (unsubscribe user)); [|apply unsubscribe_shrinks|].
Qed.

Lemma leave_affects s conn wave : tx_own (c_live s) → affects s (leave_locked conn wave s).2.
Proof.
  intros Htx. change (wp (leave_locked conn wave) (λ _ s', affects s s') s). unfold leave_locked. apply affects_rest; [by apply quietly_same|].
  apply (hushes_shrink (λ l, set_subscribers (delete conn (lw_subscribers l)) l)); [|intros l; apply hushes_presence].
  intros l. split_and!; [done|apply delete_subseteq|done].
Qed.

Lemma access_pushed l wavelet user u w :
  u ≠ user → may_access (wavelet_mut wavelet (push_participant user) l) u w = true → may_access l u w = true.
Proof.
  intros Hne. unfold may_access, LiveWave.wavelet, wavelet_mut. cbn [lw_wavelets set_wavelets].
  induction (lw_wavelets l) as [|x ws IH]; [done|]. cbn [update_first]. destruct (str_eqb (wl_id x) wavelet); rewrite !find_list_cons.
  - change (wl_id (push_participant user x)) with (wl_id x). destruct (str_eqb (wl_id x) w); [|done].
    rewrite !has_participant_spec. cbn. rewrite elem_of_app, list_elem_of_singleton. by intros [?|?].
  - by destruct (str_eqb (wl_id x) w).
Qed.

(** Whoever is taken into a wavelet does not have the wave open.  The server sends the messages already there to nobody:
    a watcher that is added would go on without them. *)
Definition newcomer l (user : UserId) : Prop := ∀ c sub, lw_subscribers l !! c = Some sub → sub_user_id sub ≠ user.

Lemma add_participant_affects s caller wave wavelet user :
  tx_own (c_live s) → newcomer (c_live s) (user_id user) → affects s (add_participant_locked caller wave wavelet user s).2.
Proof.
  intros Htx Hnew. change (wp (add_participant_locked caller wave wavelet user) (λ _ s', affects s s') s).
  unfold add_participant_locked, guard_access. do 2 wp_step. ask Ha. cbv zeta. ask Hin.
  destruct (LiveWave.wavelet _ _) as [w|] eqn:Hw; [|silent]. destruct (has_participant w _); [silent|]. do 2 wp_step.
  apply wp_bind, wp_db_write; [|silent]. intros db Hdb. cbv beta iota. do 2 wp_step. apply affects_rest.
  - constructor; cbn; [done|done|by eauto| |intros blip lb' Hl; exists lb'; split; [done|apply unchanged_refl]|].
    + by apply insert_participant_inv in Hdb as [[_ ->]|[_ ->]].
    + intros c sub w' Hc. apply access_pushed. by apply (Hnew c sub).
  - apply hushes_bind; [by apply hushes_broadcast|intros; apply hushes_schedule].
Qed.

(** ** All of them *)

(** Edits, opening and leaving are events of their own in a network. *)
Definition told l (c : Locked) : Prop :=
  match c with
  | LSubmit _ _ _ _ | LOpen _ _ | LLeave => False
  | LAddParticipant _ user => newcomer l (user_id user)
  | _ => True
  end.

Lemma execute_affects hash_token request_json user conn wave c s :
  tx_own (c_live s) → db_sound (c_db s) → coherent (c_db s) (c_live s) → well_encoded (c_live s) c → told (c_live s) c →
  affects s (execute hash_token request_json user conn wave c s).2.
Proof.
  intros Htx Hd Hc [_ Hw] Ht. destruct c; try done; cbn [execute]; cbn in Hw, Ht.
  - by apply create_blip_affects.
  - by apply create_comment_affects.
  - by apply reply_to_comment_affects.
  - by apply resolve_comment_affects.
  - by apply delete_blip_affects.
  - by apply set_title_affects.
  - by apply set_mode_affects.
  - by apply add_participant_affects.
  - by apply remove_participant_affects.
  - by apply private_reply_affects.
  - by apply cursor_affects.
  - rewrite answered. by apply reply_affects.
Qed.

End listening.
