(* ===== verification/Network.v ===== *)
(** * Clients and the server together

    Any number of connections of one wave run the client's state machine against the server's own sections, with their
    queues in between, while any other command under the wave's lock may run between their steps.  Every event keeps
    each client synced with the server's document. *)

From S2P Require Import Prelude Tables Strings Unicode Json Attributes Text Delta DeltaSpec DeltaAlg DeltaPush DeltaCanon DeltaIter.
From S2P Require Import DeltaLoops DeltaTransform DeltaTheory DeltaApply DeltaValidate Model Protocol ServerDoc.
From S2P Require Import ServerDocTheory DeltaSequence DocGuarantees Content DocBounds LiveWave LiveWaveTheory Storage OpLog Effects Critical Handlers.
From S2P Require Import Coherence CoherenceLemmas CoherenceMembers CoherenceFrame CoherenceHandlers Submission Audience.
From S2P Require Import App Limit Agent Sections Dispatch Scenario ServerGuarantees Client ClientTheory Listening.

(** ** The network *)

Section network.
Context `{J : Json} `{U : Unicode} `{W : World}.
Context (hash_token : str → str) (request_json : ReplyRequest → str).
Implicit Types s : Crit.
Implicit Types l : LiveWave.
Implicit Types out : Outbound.

#[local] Abbreviation execute := (Sections.execute hash_token request_json).

(** A connection that has the wave open: what it sent and the server has not read, and how much of what the server
    queued for it it has heard. *)
Record Peer := mkPeer {
  peer_user : UserId;
  peer_client : TestClient;
  peer_up : list ClientMessage;
  peer_heard : nat;
}.

(** The wave under its lock, and its peers: nobody else edits it. *)
Record Net := mkNet { net_wave : Crit; net_peers : gmap ConnId Peer }.

Definition inbound s (c : ConnId) (p : Peer) : list ServerMessage := drop (peer_heard p) (sent (c_out s) c).

(** Peers that still watch the wave; one whose queue overflowed was dropped and has to open the wave again. *)
Definition watching s (e : ConnId * Peer) : Prop := is_Some (lw_subscribers (c_live s) !! e.1).
#[global] Instance watching_dec s e : Decision (watching s e).
Proof. unfold watching. apply _. Defined.

Definition still_watching s (peers : gmap ConnId Peer) : gmap ConnId Peer := filter (watching s) peers.

(** The writer takes one message off the queue. *)
Definition drained (c : ConnId) s : Crit :=
  with_wave_out (c_live s)
    (mkOutbound (alter (λ ch, mkChannel (ch_room ch + 1) (ch_sent ch) (ch_kill ch)) c (out_channels (c_out s)))
       (out_slow_disconnects (c_out s))) s.

Inductive Event :=
| Opens (c : ConnId) (user : UserId) (client : TestClient) (marks : gmap BlipId N) (fl : WaveFlags)
| Closes (c : ConnId)
| Types (c : ConnId) (blip : BlipId) (delta : Delta)
| Submits (c : ConnId)
| Hears (c : ConnId)
| Commands (c : ConnId) (user : UserId) (command : Locked).

Definition wave_of s : WaveId := wave_id (lw_wave (c_live s)).

(** Each event is a section of the server, or a step of a client.  A client whose edit is refused has to open the wave
    again. *)
Definition step (e : Event) (net : Net) : Net :=
  let s := net_wave net in
  let peers := net_peers net in
  match e with
  | Opens c user client marks fl =>
      let '(r, s') := open_locked user c (wave_of s) marks fl s in
      mkNet s' (still_watching s'
        (if is_ok r then <[c := mkPeer user client [] (length (sent (c_out s) c))]> peers else peers))
  | Closes c => let '(_, s') := leave_locked c (wave_of s) s in mkNet s' (still_watching s' (delete c peers))
  | Types c blip delta =>
      match peers !! c with
      | None => net
      | Some p =>
          match edit blip delta (peer_client p) with
          | None => net
          | Some (message, client) =>
              mkNet s (<[c := mkPeer (peer_user p) client (peer_up p ++ option_list message) (peer_heard p)]> peers)
          end
      end
  | Submits c =>
      match peers !! c with
      | Some (mkPeer user client (Submit blip revision delta op_id :: up) heard) =>
          let '(r, s') := apply_op c user (mkSubmission blip revision delta op_id) s in
          mkNet s' (still_watching s' (if is_ok r then <[c := mkPeer user client up heard]> peers else delete c peers))
      | _ => net
      end
  | Hears c =>
      match peers !! c with
      | None => net
      | Some p =>
          match inbound s c p with
          | [] => net
          | m :: _ =>
              let '(message, client) := absorb m (peer_client p) in
              mkNet (drained c s)
                (<[c := mkPeer (peer_user p) client (peer_up p ++ option_list message) (S (peer_heard p))]> peers)
          end
      end
  | Commands c user command =>
      let '(_, s') := execute user c (wave_of s) command s in mkNet s' (still_watching s' peers)
  end.

(** A client that opens the wave starts from nothing, under a connection of its own; what it types fits what it shows;
    what it submits is of a size that can be sent, and its op ids are not used twice; whoever a command adds to a wavelet
    does not have the wave open. *)
Definition allowed (e : Event) (net : Net) : Prop :=
  let s := net_wave net in
  match e with
  | Opens c user client _ _ =>
      net_peers net !! c = None ∧ lw_subscribers (c_live s) !! c = None ∧ tc_docs client = ∅
  | Types c blip delta => ∀ p cd, net_peers net !! c = Some p → tc_docs (peer_client p) !! blip = Some cd →
      nonempty delta ∧ validate delta (cl_doc cd) = Ok tt ∧ clean_mops (den delta)
  | Submits c => ∀ user client blip revision delta op_id up heard,
      net_peers net !! c = Some (mkPeer user client (Submit blip revision delta op_id :: up) heard) →
      editable blip delta (c_live s) ∧
      ∀ row, row ∈ db_ops (c_db s) → or_blip_id row = blip → or_op_id row = op_id → op_id = None
  | Commands _ _ command => well_encoded (c_live s) command ∧ told (c_live s) command
  | Closes _ | Hears _ => True
  end.

(** How many units are typed. *)
Definition units (e : Event) : N := match e with Types _ _ delta => inserted delta | _ => 0 end.

(** [n] bounds the length of every text: the server's limit, and what was typed. *)
Inductive runs s0 : N → Net → Prop :=
| runs_start : runs s0 MAX_BLIP_UNITS (mkNet s0 ∅)
| runs_step n net e : runs s0 n net → allowed e net → runs s0 (n + units e) (step e net).

(** ** What a section does to who watches *)

(** The watchers that are left were there, and have these messages more. *)
Definition leaves s s' (new : ConnId → Subscriber → list ServerMessage) : Prop :=
  tx_own (c_live s') ∧ ∀ c sub, lw_subscribers (c_live s') !! c = Some sub →
    lw_subscribers (c_live s) !! c = Some sub ∧ sent (c_out s') c = sent (c_out s) c ++ new c sub.

Lemma presence_leaves s wave :
  tx_own (c_live s) →
  leaves s (cm_presence wave s).2 (λ _ sub, [Presence wave (presence_for (c_live s) (sub_user_id sub))]) ∧
  (cm_presence wave s).1 = Ok tt ∧ c_db (cm_presence wave s).2 = c_db s ∧
  ∃ subs, c_live (cm_presence wave s).2 = set_subscribers subs (c_live s).
Proof.
  intros Htx. pose proof (broadcast_presence_sent (c_live s) (c_out s) wave Htx) as H. unfold cm_presence.
  pose proof (sent_to_tx _ _ _ _ _ Htx H) as Htx'. pose proof (sent_to_live _ _ _ _ _ H) as Hl.
  assert (∀ c sub, lw_subscribers (broadcast_presence (c_live s) (c_out s) wave).1 !! c = Some sub → _) as Hc
    by (intros c sub Hc; exact (sent_to_left _ _ _ _ _ c sub H Hc)).
  destruct (broadcast_presence _ _ _) as [l out]. by split_and!.
Qed.

(** A new watcher hears the snapshot first; nobody hears of an edit. *)
Lemma opened s user conn wave marks fl s' :
  tx_own (c_live s) → lw_subscribers (c_live s) !! conn = None → open_locked user conn wave marks fl s = (Ok tt, s') →
  c_db s' = c_db s ∧ (∃ subs, c_live s' = set_subscribers subs (c_live s)) ∧ tx_own (c_live s') ∧
  ∀ c sub, lw_subscribers (c_live s') !! c = Some sub → ∃ ps,
    if decide (c = conn)
    then sub_user_id sub = user ∧
      sent (c_out s') c = sent (c_out s) c ++ [WaveState (view (c_live s) user marks fl); Presence wave ps]
    else lw_subscribers (c_live s) !! c = Some sub ∧ sent (c_out s') c = sent (c_out s) c ++ [Presence wave ps].
Proof.
  intros Htx Hnew. unfold open_locked, cm_bind, get_live, guard, put_live, cm_send_to. cbn [c_live c_out with_live].
  destruct (may_view (c_live s) user); [|done]. cbv beta iota.
  set (l1 := set_subscribers (<[conn := mkSubscriber user conn None]> (lw_subscribers (c_live s))) (c_live s)).
  assert (tx_own l1) as Htx1 by (intros c sub Hc; unfold l1 in Hc; cbn in Hc; apply lookup_insert_Some in Hc as [[<- <-]|[_ Hc]]; [done|by apply Htx]).
  pose proof (send_to_sent l1 (c_out s) conn (WaveState (view (c_live s) user marks fl)) Htx1) as H.
  pose proof (sent_to_tx _ _ _ _ _ Htx1 H) as Htx2. destruct (sent_to_live _ _ _ _ _ H) as [subs1 E1].
  pose proof (λ c sub, sent_to_left _ _ _ _ _ c sub H) as Hleft. cbn [with_live c_live c_out] in *. fold l1.
  unfold cm_ret. cbv beta iota. fold l1. destruct (send_to l1 (c_out s) conn _) as [l2 out2]. cbn [fst snd] in *.
  match goal with |- cm_presence _ ?x = _ → _ => set (s2 := x) end.
  destruct (presence_leaves s2 wave Htx2) as ([Htx3 Hpres] & _ & Edb & subs & El). intros E. rewrite E in *. cbn [fst snd] in *.
  split_and!; [done|exists subs; by rewrite El; cbn; rewrite E1|done|].
  intros c sub Hc. apply Hpres in Hc as [Hc Es]. exists (presence_for (c_live s2) (sub_user_id sub)).
  apply Hleft in Hc as [Hc Es2]. cbn in Es. rewrite Es, Es2. case_decide as Hd; [subst c|].
  - unfold l1 in Hc. cbn in Hc. rewrite lookup_insert_eq in Hc. injection Hc as <-. split; [done|].
    rewrite bool_decide_eq_true_2 by done. by rewrite <- app_assoc.
  - unfold l1 in Hc. cbn in Hc. rewrite lookup_insert_ne in Hc by done. split; [done|].
    rewrite bool_decide_eq_false_2 by done. by rewrite app_nil_r.
Qed.

(** Everybody who may read the message hears the op, its author the acknowledgement. *)
Lemma announced s s' conn author blip revision delta op_id :
  db_sound (c_db s) → coherent (c_db s) (c_live s) → tx_own (c_live s) →
  committed_and_announced conn author blip revision delta op_id s s' →
  ∃ lb entry doc, lw_blips (c_live s) !! blip = Some lb ∧ apply (lb_doc lb) revision delta author = Ok (entry, doc) ∧
    too_large doc = false ∧ may_access (c_live s) author (blip_wavelet_id (lb_meta lb)) = true ∧ tx_own (c_live s') ∧
    (∃ lb', lw_blips (c_live s') = <[blip := lb']> (lw_blips (c_live s)) ∧ lb_doc lb' = doc ∧
       blip_wavelet_id (lb_meta lb') = blip_wavelet_id (lb_meta lb)) ∧
    (∀ u w, may_access (c_live s') u w = may_access (c_live s) u w) ∧
    ∃ wave, ∀ c sub, lw_subscribers (c_live s') !! c = Some sub →
      lw_subscribers (c_live s) !! c = Some sub ∧
      sent (c_out s') c = sent (c_out s) c ++
        (if decide (c = conn) then [Ack wave blip (rev_revision entry) (rev_delta entry) op_id]
         else if may_access (c_live s) (sub_user_id sub) (blip_wavelet_id (lb_meta lb))
           then [SOp wave blip (rev_revision entry) author (rev_delta entry)] else []).
Proof.
  intros Hd Hc Htx ((lb0 & Hl0 & Hmay) & lb & entry & doc & ts & Hl & Ha & Hbig & _ & E & _).
  assert (lb0 = lb) as -> by congruence. destruct (co_docs _ _ Hc _ _ Hl) as (Hid & _).
  exists lb, entry, doc. unfold announce in E. cbn [fst snd] in E.
  set (l1 := wavelet_mut _ _ _) in E. assert (tx_own l1) as Htx1 by exact Htx.
  assert (∀ u w, may_access l1 u w = may_access (c_live s) u w) as Hacc by (intros u w; unfold l1; by rewrite access_touch).
  cbn [edited set_meta lb_meta record_contributor] in E.
  match type of E with context [broadcast l1 (c_out s) ?w ?sk ?m] => pose proof (broadcast_sent l1 (c_out s) w sk m Htx1) as H1;
    pose proof (λ c sub, sent_to_left _ _ _ _ _ c sub H1) as L1; pose proof (sent_to_tx _ _ _ _ _ Htx1 H1) as Htx2;
    destruct (sent_to_live _ _ _ _ _ H1) as [subs1 E1]; destruct (broadcast l1 (c_out s) w sk m) as [l2 out2] end.
  cbn [fst snd] in *.
  match type of E with _ = send_to l2 out2 ?cc ?m => pose proof (send_to_sent l2 out2 cc m Htx2) as H2;
    pose proof (λ c sub, sent_to_left _ _ _ _ _ c sub H2) as L2; pose proof (sent_to_tx _ _ _ _ _ Htx2 H2) as Htx3;
    destruct (sent_to_live _ _ _ _ _ H2) as [subs2 E2]; rewrite <- E in * end.
  cbn [fst snd] in *. assert (c_live s' = set_subscribers subs2 l1) as E3 by (rewrite E2, E1; done).
  split_and!; [done..| | |].
  - exists (edited ts author doc lb). rewrite E3. unfold l1. cbn. rewrite Hid. by split_and!.
  - intros u w. rewrite E3. exact (Hacc u w).
  - exists (blip_wave_id (lb_meta lb)). intros c sub Hs. apply L2 in Hs as [Hs ->]. apply L1 in Hs as [Hs ->].
    split; [exact Hs|]. rewrite <- app_assoc. f_equal. unfold may_receive. cbn [fst snd]. rewrite Hacc.
    change (blip_wavelet_id (lb_meta (edited ts author doc lb))) with (blip_wavelet_id (lb_meta lb)).
    case_decide as Hd'; [subst c; rewrite !bool_decide_eq_true_2 by done|rewrite !bool_decide_eq_false_2 by congruence]; cbn.
    + by rewrite <- Hid.
    + rewrite app_nil_r. rewrite <- Hid. done.
Qed.

(** ** The snapshot *)

Lemma insert_views blip cd bs docs :
  (∀ v, v ∈ bs → bv_id v = blip → doc_of_view v = cd) → docs !! blip = Some cd ∨ (∃ v, v ∈ bs ∧ bv_id v = blip) →
  foldl insert_view docs bs !! blip = Some cd.
Proof.
  revert docs. induction bs as [|v bs IH]; intros docs Hall Hex; cbn.
  { destruct Hex as [?|(v & Hv & _)]; [done|]. by apply elem_of_nil in Hv. }
  apply IH; [intros v' Hv'; apply Hall; by right|]. unfold insert_view.
  destruct (decide (bv_id v = blip)) as [E|Hne].
  - left. rewrite E, lookup_insert_eq. f_equal. apply Hall; [by left|done].
  - destruct Hex as [?|(v' & [->|Hv']%elem_of_cons & E)]; [left; by rewrite lookup_insert_ne|done|right; by exists v'].
Qed.

Lemma foldl_nested {A B C} (f : A → B → A) (g : C → list B) a cs : foldl (λ a c, foldl f a (g c)) a cs = foldl f a (cs ≫= g).
Proof. revert a. induction cs as [|c cs IH]; intros a; [done|]. cbn. by rewrite IH, foldl_app. Qed.

Lemma snapshot_shows db l user marks fl blip lb client :
  coherent db l → lw_blips l !! blip = Some lb → may_access l user (blip_wavelet_id (lb_meta lb)) = true →
  tc_docs (absorb (WaveState (view l user marks fl)) client).2 !! blip =
    Some (mkClientDoc (doc_content (lb_doc lb)) (doc_revision (lb_doc lb)) None None).
Proof.
  intros Hc Hl Hacc. cbn [absorb snd on_docs tc_docs]. rewrite foldl_nested. apply insert_views.
  - intros v Hv E. apply list_elem_of_bind in Hv as (wv & Hv & Hw).
    apply list_elem_of_fmap in Hw as (w & -> & _). apply list_elem_of_fmap in Hv as (lb' & -> & Hb).
    apply elem_of_blips_in in Hb as [[id Hid] _]. destruct (co_docs _ _ Hc _ _ Hid) as (E' & Ec & Er & _). cbn in E.
    assert (lb' = lb) as -> by congruence. unfold doc_of_view. cbn. by rewrite Ec, Er.
  - right. destruct (may_access_wavelet _ _ _ Hacc) as (w & Hw & E & Hu). exists (blip_view (lb_meta lb) marks). split.
    + apply list_elem_of_bind. exists (view_wavelet l marks w). split.
      * apply list_elem_of_fmap. exists lb. split; [done|]. apply elem_of_blips_in. split; [by exists blip|done].
      * apply list_elem_of_fmap. exists w. split; [done|]. by apply elem_of_visible.
    + by destruct (co_docs _ _ Hc _ _ Hl) as (? & _).
Qed.

(** ** The invariant *)

(** What a client knows of, or will hear of, storage has seen. *)
Definition knows db (client : TestClient) (up : list ClientMessage) (down : list ServerMessage) : Prop := ∀ b,
  is_Some (tc_docs client !! b) ∨ (∃ m, m ∈ down ∧ b ∈ names m) ∨ (∃ x, x ∈ up ∧ is_Some (submits b x)) →
  blip_exists db b = true.

Lemma knows_grows db db' client up down new :
  (∀ b, blip_exists db b = true → blip_exists db' b = true) → (∀ m b, m ∈ new → b ∈ names m → blip_exists db' b = true) →
  knows db client up down → knows db' client up (down ++ new).
Proof.
  intros Hr Hn Hk b [H|[(m & [Hm|Hm]%elem_of_app & Hb)|H]]; [by apply Hr, Hk; left| |by eapply Hn|by apply Hr, Hk; do 2 right].
  apply Hr, Hk. right. left. by exists m.
Qed.

Lemma knows_pop db client m up down : knows db client (m :: up) down → knows db client up down.
Proof. intros Hk b [H|[H|(x & Hx & Hs)]]; apply Hk; [by left|by right; left|]. do 2 right. exists x. split; [by right|done]. Qed.

Lemma knows_hears db client up m down :
  knows db client up (m :: down) → knows db (absorb m client).2 (up ++ option_list (absorb m client).1) down.
Proof.
  intros Hk b H. destruct (decide (b ∈ names m)) as [Hb|Hb]; [apply Hk; right; left; exists m; split; [by left|done]|].
  destruct (absorb_elsewhere b m client Hb) as [Ed Ho]. rewrite Ed in H. apply Hk. destruct H as [H|[(m' & Hm & Hb')|(x & Hx & Hs)]].
  - by left.
  - right. left. exists m'. split; [by right|done].
  - apply elem_of_app in Hx as [Hx|Hx]; [do 2 right; by exists x|]. destruct Ho as [Ho|(y & Ho & Hy)]; rewrite Ho in Hx.
    + by apply elem_of_nil in Hx.
    + apply list_elem_of_singleton in Hx as ->. rewrite Hy in Hs. by destruct Hs.
Qed.

Lemma knows_types db blip delta client message client' up down :
  edit blip delta client = Some (message, client') → knows db client up down → knows db client' (up ++ option_list message) down.
Proof.
  intros He Hk b H. destruct (tc_docs client !! blip) as [cd|] eqn:Hcd; [|unfold edit in He; by rewrite Hcd in He].
  destruct (decide (b = blip)) as [->|Hne]; [apply Hk; left; by exists cd|]. pose proof (edit_docs _ _ _ _ _ _ Hcd He) as Hd.
  apply Hk. destruct (typed_into cd delta) as [cd' send], Hd as [Ed Ho]. rewrite Ed, lookup_insert_ne in H by done.
  destruct H as [H|[H|(x & [Hx|Hx]%elem_of_app & Hs)]]; [by left|by right; left|by do 2 right; exists x|].
  destruct send as [d|]; [destruct Ho as [id ->]|rewrite Ho in Hx; by apply elem_of_nil in Hx].
  apply list_elem_of_singleton in Hx as ->. cbn in Hs. rewrite decide_False in Hs by done. by destruct Hs.
Qed.

(** A message nobody has seen. *)
Lemma knows_nothing db client up down b :
  knows db client up down → blip_exists db b = false →
  tc_docs client !! b = None ∧ on_its_way b up None ∧ Forall (λ m, b ∉ names m) down.
Proof.
  intros Hk Hb. assert (∀ P : Prop, (P → blip_exists db b = true) → ¬ P) as Hno by (intros P H HP; by rewrite (H HP) in Hb).
  split_and!.
  - apply eq_None_not_Some, Hno. intros H. apply Hk. by left.
  - unfold on_its_way. destruct (omap (submits b) up) as [|y ys] eqn:E; [done|exfalso].
    assert (y ∈ omap (submits b) up) as (x & Hx & Hy)%list_elem_of_omap by (rewrite E; by left).
    revert Hx. apply Hno. intros Hx. apply Hk. do 2 right. exists x. by rewrite Hy.
  - apply list.Forall_forall. intros m Hm. apply Hno. intros H. apply Hk. right. left. by exists m.
Qed.

Section kept.
Context (db0 : Db) (w0 : WaveId).

(** A peer watches under its own name, and attends to every message it may read. *)
Definition peer_ok n s (c : ConnId) (p : Peer) : Prop :=
  (∃ sub, lw_subscribers (c_live s) !! c = Some sub ∧ sub_user_id sub = peer_user p) ∧
  (peer_heard p ≤ length (sent (c_out s) c))%nat ∧
  knows (c_db s) (peer_client p) (peer_up p) (inbound s c p) ∧
  ∀ blip lb, lw_blips (c_live s) !! blip = Some lb →
    may_access (c_live s) (peer_user p) (blip_wavelet_id (lb_meta lb)) = true →
    attends n (lb_doc lb) blip (peer_client p) (peer_up p) (inbound s c p).

Record net_ok n (net : Net) : Prop := {
  no_inv : inv db0 w0 (net_wave net);
  no_tx : tx_own (c_live (net_wave net));
  no_units : (MAX_BLIP_UNITS ≤ n)%N;
  no_peers : ∀ c p, net_peers net !! c = Some p → peer_ok n (net_wave net) c p;
}.

Lemma inv_doc s blip lb : inv db0 w0 s → lw_blips (c_live s) !! blip = Some lb → doc_ok (lb_doc lb) ∧ good_text (doc_content (lb_doc lb)).
Proof.
  intros (Hd & Hc & _) Hl. destruct (co_docs _ _ Hc _ _ Hl) as (_ & _ & _ & [Hok _]). split; [done|]. by eapply stored_text.
Qed.

Lemma inv_row s blip lb : inv db0 w0 s → lw_blips (c_live s) !! blip = Some lb → blip_exists (c_db s) blip = true.
Proof. intros (_ & Hc & _) Hl. apply blip_exists_in. exists (lb_meta lb). by destruct (blip_row_here _ _ _ _ Hc Hl) as (? & ? & _). Qed.

(** A peer that had no part in the section: it heard some messages more. *)
Lemma peer_carried n n' s s' c p new :
  peer_ok n s c p →
  (∃ sub, lw_subscribers (c_live s') !! c = Some sub ∧ sub_user_id sub = peer_user p) →
  sent (c_out s') c = sent (c_out s) c ++ new →
  (∀ b, blip_exists (c_db s) b = true → blip_exists (c_db s') b = true) →
  (∀ m b, m ∈ new → b ∈ names m → blip_exists (c_db s') b = true) →
  (∀ blip lb', lw_blips (c_live s') !! blip = Some lb' →
     may_access (c_live s') (peer_user p) (blip_wavelet_id (lb_meta lb')) = true →
     ∀ down, knows (c_db s) (peer_client p) (peer_up p) down →
     (∀ lb, lw_blips (c_live s) !! blip = Some lb →
        may_access (c_live s) (peer_user p) (blip_wavelet_id (lb_meta lb)) = true →
        attends n (lb_doc lb) blip (peer_client p) (peer_up p) down) →
     attends n' (lb_doc lb') blip (peer_client p) (peer_up p) (down ++ new)) →
  peer_ok n' s' c p.
Proof.
  intros (_ & Hle & Hk & Hat) Hs Es Hr Hn Hb. split; [done|]. split; [rewrite Es, length_app; lia|].
  assert (inbound s' c p = inbound s c p ++ new) as -> by (unfold inbound; by rewrite Es, drop_app_le).
  split; [by eapply knows_grows|]. intros blip lb' Hl' Hacc. apply Hb; [done..|]. intros lb Hl Hacc'. by apply Hat.
Qed.

(** What every section leaves alone. *)
Lemma peer_hush n n' s s' c p new :
  (n ≤ n')%N → inv db0 w0 s → inv db0 w0 s' → peer_ok n s c p →
  (∀ sub, lw_subscribers (c_live s) !! c = Some sub → lw_subscribers (c_live s') !! c = Some sub) →
  sent (c_out s') c = sent (c_out s) c ++ new → Forall quiet new → c_db s' = c_db s →
  lw_wavelets (c_live s') = lw_wavelets (c_live s) →
  lw_blips (c_live s') = lw_blips (c_live s) → peer_ok n' s' c p.
Proof.
  intros Hn Hi Hi' Hp Hs' Es Hq Ed Ew Hb. pose proof Hp as ((sub & Hsub & Hu) & _). apply (peer_carried n n' s s' c p new Hp); [|done|..].
  - exists sub. split; [by apply Hs'|done].
  - by rewrite Ed.
  - intros m b Hm. rewrite list.Forall_forall in Hq. rewrite (Hq m Hm). by intros ?%elem_of_nil.
  - intros blip lb Hl Hacc down _ Hat. rewrite Hb in Hl. destruct (inv_doc s blip lb Hi Hl) as [Hok _].
    apply (attends_hush n n' (lb_doc lb)); [done..|by exists 0%nat| |].
    + eapply list.Forall_impl; [exact Hq|]. intros m. apply quiet_unconcerned.
    + apply Hat; [done|]. unfold may_access, wavelet in *. by rewrite <- Ew.
Qed.

(** Who watches a section that tells of what it adds. *)
Lemma peer_affected n s s' c p :
  (MAX_BLIP_UNITS ≤ n)%N → inv db0 w0 s → inv db0 w0 s' → affects s s' → peer_ok n s c p →
  is_Some (lw_subscribers (c_live s') !! c) → peer_ok n s' c p.
Proof.
  intros Hn Hi Hi' Ha Hp [sub' Hs']. destruct (af_heard _ _ Ha c sub' Hs') as (sub & new & Hs & Eu & Es & Hnew & Hinf).
  pose proof Hp as ((sub0 & Hs0 & Hu) & _). assert (sub0 = sub) as -> by congruence. rewrite Eu, Hu in Hinf.
  apply (peer_carried n n s s' c p new Hp); [exists sub'; by rewrite Eu|done|apply Ha|done|].
  intros blip lb' Hl' Hacc down Hk Hat. destruct (inv_doc s' blip lb' Hi' Hl') as [Hok' [_ Ht']].
  destruct (Hinf blip lb' Hl' Hacc) as [(lb & Hl & (Em & Ec & Er & Eh & _) & Hacc0 & Hq)|(Hf & before & m & rest & -> & Hb & Hr & Hm)].
  - destruct (inv_doc s blip lb Hi Hl) as [Hok _]. apply (attends_hush n n (lb_doc lb)); try done. by apply Hat.
  - destruct (knows_nothing _ _ _ _ _ Hk Hf) as (Hd & Ho & Hdown). apply attends_new; try done. lia.
Qed.

(** ** Every event keeps it *)

Lemma peers_left s' peers c p : still_watching s' peers !! c = Some p → peers !! c = Some p ∧ ∃ sub, lw_subscribers (c_live s') !! c = Some sub.
Proof. intros [H [sub Hw]]%map_lookup_filter_Some. split; [done|]. by exists sub. Qed.

Lemma affected_ok n net s' peers :
  net_ok n net → inv db0 w0 s' → affects (net_wave net) s' → (∀ c p, peers !! c = Some p → net_peers net !! c = Some p) →
  net_ok n (mkNet s' (still_watching s' peers)).
Proof.
  intros [Hi Htx Hn Hp] Hi' Ha Hsub. constructor; [done|apply Ha|done|].
  intros c p [Hc Hs]%peers_left. apply (peer_affected n (net_wave net)); try done. by apply Hp, Hsub.
Qed.

Lemma refused_affects s s' : tx_own (c_live s) → nothing_happened s s' → affects s s'.
Proof.
  intros Htx (Ed & Eo & _ & _ & Es & Ew & _ & Hb). apply (affects_quiet s s' s'); [constructor|apply listening_refl].
  - done.
  - unfold tx_own. by rewrite Es.
  - rewrite Es. by eauto.
  - by rewrite Ed.
  - intros blip lb' Hl. specialize (Hb blip). rewrite Hl in Hb. inversion Hb; subst. eauto.
  - unfold may_access, wavelet. by rewrite Ew.
  - unfold tx_own. by rewrite Es.
Qed.

Lemma commands_ok n net c user command :
  net_ok n net → allowed (Commands c user command) net → net_ok n (step (Commands c user command) net).
Proof.
  intros Hok [Hw Ht]. pose proof Hok as [Hi Htx _ _]. cbn [step]. set (s := net_wave net) in *.
  pose proof Hi as (Hd & Hc & [= Hwho _] & _).
  assert (inv db0 w0 (execute user c (wave_of s) command s).2) as Hi'
    by (unfold wave_of; revert Hi; rewrite <- Hwho; intros Hi; by apply execute_inv).
  pose proof (execute_affects hash_token request_json user c (wave_of s) command s Htx Hd Hc Hw Ht) as Ha.
  destruct (execute _ _ _ _ _) as [r s']. by apply (affected_ok n net).
Qed.

Lemma open_refused s user conn wave marks fl e s' : open_locked user conn wave marks fl s = (Err e, s') → s' = s.
Proof.
  unfold open_locked, cm_bind, get_live, guard, put_live, cm_send_to, cm_presence. destruct (may_view _ _); [|by intros [= _ <-]].
  unfold cm_ret. cbv beta iota. destruct (send_to _ _ _ _) as [l out]. cbv beta iota. by destruct (broadcast_presence _ _ _).
Qed.

Lemma view_names db l user marks fl b :
  coherent db l → b ∈ names (WaveState (view l user marks fl)) → blip_exists db b = true.
Proof.
  intros Hc Hb. cbn in Hb. apply list_elem_of_bind in Hb as (wv & Hb & Hw). apply list_elem_of_fmap in Hw as (w & -> & _).
  apply list_elem_of_fmap in Hb as (v & -> & Hv). cbn in Hv. apply list_elem_of_fmap in Hv as (lb & -> & Hlb).
  apply elem_of_blips_in in Hlb as [[id Hl] _]. destruct (blip_row_here _ _ _ _ Hc Hl) as (Hin & Hid & _).
  apply blip_exists_in. by exists (lb_meta lb).
Qed.

(** A fresh client waits for the snapshot. *)
Lemma opening_peer n s s' c user client marks fl sub ps :
  inv db0 w0 s → (MAX_BLIP_UNITS ≤ n)%N → tc_docs client = ∅ → c_db s' = c_db s → (∃ subs, c_live s' = set_subscribers subs (c_live s)) →
  lw_subscribers (c_live s') !! c = Some sub → sub_user_id sub = user →
  sent (c_out s') c = sent (c_out s) c ++ [WaveState (view (c_live s) user marks fl); Presence (wave_of s) ps] →
  peer_ok n s' c (mkPeer user client [] (length (sent (c_out s) c))).
Proof.
  intros Hi Hn Hdocs Ed [subs El] Hs Hu Es. pose proof Hi as (_ & Hco & _). split; [by exists sub|].
  assert (inbound s' c (mkPeer user client [] (length (sent (c_out s) c))) =
    [WaveState (view (c_live s) user marks fl); Presence (wave_of s) ps]) as Ein by (unfold inbound; cbn; by rewrite Es, drop_app_length).
  rewrite Ein. cbn [peer_heard peer_client peer_up peer_user]. split; [rewrite Es, length_app; lia|]. split.
  - intros b [H|[(m & Hm & Hb)|(x & Hx & _)]]; [rewrite Hdocs, lookup_empty in H; by destruct H| |by apply elem_of_nil in Hx].
    rewrite Ed. apply elem_of_cons in Hm as [->|Hm]; [by eapply view_names|]. apply list_elem_of_singleton in Hm as ->.
    by apply elem_of_nil in Hb.
  - intros blip lb Hb Hacc. rewrite El in Hb, Hacc. destruct (inv_doc s blip lb Hi Hb) as [Hok [_ Ht]].
    right. split_and!; [by rewrite Hdocs|done|]. exists []. do 2 eexists. exists (shown lb), [].
    split_and!; [done|done| |apply no_news; repeat constructor; by intros []|by apply synced_joins; [|lia]].
    intros client' _. split; [|done]. by eapply snapshot_shows.
Qed.

Lemma opens_ok n net c user client marks fl :
  net_ok n net → allowed (Opens c user client marks fl) net → net_ok n (step (Opens c user client marks fl) net).
Proof.
  intros Hok (Hnew & Hsub & Hdocs). pose proof Hok as [Hi Htx Hn Hp]. cbn [step]. set (s := net_wave net) in *.
  pose proof (open_locked_inv db0 w0 s user c (wave_of s) marks fl Hi) as Hi'.
  destruct (open_locked _ _ _ _ _ s) as [[[]|e] s'] eqn:E; cbn [is_ok snd] in *.
  2: { apply open_refused in E as ->. apply (affected_ok n net); [done..| |done]. by apply affects_same. }
  destruct (opened _ _ _ _ _ _ _ Htx Hsub E) as (Ed & Hsubs & Htx' & Hleft). constructor; [done..|].
  intros c' p [Hc [sub Hs]]%peers_left. cbn [net_wave]. destruct (Hleft c' sub Hs) as [ps Hl]. case_decide as Hd.
  - subst c'. rewrite lookup_insert_eq in Hc. injection Hc as <-. destruct Hl. by eapply opening_peer.
  - rewrite lookup_insert_ne in Hc by done. destruct Hl as [Hl Es], Hsubs as [subs El].
    apply (peer_hush n n s s' c' p [Presence (wave_of s) ps]); try done.
    + by apply Hp.
    + intros sub' ?. congruence.
    + by repeat constructor.
    + by rewrite El.
    + by rewrite El.
Qed.

Lemma closes_ok n net c : net_ok n net → net_ok n (step (Closes c) net).
Proof.
  intros Hok. pose proof Hok as [Hi Htx _ _]. cbn [step]. set (s := net_wave net) in *.
  pose proof (leave_locked_inv db0 w0 s c (wave_of s) Hi) as Hi'. pose proof (leave_affects s c (wave_of s) Htx) as Ha.
  destruct (leave_locked _ _ s) as [r s']. apply (affected_ok n net); [done..|]. by intros c' p [_ ?]%lookup_delete_Some.
Qed.

Lemma peer_grows n n' s c p : (n ≤ n')%N → inv db0 w0 s → peer_ok n s c p → peer_ok n' s c p.
Proof.
  intros Hn Hi Hp. apply (peer_hush n n' s s c p []); try done. by rewrite app_nil_r.
Qed.

(** Nothing but the client and its queue changes. *)
Lemma types_ok n net c blip delta :
  roomy (n + inserted delta) → net_ok n net → allowed (Types c blip delta) net → net_ok (n + inserted delta) (step (Types c blip delta) net).
Proof.
  intros Hs [Hi Htx Hn Hp] Ha. assert (net_ok (n + inserted delta) net) as Hsame.
  { constructor; [done..|lia|]. intros c' p Hc. apply (peer_grows n); [lia|done|by apply Hp]. }
  cbn [step]. destruct (net_peers net !! c) as [p|] eqn:Hc; [|done].
  destruct (edit blip delta (peer_client p)) as [[m client]|] eqn:He; [|done]. constructor; [done..|lia|].
  intros c' p'. cbn [net_peers net_wave]. intros [[<- <-]|[_ Hc']]%lookup_insert_Some; [|by apply Hsame].
  destruct (Hp c p Hc) as (Hsub & Hle & Hk & Hat). split; [done|]. split; [done|]. split; [by eapply knows_types|]. cbn. intros blip' lb Hb Hacc.
  specialize (Hat blip' lb Hb Hacc). unfold inbound in *. cbn. eapply attends_types; [done|exact Hat|exact He|].
  intros cd Hcd <-. destruct (Ha p cd Hc Hcd) as (Hne & Hv & Hcl). split_and!; [done| |done|done].
  apply validate_valid; [|done]. destruct Hat as [(cd' & xs & o & Hcd' & _ & _ & Hy)|(E & _)]; [|congruence].
  assert (cd' = cd) as -> by congruence. eapply (synced_doc_good n); [unfold roomy in *; lia|exact Hy].
Qed.

Lemma drained_sent s c c' : sent (c_out (drained c s)) c' = sent (c_out s) c'.
Proof.
  unfold sent, drained. cbn. destruct (decide (c' = c)) as [->|Hne]; [rewrite lookup_alter_eq|by rewrite lookup_alter_ne].
  by destruct (out_channels (c_out s) !! c).
Qed.

Lemma hears_ok n net c : roomy n → net_ok n net → net_ok n (step (Hears c) net).
Proof.
  intros Hs Hok. pose proof Hok as [Hi Htx Hn Hp]. cbn [step]. destruct (net_peers net !! c) as [p|] eqn:Hc; [|done].
  destruct (inbound (net_wave net) c p) as [|m rest] eqn:Em; [done|].
  destruct (absorb m (peer_client p)) as [out client] eqn:Ea. constructor; [done..|].
  intros c' p'. cbn [net_peers net_wave]. intros [[<- <-]|[_ Hc']]%lookup_insert_Some.
  - destruct (Hp c p Hc) as (Hsub & Hle & Hk & Hat). rewrite Em in Hk, Hat. split; [done|]. rewrite drained_sent.
    unfold inbound in *. rewrite drained_sent. cbn [peer_heard peer_client peer_up peer_user].
    assert (drop (S (peer_heard p)) (sent (c_out (net_wave net)) c) = rest) as -> by (rewrite <- Nat.add_1_r, <- drop_drop, Em; done).
    split_and!.
    + apply (f_equal length) in Em. rewrite length_drop in Em. cbn in Em. lia.
    + apply knows_hears in Hk. by rewrite Ea in Hk.
    + intros blip lb Hb Hacc. specialize (Hat blip lb Hb Hacc). apply attends_hears in Hat; [|done]. by rewrite Ea in Hat.
  - destruct (Hp c' p' Hc') as (Hsub & Hle & Hat). split; [done|]. rewrite drained_sent. split; [done|].
    unfold inbound. rewrite drained_sent. exact Hat.
Qed.

Lemma attends_pop n sd blip m client up down :
  submits blip m = None → attends n sd blip client (m :: up) down → attends n sd blip client up down.
Proof.
  intros Hm. unfold attends, follows, awaits, on_its_way. cbn [omap list_omap]. by rewrite Hm.
Qed.

(** Whoever committed it, it is the change the client has in flight carried over what came before. *)
Lemma submission_commits n s c user client blip r delta op up heard lb entry doc :
  roomy n → inv db0 w0 s → peer_ok n s c (mkPeer user client (Submit blip r delta op :: up) heard) →
  editable blip delta (c_live s) → lw_blips (c_live s) !! blip = Some lb →
  may_access (c_live s) user (blip_wavelet_id (lb_meta lb)) = true →
  apply (lb_doc lb) r delta user = Ok (entry, doc) → too_large doc = false → (MAX_BLIP_UNITS ≤ n)%N →
  commits n (lb_doc lb) entry doc ∧ (total (doc_content doc) ≤ n)%N ∧
  ∀ w id, attends n doc blip client up
    (inbound s c (mkPeer user client up heard) ++ [Ack w blip (rev_revision entry) (rev_delta entry) id]).
Proof.
  intros Hs Hi (_ & _ & _ & Hat) [_ Hmax] Hl Hacc Ha Hbig Hn. specialize (Hat blip lb Hl Hacc). cbn in Hat.
  destruct Hat as [Hf|(_ & Ho & _)]; [|unfold on_its_way in Ho; cbn in Ho; by rewrite decide_True in Ho]. destruct (inv_doc s blip lb Hi Hl) as [Hok _].
  pose proof Ha as [[Hold _] _]%apply_inv.
  destruct (follows_accepted n (lb_doc lb) blip client up _ r delta op user Hok Hs (Hmax _ Hl) Hf Hold) as (entry' & doc' & Ha' & Hc & Hf').
  assert (entry' = entry ∧ doc' = doc) as [-> ->] by (rewrite Ha in Ha'; by injection Ha').
  assert (total (doc_content doc) ≤ n)%N as Ht.
  { unfold too_large in Hbig. apply orb_false_iff in Hbig as [Hbig%N.ltb_ge _]. apply delta_len_small in Hbig. lia. }
  split_and!; [done..|]. intros w id. left. by apply Hf'.
Qed.

(** What becomes of a submission: it is committed and everybody who may read it is told, or it changes nothing. *)
Lemma submit_outcome n net c user client blip r delta op_id up heard :
  net_ok n net → allowed (Submits c) net →
  net_peers net !! c = Some (mkPeer user client (Submit blip r delta op_id :: up) heard) →
  let s := net_wave net in let '(res, s') := apply_op c user (mkSubmission blip r delta op_id) s in
  inv db0 w0 s' ∧
  match res with
  | Ok _ => committed_and_announced c user blip r delta op_id s s'
  | Err _ => nothing_happened s s'
  end.
Proof.
  intros [Hi Htx Hn Hp] Hallow Hc. cbn zeta. set (s := net_wave net) in *.
  destruct (Hallow _ _ _ _ _ _ _ _ Hc) as [Hed Hfresh]. pose proof Hi as (Hdb & Hco & _).
  pose proof (apply_op_inv c user blip r delta op_id db0 w0 s Hi Hed) as Hi'.
  assert (wp (apply_op c user (mkSubmission blip r delta op_id)) (λ r' s', match r' with
    | Err _ => nothing_happened s s'
    | Ok _ => acknowledged_again c user blip op_id s s' ∨ committed_and_announced c user blip r delta op_id s s'
    end) s) as Hout by (apply wp_apply_op; [done..|intros e s' H; exact H|by left|by right]).
  unfold wp in Hout. unfold the_edit in Hi'. destruct (apply_op _ _ _ s) as [[[]|e] s']; cbn [fst snd] in *; [|done].
  destruct Hout as [(_ & op & row & -> & Hrow & Eb & Eo & _)|Hout]; [by specialize (Hfresh row Hrow Eb Eo)|done].
Qed.

(** Its author. *)
Lemma author_hears n s s' c user client blip r delta op up heard lb entry doc lb' w id :
  let p := mkPeer user client (Submit blip r delta op :: up) heard in
  roomy n → inv db0 w0 s → inv db0 w0 s' → (MAX_BLIP_UNITS ≤ n)%N → peer_ok n s c p →
  editable blip delta (c_live s) → lw_blips (c_live s) !! blip = Some lb →
  may_access (c_live s) user (blip_wavelet_id (lb_meta lb)) = true → apply (lb_doc lb) r delta user = Ok (entry, doc) →
  too_large doc = false → lw_blips (c_live s') = <[blip := lb']> (lw_blips (c_live s)) → lb_doc lb' = doc →
  (∀ u w, may_access (c_live s') u w = may_access (c_live s) u w) →
  (∀ b, blip_exists (c_db s) b = true → blip_exists (c_db s') b = true) →
  (∃ sub, lw_subscribers (c_live s') !! c = Some sub ∧ sub_user_id sub = user) →
  sent (c_out s') c = sent (c_out s) c ++ [Ack w blip (rev_revision entry) (rev_delta entry) id] →
  peer_ok n s' c (mkPeer user client up heard).
Proof.
  intros p Hs Hi Hi' Hn Hp Hed Hl Hacc Ha Hbig Eb' Edoc Eacc Hr Hsub Es.
  destruct (submission_commits n s c user client blip r delta op up heard lb entry doc) as (Hcm & Ht & Hown); try done.
  destruct Hp as (_ & Hle & Hk & Hat). split; [done|]. cbn [p peer_heard peer_user peer_client peer_up] in *.
  assert (inbound s' c (mkPeer user client up heard) =
    inbound s c (mkPeer user client up heard) ++ [Ack w blip (rev_revision entry) (rev_delta entry) id]) as Ein
    by (unfold inbound; cbn; by rewrite Es, drop_app_le).
  rewrite Ein. split; [rewrite Es, length_app; lia|]. split.
  - apply (knows_grows (c_db s)); [done| |by eapply knows_pop]. intros m b ->%list_elem_of_singleton ->%list_elem_of_singleton.
    apply Hr. by apply (inv_row s blip lb).
  - intros b lb2 Hl2 Hacc2. rewrite Eb' in Hl2. rewrite Eacc in Hacc2. destruct (decide (b = blip)) as [->|Hne].
    + rewrite lookup_insert_eq in Hl2. injection Hl2 as <-. rewrite Edoc. apply Hown.
    + rewrite lookup_insert_ne in Hl2 by done. specialize (Hat b lb2 Hl2 Hacc2). apply attends_pop in Hat; [|cbn; by rewrite decide_False].
      destruct (inv_doc s b lb2 Hi Hl2) as [Hok2 _].
      apply (attends_hush n n (lb_doc lb2)); try done; [by exists 0%nat|]. constructor; [|constructor].
      intros E%list_elem_of_singleton. congruence.
Qed.

(** Anybody else. *)
Lemma other_hears n s s' c p author blip lb entry doc lb' w :
  inv db0 w0 s → inv db0 w0 s' → peer_ok n s c p → lw_blips (c_live s) !! blip = Some lb →
  commits n (lb_doc lb) entry doc → (total (doc_content doc) ≤ n)%N →
  lw_blips (c_live s') = <[blip := lb']> (lw_blips (c_live s)) → lb_doc lb' = doc →
  blip_wavelet_id (lb_meta lb') = blip_wavelet_id (lb_meta lb) → (∀ u w, may_access (c_live s') u w = may_access (c_live s) u w) →
  (∀ b, blip_exists (c_db s) b = true → blip_exists (c_db s') b = true) →
  (∃ sub, lw_subscribers (c_live s') !! c = Some sub ∧ sub_user_id sub = peer_user p) →
  sent (c_out s') c = sent (c_out s) c ++
    (if may_access (c_live s) (peer_user p) (blip_wavelet_id (lb_meta lb))
     then [SOp w blip (rev_revision entry) author (rev_delta entry)] else []) →
  peer_ok n s' c p.
Proof.
  intros Hi Hi' Hp Hl Hcm Ht Eb' Edoc Ew Eacc Hr Hsub Es. destruct (inv_doc s blip lb Hi Hl) as [Hokd _].
  eapply (peer_carried n n s s' c p); [exact Hp|exact Hsub|exact Es|exact Hr| |].
  - intros m b Hm Hb. destruct (may_access _ _ _); [|by apply elem_of_nil in Hm].
    apply list_elem_of_singleton in Hm as ->. apply list_elem_of_singleton in Hb as ->. apply Hr. by apply (inv_row s blip lb).
  - intros b lb2 Hl2 Hacc2 down _ Hat. rewrite Eb' in Hl2. rewrite Eacc in Hacc2. destruct (decide (b = blip)) as [->|Hne].
    + rewrite lookup_insert_eq in Hl2. injection Hl2 as <-. rewrite Ew in Hacc2. rewrite Hacc2, Edoc.
      apply (attends_other n n (lb_doc lb)); try done. by apply Hat.
    + rewrite lookup_insert_ne in Hl2 by done. destruct (inv_doc s b lb2 Hi Hl2) as [Hok2 _].
      apply (attends_hush n n (lb_doc lb2)); try done; [by exists 0%nat| |by apply Hat].
      destruct (may_access _ _ _); repeat constructor. intros E%list_elem_of_singleton. congruence.
Qed.

Lemma committed_rows c user blip r delta op_id s s' b :
  committed_and_announced c user blip r delta op_id s s' → blip_exists (c_db s) b = true → blip_exists (c_db s') b = true.
Proof.
  intros (_ & lb & entry & doc & ts & _ & _ & _ & (f & g & E & _)%commit_op_inv & _). rewrite E, !blip_exists_in. cbn. by apply rows_updated.
Qed.

Lemma submits_ok n net c : roomy n → net_ok n net → allowed (Submits c) net → net_ok n (step (Submits c) net).
Proof.
  intros Hs Hok Hallow. pose proof Hok as [Hi Htx Hn Hp]. cbn [step].
  destruct (net_peers net !! c) as [[user client [|[] up] heard]|] eqn:Hc; try done.
  destruct (Hallow _ _ _ _ _ _ _ _ Hc) as [Hed _]. pose proof (submit_outcome n net c _ _ _ _ _ _ _ _ Hok Hallow Hc) as Hout.
  set (s := net_wave net) in *. pose proof Hi as (Hdb & Hco & _). cbn zeta in Hout.
  destruct (apply_op _ _ _ s) as [[[]|e] s']; destruct Hout as [Hi' Hout]; cbn [is_ok] in *.
  2: { apply (affected_ok n net); [done..|by apply refused_affects|]. by intros c' p [_ ?]%lookup_delete_Some. }
  assert (∀ b, blip_exists (c_db s) b = true → blip_exists (c_db s') b = true) as Hrows by (intros b; by eapply committed_rows).
  destruct (announced _ _ _ _ _ _ _ _ Hdb Hco Htx Hout) as
    (lb & entry & doc & Hl & Ha & Hbig & Hacc & Htx' & (lb' & Eb' & Edoc & Ew) & Eacc & wave & Hleft).
  constructor; [done..|]. intros c' p [Hc' [sub Hsub]]%peers_left. cbn [net_wave]. destruct (Hleft c' sub Hsub) as [Hsub0 Es].
  case_decide as Hd.
  - subst c'. rewrite lookup_insert_eq in Hc'. injection Hc' as <-. pose proof (Hp c _ Hc) as Hpc.
    pose proof Hpc as ((sub' & ? & Hu) & _). assert (sub' = sub) as -> by congruence.
    apply (author_hears n s s' c user client blip_id revision delta op_id up heard lb entry doc lb' wave op_id); try done. by exists sub.
  - rewrite lookup_insert_ne in Hc' by done. pose proof (Hp c' p Hc') as Hpc. pose proof Hpc as ((sub' & ? & Hu) & _).
    assert (sub' = sub) as -> by congruence. rewrite Hu in Es.
    destruct (submission_commits n s c user client blip_id revision delta op_id up heard lb entry doc) as (Hcm & Ht & _); try done.
    { by apply Hp. }
    apply (other_hears n s s' c' p user blip_id lb entry doc lb' wave); try done. by exists sub.
Qed.

Lemma step_ok n net e : roomy (n + units e) → net_ok n net → allowed e net → net_ok (n + units e) (step e net).
Proof.
  intros Hs Hok Ha. destruct e; cbn [units] in *; rewrite ?N.add_0_r in *.
  - by apply opens_ok.
  - by apply closes_ok.
  - by apply types_ok.
  - by apply submits_ok.
  - by apply hears_ok.
  - by apply commands_ok.
Qed.

End kept.

(** ** However it interleaves *)

Lemma start_ok s0 : db_sound (c_db s0) → coherent (c_db s0) (c_live s0) → lw_evicted (c_live s0) = false → tx_own (c_live s0) →
  ∀ n net, runs s0 n net → roomy n → net_ok (c_db s0) (wave_of s0) n net.
Proof.
  intros Hd Hc He Htx n net Hr. induction Hr as [|n net e Hr IH Ha]; intros Hn.
  - constructor; cbn; [|done|done|intros c p Hp; by rewrite lookup_empty in Hp]. split_and!; [done|done| |intros w _; apply same_wave_refl].
    unfold who. by rewrite He.
  - apply step_ok; [done| |done]. apply IH. unfold roomy in *. lia.
Qed.

Section quiet.
Context (s0 : Crit) (n : N) (net : Net) (c : ConnId) (p : Peer) (blip : BlipId) (lb : LiveBlip).

(** [p] runs on [c] in a network that grew from [s0], and may read the message. *)
Definition reads : Prop :=
  db_sound (c_db s0) ∧ coherent (c_db s0) (c_live s0) ∧ lw_evicted (c_live s0) = false ∧ tx_own (c_live s0) ∧
  runs s0 n net ∧ roomy n ∧ net_peers net !! c = Some p ∧ lw_blips (c_live (net_wave net)) !! blip = Some lb ∧
  may_access (c_live (net_wave net)) (peer_user p) (blip_wavelet_id (lb_meta lb)) = true.

Lemma reads_attends :
  reads → inv (c_db s0) (wave_of s0) (net_wave net) ∧
  attends n (lb_doc lb) blip (peer_client p) (peer_up p) (inbound (net_wave net) c p).
Proof.
  intros (Hd & Hc & He & Htx & Hr & Hn & Hp & Hl & Hacc). pose proof (start_ok s0 Hd Hc He Htx n net Hr Hn) as [Hi _ _ Hps].
  split; [done|]. by apply (Hps c p Hp).
Qed.

End quiet.

End network.
