(* ===== verification/ClientGuarantees.v ===== *)
(** * What clients can rely on

    Whatever clients type, and however it interleaves, a client that has heard everything and has nothing in flight
    shows the text the server holds; and the queues between them always run dry. *)

From S2P Require Import Prelude Tables Strings Unicode Json Attributes Text Delta DeltaSpec DeltaAlg DeltaPush DeltaCanon DeltaIter.
From S2P Require Import DeltaLoops DeltaTransform DeltaTheory DeltaApply DeltaValidate Model Protocol ServerDoc.
From S2P Require Import ServerDocTheory DeltaSequence DocGuarantees Content DocBounds LiveWave LiveWaveTheory Storage OpLog Effects Critical Handlers.
From S2P Require Import Coherence CoherenceLemmas CoherenceMembers CoherenceFrame CoherenceHandlers Submission Audience.
From S2P Require Import App Limit Agent Sections Dispatch Scenario ServerGuarantees Client ClientTheory Listening Network.

Section quiet.
Context `{J : Json} `{U : Unicode} `{W : World}.
Context (hash_token : str → str) (request_json : ReplyRequest → str).
#[local] Abbreviation step := (Network.step hash_token request_json).
#[local] Abbreviation runs := (Network.runs hash_token request_json).
#[local] Abbreviation reads := (Network.reads hash_token request_json).
Context (s0 : Crit) (n : N) (net : Net) (c : ConnId) (p : Peer) (blip : BlipId) (lb : LiveBlip).

(** C3: Clients and server agree.  Any number of clients run the repository's client state machine against the
    server's sections for one wave, opening, typing, submitting, hearing and leaving in any interleaving, with queues
    of any length between them, while anybody runs the other commands of the wave: messages and comments are added and
    deleted, members come (while they do not have the wave open) and go, agents reply.  A client that has heard everything queued for it and has nothing in flight shows,
    for every message it may read, exactly the text the server holds in memory and in storage, at the same revision;
    and once its own queue is empty too, it has nothing in flight. *)
Theorem clients_converge :
  reads s0 n net c p blip lb → inbound (net_wave net) c p = [] →
  ∃ cd, tc_docs (peer_client p) !! blip = Some cd ∧
    (cl_outstanding cd = None →
      cd = mkClientDoc (doc_content (lb_doc lb)) (doc_revision (lb_doc lb)) None None ∧
      ∃ b, b ∈ db_blips (c_db (net_wave net)) ∧ blip_id b = blip ∧ cl_doc cd = blip_content b ∧ cl_revision cd = blip_revision b) ∧
    (peer_up p = [] → in_flight blip (peer_client p) = false).
Proof.
  intros Hr Hin. pose proof (reads_attends _ _ _ _ _ _ _ _ _ Hr) as [(_ & Hc & _) Hat]. rewrite Hin in Hat. destruct Hr as (_ & _ & _ & _ & _ & _ & _ & Hl & _).
  destruct Hat as [(cd & xs & o & Hcd & ->%Forall2_nil_inv_l & Ho & Hy)|(_ & _ & before & m & rest & cd & xs & E & _)]; [|by destruct before].
  exists cd. split_and!; [done| |].
  - intros Hidle. pose proof (synced_idle n _ cd o Hy Hidle) as ->. split; [done|]. exists (lb_meta lb).
    destruct (co_docs _ _ Hc _ _ Hl) as (Hid & -> & -> & _). split_and!; try done. by apply (blip_row_here _ _ _ _ Hc Hl).
  - intros Hup. rewrite Hup in Ho. destruct o as [x|]; [done|]. pose proof (synced_settled n _ cd Hy) as ->.
    unfold in_flight. by rewrite Hcd.
Qed.

(** C9: No edit of a client is malformed.  Whatever was typed and committed meanwhile, the submission a client has
    waiting is one the server's document takes, rebased over what the client had not heard; the one refusal left is
    that the client fell behind by more revisions than the document remembers. *)
Theorem client_edits_fit r delta op up :
  reads s0 n net c p blip lb → peer_up p = Submit blip r delta op :: up → (doc_revision (lb_doc lb) < usize_max)%N →
  (∃ entry doc, apply (lb_doc lb) r delta (peer_user p) = Ok (entry, doc) ∧
     rev_delta entry = rebase (history_since (lb_doc lb) r) delta) ∨
  (r < oldest_retained (lb_doc lb))%N.
Proof.
  intros Hr Hup Hmax. destruct (decide (r < oldest_retained (lb_doc lb))%N) as [|Hold]; [by right|left].
  pose proof (reads_attends _ _ _ _ _ _ _ _ _ Hr) as [Hi Hat]. destruct Hr as (_ & _ & _ & _ & _ & Hn & _ & Hl & _).
  destruct (inv_doc _ _ _ _ _ Hi Hl) as [Hok _]. rewrite Hup in Hat. destruct Hat as [Hf|(_ & Ho & _)].
  2: { unfold on_its_way in Ho. cbn in Ho. by rewrite decide_True in Ho. }
  destruct (follows_accepted n (lb_doc lb) blip _ up _ r delta op (peer_user p) Hok Hn Hmax Hf ltac:(lia)) as (entry & doc & Ha & _).
  exists entry, doc. split; [done|]. by apply apply_inv in Ha as (_ & _ & -> & _).
Qed.

End quiet.

(** ** The queues run dry *)

Section deliveries.
Context `{J : Json} `{U : Unicode} `{W : World}.
Context (hash_token : str → str) (request_json : ReplyRequest → str).
#[local] Abbreviation step := (Network.step hash_token request_json).
#[local] Abbreviation runs := (Network.runs hash_token request_json).
Implicit Types net : Net.

(** A message is taken off a queue that has one. *)
Inductive delivers : Net → Net → Prop :=
| delivers_down net c p m rest :
    net_peers net !! c = Some p → inbound (net_wave net) c p = m :: rest → delivers net (step (Hears c) net)
| delivers_up net c user client blip r delta op_id up heard :
    net_peers net !! c = Some (mkPeer user client (Submit blip r delta op_id :: up) heard) →
    allowed (Submits c) net → delivers net (step (Submits c) net).

(** Every message heard may free one change to be submitted, every submission may be announced to every peer. *)
Definition held (d : ClientDoc) : nat := match cl_buffer d with Some _ => 1 | None => 0 end.
Definition buffers (client : TestClient) : nat := map_sum (λ _, held) (tc_docs client).
Definition load (k : nat) s (c : ConnId) (p : Peer) : nat :=
  length (inbound s c p) + k * (length (peer_up p) + buffers (peer_client p)).
Definition undelivered (k : nat) net : nat := map_sum (load k (net_wave net)) (net_peers net).

Lemma buffers_insert (docs : gmap BlipId ClientDoc) b d :
  map_sum (λ _, held) (<[b := d]> docs) ≤ held d + map_sum (λ _, held) docs.
Proof.
  rewrite map_sum_insert. destruct (docs !! b) as [d'|] eqn:E; [rewrite (map_sum_delete _ docs b d' E); lia|].
  by rewrite delete_id.
Qed.

Lemma buffers_view docs b : map_sum (λ _, held) (insert_view docs b) ≤ map_sum (λ _, held) docs.
Proof. exact (buffers_insert docs (bv_id b) (doc_of_view b)). Qed.

Lemma buffers_views docs bs : map_sum (λ _, held) (foldl insert_view docs bs) ≤ map_sum (λ _, held) docs.
Proof. revert docs. induction bs as [|b bs IH]; intros docs; cbn; [done|]. by rewrite IH, buffers_view. Qed.

Lemma buffers_wavelets docs (ws : list WaveletView) :
  map_sum (λ _, held) (foldl (λ docs w, foldl insert_view docs (wv_blips w)) docs ws) ≤ map_sum (λ _, held) docs.
Proof. revert docs. induction ws as [|w ws IH]; intros docs; cbn; [done|]. by rewrite IH, buffers_views. Qed.

Lemma buffers_learns docs b : map_sum (λ _, held) (or_insert_view docs b) ≤ map_sum (λ _, held) docs.
Proof. unfold or_insert_view. destruct (docs !! bv_id b); [done|apply buffers_view]. Qed.

Lemma buffers_learn docs bs : map_sum (λ _, held) (foldl or_insert_view docs bs) ≤ map_sum (λ _, held) docs.
Proof. revert docs. induction bs as [|b bs IH]; intros docs; cbn; [done|]. by rewrite IH, buffers_learns. Qed.

(** What a client sends on hearing something it had held back. *)
Lemma absorb_buffers m client : length (option_list (absorb m client).1) + buffers (absorb m client).2 ≤ buffers client.
Proof.
  unfold buffers. destruct m; cbn [absorb fst snd option_list on_docs tc_docs]; try done.
  - apply buffers_wavelets.
  - destruct (tc_docs client !! blip_id) as [d|] eqn:E; [|done]. cbn [fst snd option_list on_docs tc_docs].
    rewrite map_sum_insert, (map_sum_delete _ (tc_docs client) blip_id d E). unfold held, remote_op.
    destruct (cl_outstanding d); [|done]. by destruct (cl_buffer d).
  - destruct (tc_docs client !! blip_id) as [d|] eqn:E; [|done]. rewrite (map_sum_delete _ (tc_docs client) blip_id d E).
    unfold acknowledged. cbn [cl_outstanding cl_revision].
    destruct (cl_buffer d) eqn:Eb; cbn [next_op_id fst snd option_list on_docs tc_docs]; rewrite map_sum_insert;
      unfold held; cbn [cl_buffer]; rewrite Eb; simpl; lia.
  - apply (buffers_learns (tc_docs client) blip).
  - apply (buffers_learns (tc_docs client) blip).
  - apply buffers_learn.
Qed.

Lemma load_drained k s c c' p : load k (drained c s) c' p = load k s c' p.
Proof. unfold load, inbound. by rewrite drained_sent. Qed.

Lemma hears_lighter k net c p m rest :
  net_peers net !! c = Some p → inbound (net_wave net) c p = m :: rest →
  undelivered k (step (Hears c) net) < undelivered k net ∧ size (net_peers (step (Hears c) net)) = size (net_peers net).
Proof.
  intros Hp Hin. cbn [step]. rewrite Hp, Hin. pose proof (absorb_buffers m (peer_client p)) as Hb.
  destruct (absorb m (peer_client p)) as [out client]. cbn [fst snd] in Hb. unfold undelivered. cbn [net_wave net_peers].
  split; [|rewrite map_size_insert, Hp; done]. rewrite map_sum_insert, (map_sum_delete _ (net_peers net) c p Hp), load_drained.
  assert (map_sum (load k (drained c (net_wave net))) (delete c (net_peers net)) ≤
    map_sum (load k (net_wave net)) (delete c (net_peers net)) + 0 * size (delete c (net_peers net))) as Hrest.
  { apply map_sum_le. intros c' p' Hp'. exists p'. split; [done|]. rewrite load_drained. lia. }
  assert (load k (net_wave net) c (mkPeer (peer_user p) client (peer_up p ++ option_list out) (S (peer_heard p))) < load k (net_wave net) c p); [|lia].
  unfold load at 2. rewrite Hin. unfold load, inbound in *. cbn [peer_heard peer_up peer_client].
  assert (drop (S (peer_heard p)) (sent (c_out (net_wave net)) c) = rest) as -> by (rewrite <- Nat.add_1_r, <- drop_drop, Hin; done).
  rewrite length_app. simpl. nia.
Qed.

Lemma submits_lighter db0 w0 n k net c user client blip r delta op_id up heard :
  net_ok db0 w0 n net → allowed (Submits c) net →
  net_peers net !! c = Some (mkPeer user client (Submit blip r delta op_id :: up) heard) → size (net_peers net) < k →
  undelivered k (step (Submits c) net) < undelivered k net ∧ size (net_peers (step (Submits c) net)) ≤ size (net_peers net).
Proof.
  intros Hok Ha Hp Hk. pose proof (submit_outcome db0 w0 n net c _ _ _ _ _ _ _ _ Hok Ha Hp) as Hout. pose proof Hok as [(Hd & Hc & _) Htx _ Hps].
  cbn [step]. rewrite Hp. cbn zeta in Hout. set (s := net_wave net) in *.
  destruct (apply_op _ _ _ s) as [[[]|e] s']; destruct Hout as [_ Hout]; cbn [is_ok]; unfold undelivered; cbn [net_wave net_peers].
  - set (popped := mkPeer user client up heard).
    destruct (announced _ _ _ _ _ _ _ _ Hd Hc Htx Hout) as (lb & entry & doc & _ & _ & _ & _ & _ & _ & _ & wave & Hleft).
    assert (map_sum (load k s') (still_watching s' (<[c := popped]> (net_peers net))) ≤
      map_sum (load k s) (<[c := popped]> (net_peers net)) + 1 * size (<[c := popped]> (net_peers net))) as Hsum.
    { apply map_sum_le. intros c' p' [Hp' [sub Hsub]]%peers_left. exists p'. split; [done|].
      destruct (Hleft c' sub Hsub) as [_ Es]. assert (peer_heard p' ≤ length (sent (c_out s) c')) as Hle.
      { apply lookup_insert_Some in Hp' as [[<- <-]|[_ Hp']]; [|by apply (Hps c')]. destruct (Hps c _ Hp) as (_ & Hle & _). exact Hle. }
      unfold load, inbound. rewrite Es, drop_app_le, length_app by done.
      repeat case_match; simpl; lia. }
    rewrite map_size_insert, Hp in Hsum. unfold id in Hsum. rewrite map_sum_insert in Hsum. fold s. rewrite (map_sum_delete _ (net_peers net) c _ Hp).
    split.
    + assert (load k s c (mkPeer user client (Submit blip r delta op_id :: up) heard) = load k s c popped + k) as ->; [|lia].
      unfold load, popped, inbound. simpl. lia.
    + etrans; [apply map_size_filter|]. by rewrite map_size_insert, Hp.
  - destruct Hout as (_ & Eo & _).
    assert (map_sum (load k s') (still_watching s' (delete c (net_peers net))) ≤
      map_sum (load k s) (delete c (net_peers net)) + 0 * size (delete c (net_peers net))) as Hsum.
    { apply map_sum_le. intros c' p' [Hp' _]%peers_left. exists p'. split; [done|]. unfold load, inbound. rewrite Eo. lia. }
    fold s. rewrite (map_sum_delete _ (net_peers net) c _ Hp). split.
    + assert (0 < load k s c (mkPeer user client (Submit blip r delta op_id :: up) heard)); [|lia]. unfold load. simpl. nia.
    + etrans; [apply map_size_filter|]. rewrite map_size_delete, Hp. lia.
Qed.

Lemma delivers_runs s0 n net net' : runs s0 n net → delivers net net' → runs s0 n net'.
Proof.
  intros Hr Hd. replace n with (n + 0)%N by apply N.add_0_r.
  destruct Hd as [net c p m rest Hp Hin|net c user client blip r delta op_id up heard Hp Ha];
    [exact (runs_step hash_token request_json s0 n net (Hears c) Hr I)|exact (runs_step hash_token request_json s0 n net (Submits c) Hr Ha)].
Qed.

Lemma delivers_lighter db0 w0 n k net net' :
  net_ok db0 w0 n net → size (net_peers net) < k → delivers net net' →
  undelivered k net' < undelivered k net ∧ size (net_peers net') ≤ size (net_peers net).
Proof.
  intros Hok Hk Hd. destruct Hd as [net c p m rest Hp Hin|net c user client blip r delta op_id up heard Hp Ha].
  - destruct (hears_lighter k net c p m rest Hp Hin) as [? ->]. done.
  - by eapply submits_lighter.
Qed.

(** C10: Deliveries come to an end.  From any state of the network, however much is under way, when nobody types any
    more only so many messages can still be delivered: each one taken off a queue, though it may put others on, brings
    the end nearer by a measure of what is queued and held back.  Where no delivery is left, every peer has heard
    everything, and what a peer still has waiting, if anything, is a change that could not be sent as it is. *)
Theorem deliveries_end s0 n net net' i :
  db_sound (c_db s0) → coherent (c_db s0) (c_live s0) → lw_evicted (c_live s0) = false → tx_own (c_live s0) →
  runs s0 n net → roomy n → nsteps delivers i net net' →
  i ≤ undelivered (S (size (net_peers net))) net ∧ runs s0 n net' ∧
  ((∀ net'', ¬ delivers net' net'') → ∀ c p, net_peers net' !! c = Some p →
    inbound (net_wave net') c p = [] ∧
    ∀ blip r delta op_id up, peer_up p = Submit blip r delta op_id :: up → ¬ allowed (Submits c) net').
Proof.
  intros Hd Hc He Htx Hr Hn Hs. set (k := S (size (net_peers net))).
  assert (size (net_peers net) < k) as Hk by (unfold k; lia). clearbody k. split_and!.
  - revert Hr Hk. induction Hs as [net|i net net1 net2 Hd1 _ IH]; intros Hr Hk; [lia|].
    pose proof (start_ok hash_token request_json s0 Hd Hc He Htx n net Hr Hn) as Hok.
    destruct (delivers_lighter _ _ n k net net1 Hok Hk Hd1) as [Hlt Hle].
    specialize (IH (delivers_runs s0 n net net1 Hr Hd1) ltac:(lia)). lia.
  - clear Hk. revert Hr. induction Hs as [net|i net net1 net2 Hd1 _ IH]; intros Hr; [done|]. by apply IH, (delivers_runs s0 n net).
  - intros Hend c p Hp. split.
    + destruct (inbound (net_wave net') c p) as [|m rest] eqn:Hin; [done|]. destruct (Hend _ (delivers_down net' c p m rest Hp Hin)).
    + intros blip r delta op_id up Hup Ha. destruct p as [user client ups heard]. cbn in Hup. subst ups.
      destruct (Hend _ (delivers_up net' c user client blip r delta op_id up heard Hp Ha)).
Qed.

End deliveries.

(** ** A concrete network *)

#[local] Abbreviation step := (Network.step plain_hash request_text).
#[local] Abbreviation runs := (Network.runs plain_hash request_text).
#[local] Abbreviation reads := (Network.reads plain_hash request_text).


(** What is typed here carries no attributes. *)
Definition plain_change (d : Delta) : bool :=
  forallb (λ op, negb (op_len op =? 0)%N && bool_decide (op_attributes op = ∅)) d && (total d <=? 2 ^ 53)%N.

Definition absent {A} (o : option A) : bool := match o with None => true | Some _ => false end.
Definition holds {A} (f : A → bool) (o : option A) : bool := match o with None => true | Some y => f y end.

Definition allowed_here (e : Event) (net : Net) : bool :=
  match e with
  | Opens c _ client _ _ =>
      absent (net_peers net !! c) && absent (lw_subscribers (c_live (net_wave net)) !! c) && bool_decide (size (tc_docs client) = 0%nat)
  | Types c blip delta =>
      plain_change delta &&
      holds (λ p, holds (λ cd, is_ok (validate delta (cl_doc cd))) (tc_docs (peer_client p) !! blip)) (net_peers net !! c)
  | Submits c =>
      match net_peers net !! c with
      | Some (mkPeer _ _ (Submit blip _ delta op_id :: _) _) =>
          plain_change delta
          && holds (λ lb, (doc_revision (lb_doc lb) <? usize_max)%N) (lw_blips (c_live (net_wave net)) !! blip)
          && forallb (λ row, negb (bool_decide (or_op_id row = op_id))) (db_ops (c_db (net_wave net)))
      | _ => true
      end
  | Commands _ _ command => match command with LCreateBlip _ _ None | LSetTitle _ _ | LDeleteBlip _ => true | _ => false end
  | Closes _ | Hears _ => true
  end.

(** The network after the events, if each was allowed. *)
Fixpoint plays (es : list Event) (net : Net) : option Net :=
  match es with
  | [] => Some net
  | e :: es => if allowed_here e net then plays es (step e net) else None
  end.

Lemma absent_none {A} (o : option A) : absent o = true → o = None.
Proof. by destruct o. Qed.

Lemma plain_change_wire d : plain_change d = true → wire_change d.
Proof.
  intros [H Ht%N.leb_le]%andb_true_iff. assert (Forall (λ op, op_len op ≠ 0%N ∧ op_attributes op = ∅) d) as Hd.
  { rewrite forallb_forall in H. apply list.Forall_forall. intros op Hop%list_elem_of_In. specialize (H op Hop).
    apply andb_true_iff in H as [H1%negb_true_iff%N.eqb_neq H2%bool_decide_eq_true]. done. }
  split_and!; [|apply clean_plain|done]; revert Hd; apply Forall_impl; by intros op [].
Qed.

Lemma allowed_here_allowed e net : allowed_here e net = true → allowed e net.
Proof.
  destruct e as [c user client marks fl|c|c blip delta|c|c|c user command]; cbn [allowed_here allowed]; [| done| | |done|].
  - intros [[H1%absent_none H2%absent_none]%andb_true_iff H3%bool_decide_eq_true]%andb_true_iff. split_and!; [done..|].
    by apply map_size_empty_inv.
  - intros [(Hn & Hc & _)%plain_change_wire H]%andb_true_iff p cd Hp Hcd. rewrite Hp in H. cbn in H. rewrite Hcd in H. cbn in H.
    split_and!; [done| |done]. by destruct (validate delta (cl_doc cd)) as [[]|].
  - intros H user client blip r delta op_id up heard Hc. rewrite Hc in H.
    apply andb_true_iff in H as [[Hw%plain_change_wire Hr]%andb_true_iff Hf]. split; [split; [done|]|].
    + intros lb Hl. rewrite Hl in Hr. by apply N.ltb_lt in Hr.
    + intros row Hrow _ E. rewrite forallb_forall in Hf. apply list_elem_of_In in Hrow. specialize (Hf row Hrow).
      by apply negb_true_iff, bool_decide_eq_false in Hf.
  - destruct command as [|wavelet parent [content|]| | | | | | | | | | | | |]; try discriminate; intros _; by repeat split.
Qed.

Lemma plays_runs s0 es n net net' :
  runs s0 n net → plays es net = Some net' → ∃ n', (n ≤ n')%N ∧ n' = foldl (λ n e, n + units e)%N n es ∧ runs s0 n' net'.
Proof.
  revert n net. induction es as [|e es IH]; intros n net Hr; cbn [plays foldl]; [intros [= <-]; exists n; by split_and!|].
  destruct (allowed_here e net) eqn:E; [|done]. intros Hp.
  destruct (IH (n + units e)%N (step e net)) as (n' & Hle & -> & Hr'); [|done|].
  - apply runs_step; [done|by apply allowed_here_allowed].
  - eexists. split_and!; [|done|done]. lia.
Qed.

(** Ann types twice, the second time before the first is acknowledged; bob types meanwhile, and starts another message. *)
Definition before_opening : Crit := (leave_locked 2 the_wave (leave_locked 1 the_wave before_edit).2).2.
Definition client_of (u : User) : TestClient := mkClient (public u) ∅ [] [] 0.
Definition hears (c : ConnId) (n : nat) : list Event := replicate n (Hears c).

Definition story : list Event :=
  [Opens 1 (lit "u-ann") (client_of ann) ∅ flags_default; Opens 2 (lit "u-bob") (client_of bob) ∅ flags_default]
  ++ hears 1 3 ++ hears 2 2
  ++ [Types 1 the_blip edit1; Types 2 the_blip edit2; Types 1 the_blip edit1; Commands 2 (lit "u-bob") (LCreateBlip the_wavelet None None);
      Submits 2; Submits 1] ++ hears 1 3 ++ hears 2 3
  ++ [Submits 1] ++ hears 1 1 ++ hears 2 1.

Definition played (es : list Event) : Net := default (mkNet before_opening ∅) (plays es (mkNet before_opening ∅)).

(** Bob's edit is committed, ann's waits. *)
Definition before_anns : list Event := take 12 story.

Definition peer_at (net : Net) (c : ConnId) : Peer :=
  default (mkPeer [] (client_of ann) [] 0) (net_peers net !! c).
Definition blip_at (net : Net) : option LiveBlip := lw_blips (c_live (net_wave net)) !! the_blip.

Definition reads_here (net : Net) (c : ConnId) : bool :=
  bool_decide (is_Some (net_peers net !! c)) &&
  match blip_at net with
  | Some lb => may_access (c_live (net_wave net)) (peer_user (peer_at net c)) (blip_wavelet_id (lb_meta lb))
  | None => false
  end.

Definition typed_units (es : list Event) : N := foldl (λ n e, n + units e)%N MAX_BLIP_UNITS es.

Lemma nobody_watches (l : LiveWave) : size (lw_subscribers l) = 0%nat → tx_own l.
Proof. intros H%map_size_empty_inv c sub Hs. by rewrite H, lookup_empty in Hs. Qed.

Lemma before_opening_ok :
  db_sound (c_db before_opening) ∧ coherent (c_db before_opening) (c_live before_opening) ∧
  lw_evicted (c_live before_opening) = false ∧ tx_own (c_live before_opening).
Proof.
  assert (inv (c_db before_edit) (wave_of before_edit) before_edit) as Hi.
  { destruct before_edit_ok. split_and!; [done..|vm_compute; reflexivity|intros w _; apply same_wave_refl]. }
  pose proof (leave_locked_inv _ _ before_edit 1 the_wave Hi) as Hi1.
  pose proof (leave_locked_inv _ _ _ 2 the_wave Hi1) as (Hd & Hc & Hw & _). split_and!; [exact Hd|exact Hc|vm_compute; reflexivity|].
  apply nobody_watches. vm_compute. reflexivity.
Qed.

Lemma reads_from s0 es net c :
  db_sound (c_db s0) ∧ coherent (c_db s0) (c_live s0) ∧ lw_evicted (c_live s0) = false ∧ tx_own (c_live s0) →
  plays es (mkNet s0 ∅) = Some net → (64 * typed_units es <? usize_max)%N = true → reads_here net c = true →
  ∃ lb, blip_at net = Some lb ∧ reads s0 (typed_units es) net c (peer_at net c) the_blip lb.
Proof.
  intros (Hd & Hc & He & Htx) Hp Hn%N.ltb_lt [[p Hs]%bool_decide_eq_true Hr]%andb_true_iff.
  destruct (blip_at net) as [lb|] eqn:Hl; [|done]. exists lb. split; [done|].
  destruct (plays_runs s0 es MAX_BLIP_UNITS _ net (runs_start _ _ _) Hp) as (n & _ & -> & Hrun).
  split_and!; try done. unfold peer_at. by rewrite Hs.
Qed.

Lemma some_default {A} (o : option A) y : negb (absent o) = true → o = Some (default y o).
Proof. by destruct o. Qed.

Lemma played_reads es c : negb (absent (plays es (mkNet before_opening ∅))) = true →
  (64 * typed_units es <? usize_max)%N = true → reads_here (played es) c = true →
  ∃ lb, blip_at (played es) = Some lb ∧ reads before_opening (typed_units es) (played es) c (peer_at (played es) c) the_blip lb.
Proof. intros Hp. exact (reads_from before_opening es (played es) c before_opening_ok (some_default _ _ Hp)). Qed.

Definition nothing {A} (ys : list A) : bool := match ys with [] => true | _ => false end.

Lemma nothing_left {A} (ys : list A) : nothing ys = true → ys = [].
Proof. by destruct ys. Qed.

(** Both show what the server holds, and have the message bob started. *)
Lemma clients_converge_witness :
  inbound (net_wave (played story)) 1 (peer_at (played story) 1) = [] ∧ in_flight the_blip (peer_client (peer_at (played story) 1)) = false ∧
  client_text the_blip (peer_client (peer_at (played story) 1)) = lit "Jello!!" ∧
  client_text the_blip (peer_client (peer_at (played story) 2)) = lit "Jello!!" ∧
  size (tc_docs (peer_client (peer_at (played story) 1))) = 2%nat ∧ size (tc_docs (peer_client (peer_at (played story) 2))) = 2%nat.
Proof.
  assert (nothing (inbound (net_wave (played story)) 1 (peer_at (played story) 1)) = true) as Hin by (vm_compute; reflexivity).
  assert (nothing (peer_up (peer_at (played story) 1)) = true) as Hup by (vm_compute; reflexivity).
  apply nothing_left in Hin, Hup. split; [exact Hin|]. split; [|split_and!; vm_compute; reflexivity].
  destruct (played_reads story 1) as (lb & _ & Hr); [vm_compute; reflexivity..|].
  destruct (clients_converge plain_hash request_text before_opening (typed_units story) (played story) 1 (peer_at (played story) 1) the_blip lb Hr Hin) as (cd & _ & _ & Hidle).
  exact (Hidle Hup).
Defined.

(** The one submission waiting, if there is exactly one. *)
Definition waiting (p : Peer) : option (BlipId * N * Delta * option str) :=
  match peer_up p with [Submit blip r delta op_id] => Some (blip, r, delta, op_id) | _ => None end.

Lemma waiting_up p blip r delta op_id : waiting p = Some (blip, r, delta, op_id) → peer_up p = [Submit blip r delta op_id].
Proof. unfold waiting. destruct (peer_up p) as [|[] []]; try discriminate. by intros [= -> -> -> ->]. Qed.

Definition revisions_at (net : Net) : option (N * N) :=
  match blip_at net with Some lb => Some (doc_revision (lb_doc lb), oldest_retained (lb_doc lb)) | None => None end.

Lemma revisions_at_blip net lb r old : blip_at net = Some lb → revisions_at net = Some (r, old) →
  doc_revision (lb_doc lb) = r ∧ oldest_retained (lb_doc lb) = old.
Proof. unfold revisions_at. intros ->. by intros [= <- <-]. Qed.

(** Ann's edit was made at the revision before bob's. *)
Lemma client_edits_fit_witness :
  ∃ lb entry doc, blip_at (played before_anns) = Some lb ∧ doc_revision (lb_doc lb) = 2%N ∧
    apply (lb_doc lb) 1 edit1 (peer_user (peer_at (played before_anns) 1)) = Ok (entry, doc).
Proof.
  destruct (played_reads before_anns 1) as (lb & Hl & Hr); [vm_compute; reflexivity..|].
  assert (revisions_at (played before_anns) = Some (2, 1)%N) as E by (vm_compute; reflexivity).
  destruct (revisions_at_blip _ lb 2 1 Hl E) as [Erev Eold].
  assert (waiting (peer_at (played before_anns) 1) = Some (the_blip, 1%N, edit1, Some (lit "u-ann-1"))) as Hw.
  { refine (bool_decide_eq_true_1 _ _). vm_compute. reflexivity. }
  apply waiting_up in Hw. exists lb.
  assert ((doc_revision (lb_doc lb) < usize_max)%N) as Hmax by (rewrite Erev; reflexivity).
  assert (¬ (1 < oldest_retained (lb_doc lb))%N) as Hold by (rewrite Eold; apply N.lt_irrefl).
  destruct (client_edits_fit plain_hash request_text before_opening (typed_units before_anns) (played before_anns) 1 (peer_at (played before_anns) 1) the_blip lb
    1 edit1 (Some (lit "u-ann-1")) [] Hr Hw Hmax) as [(entry & doc & Ha & _)|H]; [|destruct (Hold H)].
  exists entry, doc. split; [exact Hl|]. split; [exact Erev|exact Ha].
Defined.

Lemma something_left {A} (ys : list A) : nothing ys = false → ∃ y ys', ys = y :: ys'.
Proof. destruct ys as [|y ys]; [done|]. intros _. by exists y, ys. Qed.

Lemma bob_hears net : bool_decide (is_Some (net_peers net !! 2%N)) = true → nothing (inbound (net_wave net) 2 (peer_at net 2)) = false →
  delivers plain_hash request_text net (step (Hears 2) net).
Proof.
  intros [p Hp]%bool_decide_eq_true (m & rest & Hin)%something_left. apply (delivers_down plain_hash request_text net 2 p m rest Hp).
  rewrite <- Hin. unfold peer_at. by rewrite Hp.
Qed.

(** Bob hears that his edit is committed; ann's submission and her second change are still to come. *)
Lemma deliveries_end_witness :
  1 ≤ undelivered (S (size (net_peers (played before_anns)))) (played before_anns) ∧
  undelivered (S (size (net_peers (played before_anns)))) (played before_anns) = 10%nat ∧
  runs before_opening (typed_units before_anns) (step (Hears 2) (played before_anns)).
Proof.
  destruct before_opening_ok as (Hd & Hc & He & Htx).
  destruct (played_reads before_anns 1) as (lb & _ & (_ & _ & _ & _ & Hr & Hn & _)); [vm_compute; reflexivity..|].
  assert (delivers plain_hash request_text (played before_anns) (step (Hears 2) (played before_anns))) as Hstep by (apply bob_hears; vm_compute; reflexivity).
  destruct (deliveries_end plain_hash request_text before_opening (typed_units before_anns) (played before_anns) (step (Hears 2) (played before_anns)) 1
    Hd Hc He Htx Hr Hn (nsteps_once _ _ Hstep)) as (Hi & Hr' & _).
  split; [exact Hi|]. split; [vm_compute; reflexivity|exact Hr'].
Defined.

(** Why nobody in the network is added to a wavelet while watching: ann takes bob, who has the wave open, into the private
    reply she had started alone.  He may read it now, and nothing the server has queued for him names a message of it. *)
Definition privately_started : Crit := (private_reply_locked (lit "u-ann") the_wave the_wavelet the_blip [] before_edit).2.
Definition private_wavelet : WaveletId :=
  match lw_wavelets (c_live privately_started) with _ :: w :: _ => wl_id w | _ => [] end.
Definition private_messages (l : LiveWave) : list BlipId :=
  (λ e, e.1) <$> filter (λ e, blip_wavelet_id (lb_meta e.2) = private_wavelet) (map_to_list (lw_blips l)).
Definition taken_in : Crit := (add_participant_locked (lit "u-ann") the_wave private_wavelet bob privately_started).2.

Example added_watcher_not_shown :
  bool_decide (is_Some (lw_subscribers (c_live taken_in) !! 2%N)) = true ∧
  may_access (c_live taken_in) (lit "u-bob") private_wavelet = true ∧
  length (private_messages (c_live taken_in)) = 1%nat ∧
  forallb (λ m, forallb (λ b, negb (bool_decide (b ∈ names m))) (private_messages (c_live taken_in))) (sent (c_out taken_in) 2) = true.
Proof. split_and!; vm_compute; reflexivity. Qed.
