(* ===== verification/AudienceHandlers.v ===== *)
(** * Every command speaks to members only

    One lemma per critical section of [Handlers.v], [Critical.v] and [Agent.v]: whatever it queues about a
    wavelet goes to members of that wavelet. *)

From stdpp Require Import sorting.
From S2P Require Import Prelude Tables Strings Unicode Json Attributes Text Delta Model Protocol ServerDoc.
From S2P Require Import Content DocBounds LiveWave LiveWaveTheory Storage OpLog Queries Effects Critical Handlers.
From S2P Require Import Coherence CoherenceLemmas CoherenceMembers CoherenceFrame CoherenceHandlers Submission.
From S2P Require Import App AppTheory Limit Agent AgentTheory Audience.

Section handlers.
Context `{J : Json} `{W : World}.
Context (owner : ConnId → UserId).
Implicit Types db : Db.
Implicit Types l : LiveWave.
Implicit Types s : Crit.

#[local] Abbreviation tells := (Audience.tells owner).
#[local] Abbreviation owned := (Audience.owned owner).
#[local] Abbreviation discreet := (Audience.discreet owner).

(** ** What single messages speak of *)

Lemma only_row db m b :
  keyed blip_id (db_blips db) → b ∈ db_blips db → (∀ w, about db m w → blip_in db (blip_id b) w) →
  only db m (blip_wavelet_id b).
Proof. intros Hk Hb Hm w (b' & Hb' & E & <-)%Hm. by rewrite (keyed_eq _ _ _ _ Hk Hb' Hb E). Qed.

Lemma blip_in_resident db l id lb w :
  db_sound db → coherent db l → lw_blips l !! id = Some lb → blip_in db id w → w = blip_wavelet_id (lb_meta lb).
Proof.
  intros Hd Hc Hl Hb. destruct (co_docs _ _ Hc _ _ Hl) as (<- & _).
  eapply (only_row db (BlipRemoved [] (blip_id (lb_meta lb)))); [by apply Hd|by eapply blip_row_here|done|exact Hb].
Qed.

(** A silent refusal. *)
Ltac silent := by apply discreet_silent.
Ltac ask H := apply wp_bind, wp_guard; cbv beta iota; [intros H|intros _; silent].
Ltac ask_permit := apply wp_bind, wp_lift; destruct (permit _ _ _) as [[]|]; [|silent].

(** ** New messages *)

Lemma seeded_rows db b db' :
  insert_seeded_blip db b = Ok db' → db_participants db' = db_participants db.
Proof. by intros (f & g & rows & -> & _)%insert_seeded_blip_inv. Qed.

Lemma members_touch db l id ts : members db l → members db (wavelet_mut id (touch_wavelet ts) l).
Proof. by apply members_mut. Qed.

Lemma publish_discreet {U} (k : () → CM U) s s' db b :
  owned (c_live s) → coherent (c_db s) (c_live s) → insert_seeded_blip (c_db s) b = Ok db →
  c_out s' = c_out s → c_live s' = c_live s → c_db s' = db →
  tells db (c_out s) (k tt) → wp (cm_bind (cm_publish b) k) (λ _ s', discreet s s') s'.
Proof.
  intros Ho Hc Hins E1 E2 E3 Hk.
  set (l := wavelet_mut (blip_wavelet_id b) (touch_wavelet (blip_last_modified b))
        (set_blips (<[blip_id b := live_blip_new b]> (lw_blips (c_live s'))) (c_live s'))).
  change (wp (cm_bind (cm_broadcast (blip_wavelet_id b) None (BlipAdded (blip_wave_id b) (blip_view b ∅))) k)
    (λ _ s', discreet s s') (with_live l s')).
  apply discreet_rest; simpl; [done|done|by rewrite E2| |].
  - apply members_touch, (members_wavelets _ (c_live s)); [simpl; by rewrite E2|].
    apply (members_rows (c_db s)); [subst db; by apply seeded_rows in Hins|by apply members_coherent].
  - rewrite E3. apply tells_bind; [|by intros []]. apply tells_broadcast. by intros w <-.
Qed.

Lemma create_blip_discreet s user wave wavelet parent content :
  owned (c_live s) → coherent (c_db s) (c_live s) →
  discreet s (create_blip_locked user wave wavelet parent content s).2.
Proof.
  intros Ho Hc. change (wp (create_blip_locked user wave wavelet parent content) (λ _ s', discreet s s') s).
  unfold create_blip_locked. do 8 wp_step. destruct (prepare_blip _ _ _ _ _ _ _) as [b|e]; [|silent].
  wp_step. apply wp_db_write; [|silent]. intros db Hdb. cbv beta iota. simpl in *.
  apply (publish_discreet _ s _ db); [done..|auto with tells].
Qed.

Lemma reply_locked_discreet hash_token request_json identity body s :
  owned (c_live s) → coherent (c_db s) (c_live s) →
  discreet s (reply_locked hash_token request_json identity body s).2.
Proof.
  intros Ho Hc. change (wp (reply_locked hash_token request_json identity body) (λ _ s', discreet s s') s).
  apply wp_reply_locked.
  - intros s' (E1 & E2 & E3 & _) _. apply discreet_silent; [done|congruence..].
  - intros r s' (E1 & E2 & E3 & _) _ _. apply discreet_silent; [done|congruence..].
  - intros r s' _ _ (uuid & ts & cts & b & _ & Hc' & Hpub & _).
    apply create_agent_reply_inv in Hc' as (db1 & tok & Hins & _ & _ & Edb).
    pose proof (publish_discreet (λ _, cm_ret tt) s (with_db db1 s) db1 b Ho Hc Hins eq_refl eq_refl eq_refl
      (tells_ret _ _ _ _)) as H.
    unfold wp, cm_bind, cm_publish in H. simpl in H. rewrite <- Hpub in H. simpl in H. destruct H as [H1 H2].
    split; [|done]. simpl in H1. intros c. destruct (H1 c) as (new & E & Hn). exists new. split; [done|].
    intros m Hm w Hw. rewrite Edb in Hw |- *. by apply (Hn m).
Qed.

(** ** Comments *)

Lemma create_comment_discreet s user wave wavelet target comment content :
  owned (c_live s) → coherent (c_db s) (c_live s) →
  discreet s (create_comment_locked user wave wavelet target comment content s).2.
Proof.
  intros Ho Hc. change (wp (create_comment_locked user wave wavelet target comment content) (λ _ s', discreet s s') s).
  unfold create_comment_locked, guard_access. do 2 wp_step. ask Ha. ask_permit. ask Hf.
  destruct (lw_blips _ !! target) as [b|]; [|silent]. ask Hb. ask Hn. do 6 wp_step. cbv zeta. wp_step.
  apply wp_db_write; [|silent]. intros db Hdb. cbv beta iota. simpl in *.
  unfold create_comment, insert_comment in Hdb. apply bind_ok in Hdb as (db1 & (t & _ & [= <-])%bind_ok & Hins).
  do 2 wp_step. wp_step. apply wp_admit. cbv beta iota.
  apply discreet_rest; [done..| |].
  - simpl. apply members_touch, (members_wavelets _ (c_live s)); [done|].
    apply (members_rows (c_db s)); [by apply seeded_rows in Hins|by apply members_coherent].
  - apply tells_bind; [|auto with tells]. apply tells_broadcast. simpl. by destruct content; intros w [<-|<-].
Qed.

Lemma reply_to_comment_discreet s user wave comment content :
  owned (c_live s) → coherent (c_db s) (c_live s) →
  discreet s (reply_to_comment_locked user wave comment content s).2.
Proof.
  intros Ho Hc. change (wp (reply_to_comment_locked user wave comment content) (λ _ s', discreet s s') s).
  unfold reply_to_comment_locked, guard_access. do 2 wp_step. destruct (lw_comments _ !! comment) as [t|]; [|silent].
  ask Ha. ask_permit. ask Hf. do 4 wp_step. cbv zeta. wp_step.
  apply wp_db_write; [|silent]. intros db Hins. cbv beta iota. simpl in *. wp_step. apply wp_admit. cbv beta iota.
  apply discreet_rest; [done..| |].
  - simpl. apply members_touch, (members_wavelets _ (c_live s)); [done|].
    apply (members_rows (c_db s)); [by apply seeded_rows in Hins|by apply members_coherent].
  - apply tells_bind; [|auto with tells]. apply tells_broadcast. by destruct content; intros w <-.
Qed.

Lemma resolve_comment_discreet s user wave comment resolved :
  db_sound (c_db s) → owned (c_live s) → coherent (c_db s) (c_live s) →
  discreet s (resolve_comment_locked user wave comment resolved s).2.
Proof.
  intros Hd Ho Hc. change (wp (resolve_comment_locked user wave comment resolved) (λ _ s', discreet s s') s).
  unfold resolve_comment_locked, guard_access. do 2 wp_step. destruct (lw_comments _ !! comment) as [t|] eqn:Ht; [|silent].
  ask Ha. ask_permit. destruct (Bool.eqb _ _); [silent|].
  assert (∀ by_ at_ s', c_db s' = c_db s → c_out s' = c_out s → c_live s' = c_live s →
    wp (db_write (λ db, Ok (set_comment_resolved db comment by_ at_)) ;!
    put_live (set_comments (alter (with_resolution by_ at_) comment (lw_comments (c_live s))) (c_live s)) ;!
    cm_broadcast (ct_wavelet_id t) None (CommentResolved wave comment by_ at_)) (λ _ s', discreet s s') s') as H.
  { intros by_ at_ s' E1 E2 E3. wp_step. apply wp_db_write; [|apply discreet_silent; [exact Ho|simpl; congruence..]]. intros db [= <-].
    cbv beta iota. do 2 wp_step. apply discreet_rest; [done..| |].
    - simpl. apply (members_rows (c_db s)); [simpl; by rewrite E1|exact (members_coherent _ _ Hc)].
    - apply tells_broadcast. simpl. rewrite E1.
      pose proof (co_threads _ _ Hc _ _ Ht) as Eid. rewrite <- Eid in Ht.
      apply (co_comments _ _ Hc) in Ht as (r & Hr & _ & <-).
      intros w (r' & (r0 & Hr0 & ->)%elem_of_update & E & <-).
      assert (r0 = r) as ->; [|by destruct (str_eqb _ _)].
      apply (keyed_eq _ _ _ _ (key_comments _ Hd)); [done..|]. simpl. rewrite Eid, <- E. by destruct (str_eqb _ _). }
  destruct resolved; [do 4 wp_step|do 2 wp_step]; by apply H.
Qed.

(** ** Deleting *)

Lemma blip_in_deleted db blip id w : blip_in (delete_blip db blip) id w → blip_in db id w.
Proof.
  intros (b & Hb & <- & <-). destruct (delete_blip_effect db blip) as [f E]. rewrite E in Hb. simpl in Hb.
  apply elem_of_marked in Hb as (b0 & Hb0 & ->). exists b0. split; [done|]. by destruct (_ || _).
Qed.

(** A remark of a thread on a blip is in the blip's wavelet. *)
Lemma remark_wavelet db l blip b id x :
  db_sound db → coherent db l → lw_blips l !! blip = Some b → lw_blips l !! id = Some x →
  remark_of (live_threads_on l blip) x = true → blip_wavelet_id (lb_meta x) = blip_wavelet_id (lb_meta b).
Proof.
  intros Hd Hc Hb Hx Hr. destruct (blip_row_here _ _ _ _ Hc Hb) as (Hbin & Hbid & _).
  destruct (co_docs _ _ Hc _ _ Hx) as [Hxid _].
  destruct (proj2 (co_blips _ _ Hc (lb_meta x))) as (Hxin & _ & Hxdel); [rewrite Hxid; eauto|].
  unfold remark_of in Hr. destruct (blip_comment (lb_meta x)) as [c|] eqn:Ec; [|done].
  apply bool_decide_eq_true, list_elem_of_fmap in Hr as (t & -> & (Et & (k & Hk)%elem_of_values)%list_elem_of_filter).
  pose proof (co_threads _ _ Hc _ _ Hk) as <-. apply (co_comments _ _ Hc) in Hk as (r & Hr & _ & <-).
  destruct (ref_remarks _ Hd _ _ Hxin Hxdel Ec) as (r' & Hr' & Eid & _ & <-).
  rewrite (keyed_eq _ _ _ _ (key_comments _ Hd) Hr' Hr Eid).
  destruct (ref_comments _ Hd _ Hr) as (b' & Hb' & E1 & _ & <-).
  f_equal. apply (keyed_eq _ _ _ _ (key_blips _ Hd)); [done..|]. congruence.
Qed.

Lemma only_removed db l wave blip id lb :
  db_sound db → coherent db l → lw_blips l !! id = Some lb →
  only (delete_blip db blip) (BlipRemoved wave id) (blip_wavelet_id (lb_meta lb)).
Proof. intros Hd Hc Hl w Hw%blip_in_deleted. by eapply blip_in_resident. Qed.

Lemma delete_blip_discreet s user wave blip :
  db_sound (c_db s) → owned (c_live s) → coherent (c_db s) (c_live s) →
  discreet s (delete_blip_locked user wave blip s).2.
Proof.
  intros Hd Ho Hc. change (wp (delete_blip_locked user wave blip) (λ _ s', discreet s s') s).
  unfold delete_blip_locked, guard_access. do 2 wp_step. destruct (lw_blips _ !! blip) as [b|] eqn:Hb; [|silent].
  ask Ha. ask Hn. ask Hau. ask_permit. ask Hr. cbv zeta. wp_step. apply wp_db_write; [|silent]. intros db [= <-].
  cbv beta iota. do 2 wp_step. apply discreet_rest; [done..| |].
  - simpl. apply (members_rows (c_db s)); [|exact (members_coherent _ _ Hc)].
    by destruct (delete_blip_effect (c_db s) blip) as [f ->].
  - simpl. apply tells_bind; [|intros []; apply tells_bind; [|auto with tells]].
    + apply tells_each. intros id (x & -> & (Hr' & (k & Hk)%elem_of_values)%list_elem_of_filter)%list_elem_of_fmap.
      apply tells_broadcast. destruct (co_docs _ _ Hc _ _ Hk) as [-> _].
      rewrite <- (remark_wavelet _ _ _ _ _ _ Hd Hc Hb Hk Hr'). by eapply only_removed.
    + apply tells_broadcast. by eapply only_removed.
Qed.

(** ** Titles, modes, members *)

Lemma set_title_discreet s user wave wavelet title :
  owned (c_live s) → coherent (c_db s) (c_live s) → discreet s (set_title_locked user wave wavelet title s).2.
Proof.
  intros Ho Hc. change (wp (set_title_locked user wave wavelet title) (λ _ s', discreet s s') s).
  unfold set_title_locked, guard_access. do 2 wp_step. ask Ha. ask_permit. do 3 wp_step. apply wp_db_write; [|silent].
  intros db [= <-]. cbv beta iota. do 2 wp_step. apply discreet_rest; [done..| |].
  - apply members_mut; [done|]. exact (members_coherent _ _ Hc).
  - apply tells_bind; [|auto with tells]. apply tells_broadcast. by intros w <-.
Qed.

Lemma set_mode_discreet s user wave mode :
  owned (c_live s) → coherent (c_db s) (c_live s) → discreet s (set_mode_locked user wave mode s).2.
Proof.
  intros Ho Hc. change (wp (set_mode_locked user wave mode) (λ _ s', discreet s s') s).
  unfold set_mode_locked. do 2 wp_step. ask Ha. ask_permit. cbv zeta. case_decide; [silent|]. wp_step.
  apply wp_db_write; [|silent]. intros db [= <-]. cbv beta iota. do 2 wp_step. apply discreet_rest; [done..| |].
  - exact (members_coherent _ _ Hc).
  - apply tells_bind; [|auto with tells]. apply tells_each. intros id _. apply tells_broadcast. by intros w [].
Qed.

Lemma add_participant_discreet s caller wave wavelet user :
  db_sound (c_db s) → owned (c_live s) → coherent (c_db s) (c_live s) →
  discreet s (add_participant_locked caller wave wavelet user s).2.
Proof.
  intros Hd Ho Hc. change (wp (add_participant_locked caller wave wavelet user) (λ _ s', discreet s s') s).
  unfold add_participant_locked, guard_access. do 2 wp_step. ask Ha. cbv zeta. ask Hin.
  destruct (LiveWave.wavelet _ _) as [w|] eqn:Hw; [|silent]. destruct (has_participant w _) eqn:Hp; [silent|].
  do 3 wp_step. apply wp_db_write; [|silent]. intros db Hdb. cbv beta iota. do 2 wp_step.
  apply wavelet_found in Hw as [Hw Hid].
  destruct (add_participant_inv _ _ _ _ _ _ w Hd Hc Hdb Hw Hid) as [_ Hc']; [rewrite <- has_participant_spec; congruence|].
  apply discreet_rest; [done..|exact (members_coherent _ _ Hc')|].
  apply tells_bind; [|auto with tells]. apply tells_broadcast. by intros x <-.
Qed.

Lemma private_reply_discreet s user wave wavelet anchor ids :
  db_sound (c_db s) → owned (c_live s) → coherent (c_db s) (c_live s) → wave = wave_id (lw_wave (c_live s)) →
  discreet s (private_reply_locked user wave wavelet anchor ids s).2.
Proof.
  intros Hd Ho Hc ->.
  change (wp (private_reply_locked user (wave_id (lw_wave (c_live s))) wavelet anchor ids) (λ _ s', discreet s s') s).
  unfold private_reply_locked, guard_access. do 2 wp_step. ask Ha. ask_permit. ask Hb. cbv zeta.
  destruct (find_list _ _); [silent|]. do 10 wp_step. cbv zeta. wp_step. apply wp_db_write; [|silent]. intros db Hdb.
  cbv beta iota. simpl in Hdb. unfold create_private_reply in Hdb. apply bind_ok in Hdb as (db1 & H1 & H2).
  apply (insert_wavelet_inv _ _ _ _ Hd Hc) in H1 as [_ Hc1]; [|done].
  do 2 wp_step. apply discreet_rest; [done..| |].
  - simpl. apply (members_rows db1); [by apply seeded_rows in H2|exact (members_coherent _ _ Hc1)].
  - apply tells_bind; [|auto with tells]. apply tells_broadcast.
    intros w [<-|[(b & ->%list_elem_of_singleton & <-)|(t & Ht & _)]]; [done..|by apply elem_of_nil in Ht].
Qed.

(** ** Removing a member *)

(** Between the two passes over the wavelets, the one named is already as it will be. *)
Lemma dropped_member db l w0 user u :
  members db (set_wavelets (update_where (left_by w0 user) (drop_participant user) (lw_wavelets l)) l) →
  may_access (set_wavelets (update_where (λ w, str_eqb (wl_id w) (wl_id w0)) (drop_participant user) (lw_wavelets l)) l)
    u (wl_id w0) = true → member db u (wl_id w0).
Proof.
  intros Hm (x & (y & Hy & ->)%elem_of_update & Hid & Hu)%may_access_wavelet.
  assert (wl_id y = wl_id w0) as Ey by by destruct (str_eqb (wl_id y) _). rewrite <- Ey in *. clear Hid.
  unfold str_eqb in Hu. rewrite bool_decide_eq_true_2 in Hu by done.
  apply (Hm (drop_participant user y)); [|done]. apply elem_of_update. exists y. split; [done|].
  unfold left_by, str_eqb. by rewrite bool_decide_eq_true_2.
Qed.

Lemma wp_telling_broadcast {U} (k : () → CM U) db out0 wavelet skip m s Q :
  c_db s = db → owned (c_live s) → told owner db out0 (c_out s) →
  (∀ c w, may_access (c_live s) (owner c) wavelet = true → about db m w → member db (owner c) w) →
  (∀ l' out', owned l' → (∃ subs, l' = set_subscribers subs (c_live s)) → told owner db out0 out' →
     wp (k tt) Q (with_wave_out l' out' s)) →
  wp (cm_bind (cm_broadcast wavelet skip m) k) Q s.
Proof.
  intros Hd Ho Ht Hm Hk. apply wp_bind. unfold wp at 1, cm_broadcast.
  pose proof (broadcast_delivered owner db (c_live s) (c_out s) wavelet skip m Ho Hm) as H.
  destruct (broadcast _ _ _ _ _) as [l out] eqn:E. simpl. pose proof (delivered_wave _ _ _ _ H Ho) as (H1 & _ & H3).
  apply Hk; [done| |by eapply told_trans]. destruct H as (_ & subs & ? & _). by exists subs.
Qed.

Lemma tells_forget db out0 user wave :
  tells db out0 (l <-! get_live;
    (if may_view l user then cm_ret tt else put_live (unsubscribe user l) ;! cm_send_to_user user (WaveRemoved wave)) ;!
    schedule_inbox_update wave).
Proof.
  intros s Hs. do 3 wp_step.
  apply (wp_mono _ (λ _ s', telling owner db out0 s')); [intros [[]|e] s' H; [by apply tells_schedule|done]|].
  destruct (may_view _ _); [done|]. do 2 wp_step. apply tells_send_to_user; [by intros w []|].
  destruct Hs as [Hd Ho Hm Ht]. constructor; simpl; try done.
  intros c sub [Hc _]%map_lookup_filter_Some. by apply Ho.
Qed.

Lemma remove_participant_discreet s caller wave wavelet user :
  db_sound (c_db s) → owned (c_live s) → coherent (c_db s) (c_live s) →
  discreet s (remove_participant_locked caller wave wavelet user s).2.
Proof.
  intros Hd Ho Hc. change (wp (remove_participant_locked caller wave wavelet user) (λ _ s', discreet s s') s).
  unfold remove_participant_locked, guard_access. do 2 wp_step. ask Ha. ask Hp.
  destruct (LiveWave.wavelet _ _) as [w0|] eqn:Hw; [|silent]. destruct (has_participant w0 user); [|silent].
  cbn [negb]. ask Hn. wp_step. apply wp_db_write; [|silent]. intros db [= <-].
  apply wavelet_found in Hw as [Hw <-]. destruct (remove_participant_inv _ _ _ user _ Hd Hc Hw eq_refl) as [Hd' Hc'].
  apply members_coherent in Hc'. rewrite (wavelet_mut_where _ _ _ (co_keyed _ _ Hc)).
  set (db' := remove_participant _ _ _) in *. cbv beta iota. do 2 wp_step.
  apply (wp_mono _ (λ _ s', telling owner db' (c_out s) s')); [intros _ s' H; by eapply discreet_telling|].
  apply (wp_telling_broadcast _ db' (c_out s)); [done|done|apply told_refl| |].
  { intros c w Hac <-. by eapply dropped_member. }
  intros l' out' Ho' [subs ->] Ht'. wp_step. case_decide as Hk.
  - do 2 wp_step. unfold cascade. cbv beta iota. do 2 wp_step.
    apply (wp_mono _ (λ _ s', telling owner db' (c_out s) s')); [intros [[]|e] s' Hs'; [by apply tells_forget|done]|].
    apply tells_each; [intros id _; apply tells_broadcast; by intros w <-|].
    constructor; [done..| |done]. simpl. by rewrite cascade_left_by.
  - wp_step. apply tells_forget. constructor; [done..| |done]. simpl. by rewrite single_left_by.
Qed.

(** ** Watching *)

Lemma presence_heard db l wave c :
  db_sound db → coherent db l → may_hear owner db c (Presence wave (presence_for l (owner c))).
Proof.
  intros Hd Hc w (e & blip & He & Hed & Hb). unfold presence_for in He. rewrite merge_sort_Permutation in He.
  apply presence_loop_elem in He as (sub & _ & _ & _ & _ & H). destruct (H _ Hed) as (lb & Hl & Hv).
  rewrite (blip_in_resident _ _ _ _ _ Hd Hc Hl Hb). apply list_elem_of_fmap in Hv as (x & -> & [Hx Hu]%elem_of_visible).
  by apply (members_coherent _ _ Hc).
Qed.

Lemma wp_telling_presence db out0 wave s :
  db_sound db → coherent db (c_live s) → telling owner db out0 s →
  wp (cm_presence wave) (λ _ s', telling owner db out0 s') s.
Proof.
  intros Hd Hc Ht. unfold wp, cm_presence. destruct (broadcast_presence _ _ _) as [l out] eqn:E. simpl.
  apply telling_delivered; [done|]. rewrite <- E. apply presence_delivered; [apply Ht|]. intros c. by apply presence_heard.
Qed.

Lemma owned_alter l conn f :
  (∀ sub, sub_tx (f sub) = sub_tx sub ∧ sub_user_id (f sub) = sub_user_id sub) → owned l →
  owned (set_subscribers (alter f conn (lw_subscribers l)) l).
Proof.
  intros Hf Ho c sub. simpl. destruct (decide (c = conn)) as [->|Hne].
  - rewrite lookup_alter_eq. intros (x & Hx & ->)%fmap_Some. destruct (Hf x) as [-> ->]. by apply Ho.
  - rewrite lookup_alter_ne by done. apply Ho.
Qed.

Lemma cursor_discreet s user conn wave blip index length :
  db_sound (c_db s) → owned (c_live s) → coherent (c_db s) (c_live s) →
  discreet s (cursor_locked user conn wave blip index length s).2.
Proof.
  intros Hd Ho Hc. change (wp (cursor_locked user conn wave blip index length) (λ _ s', discreet s s') s).
  unfold cursor_locked. do 2 wp_step. destruct (lw_blips _ !! blip) as [b|] eqn:Hb; [|silent]. cbv zeta.
  destruct (negb _); [silent|]. do 2 wp_step.
  apply (wp_mono _ (λ _ s', telling owner (c_db s) (c_out s) s')); [intros _ s' H; by eapply discreet_telling|].
  apply wp_telling_broadcast with (db := c_db s) (out0 := c_out s); [done|by apply owned_alter|apply told_refl| |].
  - intros c w Hac Hw. rewrite (blip_in_resident _ _ _ _ _ Hd Hc Hb Hw) in *.
    by apply (member_of _ (c_live s)); [apply members_coherent|].
  - intros l' out' Ho' [subs ->] Ht'. apply wp_telling_presence; [done|by do 2 apply coherent_subs|].
    constructor; [done..|exact (members_coherent _ _ Hc)|done].
Qed.

Lemma view_heard db l conn marks fl :
  coherent db l → may_hear owner db conn (WaveState (view l (owner conn) marks fl)).
Proof.
  intros Hc w (v & (x & -> & [Hx Hu]%elem_of_visible)%list_elem_of_fmap & Hv).
  assert (w = wl_id x) as ->; [|by apply (members_coherent _ _ Hc)].
  destruct Hv as [<-|[(b & (lb & -> & Hb)%list_elem_of_fmap & <-)|(t & Ht & <-)]]; simpl in *; [done| |].
  - by apply elem_of_blips_in in Hb as [_ ->].
  - rewrite merge_sort_Permutation in Ht. by apply list_elem_of_filter in Ht as [-> _].
Qed.

Lemma open_discreet s conn wave marks fl :
  db_sound (c_db s) → owned (c_live s) → coherent (c_db s) (c_live s) →
  discreet s (open_locked (owner conn) conn wave marks fl s).2.
Proof.
  intros Hd Ho Hc. change (wp (open_locked (owner conn) conn wave marks fl) (λ _ s', discreet s s') s).
  unfold open_locked. do 2 wp_step. ask Hv. do 2 wp_step.
  apply (wp_mono _ (λ _ s', telling owner (c_db s) (c_out s) s')); [intros _ s' H; by eapply discreet_telling|].
  wp_step. set (s1 := with_live _ s).
  assert (owned (c_live s1)) as Ho1.
  { intros c sub. simpl. intros [[<- <-]|[_ H]]%lookup_insert_Some; [done|by apply Ho]. }
  assert (telling owner (c_db s) (c_out s) s1) as Ht1.
  { constructor; [done|done|exact (members_coherent _ _ Hc)|apply told_refl]. }
  unfold wp at 1, cm_send_to. destruct (send_to _ _ _ _) as [l out] eqn:E. simpl.
  pose proof (send_to_delivered owner (c_db s) _ (c_out s) conn (WaveState (view (c_live s) (owner conn) marks fl)) Ho1
    (view_heard _ _ _ _ _ Hc)) as Hdel. simpl in E, Hdel. rewrite E in Hdel.
  apply wp_telling_presence; [done| |by apply telling_delivered].
  destruct Hdel as (_ & subs & E' & _). simpl in E'. subst l. by do 2 apply coherent_subs.
Qed.

Lemma leave_discreet s conn wave :
  db_sound (c_db s) → owned (c_live s) → coherent (c_db s) (c_live s) → discreet s (leave_locked conn wave s).2.
Proof.
  intros Hd Ho Hc. change (wp (leave_locked conn wave) (λ _ s', discreet s s') s). unfold leave_locked. do 4 wp_step.
  apply (wp_mono _ (λ _ s', telling owner (c_db s) (c_out s) s')); [intros _ s' H; by eapply discreet_telling|].
  apply wp_telling_presence; [done|by apply coherent_subs|]. constructor; [done| |exact (members_coherent _ _ Hc)|apply told_refl].
  intros c sub Hc'. simpl in Hc'. apply lookup_delete_Some in Hc' as [_ H]. by apply Ho.
Qed.

(** ** Edits *)

Lemma blip_in_committed db b delta author ts op_id db' id w :
  commit_op db b delta author ts op_id = Ok db' → blip_in db' id w → blip_in db id w.
Proof.
  intros (f & g & -> & _)%commit_op_inv (x & (r & Hr & ->)%elem_of_update & <- & <-). exists r. split; [done|].
  by destruct (str_eqb _ _).
Qed.

Lemma apply_op_discreet conn blip revision delta op_id s :
  db_sound (c_db s) → owned (c_live s) → coherent (c_db s) (c_live s) → editable blip delta (c_live s) →
  discreet s (apply_op conn (owner conn) (the_edit blip revision delta op_id) s).2.
Proof.
  intros Hd Ho Hc He. change (wp (apply_op conn (owner conn) (the_edit blip revision delta op_id)) (λ _ s', discreet s s') s).
  assert (∀ w, author_may (owner conn) blip s → blip_in (c_db s) blip w → member (c_db s) (owner conn) w) as Hmay.
  { intros w (lb & Hl & Hac) Hb. rewrite (blip_in_resident _ _ _ _ _ Hd Hc Hl Hb).
    by apply (member_of _ (c_live s)); [apply members_coherent|]. }
  apply wp_apply_op; [done..| | |].
  - intros _ s' (E1 & E2 & _ & _ & E3 & _). by apply discreet_silent.
  - intros s' (Ha & op & row & _ & _ & _ & _ & E1 & _ & E2).
    match type of E2 with _ = send_to ?l ?out conn ?m =>
      pose proof (send_to_delivered owner (c_db s) l out conn m Ho) as H end.
    rewrite <- E2 in H. destruct H as [Ht (subs & Es & Hs)]; [by intros w Hw; apply Hmay|]. simpl in *.
    split; [by rewrite E1|]. rewrite Es. intros c sub Hx. by apply Ho, Hs.
  - intros s' (Ha & lb & entry & doc & ts & Hl & _ & _ & Hcommit & E & _).
    set (meta := lb_meta (edited ts (owner conn) doc lb)) in *.
    set (l1 := wavelet_mut (blip_wavelet_id (lb_meta lb)) (touch_wavelet ts) (put_blip (edited ts (owner conn) doc lb) (c_live s))) in *.
    assert (blip_id meta = blip) as Hid by (by destruct (co_docs _ _ Hc _ _ Hl) as [<- _]).
    assert (db_participants (c_db s') = db_participants (c_db s)) as Ep by (by apply commit_op_inv in Hcommit as (f & g & -> & _)).
    assert (members (c_db s') l1) as Hm.
    { apply members_touch, (members_rows (c_db s)); [done|exact (members_coherent _ _ Hc)]. }
    assert (∀ w, blip_in (c_db s') blip w → w = blip_wavelet_id meta) as Honly.
    { intros w Hw. eapply blip_in_committed in Hw; [|done]. by apply (blip_in_resident (c_db s) (c_live s) blip lb). }
    unfold announce in E. cbn [fst snd] in E.
    match type of E with context [broadcast ?l ?out ?w ?sk ?m] =>
      pose proof (broadcast_delivered owner (c_db s') l out w sk m Ho) as H; destruct (broadcast l out w sk m) as [l2 out2] end.
    destruct H as [Ht2 (subs2 & Es2 & Hs2)].
    { intros c w Hac Hw. change (blip_in (c_db s') (blip_id meta) w) in Hw. rewrite Hid in Hw. rewrite (Honly w Hw). by apply (member_of _ l1). }
    simpl in *. assert (owned l2) as Ho2 by (subst l2; intros c sub Hx; by apply Ho, Hs2).
    match type of E with _ = send_to ?l ?out conn ?m => pose proof (send_to_delivered owner (c_db s') l out conn m Ho2) as H end.
    rewrite <- E in H. destruct H as [Ht3 (subs3 & Es3 & Hs3)].
    { intros w Hw. change (blip_in (c_db s') (blip_id (lb_meta lb)) w) in Hw. rewrite Hid in Hw. unfold member, is_wavelet_participant. rewrite Ep.
      apply Hmay; [done|]. by eapply blip_in_committed. }
    simpl in *. split; [by eapply told_trans|]. rewrite Es3. intros c sub Hx. by apply Ho2, Hs3.
Qed.

End handlers.
