(* ===== verification/AccessGuarantees.v ===== *)
(** * Access control

    Nothing said about a wavelet reaches anybody but its members: not what a command announces, not what a
    query answers. *)

From stdpp Require Import sorting.
From Stdlib Require Import QArith.
From S2P Require Import Prelude Tables Strings Unicode Json Attributes Text Delta Model Protocol ServerDoc.
From S2P Require Import ServerDocTheory DocGuarantees Content DocBounds LiveWave LiveWaveTheory Snippet Storage OpLog Queries.
From S2P Require Import Effects Critical Handlers Coherence CoherenceLemmas CoherenceMembers CoherenceFrame CoherenceHandlers Submission.
From S2P Require Import App AppTheory Limit Dispatch Commands Agent AgentTheory Server Watchers Lifecycle Scenario ServerGuarantees.
From S2P Require Import Audience AudienceHandlers Sections.

Section access.
Context `{J : Json} `{U : Unicode} `{W : World}.
Context (fts_match : str → list SearchRow → list (SearchRow * str)).
Context (hash_token : str → str) (request_json : ReplyRequest → str).

#[local] Abbreviation execute := (Sections.execute hash_token request_json).

Section told_to.
Context (owner : ConnId → UserId).

(** Of any agreeing memory and storage, and watchers attached under their own name. *)
Lemma sections_reach_members s conn c :
  db_sound (c_db s) → coherent (c_db s) (c_live s) → owned owner (c_live s) → from_wire (c_live s) c →
  let s' := (execute (owner conn) conn (wave_id (lw_wave (c_live s))) c s).2 in
  told owner (c_db s') (c_out s) (c_out s') ∧ owned owner (c_live s').
Proof.
  intros Hd Hc Ho Hw. destruct c; simpl.
  - by apply apply_op_discreet.
  - by apply create_blip_discreet.
  - by apply create_comment_discreet.
  - by apply reply_to_comment_discreet.
  - by apply resolve_comment_discreet.
  - by apply delete_blip_discreet.
  - by apply set_title_discreet.
  - by apply set_mode_discreet.
  - by apply add_participant_discreet.
  - by apply remove_participant_discreet.
  - by apply private_reply_discreet.
  - by apply cursor_discreet.
  - by apply open_discreet.
  - by apply leave_discreet.
  - rewrite answered. by apply reply_locked_discreet.
Qed.

End told_to.

(** Whose connection the table says it is. *)
Definition owner_in (a : App) (conn : ConnId) : UserId :=
  match app_conns a !! conn with Some hd => conn_user hd | None => [] end.

(** C2: confidentiality.  In every state reached, whatever a command of a connection queues speaks only of wavelets that
    the receiving connection's user is a member of once the command is done; in particular a private reply is heard by
    its members only, and a removed member hears nothing more. *)
Theorem messages_reach_members generate_token db a sess h l c :
  db_sound db → rtc (lives fts_match hash_token generate_token request_json) (app_new db) a → registered sess a →
  app_heap a !! h = Some l → lw_evicted l = false → from_wire l c →
  let s' := (execute (me sess) (s_conn sess) (wave_id (lw_wave l)) c (crit_of a l)).2 in
  told (owner_in a) (c_db s') (app_out a) (c_out s').
Proof.
  intros Hd Hr Hs Hl He Hw. destruct (lived_ok _ _ _ _ _ _ Hd Hr) as [Ha Hwo].
  destruct (ao_waves _ Ha _ _ (ao_live _ Ha _ _ Hl He)) as (l' & Hl' & _ & Hc). assert (l' = l) as -> by congruence.
  assert (me sess = owner_in a (s_conn sess)) as -> by (unfold owner_in; by rewrite Hs).
  apply (sections_reach_members (owner_in a) (crit_of a l)); [apply Ha|done| |done].
  intros conn sub Hsub. destruct (wo_watch _ _ Hwo _ _ _ _ Hl He Hsub) as [|(Htx & (hd & Hhd & Hu) & _)]; [done|].
  split; [done|]. unfold owner_in. by rewrite Hhd.
Qed.


(** ** What it takes to be accepted *)

Definition mode_allows s (user : UserId) (action : Action) : Prop :=
  action_allowed (wave_mode (lw_wave (c_live s))) (str_eqb (wave_creator (lw_wave (c_live s))) user) action = true.

(** Membership in storage, the wave's mode, authorship, and what the command refers to. *)
Definition demands s (user : UserId) (c : Locked) : Prop :=
  let l := c_live s in
  match c with
  | LSubmit blip _ _ op_id =>
      ∃ lb, lw_blips l !! blip = Some lb ∧ member (c_db s) user (blip_wavelet_id (lb_meta lb)) ∧
        (mode_allows s user (Edit (str_eqb (blip_author (lb_meta lb)) user)) ∨
         ∃ op, op_id = Some op ∧ is_Some (revision_for_op (c_db s) blip op))
  | LCreateBlip wavelet parent _ =>
      member (c_db s) user wavelet ∧ mode_allows s user (match parent with Some _ => Reply | None => NewMessage end) ∧
      ∀ p, parent = Some p → ∃ lb, lw_blips l !! p = Some lb ∧ blip_wavelet_id (lb_meta lb) = wavelet
  | LCreateComment wavelet target comment _ =>
      member (c_db s) user wavelet ∧ mode_allows s user AComment ∧ lw_comments l !! comment = None ∧
      ∃ lb, lw_blips l !! target = Some lb ∧ blip_wavelet_id (lb_meta lb) = wavelet ∧ blip_comment (lb_meta lb) = None
  | LReplyToComment comment _ =>
      ∃ t, lw_comments l !! comment = Some t ∧ member (c_db s) user (ct_wavelet_id t) ∧ mode_allows s user AComment ∧
        ct_resolved t = false
  | LResolveComment comment _ =>
      ∃ t, lw_comments l !! comment = Some t ∧ member (c_db s) user (ct_wavelet_id t) ∧ mode_allows s user AResolveComment
  | LDeleteBlip blip =>
      ∃ lb, lw_blips l !! blip = Some lb ∧ member (c_db s) user (blip_wavelet_id (lb_meta lb)) ∧ mode_allows s user Delete ∧
        blip_author (lb_meta lb) = user ∧ blip_comment (lb_meta lb) = None ∧ has_replies l blip = false
  | LSetTitle wavelet _ => member (c_db s) user wavelet ∧ mode_allows s user Retitle
  | LSetMode _ => wave_creator (lw_wave l) = user ∧ ∃ w, w ∈ lw_wavelets l ∧ member (c_db s) user (wl_id w)
  | LAddParticipant wavelet _ => member (c_db s) user wavelet
  | LRemoveParticipant wavelet removed =>
      member (c_db s) user wavelet ∧ (removed = user ∨ wave_creator (lw_wave l) = user)
  | LPrivateReply wavelet anchor ids =>
      member (c_db s) user wavelet ∧ mode_allows s user StartPrivateReply ∧ ∀ id, id ∈ ids → member (c_db s) id wavelet
  | LOpen _ _ => ∃ w, w ∈ lw_wavelets l ∧ member (c_db s) user (wl_id w)
  | LCursor _ _ _ | LLeave | LAgentReply _ _ => True
  end.

Definition accepted_only_if (D : Prop) {T} (r : result T ServerMessage) (s' : Crit) : Prop := is_ok r = true → D.

Lemma wp_granted {T} (m : CM T) (D : Prop) s : D → wp m (accepted_only_if D) s.
Proof. intros HD _. exact HD. Qed.

Lemma permit_allows s user action : permit (c_live s) user action = Ok tt → mode_allows s user action.
Proof. unfold permit, mode_allows. by destruct (action_allowed _ _ _). Qed.

Lemma may_view_member db l user :
  members db l → may_view l user = true → ∃ w, w ∈ lw_wavelets l ∧ member db user (wl_id w).
Proof.
  unfold may_view. intros Hm (w & Hw%list_elem_of_In & Hu%has_participant_spec)%existsb_exists. exists w. split; [done|by apply Hm].
Qed.

(** Through the checks, remembering each. *)
Ltac collect :=
  repeat match goal with
  | |- accepted_only_if _ (Err _) _ => by intros ?
  | |- wp (guard _ _) _ _ => apply wp_guard; [intros ?|by intros ? ?]
  | |- wp (cm_bind (lift (permit _ _ _)) _) _ _ =>
      apply wp_bind, wp_lift; let E := fresh "Hpermit" in destruct (permit _ _ _) as [[]|] eqn:E; [apply permit_allows in E|by intros ?]
  | |- wp (cm_bind (guard _ _) _) _ _ => wp_step
  | |- wp (cm_bind get_live _) _ _ => wp_step
  | |- wp get_live _ _ => wp_step
  | |- wp (cm_throw _) _ _ => by intros ?
  | |- wp (match ?x with _ => _ end) _ _ => let E := fresh "Hcase" in destruct x eqn:E
  end; cbv beta iota zeta.

Ltac facts :=
  repeat match goal with
  | H : bool_decide _ = true |- _ => apply bool_decide_eq_true in H
  | H : str_eqb _ _ = true |- _ => apply str_eqb_spec in H
  | H : negb _ = true |- _ => apply negb_true_iff in H
  | H : negb _ = false |- _ => apply negb_false_iff in H
  | H : _ || _ = true |- _ => apply orb_true_iff in H
  end.

Ltac granted := unfold guard_access; collect; apply wp_granted; facts; repeat first [eassumption | by auto | split | eexists].

Lemma submit_demands s user conn blip revision delta op_id :
  members (c_db s) (c_live s) →
  wp (apply_op conn user (mkSubmission blip revision delta op_id)) (accepted_only_if (demands s user (LSubmit blip revision delta op_id))) s.
Proof.
  intros Hm. unfold apply_op. cbn [sub_blip_id sub_revision sub_delta sub_op_id]. do 2 wp_step.
  destruct (lw_blips (c_live s) !! blip) as [lb|] eqn:Hl; [|by intros ?].
  destruct (negb _) eqn:Ha; [by intros ?|]. apply negb_false_iff in Ha. wp_step.
  assert (wp (committed_before blip op_id) (λ r s', c_db s' = c_db s ∧ c_live s' = c_live s ∧
    ∀ found, r = Ok (Some found) → op_id = Some found.2 ∧ is_Some (revision_for_op (c_db s) blip found.2)) s) as H.
  { unfold committed_before. destruct op_id as [op|]; [|by apply wp_ret].
    wp_step. apply wp_try_db; [|done]. intros found db [= <- <-]. cbv beta iota. wp_step. destruct (revision_for_op _ _ _) eqn:E; [|done].
    split_and!; [done..|]. intros found [= <-]. simpl. rewrite E. eauto. }
  revert H. apply wp_mono. intros [[[r op]|]|e] s' (E1 & E2 & Hf); [| |by intros ?].
  - apply wp_granted. destruct (Hf _ eq_refl) as [-> Hr]. exists lb. split_and!; [done|by eapply member_of|]. right. by exists op.
  - destruct (permit _ _ _) as [[]|] eqn:Ep; [|by intros ?]. apply permit_allows in Ep.
    destruct (apply _ _ _ _) as [[]|]; [|by intros ?]. apply wp_granted. exists lb. split_and!; [done|by eapply member_of|]. by left.
Qed.

Lemma create_blip_demands s user wave wavelet parent content :
  members (c_db s) (c_live s) →
  wp (create_blip_locked user wave wavelet parent content) (accepted_only_if (demands s user (LCreateBlip wavelet parent content))) s.
Proof.
  intros Hm. unfold create_blip_locked. do 8 wp_step. destruct (prepare_blip _ _ _ _ _ _ _) as [b|] eqn:Hp; [|by intros ?].
  apply wp_granted. unfold prepare_blip in Hp. destruct (may_access _ _ _) eqn:Ha; [|done]. simpl in Hp.
  apply bind_ok in Hp as ([] & Hpermit%permit_allows & Hp). destruct (negb _) eqn:Hpar; [done|]. apply negb_false_iff in Hpar.
  split_and!; [by eapply member_of|done|]. intros p ->. destruct (lw_blips _ !! p) as [lb|]; [|done].
  apply str_eqb_spec in Hpar. eauto.
Qed.

Lemma private_reply_demands s user wave wavelet anchor ids :
  members (c_db s) (c_live s) →
  wp (private_reply_locked user wave wavelet anchor ids) (accepted_only_if (demands s user (LPrivateReply wavelet anchor ids))) s.
Proof.
  intros Hm. unfold private_reply_locked, guard_access. collect. apply wp_granted.
  split_and!; [by eapply member_of|done|]. intros id Hid.
  assert (list_find (λ id, negb (bool_decide (id ∈ match LiveWave.wavelet (c_live s) wavelet with
    | Some w => wl_participants w | None => [] end)) = true) ids = None) as Hf.
  { unfold find_list in Hcase. by destruct (list_find _ ids). }
  apply list_find_None in Hf. rewrite list.Forall_forall in Hf. specialize (Hf id Hid).
  rewrite negb_true_iff, bool_decide_eq_false in Hf. apply dec_stable in Hf.
  destruct (LiveWave.wavelet (c_live s) wavelet) as [w|] eqn:Hw; [|by apply elem_of_nil in Hf].
  apply wavelet_found in Hw as [Hw <-]. by apply Hm.
Qed.

Lemma demands_met s user conn wave c :
  coherent (c_db s) (c_live s) → wp (execute user conn wave c) (accepted_only_if (demands s user c)) s.
Proof.
  intros Hc. pose proof (members_coherent _ _ Hc) as Hm. pose proof (λ u w, member_of _ _ u w Hm) as Hac.
  pose proof (λ u, may_view_member _ _ u Hm) as Hv.
  destruct c; cbn [execute demands].
  - by apply submit_demands.
  - by apply create_blip_demands.
  - unfold create_comment_locked. granted.
  - unfold reply_to_comment_locked. granted.
  - unfold resolve_comment_locked. granted.
  - unfold delete_blip_locked. granted.
  - unfold set_title_locked. granted.
  - unfold set_mode_locked. granted; by apply str_eqb_spec.
  - unfold add_participant_locked. granted.
  - unfold remove_participant_locked. granted; by destruct H0 as [?%str_eqb_spec|?%str_eqb_spec]; auto.
  - by apply private_reply_demands.
  - by apply wp_granted.
  - unfold open_locked. granted.
  - by apply wp_granted.
  - by apply wp_granted.
Qed.

(** C6: authorisation.  A command is accepted only from a member (by the stored membership) of the wavelet it
    is about, only where the wave's mode allows its kind, with authorship or ownership where that is asked,
    and only about messages and threads that are there. *)
Theorem accepted_commands_authorised s user conn wave c :
  coherent (c_db s) (c_live s) → is_ok (execute user conn wave c s).1 = true → demands s user c.
Proof. intros Hc. exact (demands_met s user conn wave c Hc). Qed.

(** ** Queries *)

Lemma visible_row db user b w :
  keyed blip_id (db_blips db) → b ∈ db_blips db → is_wavelet_participant db user (blip_wavelet_id b) = true →
  blip_in db (blip_id b) w → member db user w.
Proof. intros Hk Hb Hm (b' & Hb' & E & <-). by rewrite (keyed_eq _ _ _ _ Hk Hb' Hb E). Qed.

Lemma search_visible db user query w :
  keyed blip_id (db_blips db) → about db (SearchResults query (search fts_match db user query)) w → member db user w.
Proof.
  intros Hk (h & Hh & Hb). unfold search in Hh. case_decide; [by apply elem_of_nil in Hh|].
  apply elem_of_take in Hh as (i & Hh%list_elem_of_lookup_2 & _). apply list_elem_of_bind in Hh as ([f sn] & Hh & _).
  apply list_elem_of_bind in Hh as (b & Hh & Hsel). apply elem_of_select in Hsel as [Hin Hv].
  apply list_elem_of_fmap in Hh as (s & -> & _). simpl in Hb.
  rewrite !andb_true_iff in Hv. destruct Hv as [[E%str_eqb_spec _] Hm]. rewrite <- E in Hb. by eapply visible_row.
Qed.

Lemma playback_visible db user wave w :
  keyed blip_id (db_blips db) → about db (Playback wave (playback db user wave)) w → member db user w.
Proof.
  intros Hk (f & Hf & Hb). unfold playback in Hf. apply list_elem_of_fmap in Hf as (o & -> & Ho).
  apply elem_of_take in Ho as (i & Ho%list_elem_of_lookup_2 & _). rewrite !elem_of_order_by in Ho. apply elem_of_select in Ho as [_ Ho].
  unfold op_visible in Ho. apply andb_true_iff in Ho as [_ (b & Hin & Hv)%exists_row_spec].
  rewrite !andb_true_iff in Hv. destruct Hv as [[E%str_eqb_spec _] Hm]. simpl in Hb. rewrite <- E in Hb. by eapply visible_row.
Qed.

Lemma context_loop_blips db limit cs count remaining blips :
  context_loop db limit cs count remaining = Some blips → ∀ c, c ∈ blips → ∃ b, b ∈ cs ∧ cb_id c = blip_id b.
Proof.
  revert count remaining blips. induction cs as [|b cs IH]; intros count remaining blips; simpl.
  { intros [= <-] c Hc. by apply elem_of_nil in Hc. }
  destruct (_ || _); [intros [= <-] c Hc; by apply elem_of_nil in Hc|].
  destruct (bounded_text _ _) as [[[text used] truncated]|]; [|done]. simpl.
  destruct (context_loop db limit cs _ _) as [rest|] eqn:E; [|done]. simpl. intros [= <-] c [->|Hc]%elem_of_cons.
  - exists b. split; [by left|done].
  - destruct (IH _ _ _ E c Hc) as (b' & ? & ?). exists b'. split; [by right|done].
Qed.

Lemma newest_in bs b : newest bs = Some b → b ∈ bs.
Proof.
  destruct bs as [|b0 bs]; [done|]. intros [= <-]. revert b0. induction bs as [|x bs IH]; intros b0; simpl; [by left|].
  specialize (IH (if (blip_last_modified b0 <? blip_last_modified x)%Z then x else b0)).
  apply elem_of_cons in IH as [->|IH]; [|by do 2 right]. destruct (_ <? _)%Z; [right; by left|by left].
Qed.

(** What a summary quotes: nothing, or a message of the conversation the reader may read. *)
Definition quotes db (user : UserId) (sum : WaveSummary) : Prop :=
  su_snippet sum = [] ∨
  ∃ b, b ∈ db_blips db ∧ blip_wave_id b = su_id sum ∧ blip_deleted b = false ∧ member db user (blip_wavelet_id b) ∧
    su_snippet sum = snippet_of (blip_content b) 140.

Lemma summary_visible db user wave sum :
  wave_summary db user wave = Some sum → su_id sum = wave ∧ is_participant db user wave = true ∧ quotes db user sum.
Proof.
  unfold wave_summary. intros (root & Hroot & H)%bind_Some. injection H as <-.
  apply find_row_some in Hroot as [_ [E%str_eqb_spec Hp]%andb_true_iff].
  assert (∀ s f, su_id (with_flags f s) = su_id s ∧ su_snippet (with_flags f s) = su_snippet s) as Hf by done.
  match goal with |- context [with_unread ?n ?x] => set (s0 := with_unread n x) end.
  assert (∀ s, su_id s = su_id s0 → su_snippet s = su_snippet s0 → su_id s = wave ∧ is_participant db user wave = true ∧ quotes db user s) as Hs.
  { intros s E1 E2. unfold quotes. rewrite E1, E2. subst s0. simpl.
    destruct (newest (conversation_blips db user wave)) as [b|] eqn:Hn; simpl; [|auto].
    split_and!; [done..|]. right. apply newest_in in Hn. unfold conversation_blips, readable_blips in Hn.
    apply elem_of_select in Hn as [[Hin Hv]%elem_of_select _]. rewrite !andb_true_iff, negb_true_iff in Hv.
    destruct Hv as [[Ew%str_eqb_spec Hdel] Hm]. exists b. rewrite E. done. }
  destruct (flags_row _ _ _); by apply Hs.
Qed.

(** C8: queries keep to what the reader is a member of: search results (whatever the index matched), playback,
    attachments, the summary of a wave, and what an agent's credential reads. *)
Theorem reads_reach_members db user :
  db_sound db →
  (∀ query w, about db (SearchResults query (search fts_match db user query)) w → member db user w) ∧
  (∀ wave w, about db (Playback wave (playback db user wave)) w → member db user w) ∧
  (∀ id a bytes, attachment_for db user id = Some (a, bytes) → member db user (at_wavelet_id a)) ∧
  (∀ wave sum, wave_summary db user wave = Some sum → is_participant db user wave = true ∧ quotes db user sum) ∧
  (∀ ts hash after limit units ctx, agent_context db ts hash after limit units = Some (Ok (Some ctx)) →
     ∃ tok, valid_agent_token db ts hash = Some tok ∧ member db (tok_user_id tok) (ac_wavelet_id ctx) ∧
       ∀ b w, b ∈ ac_blips ctx → blip_in db (cb_id b) w → w = ac_wavelet_id ctx).
Proof.
  intros Hd. pose proof (key_blips _ Hd) as Hk. split_and!.
  - intros query w. by apply search_visible.
  - intros wave w. by apply playback_visible.
  - intros id a bytes (r & Hr & [= -> _])%fmap_Some. by apply find_row_some in Hr as [_ [_ Hm]%andb_true_iff].
  - intros wave sum (_ & H)%summary_visible. exact H.
  - intros ts hash after limit units ctx. unfold agent_context. destruct (valid_agent_token _ _ _) as [tok|] eqn:Ht; [|done].
    destruct (_ ≫= _) as [[title mode]|]; [|done]. intros (blips & Hb & [= <-])%bind_Some. exists tok. simpl.
    split_and!; [done| |].
    + unfold valid_agent_token in Ht. apply bind_Some in Ht as (t & Ht & (s & _ & ->)%fmap_Some). simpl.
      apply find_row_some in Ht as [_ Ht]. by apply andb_true_iff in Ht as [_ ?].
    + intros c w Hc Hw. destruct (context_loop_blips _ _ _ _ _ _ Hb c Hc) as (b & Hin & E).
      apply elem_of_take in Hin as (i & Hin%list_elem_of_lookup_2 & _). rewrite merge_sort_Permutation in Hin.
      apply elem_of_select in Hin as [Hin Hv]. rewrite !andb_true_iff in Hv. destruct Hv as [[Hv%str_eqb_spec _] _].
      rewrite <- Hv. rewrite E in Hw. exact (only_row db (BlipRemoved [] (blip_id b)) b Hk Hin (λ _ H, H) w Hw).
Qed.

End access.

(** ** Concrete instances *)

Definition who_is (c : ConnId) : UserId := if (c =? 1)%N then lit "u-ann" else lit "u-bob".

Definition edit_command : Locked := LSubmit the_blip 1 edit1 (Some (lit "op1")).
Definition edit_run : result () ServerMessage * Crit :=
  execute plain_hash request_text (who_is 1) 1 (wave_id (lw_wave (c_live before_edit))) edit_command before_edit.

(** Both members have the wave open; the edit is queued for the other. *)
Lemma messages_reach_members_witness :
  size (lw_subscribers (c_live before_edit)) = 2%nat ∧ length (sent (c_out before_edit) 2) < length (sent (c_out edit_run.2) 2) ∧
  told (owner_in shared) (c_db edit_run.2) (c_out before_edit) (c_out edit_run.2).
Proof.
  split; [vm_compute; reflexivity|]. split; [apply Nat.ltb_lt; vm_compute; reflexivity|].
  assert (registered ann_session shared) as Hs by (vm_compute; reflexivity).
  assert (app_heap shared !! 0%nat = Some (resident_copy shared 0)) as Hl.
  { assert (bool_decide (is_Some (app_heap shared !! 0%nat)) = true) as [l Hl]%bool_decide_eq_true by (vm_compute; reflexivity).
    unfold resident_copy. by rewrite Hl. }
  assert (lw_evicted (resident_copy shared 0) = false) as He by (vm_compute; reflexivity).
  exact (messages_reach_members no_match plain_hash request_text token_text db_start shared ann_session 0 (resident_copy shared 0)
    edit_command db_start_sound shared_lived Hs Hl He before_edit_editable).
Defined.

Definition db_edited : Db := app_db edited_wave.

Lemma db_edited_sound : db_sound db_edited.
Proof. apply scenario_ok. Qed.

Lemma edited_playback : about db_edited (Playback the_wave (playback db_edited (lit "u-bob") the_wave)) the_wavelet.
Proof.
  assert (existsb (λ f, str_eqb (pf_blip_id f) the_blip) (playback db_edited (lit "u-bob") the_wave) = true) as H
    by (vm_compute; reflexivity).
  assert (exists_row (λ b, str_eqb (blip_id b) the_blip && str_eqb (blip_wavelet_id b) the_wavelet) (db_blips db_edited) = true) as H'
    by (vm_compute; reflexivity).
  apply existsb_exists in H as (f & Hf%list_elem_of_In & E%str_eqb_spec).
  apply exists_row_spec in H' as (b & Hb & [E1%str_eqb_spec E2%str_eqb_spec]%andb_true_iff).
  exists f. split; [done|]. exists b. by rewrite E.
Qed.

(** What bob plays back is of a wavelet he is a member of. *)
Lemma reads_reach_members_witness :
  about db_edited (Playback the_wave (playback db_edited (lit "u-bob") the_wave)) the_wavelet ∧ member db_edited (lit "u-bob") the_wavelet.
Proof.
  split; [exact edited_playback|].
  destruct (reads_reach_members no_match db_edited (lit "u-bob") db_edited_sound) as (_ & H & _). exact (H _ _ edited_playback).
Defined.

Definition refused_command : Locked := LSubmit the_blip 7 edit1 None.


Lemma accepted_commands_authorised_witness : is_ok edit_run.1 = true ∧ demands before_edit (who_is 1) edit_command.
Proof.
  assert (is_ok edit_run.1 = true) as E by (vm_compute; reflexivity). split; [exact E|].
  exact (accepted_commands_authorised plain_hash request_text before_edit (who_is 1) 1
    (wave_id (lw_wave (c_live before_edit))) edit_command (proj2 before_edit_ok) E).
Defined.
