(* ===== verification/CommandGuarantees.v ===== *)
(** * What the commands do

    Removing a member, deleting a message and starting a private reply, down to the rows they change. *)

From Stdlib Require Import QArith.
From S2P Require Import Prelude Tables Strings Unicode Json Attributes Text Delta Model Protocol ServerDoc.
From S2P Require Import ServerDocTheory DocGuarantees Content DocBounds LiveWave LiveWaveTheory Snippet Storage OpLog Queries.
From S2P Require Import Effects Critical Handlers Coherence CoherenceLemmas CoherenceMembers CoherenceFrame CoherenceHandlers Submission.
From S2P Require Import App AppTheory Limit Dispatch Commands Agent AgentTheory Server Scenario ServerGuarantees.
From S2P Require Import Audience AudienceHandlers Sections.

Section commands.
Context `{J : Json} `{W : World}.
Implicit Types db : Db.
Implicit Types l : LiveWave.
Implicit Types s : Crit.

(** ** Sections past their write *)

(** Storage [db], and a wave that differs from [l] in its watchers only. *)
Definition settled db l s : Prop := c_db s = db ∧ ∃ subs, c_live s = set_subscribers subs l.

Definition keeps_settled {T} (m : CM T) : Prop := ∀ db l s, settled db l s → wp m (λ _ s', settled db l s') s.

Lemma settled_broadcast wavelet skip m : keeps_settled (cm_broadcast wavelet skip m).
Proof. intros db l s (E & subs & Es). apply wp_broadcast. intros subs' out. split; [done|]. exists subs'. simpl. by rewrite Es. Qed.

Lemma settled_schedule wave : keeps_settled (schedule_inbox_update wave).
Proof. by intros db l s. Qed.

Lemma settled_send_to_user user m : keeps_settled (cm_send_to_user user m).
Proof. by intros db l s. Qed.

Lemma settled_bind {T U} (m : CM T) (f : T → CM U) : keeps_settled m → (∀ t, keeps_settled (f t)) → keeps_settled (cm_bind m f).
Proof.
  intros Hm Hf db l s Hs. apply wp_bind. specialize (Hm db l s Hs). unfold wp in *. destruct (m s).1; [by apply Hf|done].
Qed.

Lemma settled_each {A} (f : A → CM ()) xs : (∀ x, keeps_settled (f x)) → keeps_settled (cm_each f xs).
Proof.
  intros Hf. induction xs as [|x xs IH]; [by intros db l s|]. apply settled_bind; [apply Hf|by intros []].
Qed.

(** ** Removing a member *)

Definition no_watcher l (user : UserId) : Prop := ∀ c sub, lw_subscribers l !! c = Some sub → sub_user_id sub ≠ user.

Lemma wp_forget user wave db l s :
  settled db l s →
  wp (l <-! get_live;
      (if may_view l user then cm_ret tt else put_live (unsubscribe user l) ;! cm_send_to_user user (WaveRemoved wave)) ;!
      schedule_inbox_update wave)
    (λ _ s', settled db l s' ∧ (may_view l user = false → no_watcher (c_live s') user)) s.
Proof.
  intros (E & subs & Es). do 3 wp_step. rewrite Es. change (may_view (set_subscribers subs l) user) with (may_view l user).
  destruct (may_view l user) eqn:Ev.
  - wp_step. unfold wp, schedule_inbox_update. simpl. split; [|done]. split; [done|by exists subs].
  - do 2 wp_step. unfold wp, cm_send_to_user. simpl. split.
    + split; [done|]. by eexists.
    + intros _ c sub Hc. simpl in Hc. apply map_lookup_filter_Some in Hc as [_ H]. exact H.
Qed.

Lemma wp_remove_participant s caller wave wavelet user w0 :
  coherent (c_db s) (c_live s) → LiveWave.wavelet (c_live s) wavelet = Some w0 → user ∈ wl_participants w0 →
  wp (remove_participant_locked caller wave wavelet user) (λ r s', r = Ok tt →
    c_db s' = remove_participant (c_db s) wavelet user ∧ (may_view (c_live s') user = false → no_watcher (c_live s') user)) s.
Proof.
  intros Hc Hw Hu. set (db' := remove_participant _ _ _).
  apply (wp_mono _ (λ r s', r = Ok tt → ∃ l', settled db' l' s' ∧ (may_view l' user = false → no_watcher (c_live s') user))).
  { intros r s' Hq Hr. destruct (Hq Hr) as (l' & (E & subs & Es) & Hn). split; [done|]. intros Hv. apply Hn. by rewrite Es in Hv. }
  unfold remove_participant_locked, guard_access. do 6 wp_step.
  rewrite Hw. destruct (has_participant w0 user) eqn:Hp; [|apply has_participant_spec in Hu; congruence].
  cbn [negb]. do 2 wp_step. wp_step. apply wp_db_write; [|done]. intros db [= <-]. cbv beta iota. fold db'. do 3 wp_step.
  apply wp_broadcast. intros subs out. cbv beta iota. wp_step. case_decide.
  - do 2 wp_step. unfold cascade. cbv beta iota. do 2 wp_step.
    match goal with |- wp _ _ ?st => set (s1 := st) end.
    apply (wp_mono _ (λ _ s', settled db' (c_live s1) s')).
    + intros [[]|e] s' Hs'; [|done]. apply (wp_mono _ _ _ _ (λ r s'' H _, ex_intro _ (c_live s1) H)). by apply wp_forget.
    + apply settled_each; [intros id; apply settled_broadcast|]. split; [done|]. exists (lw_subscribers (c_live s1)). by destruct (c_live s1).
  - wp_step. match goal with |- wp _ _ ?st => set (s1 := st) end.
    apply (wp_mono _ _ _ _ (λ r s'' H _, ex_intro _ (c_live s1) H)). apply wp_forget. split; [done|].
    exists (lw_subscribers (c_live s1)). by destruct (c_live s1).
Qed.

(** The wavelets [user] leaves with [w0]. *)
Definition left_with l (w0 : Wavelet) (w : WaveletId) : Prop :=
  w = wl_id w0 ∨ wl_kind w0 = Conversation ∧ ∃ x, x ∈ lw_wavelets l ∧ wl_id x = w ∧ wl_kind x = PrivateReplyKind.

Lemma member_removed db l w0 user u w :
  db_sound db → coherent db l → w0 ∈ lw_wavelets l →
  member (remove_participant db (wl_id w0) user) u w ↔ member db u w ∧ ¬ (u = user ∧ left_with l w0 w).
Proof.
  intros Hd Hc Hw. unfold member, left_with. rewrite remove_participant_effect, participant_deleted, is_wavelet_participant_spec.
  rewrite <- (private_children_spec db l (wl_id w0) w0 w Hd Hc Hw eq_refl).
  unfold leaves, str_eqb. split.
  - intros (r & Hr & Hk & <- & <-). split; [eauto|]. intros [E H]. rewrite bool_decide_eq_true_2 in Hk by done. simpl in Hk.
    apply orb_false_iff in Hk as [H1%bool_decide_eq_false H2%bool_decide_eq_false]. tauto.
  - intros ((r & Hr & <- & <-) & Hn). exists r. split_and!; [done| |done..].
    rewrite <- not_true_iff_false, andb_true_iff, orb_true_iff, !bool_decide_eq_true. tauto.
Qed.

(** C19: leaving.  Removing a member takes exactly that member out of the wavelet, and, when it was the
    conversation, out of the wave's private replies; every other membership stays.  One who can see nothing of
    the wave any more is no longer attached to it. *)
Theorem removal_takes_effect s caller wave wavelet user w0 s' :
  db_sound (c_db s) → coherent (c_db s) (c_live s) →
  LiveWave.wavelet (c_live s) wavelet = Some w0 → user ∈ wl_participants w0 →
  remove_participant_locked caller wave wavelet user s = (Ok tt, s') →
  (∀ u w, member (c_db s') u w ↔ member (c_db s) u w ∧ ¬ (u = user ∧ left_with (c_live s) w0 w)) ∧
  (may_view (c_live s') user = false → no_watcher (c_live s') user).
Proof.
  intros Hd Hc Hw Hu E. pose proof (wp_remove_participant s caller wave wavelet user w0 Hc Hw Hu) as H.
  unfold wp in H. rewrite E in H. destruct (H eq_refl) as [Edb Hn]. simpl in Edb, Hn. rewrite Edb. split; [|exact Hn].
  apply wavelet_found in Hw as [Hw <-]. intros u w. by apply member_removed.
Qed.

(** ** Deleting a message *)

(** The messages that go with [blip]: itself and the remarks of the threads on it. *)
Definition deleted_with l (blip id : BlipId) (lb : LiveBlip) : Prop :=
  id = blip ∨ ∃ c t, blip_comment (lb_meta lb) = Some c ∧ lw_comments l !! c = Some t ∧ ct_blip_id t = blip.

Lemma live_threads_spec l blip c :
  (∀ id t, lw_comments l !! id = Some t → ct_id t = id) →
  c ∈ live_threads_on l blip ↔ ∃ t, lw_comments l !! c = Some t ∧ ct_blip_id t = blip.
Proof.
  intros Hk. unfold live_threads_on. rewrite list_elem_of_fmap. setoid_rewrite list_elem_of_filter. setoid_rewrite elem_of_values. split.
  - intros (t & -> & E & k & Ht). exists t. by rewrite (Hk _ _ Ht).
  - intros (t & Ht & E). exists t. rewrite (Hk _ _ Ht). eauto.
Qed.

Lemma live_remarks_spec db l blip id lb :
  coherent db l → lw_blips l !! id = Some lb →
  id ∈ live_remarks l (live_threads_on l blip) ↔
  ∃ c t, blip_comment (lb_meta lb) = Some c ∧ lw_comments l !! c = Some t ∧ ct_blip_id t = blip.
Proof.
  intros Hc Hl. unfold live_remarks. rewrite list_elem_of_fmap. setoid_rewrite list_elem_of_filter. setoid_rewrite elem_of_values.
  unfold remark_of. split.
  - intros (x & -> & Hr & k & Hk). destruct (co_docs _ _ Hc _ _ Hk) as [<- _]. assert (x = lb) as -> by congruence.
    destruct (blip_comment (lb_meta lb)) as [c|]; [|done]. apply bool_decide_eq_true in Hr.
    apply (live_threads_spec _ _ _ (co_threads _ _ Hc)) in Hr as (t & ? & ?). by exists c, t.
  - intros (c & t & Ec & Ht & Et). exists lb. destruct (co_docs _ _ Hc _ _ Hl) as [Hid _]. rewrite Ec. split_and!; [done| |eauto].
    apply bool_decide_eq_true. apply (live_threads_spec _ _ _ (co_threads _ _ Hc)). eauto.
Qed.

Lemma wp_delete_blip s user wave blip :
  wp (delete_blip_locked user wave blip) (λ r s', r = Ok tt →
    settled (delete_blip (c_db s) blip)
      (set_comments (foldr delete (lw_comments (c_live s)) (live_threads_on (c_live s) blip))
         (set_blips (foldr delete (delete blip (lw_blips (c_live s))) (live_remarks (c_live s) (live_threads_on (c_live s) blip)))
            (c_live s))) s') s.
Proof.
  unfold delete_blip_locked, guard_access. do 2 wp_step. destruct (lw_blips _ !! blip) as [b|]; [|done].
  do 6 wp_step. apply wp_bind, wp_lift. destruct (permit _ _ _) as [[]|]; [|done]. do 2 wp_step. cbv zeta. wp_step.
  apply wp_db_write; [|done]. intros db [= <-]. cbv beta iota. do 2 wp_step.
  match goal with |- wp ?m _ ?st => apply (wp_mono m (λ _ s', settled (delete_blip (c_db s) blip) (c_live st) s')); [by intros r s' ? _|] end.
  apply settled_bind; [apply settled_each; intros; apply settled_broadcast|intros []|].
  - apply settled_bind; [apply settled_broadcast|intros []; apply settled_schedule].
  - split; [done|]. eexists. simpl. done.
Qed.

(** C20: deleting.  An accepted deletion takes the message and every remark of the threads on it out of the wave,
    and those threads with them; the other messages, their op logs and the other threads stay. *)
Theorem deletion_takes_effect s user wave blip s' :
  coherent (c_db s) (c_live s) → delete_blip_locked user wave blip s = (Ok tt, s') →
  (∀ id lb, lw_blips (c_live s') !! id = Some lb ↔ lw_blips (c_live s) !! id = Some lb ∧ ¬ deleted_with (c_live s) blip id lb) ∧
  (∀ id t, lw_comments (c_live s') !! id = Some t ↔ lw_comments (c_live s) !! id = Some t ∧ ct_blip_id t ≠ blip) ∧
  (∀ b, b ∈ db_blips (c_db s') ↔ ∃ b0, b0 ∈ db_blips (c_db s) ∧
     b = if str_eqb (blip_id b0) blip || is_remark (c_db s) blip b0 then mark_deleted b0 else b0) ∧
  db_ops (c_db s') = db_ops (c_db s).
Proof.
  intros Hc E. pose proof (wp_delete_blip s user wave blip) as H. unfold wp in H. rewrite E in H.
  destruct (H eq_refl) as [Edb [subs Els]]. simpl in Edb, Els. rewrite Edb, Els. simpl. clear H E Edb Els.
  split_and!.
  - intros id lb. rewrite lookup_foldr_delete. unfold deleted_with. split.
    + case_bool_decide as Hn; [done|]. intros [Hne Hl]%lookup_delete_Some. split; [done|].
      rewrite (live_remarks_spec _ _ _ _ lb Hc Hl) in Hn. intros [->|?]; [done|by destruct Hn].
    + intros [Hl Hn]. rewrite bool_decide_eq_false_2 by (rewrite (live_remarks_spec _ _ _ _ lb Hc Hl); tauto).
      rewrite lookup_delete_ne; [done|]. intros ->. tauto.
  - intros id t. rewrite lookup_foldr_delete. pose proof (live_threads_spec (c_live s) blip id (co_threads _ _ Hc)) as Ht. split.
    + case_bool_decide as Hn; [done|]. intros Hl. split; [done|]. intros Et. destruct Hn. apply Ht. eauto.
    + intros [Hl Hn]. rewrite bool_decide_eq_false_2; [done|]. intros (t' & ? & ?)%Ht. congruence.
  - intros b. destruct (delete_blip_effect (c_db s) blip) as [f ->]. apply elem_of_marked.
  - by destruct (delete_blip_effect (c_db s) blip) as [f ->].
Qed.

(** ** Starting a private reply *)

Lemma member_inserted db w db' u x :
  insert_wavelet db w = Ok db' → member db' u x ↔ member db u x ∨ x = wl_id w ∧ u ∈ wl_participants w.
Proof.
  unfold insert_wavelet. intros (t & [_ ->]%insert_into_inv & (_ & _ & Hm)%insert_participants_inv)%bind_ok. apply Hm.
Qed.

Lemma wavelet_fresh db w db' u : db_sound db → insert_wavelet db w = Ok db' → ¬ member db u (wl_id w).
Proof.
  intros Hd. unfold insert_wavelet. intros (t & [Hok _]%insert_into_inv & _)%bind_ok Hm.
  apply andb_true_iff in Hok as [Hfresh%negb_true_iff _]. apply is_wavelet_participant_spec in Hm as (p & Hp & E & _).
  pose proof (ref_participants _ Hd p Hp) as Hx. rewrite E in Hx. congruence.
Qed.

(** The new wavelet beside the others. *)
Definition reply_started s (user : UserId) (anchor : BlipId) (ids : list UserId) s' : Prop :=
  ∃ reply, lw_wavelets (c_live s') = lw_wavelets (c_live s) ++ [reply] ∧
    wl_kind reply = PrivateReplyKind ∧ wl_anchor_blip reply = Some anchor ∧ wl_title reply = title (c_live s) ∧
    (∀ u w, member (c_db s') u w ↔ member (c_db s) u w ∨ w = wl_id reply ∧ (u = user ∨ u ∈ ids)) ∧
    ∀ u, ¬ member (c_db s) u (wl_id reply).

(** C21: a private reply is a new wavelet of the wave, anchored at the message, whose members are its author and
    those named, nobody else; no other membership changes. *)
Theorem private_reply_takes_effect s user wave wavelet anchor ids s' :
  db_sound (c_db s) → private_reply_locked user wave wavelet anchor ids s = (Ok tt, s') → reply_started s user anchor ids s'.
Proof.
  intros Hd E. assert (wp (private_reply_locked user wave wavelet anchor ids)
    (λ r s', r = Ok tt → reply_started s user anchor ids s') s) as H; [|unfold wp in H; rewrite E in H; by apply H].
  clear E s'. unfold private_reply_locked, guard_access. do 4 wp_step. apply wp_bind, wp_lift.
  destruct (permit _ _ _) as [[]|]; [|done]. do 2 wp_step. cbv zeta. destruct (find_list _ _); [done|]. do 10 wp_step.
  match goal with |- context [create_private_reply _ ?r _] => set (reply := r) end.
  wp_step. apply wp_db_write; [|done]. intros db Hdb. cbv beta iota. do 2 wp_step. simpl in Hdb.
  unfold create_private_reply in Hdb. apply bind_ok in Hdb as (db1 & H1 & H2). apply seeded_rows in H2.
  match goal with |- wp ?m _ ?st => apply (wp_mono m (λ _ s', settled db (c_live st) s')) end.
  - intros r s' [Edb [subs Els]] _. exists reply. rewrite Edb, Els. split_and!; [done..| |].
    + intros u w. unfold member at 1, is_wavelet_participant. rewrite H2. change (member db1 u w ↔ member (c_db s) u w ∨ w = wl_id reply ∧ (u = user ∨ u ∈ ids)).
      rewrite (member_inserted _ _ _ _ _ H1). simpl. rewrite elem_of_cons, list_elem_of_filter.
      destruct (decide (u = user)); naive_solver.
    + intros u. by apply (wavelet_fresh _ _ db1).
  - apply settled_bind; [apply settled_broadcast|intros []; apply settled_schedule|]. split; [done|].
    match goal with |- context [c_live ?st] => exists (lw_subscribers (c_live st)) end. done.
Qed.

End commands.

(** ** Concrete instances *)

Lemma accepted_pair {S} (x : result () ServerMessage * S) : is_ok x.1 = true → x = (Ok tt, x.2).
Proof. by destruct x as [[[]|] s]. Qed.

(** Ann takes Bob out of the wave. *)
Definition removal : result () ServerMessage * Crit :=
  remove_participant_locked (lit "u-ann") the_wave the_wavelet (lit "u-bob") before_edit.

Lemma removal_takes_effect_witness :
  member (c_db before_edit) (lit "u-bob") the_wavelet ∧ ¬ member (c_db removal.2) (lit "u-bob") the_wavelet ∧
  no_watcher (c_live removal.2) (lit "u-bob").
Proof.
  assert (∃ w0, LiveWave.wavelet (c_live before_edit) the_wavelet = Some w0 ∧ lit "u-bob" ∈ wl_participants w0) as (w0 & Hw & Hu).
  { assert (match LiveWave.wavelet (c_live before_edit) the_wavelet with
            | Some w => has_participant w (lit "u-bob") | None => false end = true) as H by (vm_compute; reflexivity).
    destruct (LiveWave.wavelet _ _) as [w|]; [|done]. exists w. split; [done|]. by apply has_participant_spec. }
  assert (is_ok removal.1 = true) as E by (vm_compute; reflexivity).
  destruct (removal_takes_effect before_edit (lit "u-ann") the_wave the_wavelet (lit "u-bob") w0 removal.2
    (proj1 before_edit_ok) (proj2 before_edit_ok) Hw Hu (accepted_pair removal E)) as [Hm Hn].
  split_and!; [vm_compute; reflexivity| |apply Hn; vm_compute; reflexivity].
  intros [_ H]%Hm. apply H. split; [done|]. left. by apply wavelet_found in Hw as [_ <-].
Defined.

(** Ann deletes her message. *)
Definition deletion : result () ServerMessage * Crit := delete_blip_locked (lit "u-ann") the_wave the_blip before_edit.

Lemma deletion_takes_effect_witness :
  is_Some (lw_blips (c_live before_edit) !! the_blip) ∧ lw_blips (c_live deletion.2) !! the_blip = None.
Proof.
  assert (bool_decide (is_Some (lw_blips (c_live before_edit) !! the_blip)) = true) as Hs by (vm_compute; reflexivity).
  apply bool_decide_eq_true in Hs. split; [exact Hs|].
  assert (is_ok deletion.1 = true) as E by (vm_compute; reflexivity).
  destruct (deletion_takes_effect before_edit (lit "u-ann") the_wave the_blip deletion.2 (proj2 before_edit_ok) (accepted_pair deletion E))
    as (H & _).
  destruct (lw_blips (c_live deletion.2) !! the_blip) as [lb|] eqn:El; [|reflexivity].
  apply H in El as [_ Hn]. destruct Hn. by left.
Defined.

(** Ann answers Bob in private. *)
Definition private_answer : result () ServerMessage * Crit :=
  private_reply_locked (lit "u-ann") the_wave the_wavelet the_blip [lit "u-bob"] before_edit.

Lemma private_reply_takes_effect_witness :
  length (lw_wavelets (c_live private_answer.2)) = 2%nat ∧
  reply_started before_edit (lit "u-ann") the_blip [lit "u-bob"] private_answer.2.
Proof.
  split; [vm_compute; reflexivity|]. assert (is_ok private_answer.1 = true) as E by (vm_compute; reflexivity).
  exact (private_reply_takes_effect before_edit (lit "u-ann") the_wave the_wavelet the_blip [lit "u-bob"] private_answer.2
    (proj1 before_edit_ok) (accepted_pair private_answer E)).
Defined.
