(* ===== verification/AgentGuarantees.v ===== *)
(** * Reading a wavelet page by page

    Following the cursors of an agent's context, from the first page until there is none left, lists every
    message of the wavelet once, in order. *)

From stdpp Require Import sorting.
From Stdlib Require Import QArith.
From S2P Require Import Prelude Tables Strings Unicode Json Attributes Text Delta ServerDoc ServerDocTheory.
From S2P Require Import DocGuarantees Model Protocol Content DocBounds LiveWave LiveWaveTheory Snippet.
From S2P Require Import Storage OpLog Queries Effects Critical Handlers Coherence CoherenceLemmas CoherenceMembers.
From S2P Require Import CoherenceFrame CoherenceHandlers Submission App AppTheory Limit Dispatch Commands.
From S2P Require Import Agent AgentTheory Server Scenario ServerGuarantees.

Section pages.
Context `{J : Json}.
Implicit Types db : Db.
Implicit Types b : Blip.

(** ** Cursors *)

(** What a minted id and a position look like. *)
Definition well_formed b : Prop :=
  valid_id (blip_id b) (lit "b-") = true ∧ (0 ≤ blip_seq b < 2 ^ 63)%Z.

Definition key_of b : Z * BlipId := (blip_seq b, blip_id b).

Lemma cursor_read b : well_formed b → parse_cursor (show_i64 (blip_seq b) ++ lit ":" ++ blip_id b) = Some (key_of b).
Proof.
  intros [Hid Hseq]. unfold parse_cursor.
  rewrite (proj2 (split_once_spec 58 _ (show_i64 (blip_seq b)) (blip_id b))) by (split; [done|apply show_no_colon]).
  cbn [mbind option_bind]. rewrite Hid, parse_show_i64 by lia. cbn [mbind option_bind].
  by rewrite (proj2 (Z.leb_le 0 (blip_seq b))) by lia.
Qed.

(** ** The order of messages *)

#[local] Instance blip_order_trans : Transitive blip_order.
Proof.
  intros a b c [H1|[H1 H1']] [H2|[H2 H2']]; [left; lia..|]. right. split; [lia|]. by eapply str_leb_trans.
Qed.

#[local] Instance blip_order_total : Total blip_order.
Proof.
  intros a b. unfold blip_order. destruct (Z.lt_trichotomy (blip_seq a) (blip_seq b)) as [|[E|]]; [by left; left| |by right; left].
  destruct (str_leb_total (blip_id a) (blip_id b)); [left|right]; right; done.
Qed.

Lemma blip_order_antisym a b : blip_order a b → blip_order b a → blip_id a = blip_id b.
Proof. intros [H1|[H1 H1']] [H2|[H2 H2']]; try lia. by apply str_leb_antisym. Qed.

Lemma after_cursor_spec a b : after_cursor (key_of a) b = true ↔ ¬ blip_order b a.
Proof.
  unfold after_cursor, blip_order, key_of, str_le. simpl.
  rewrite orb_true_iff, andb_true_iff, Z.ltb_lt, Z.eqb_eq, negb_true_iff, <- not_true_iff_false.
  destruct (Z.lt_trichotomy (blip_seq a) (blip_seq b)) as [|[|]]; naive_solver lia.
Qed.

(** ** One page *)

(** The messages of a wavelet an agent may read, in order. *)
Definition transcript db (w : WaveletId) : list Blip :=
  merge_sort blip_order (select_where (λ b, str_eqb (blip_wavelet_id b) w && negb (blip_deleted b)) (db_blips db)).

Definition page_of db (w : WaveletId) (after : Z * BlipId) : list Blip :=
  merge_sort blip_order
    (select_where (λ b, str_eqb (blip_wavelet_id b) w && negb (blip_deleted b) && after_cursor after b) (db_blips db)).

Lemma page_transcript db w after :
  keyed blip_id (db_blips db) → page_of db w after = filter (λ b, after_cursor after b = true) (transcript db w).
Proof.
  intros Hk. unfold page_of, transcript. apply (StronglySorted_unique_strong blip_order).
  - intros x1 x2 H1 H2 H12 H21. rewrite merge_sort_Permutation in H1. apply elem_of_select in H1 as [Hin1 _].
    assert (x2 ∈ db_blips db) as Hin2.
    { revert H2. rewrite list_elem_of_filter, merge_sort_Permutation, elem_of_select. tauto. }
    apply (keyed_eq _ _ _ _ Hk); [done..|by apply blip_order_antisym].
  - apply StronglySorted_merge_sort; apply _.
  - apply sorted_filter, StronglySorted_merge_sort; apply _.
  - rewrite !merge_sort_Permutation. unfold select_where. rewrite list_filter_filter.
    apply reflexive_eq, list_filter_iff. intros b. rewrite !andb_true_iff. tauto.
Qed.

(** Later than a later message is later. *)
Lemma after_trans k x b : after_cursor k x = true → after_cursor (key_of x) b = true → after_cursor k b = true.
Proof.
  intros Hx Hb. destruct (after_cursor k b) eqn:E; [done|]. exfalso. revert Hx Hb E. unfold after_cursor, key_of. simpl.
  rewrite !orb_true_iff, orb_false_iff, !andb_true_iff, andb_false_iff, !Z.ltb_lt, Z.ltb_ge, !Z.eqb_eq, !negb_true_iff.
  rewrite negb_false_iff. intros H1 H2 [H3 H4].
  destruct H1 as [H1|[H1 L1]], H2 as [H2|[H2 L2]]; try lia.
  destruct H4 as [H4|L4]; [apply Z.eqb_neq in H4; lia|].
  destruct (str_leb_total (blip_id b) (blip_id x)) as [L|L]; [congruence|].
  pose proof (str_leb_trans _ _ _ L L4). congruence.
Qed.

Lemma filter_after l1 x l2 :
  StronglySorted blip_order (l1 ++ x :: l2) → NoDup (blip_id <$> (l1 ++ x :: l2)) →
  filter (λ b, after_cursor (key_of x) b = true) (l1 ++ x :: l2) = l2.
Proof.
  intros Hs Hn. rewrite list.filter_app, filter_cons. apply StronglySorted_app in Hs as (H12 & _ & Hs2).
  apply StronglySorted_cons in Hs2 as [Hx _].
  assert (filter (λ b, after_cursor (key_of x) b = true) l1 = []) as ->.
  { apply filter_none. intros b Hb E%after_cursor_spec. apply E, H12; [done|by left]. }
  rewrite decide_False by (rewrite after_cursor_spec; intros []; right; split; [done|apply str_leb_refl]). simpl.
  apply filter_all. intros b Hb. apply after_cursor_spec. intros Hbx. rewrite list.Forall_forall in Hx.
  pose proof (blip_order_antisym _ _ (Hx _ Hb) Hbx) as E.
  rewrite fmap_app, fmap_cons in Hn. apply list.NoDup_app in Hn as (_ & _ & [Hn _]%list.NoDup_cons). destruct Hn. rewrite E.
  by apply list_elem_of_fmap_2.
Qed.

(** What a page lists, and how much of it. *)
Lemma context_loop_prefix db limit cs count remaining :
  (count ≤ limit)%nat →
  ∃ blips n, context_loop db limit cs count remaining = Some blips ∧ (n ≤ length cs)%nat ∧ (count + n ≤ limit)%nat ∧
    (λ c, (cb_seq c, cb_id c)) <$> blips = key_of <$> take n cs ∧
    (cs ≠ [] → (count < limit)%nat → (2 ≤ remaining)%N → (1 ≤ n)%nat).
Proof.
  revert count remaining. induction cs as [|b cs IH]; intros count remaining Hc; simpl.
  { exists [], 0%nat. split_and!; [done|lia|lia|done|done]. }
  destruct (_ || _) eqn:E.
  { exists [], 0%nat. split_and!; [done|lia|lia|done|]. intros _ H1 H2. apply orb_true_iff in E as [E%Nat.eqb_eq|E%N.ltb_lt]; lia. }
  apply orb_false_iff in E as [E%Nat.eqb_neq _].
  destruct (bounded_text_spec (display_text (blip_content b)) remaining) as (s1 & s2 & _ & -> & _). cbn [mbind option_bind].
  destruct (IH (S count) (remaining - utf16_len s1)%N) as (blips & n & -> & H1 & H2 & H3 & _); [lia|]. cbn [mbind option_bind].
  eexists _, (S n). split_and!; [done|lia|lia| |lia]. cbn [take]. rewrite !fmap_cons. by rewrite H3.
Qed.

(** ** All pages *)

Context (db : Db) (ts : Timestamp) (hash : str) (limit : nat) (units : N).

(** Ask for pages until there is no cursor; [None] when a request fails or the fuel runs out. *)
Fixpoint read_pages (fuel : nat) (after : Z * BlipId) : option (list ContextBlip) :=
  match fuel with
  | O => None
  | S fuel =>
      match agent_context db ts hash after limit units with
      | Some (Ok (Some ctx)) =>
          match ac_next_cursor ctx with
          | None => Some (ac_blips ctx)
          | Some cursor =>
              next ← parse_cursor cursor;
              rest ← read_pages fuel next;
              Some (ac_blips ctx ++ rest)
          end
      | _ => None
      end
  end.

Context (token : AgentToken).
Hypothesis valid : valid_agent_token db ts hash = Some token.
Hypothesis wave_there : ∃ s w, find_row (λ s, str_eqb (wlr_id s) (tok_wavelet_id token)) (db_wavelets db) = Some s ∧
  find_row (λ w, str_eqb (wr_id w) (wlr_wave_id s)) (db_waves db) = Some w.
Hypothesis limits : (1 ≤ limit)%nat ∧ (2 ≤ units)%N.
Hypothesis blips_keyed : keyed blip_id (db_blips db).
Hypothesis minted : ∀ b, b ∈ transcript db (tok_wavelet_id token) → well_formed b.

#[local] Abbreviation whole := (transcript db (tok_wavelet_id token)).

Lemma whole_sorted : StronglySorted blip_order whole.
Proof. apply StronglySorted_merge_sort; apply _. Qed.

Lemma whole_nodup : NoDup (blip_id <$> whole).
Proof using blips_keyed.
  unfold transcript. rewrite merge_sort_Permutation. by apply keyed_filter.
Qed.

(** The rest of the transcript, read from a place in it. *)
Lemma pages_cover fuel after part :
  page_of db (tok_wavelet_id token) after = part → (∃ before, whole = before ++ part) → (length part < fuel)%nat →
  ∃ blips, read_pages fuel after = Some blips ∧ cb_id <$> blips = blip_id <$> part.
Proof using Type*.
  destruct wave_there as (s & w & Hs & Hw). destruct limits as [Hlim Hunits].
  revert after part. induction fuel as [|fuel IH]; intros after part Hpart [before Hwhole] Hfuel; [lia|].
  cbn [read_pages]. unfold agent_context. rewrite valid, Hs. cbn [mbind option_bind]. rewrite Hw.
  fold (page_of db (tok_wavelet_id token) after). rewrite Hpart.
  destruct (context_loop_prefix db limit (take (S limit) part) 0 units) as (blips & n & -> & Hn1 & Hn2 & Hkeys & Hn3); [lia|].
  cbn [mbind option_bind ac_next_cursor ac_blips]. rewrite length_take in Hn1.
  rewrite take_take in Hkeys. rewrite Nat.min_l in Hkeys by lia.
  assert (length blips = n) as Hlen.
  { apply (f_equal length) in Hkeys. rewrite !length_fmap, length_take in Hkeys. lia. }
  assert (cb_id <$> blips = blip_id <$> take n part) as Hids.
  { apply (f_equal (fmap snd)) in Hkeys. by rewrite <- !list_fmap_compose in Hkeys. }
  rewrite Hlen, length_take. destruct (n <? S limit `min` length part)%nat eqn:E.
  - apply Nat.ltb_lt in E.
    assert (1 ≤ n)%nat as Hpos by (apply Hn3; [destruct part; simpl in *; [lia|done]|lia|lia]).
    destruct (lookup_lt_is_Some_2 part (n - 1)) as [x Hx]; [lia|].
    assert (∃ c, list.last blips = Some c ∧ (cb_seq c, cb_id c) = key_of x) as (c & Hc & Ekey).
    { rewrite last_lookup, Hlen. apply (f_equal (λ l, l !! pred n)) in Hkeys. rewrite !list_lookup_fmap in Hkeys.
      replace (pred n) with (n - 1)%nat in * by lia. rewrite lookup_take_lt, Hx in Hkeys by lia.
      apply fmap_Some in Hkeys as (c & Hc & Ek). by exists c. }
    rewrite Hc. cbn [fmap option_fmap option_map].
    assert (x ∈ whole) as Hxin by (rewrite Hwhole; apply elem_of_app; right; by eapply list_elem_of_lookup_2).
    assert (format_cursor c = show_i64 (blip_seq x) ++ lit ":" ++ blip_id x) as -> by (by injection Ekey as <- <-).
    rewrite cursor_read by by apply minted. cbn [mbind option_bind].
    assert (part = take (n - 1) part ++ x :: drop n part) as Hsplit.
    { rewrite <- (take_drop_middle part (n - 1) x Hx) at 1. do 3 f_equal. lia. }
    destruct (IH (key_of x) (drop n part)) as (rest & -> & Hrest).
    + rewrite page_transcript by done.  rewrite Hwhole, Hsplit, app_assoc at 1.
      rewrite <- app_assoc. rewrite Hsplit in Hwhole. rewrite app_assoc in Hwhole.
      pose proof whole_sorted as Hsort. pose proof whole_nodup as Hnd. rewrite Hwhole in Hsort, Hnd.
      rewrite app_assoc. by apply filter_after.
    + exists (before ++ take n part). by rewrite <- app_assoc, take_drop.
    + rewrite length_drop. lia.
    + eexists. split; [done|]. rewrite fmap_app, Hids, Hrest. by rewrite <- fmap_app, take_drop.
  - apply Nat.ltb_ge in E. eexists. split; [done|]. rewrite Hids. f_equal. apply take_ge. lia.
Qed.

End pages.

(** * What agents can rely on

    A reply sent again under its request id is posted once; every reply gets an answer. *)

Section agents.
Context `{J : Json} `{W : World}.
Context (hash_token : str → str) (request_json : ReplyRequest → str).
Context (identity : AgentIdentity).
Implicit Types db : Db.
Implicit Types s : Crit.

Local Abbreviation reply_locked := (reply_locked hash_token request_json identity).
Local Abbreviation create_reply := (create_reply hash_token request_json).
Local Abbreviation posted := (posted hash_token request_json identity).

(** The credential presented is one of those stored, and no two stored ones share a hash. *)
Definition presented db : Prop :=
  keyed tr_token_hash (db_agent_tokens db) ∧
  ∃ row, row ∈ db_agent_tokens db ∧ tr_token_hash row = ai_token_hash identity ∧ tr_id row = tok_id (ai_token identity).

Lemma presented_token db ts tok :
  presented db → valid_agent_token db ts (ai_token_hash identity) = Some tok → tok_id tok = tok_id (ai_token identity).
Proof.
  intros (Hk & row & Hrow & Eh & <-). unfold valid_agent_token. intros (t & Ht & (s & _ & ->)%fmap_Some)%bind_Some.
  apply find_row_some in Ht as [Hin Hv]. rewrite !andb_true_iff in Hv. destruct Hv as [[E%str_eqb_spec _] _]. simpl.
  f_equal. apply (keyed_eq _ _ _ _ Hk); [done..|congruence].
Qed.

(** What a posted reply leaves under its request id. *)
Lemma posted_receipt body s s1 receipt :
  presented (c_db s) → posted body s s1 receipt →
  agent_reply_receipt (c_db s1) (ai_token identity) (rq_request_id body) =
    Some (mkStoredReply (hash_token (request_json body)) receipt).
Proof.
  intros Hp (uuid & ts & cts & b & Hb & Hc & _ & _ & ->).
  apply prepare_blip_facts in Hb as (_ & _ & _ & Ew & _); [|intros d [= <-]; apply document_good].
  apply create_agent_reply_inv in Hc as (db1 & tok & Hins & Htok & Hnew & ->).
  pose proof (presented_token _ _ _ Hp Htok) as Eid. rewrite Eid in *. unfold agent_reply_receipt. simpl.
  rewrite (find_row_unique _ _ (mkAgentReplyRow (tok_id (ai_token identity)) (rq_request_id body)
    (hash_token (request_json body)) (blip_id b) (blip_revision b))).
  - simpl. by rewrite Ew.
  - apply elem_of_app. right. by apply list_elem_of_singleton.
  - simpl. unfold str_eqb. by rewrite !bool_decide_eq_true_2.
  - intros r [Hr|Hr%list_elem_of_singleton]%elem_of_app; [|by intros _]. rewrite exists_row_false in Hnew.
    intros E. by rewrite Hnew in E.
Qed.

(** An answer that says it was created was. *)
Lemma receipt_posted body s receipt :
  (reply_locked body s).1 = Ok (Some (RReceipt true receipt)) → posted body s (reply_locked body s).2 receipt.
Proof.
  apply (wp_reply_locked hash_token request_json identity body s
    (λ r s', r = Ok (Some (RReceipt true receipt)) → posted body s s' receipt)).
  - done.
  - intros r s' _ _ H [= ->]. by destruct (H _ _ eq_refl).
  - intros r s' _ _ H [= <-]. exact H.
Qed.

Section again.
Context (body again : ReplyRequest) (s s1 s2 : Crit) (receipt : ReplyReceipt).

(** The answer to a request id that is taken. *)
Definition settled_answer : AgentResponse :=
  if str_eqb (hash_token (request_json body)) (hash_token (request_json again)) then RReceipt false receipt else request_conflict.

(** C16: at most once.  A request sent again under the id of a posted reply, at any later time, posts nothing and
    changes nothing: not storage, not the wave, not a queue.  If it is answered with a receipt, it is the first one's;
    and where the credential still stands it is, or a conflict if the content differs. *)
Theorem reply_posted_once :
  presented (c_db s) → posted body s s1 receipt → rq_request_id again = rq_request_id body →
  agent_reply_receipt (c_db s2) (ai_token identity) (rq_request_id body) =
    agent_reply_receipt (c_db s1) (ai_token identity) (rq_request_id body) →
  let '(r, s3) := reply_locked again s2 in
  still s2 s3 ∧
  (∀ created receipt', r = Ok (Some (RReceipt created receipt')) → created = false ∧ receipt' = receipt) ∧
  (lw_evicted (c_live s2) = false →
   may_access (c_live s2) (tok_user_id (ai_token identity)) (tok_wavelet_id (ai_token identity)) = true →
   is_Some (valid_agent_token (c_db s2) (clock (c_tick s2)) (ai_token_hash identity)) → (∀ n, disk_fails n = false) →
   r = Ok (Some settled_answer)).
Proof.
  intros Hp Hposted Eid Esame. rewrite (posted_receipt _ _ _ _ Hp Hposted) in Esame.
  assert (receipt_of identity again (c_db s2) = Some (mkStoredReply (hash_token (request_json body)) receipt)) as Hr.
  { unfold receipt_of. by rewrite Eid. }
  assert (wp (reply_locked again) (λ r s3, still s2 s3 ∧
    ∀ created receipt', r = Ok (Some (RReceipt created receipt')) → created = false ∧ receipt' = receipt) s2) as H.
  { apply wp_reply_locked; [by intros s' Hs _|intros r s' Hs _ Hans|intros r s' _ E; congruence].
    split; [done|]. intros created receipt' [= ->]. destruct (Hans _ _ eq_refl) as [-> E]. split; [done|]. congruence. }
  assert (lw_evicted (c_live s2) = false →
   may_access (c_live s2) (tok_user_id (ai_token identity)) (tok_wavelet_id (ai_token identity)) = true →
   is_Some (valid_agent_token (c_db s2) (clock (c_tick s2)) (ai_token_hash identity)) → (∀ n, disk_fails n = false) →
   (reply_locked again s2).1 = Ok (Some settled_answer)) as H'.
  { intros Hev Hac [tok Htok] Hdisk. unfold Agent.reply_locked, cm_bind, get_live. rewrite Hev, Hac. cbn [negb].
    unfold now_, attempt, cm_bind, try_db, reading. cbn [st_tick st_step st_db st_put_db crit_stored c_tick c_db tick with_db].
    rewrite !Hdisk, Htok. cbn. rewrite Hdisk. unfold receipt_of in Hr. rewrite Hr. cbn. unfold settled_answer. done. }
  unfold wp in H. destruct (reply_locked again s2) as [r s3]. destruct H. by split_and!.
Qed.

End again.

Lemma create_reply_more fuel body a answer a' :
  create_reply 1 identity body a = (Ok (Some answer), a') → create_reply (S fuel) identity body a = (Ok (Some answer), a').
Proof.
  cbn [Agent.create_reply]. unfold cm_bind. destruct (open_wave _ a) as [[[[h|]|e]|e] a1]; [|done..].
  destruct (locked h _ a1) as [[[ans|]|e] a2]; done.
Qed.


End agents.

(** ** Reading *)

Section reading.
Context `{J : Json}.

Lemma transcript_elem db w b : b ∈ transcript db w ↔ b ∈ db_blips db ∧ blip_wavelet_id b = w ∧ blip_deleted b = false.
Proof.
  unfold transcript. rewrite merge_sort_Permutation, elem_of_select, andb_true_iff, negb_true_iff.
  by split; [intros (? & ?%str_eqb_spec & ?)|intros (? & ?%str_eqb_spec & ?)].
Qed.

(** From before the first message. *)
Lemma first_page db w : keyed blip_id (db_blips db) → (∀ b, b ∈ transcript db w → well_formed b) → page_of db w ((-1)%Z, []) = transcript db w.
Proof.
  intros Hk Hm. rewrite page_transcript by done. apply filter_all. intros b Hb. destruct (Hm b Hb) as [_ Hseq].
  unfold after_cursor. simpl. by rewrite (proj2 (Z.ltb_lt (-1) (blip_seq b))) by lia.
Qed.

(** C17: complete reading.  An agent that follows the cursors from the first page until none is left, with any page
    size and any text budget the server accepts, comes to the end and has read every undeleted message of its
    wavelet, once each, in order. *)
Theorem pages_read_everything db ts hash limit units token s w :
  db_sound db → valid_agent_token db ts hash = Some token →
  find_row (λ s, str_eqb (wlr_id s) (tok_wavelet_id token)) (db_wavelets db) = Some s →
  find_row (λ w, str_eqb (wr_id w) (wlr_wave_id s)) (db_waves db) = Some w →
  (1 ≤ limit)%nat → (2 ≤ units)%N → (∀ b, b ∈ transcript db (tok_wavelet_id token) → well_formed b) →
  ∃ blips, read_pages db ts hash limit units (S (length (db_blips db))) ((-1)%Z, []) = Some blips ∧
    cb_id <$> blips = blip_id <$> transcript db (tok_wavelet_id token) ∧
    (∀ id, id ∈ cb_id <$> blips ↔ ∃ b, b ∈ db_blips db ∧ blip_id b = id ∧ blip_wavelet_id b = tok_wavelet_id token ∧ blip_deleted b = false) ∧
    NoDup (cb_id <$> blips).
Proof.
  intros Hd Hv Hs Hw Hl Hu Hm. pose proof (key_blips _ Hd) as Hk.
  assert (∃ s w, find_row (λ s, str_eqb (wlr_id s) (tok_wavelet_id token)) (db_wavelets db) = Some s ∧
    find_row (λ w, str_eqb (wr_id w) (wlr_wave_id s)) (db_waves db) = Some w) as Hthere by by exists s, w.
  assert (length (transcript db (tok_wavelet_id token)) < S (length (db_blips db)))%nat as Hlen.
  { unfold transcript. rewrite merge_sort_Permutation. unfold select_where. pose proof (length_filter (λ b, str_eqb (blip_wavelet_id b) (tok_wavelet_id token) && negb (blip_deleted b) = true) (db_blips db)). lia. }
  destruct (pages_cover db ts hash limit units token Hv Hthere (conj Hl Hu) Hk Hm (S (length (db_blips db))) ((-1)%Z, [])
    (transcript db (tok_wavelet_id token)) (first_page _ _ Hk Hm)) as (blips & Hr & E); [by exists []|done|].
  exists blips. split_and!; [done|done| |].
  - intros id. rewrite E, list_elem_of_fmap. setoid_rewrite transcript_elem. naive_solver.
  - rewrite E. by apply whole_nodup.
Qed.

End reading.

(** ** Concrete instances *)

(** Ann makes a credential, and her agent replies. *)
Definition tokened : App :=
  (create_token plain_hash token_text 0 (lit "u-ann") (mkCreateToken the_wavelet (lit "Bot") ReplyScope 3600) limits0 shared).2.

Definition the_credential : AgentToken :=
  mkAgentToken (lit "18") (lit "u-ann") the_wave the_wavelet (lit "Bot") ReplyScope 17 3600017.
Definition the_identity : AgentIdentity := mkIdentity the_credential (plain_hash (lit "gal_agent_19")).
Definition the_request : ReplyRequest := mkReplyRequest (lit "r1") None (lit "done").

Definition before_reply : Crit := crit_of tokened (resident_copy tokened 0).
Definition first_reply : result (option AgentResponse) ServerMessage * Crit :=
  reply_locked plain_hash request_text the_identity the_request before_reply.

Lemma tokened_presented : presented the_identity (c_db before_reply).
Proof.
  assert (bool_decide (NoDup (tr_token_hash <$> db_agent_tokens (c_db before_reply))) = true) as Hk by (vm_compute; reflexivity).
  assert (exists_row (λ row, str_eqb (tr_token_hash row) (ai_token_hash the_identity) && str_eqb (tr_id row) (tok_id the_credential))
    (db_agent_tokens (c_db before_reply)) = true) as Hr by (vm_compute; reflexivity).
  split; [by apply bool_decide_eq_true in Hk|]. apply exists_row_spec in Hr as (row & Hin & [E1%str_eqb_spec E2%str_eqb_spec]%andb_true_iff).
  exact (ex_intro _ row (conj Hin (conj E1 E2))).
Qed.

Lemma first_reply_posted : ∃ receipt, posted plain_hash request_text the_identity the_request before_reply first_reply.2 receipt.
Proof.
  assert (match first_reply.1 with Ok (Some (RReceipt true _)) => true | _ => false end = true) as H by (vm_compute; reflexivity).
  destruct first_reply.1 as [[[]|]|] eqn:E; try discriminate H. destruct created; [|discriminate H].
  exists receipt. exact (receipt_posted _ _ _ _ _ _ E).
Qed.

Lemma reply_posted_once_witness :
  ∃ receipt, posted plain_hash request_text the_identity the_request before_reply first_reply.2 receipt ∧
    (reply_locked plain_hash request_text the_identity the_request first_reply.2).1 = Ok (Some (RReceipt false receipt)).
Proof.
  destruct first_reply_posted as [receipt Hp]. exists receipt. split; [exact Hp|].
  pose proof (reply_posted_once plain_hash request_text the_identity the_request the_request before_reply first_reply.2 first_reply.2
    receipt tokened_presented Hp eq_refl eq_refl) as H.
  destruct (reply_locked _ _ _ _ _) as [r s3]. destruct H as (_ & _ & H). apply H.
  - vm_compute. reflexivity.
  - vm_compute. reflexivity.
  - assert (bool_decide (is_Some (valid_agent_token (c_db first_reply.2) (clock (c_tick first_reply.2)) (ai_token_hash the_identity)))
      = true) as Hv by (vm_compute; reflexivity). exact (proj1 (bool_decide_eq_true _) Hv).
  - reflexivity.
Defined.


(** The wave once the agent has replied. *)
Definition replied : App := (reply plain_hash request_text 1 0 the_identity the_request limits0 tokened).2.

Lemma replied_sound : db_sound (app_db replied).
Proof.
  assert (rtc (happens no_match plain_hash token_text request_text) (app_new db_start) replied) as H.
  { apply (rtc_r _ tokened); [|apply h_agent_reply]. apply (rtc_r _ shared); [exact shared_reached|apply h_create_token]. }
  apply (reached_ok _ _ _ _ _ _ db_start_sound H).
Qed.

Definition minted_id (b : Blip) : bool := valid_id (blip_id b) (lit "b-") && (0 <=? blip_seq b)%Z && (blip_seq b <? 2 ^ 63)%Z.

Lemma replied_minted b : b ∈ transcript (app_db replied) the_wavelet → well_formed b.
Proof.
  assert (forallb minted_id (transcript (app_db replied) the_wavelet) = true) as H by (vm_compute; reflexivity).
  rewrite forallb_forall in H. intros Hb%list_elem_of_In. specialize (H b Hb). unfold minted_id in H.
  rewrite !andb_true_iff, Z.leb_le, Z.ltb_lt in H. split; tauto.
Qed.

(** One message a page: Ann's and the agent's are read on two pages. *)
Lemma pages_read_everything_witness :
  ∃ blips, read_pages (app_db replied) 100 (ai_token_hash the_identity) 1 2 3 ((-1)%Z, []) = Some blips ∧
    cb_id <$> blips = blip_id <$> transcript (app_db replied) the_wavelet ∧ length blips = 2%nat.
Proof.
  assert (valid_agent_token (app_db replied) 100 (ai_token_hash the_identity) = Some the_credential) as Hv by (vm_compute; reflexivity).
  destruct (find_row (λ s, str_eqb (wlr_id s) (tok_wavelet_id the_credential)) (db_wavelets (app_db replied))) as [s|] eqn:Hs.
  2:{ assert (is_Some (find_row (λ s, str_eqb (wlr_id s) the_wavelet) (db_wavelets (app_db replied)))) as [x Hx] by (eexists; vm_compute; reflexivity).
      exfalso. assert (Some x = None) as E by (rewrite <- Hx; exact Hs). discriminate E. }
  destruct (find_row (λ w, str_eqb (wr_id w) (wlr_wave_id s)) (db_waves (app_db replied))) as [w|] eqn:Hw.
  2:{ exfalso. revert Hw. vm_compute in Hs. injection Hs as <-. vm_compute. discriminate. }
  destruct (pages_read_everything (app_db replied) 100 (ai_token_hash the_identity) 1 2 the_credential s w replied_sound Hv Hs Hw
    (le_n 1) (N.le_refl 2) replied_minted) as (blips & Hr & E & _ & _).
  assert (length (db_blips (app_db replied)) = 2%nat) as Hlen by (vm_compute; reflexivity).
  rewrite Hlen in Hr. exists blips. split; [exact Hr|]. split; [exact E|].
  apply (f_equal length) in E. rewrite !length_fmap in E. rewrite E. vm_compute. reflexivity.
Defined.
