(* ===== verification/InboxGuarantees.v ===== *)
(** * The inbox and the single row

    The inbox is computed for all waves at once, a changed wave's row on its own; the two agree. *)

From stdpp Require Import sorting.
From Stdlib Require Import QArith.
From S2P Require Import Prelude Tables Strings Unicode Json Attributes Text Delta Model Protocol ServerDoc.
From S2P Require Import ServerDocTheory DocGuarantees Content DocBounds LiveWave LiveWaveTheory Snippet Storage OpLog Queries.
From S2P Require Import Effects Critical Handlers Coherence CoherenceLemmas CoherenceMembers CoherenceFrame CoherenceHandlers Submission.
From S2P Require Import App AppTheory Limit Dispatch Commands Agent AgentTheory Server Scenario ServerGuarantees.

Section inbox.
Context `{J : Json}.
Implicit Types db : Db.
Implicit Types ss : list WaveSummary.

(** ** Passes over the summaries *)

Definition on_wave (w : WaveId) (f : WaveSummary → WaveSummary) (s : WaveSummary) : WaveSummary :=
  if str_eqb (su_id s) w then f s else s.

Definition keeps_id (f : WaveSummary → WaveSummary) : Prop := ∀ s, su_id (f s) = su_id s.

Lemma on_wave_id w f s : keeps_id f → su_id (on_wave w f s) = su_id s.
Proof. intros H. unfold on_wave. by destruct (str_eqb _ _). Qed.

Lemma index_of_none w ss : w ∉ su_id <$> ss → index_of w ss = None.
Proof.
  induction ss as [|s ss IH]; [done|]. rewrite fmap_cons, not_elem_of_cons. intros [Hne Hn]. simpl. rewrite IH by done.
  unfold str_eqb. by rewrite bool_decide_eq_false_2 by congruence.
Qed.

(** With one row a wave, [at_wave] changes the rows of that wave. *)
Lemma at_wave_map w f ss : NoDup (su_id <$> ss) → at_wave w f ss = on_wave w f <$> ss.
Proof.
  unfold at_wave. induction ss as [|s ss IH]; [done|]. rewrite fmap_cons. intros [Hn Hnd]%list.NoDup_cons.
  specialize (IH Hnd). rewrite fmap_cons. unfold on_wave at 1. unfold str_eqb at 1. cbn [index_of].
  case_bool_decide as E.
  - subst w. rewrite index_of_none in * by done. unfold str_eqb. rewrite bool_decide_eq_true_2 by done. cbn. f_equal. exact IH.
  - destruct (index_of w ss) as [i|]; cbn.
    + f_equal. exact IH.
    + unfold str_eqb. rewrite bool_decide_eq_false_2 by done. f_equal. exact IH.
Qed.

(** A pass over rows, each for one wave, is a pass over its own rows for every wave. *)
Lemma pass_map {A} (wave : A → WaveId) (f : A → WaveSummary → WaveSummary) (xs : list A) ss :
  (∀ x, keeps_id (f x)) → NoDup (su_id <$> ss) →
  foldl (λ ss x, at_wave (wave x) (f x) ss) ss xs =
  (λ s, foldl (λ s x, f x s) s (filter (λ x, wave x = su_id s) xs)) <$> ss.
Proof.
  intros Hf. revert ss. induction xs as [|x xs IH]; intros ss Hn; simpl.
  { symmetry. apply list_fmap_id. }
  assert (∀ s, su_id (on_wave (wave x) (f x) s) = su_id s) as Hid by (intros s; by apply on_wave_id).
  rewrite at_wave_map by done. rewrite IH.
  - rewrite <- list_fmap_compose. apply list_fmap_ext. intros i s _. simpl. rewrite Hid, filter_cons. unfold on_wave, str_eqb.
    destruct (decide (wave x = su_id s)) as [E|E]; [by rewrite bool_decide_eq_true_2|by rewrite bool_decide_eq_false_2 by congruence].
  - rewrite <- list_fmap_compose. erewrite list_fmap_ext; [exact Hn|]. intros i s _. apply Hid.
Qed.

Lemma pass_ids {A} (wave : A → WaveId) (f : A → WaveSummary → WaveSummary) (xs : list A) s :
  (∀ x, keeps_id (f x)) → su_id (foldl (λ s x, f x s) s xs) = su_id s.
Proof. intros Hf. revert s. induction xs as [|x xs IH]; intros s; simpl; [done|]. by rewrite IH, Hf. Qed.

(** The rows of a pass that belong to one wave. *)
Definition pass {A} (wave : A → WaveId) (f : A → WaveSummary → WaveSummary) (xs : list A) (s : WaveSummary) : WaveSummary :=
  foldl (λ s x, f x s) s (filter (λ x, wave x = su_id s) xs).

Lemma pass_id {A} (wave : A → WaveId) f (xs : list A) s : (∀ x, keeps_id (f x)) → su_id (pass wave f xs s) = su_id s.
Proof. by apply pass_ids. Qed.

Lemma pass_nodup {A} (wave : A → WaveId) f (xs : list A) ss :
  (∀ x, keeps_id (f x)) → NoDup (su_id <$> ss) → NoDup (su_id <$> (pass wave f xs <$> ss)).
Proof.
  intros Hf Hn. rewrite <- list_fmap_compose. erewrite list_fmap_ext; [exact Hn|]. intros i s _. by apply pass_id.
Qed.

(** ** One wave's row of the inbox *)

Definition shown db (me : UserId) : list Blip := select_where (λ b, bool_decide (blip_comment b = None)) (all_readable db me).
Definition unread db (me : UserId) : list Blip := select_where (is_unread db me) (all_readable db me).
Definition own (w : WaveId) (bs : list Blip) : list Blip := select_where (λ b, str_eqb (blip_wave_id b) w) bs.
Definition my_roots db (me : UserId) : list WaveletRow := select_where (λ s, is_participant db me (wlr_wave_id s)) (root_rows db).

Definition latest_of (bs : list Blip) (w : WaveId) : WaveSummary → WaveSummary :=
  with_latest (N.of_nat (length (own w bs))) (newest (own w bs)).
Definition unread_of (bs : list Blip) (w : WaveId) : WaveSummary → WaveSummary := with_unread (N.of_nat (length (own w bs))).

Definition inbox_row db (me : UserId) (root : WaveletRow) : WaveSummary :=
  pass fr_wave_id (λ f, with_flags (fr_flags f)) (select_where (λ f, str_eqb (fr_user_id f) me) (db_flags db))
    (pass id (unread_of (unread db me)) (groups (unread db me))
       (pass id (latest_of (shown db me)) (groups (shown db me))
          (pass (λ r, r.2.1) (λ r, push_member r.2.2) (member_rows db (my_roots db me)) (summary_of root)))).

Lemma latest_keeps n last : keeps_id (with_latest n last).
Proof. by destruct last. Qed.

Definition one_root_each db : Prop := NoDup (wlr_wave_id <$> root_rows db).

Lemma my_roots_nodup db me : one_root_each db → NoDup (wlr_wave_id <$> my_roots db me).
Proof. intros H. by apply keyed_filter. Qed.

Lemma inbox_rows db me :
  one_root_each db → inbox db me = order_by (λ s, (- su_last_modified s)%Z) (inbox_row db me <$> my_roots db me).
Proof.
  intros H1. assert (NoDup (su_id <$> (summary_of <$> my_roots db me))) as Hn.
  { rewrite <- list_fmap_compose. by apply my_roots_nodup. }
  unfold inbox. fold (my_roots db me) (shown db me) (unread db me). cbv zeta.
  assert (∀ w, keeps_id (latest_of (shown db me) w)) as Hl by (intros w; apply latest_keeps).
  set (members := member_rows db (my_roots db me)).
  pose proof (pass_nodup (λ r, r.2.1) (λ r, push_member r.2.2) members _ (λ _ _, eq_refl) Hn) as Hn1.
  pose proof (pass_nodup id _ (groups (shown db me)) _ Hl Hn1) as Hn2.
  pose proof (pass_nodup id (unread_of (unread db me)) (groups (unread db me)) _ (λ _ _, eq_refl) Hn2) as Hn3.
  rewrite (pass_map (λ r, r.2.1) (λ r, push_member r.2.2)) by done.
  rewrite (pass_map id (latest_of (shown db me)) _ _ Hl Hn1).
  rewrite (pass_map id (unread_of (unread db me)) _ _ (λ _ _, eq_refl) Hn2).
  rewrite (pass_map fr_wave_id (λ f, with_flags (fr_flags f)) _ _ (λ _ _, eq_refl) Hn3).
  by rewrite <- !list_fmap_compose.
Qed.

(** ** The row computed on its own *)

(** The same row, the members perhaps in another order. *)
Definition same_row (s s' : WaveSummary) : Prop :=
  su_participants s ≡ₚ su_participants s' ∧ s' = with_participants (su_participants s') s.

Lemma push_all (rows : list (ParticipantRow * (WaveId * PublicUser))) s :
  foldl (λ s r, push_member r.2.2 s) s rows = with_participants (su_participants s ++ ((λ r, r.2.2) <$> rows)) s.
Proof.
  revert s. induction rows as [|r rows IH]; intros s; simpl; [rewrite app_nil_r; by destruct s|].
  rewrite IH. unfold push_member. simpl. by rewrite <- app_assoc.
Qed.

Lemma select_cons {R} (p : R → bool) r t : select_where p (r :: t) = if p r then r :: select_where p t else select_where p t.
Proof. unfold select_where. rewrite filter_cons. by destruct (p r); case_decide. Qed.

(** The members of one wave's conversation, among those of all. *)
Lemma member_rows_wave db roots w :
  filter (λ r : ParticipantRow * (WaveId * PublicUser), r.2.1 = w) (member_rows db roots) ≡ₚ
  member_rows db (select_where (λ s, str_eqb (wlr_wave_id s) w) roots).
Proof.
  unfold member_rows. rewrite !order_by_perm. apply reflexive_eq.
  induction roots as [|s roots IH]; [done|]. rewrite bind_cons, list.filter_app, IH, (select_cons _ s).
  destruct (str_eqb (wlr_wave_id s) w) eqn:E'; [apply str_eqb_spec in E'; rewrite bind_cons|].
  - f_equal. apply filter_all. intros r (p & Hr & _)%list_elem_of_bind. apply list_elem_of_fmap in Hr as (u & -> & _). exact E'.
  - rewrite filter_none; [done|]. intros r (p & Hr & _)%list_elem_of_bind. apply list_elem_of_fmap in Hr as (u & -> & _). simpl.
    intros E%str_eqb_spec. congruence.
Qed.

Lemma select_comm {R} (p q : R → bool) t : select_where p (select_where q t) = select_where q (select_where p t).
Proof. unfold select_where. rewrite !list_filter_filter. apply list_filter_iff. tauto. Qed.

Lemma own_readable db me w : own w (all_readable db me) = readable_blips db me w.
Proof.
  unfold own, all_readable, readable_blips, select_where. rewrite list_filter_filter. apply list_filter_iff. intros b.
  rewrite !andb_true_iff. tauto.
Qed.

Lemma own_shown db me w : own w (shown db me) = conversation_blips db me w.
Proof. unfold shown, conversation_blips. rewrite <- own_readable. apply select_comm. Qed.

Lemma own_unread db me w : own w (unread db me) = unread_blips db me w.
Proof. unfold unread, unread_blips. rewrite <- own_readable. apply select_comm. Qed.

(** A grouped query has one row for a wave that has any, none otherwise. *)
Lemma pass_groups bs (f : WaveId → WaveSummary → WaveSummary) s :
  (own (su_id s) bs = [] → f (su_id s) s = s) → pass id f (groups bs) s = f (su_id s) s.
Proof.
  intros Hf. unfold pass, groups. destruct (decide (su_id s ∈ blip_wave_id <$> bs)) as [Hin|Hn].
  - assert (filter (λ x, id x = su_id s) (remove_dups (blip_wave_id <$> bs)) = [su_id s]) as ->; [|done].
    rewrite <- (elem_of_remove_dups (blip_wave_id <$> bs)) in Hin. revert Hin. pose proof (NoDup_remove_dups (blip_wave_id <$> bs)) as Hnd.
    induction Hnd as [|x l Hx Hl IH]; [by intros ?%elem_of_nil|]. rewrite filter_cons. intros [E|Hin]%elem_of_cons.
    + rewrite decide_True by done. rewrite filter_none; [by rewrite E|]. intros y Hy E'. apply Hx. unfold id in E'. congruence.
    + rewrite decide_False; [by apply IH|]. unfold id. congruence.
  - rewrite filter_none; [|intros x Hx E; apply Hn; change (x = su_id s) in E; rewrite <- E; by apply elem_of_remove_dups]. symmetry. apply Hf.
    unfold own, select_where. apply filter_none. intros b Hb E%str_eqb_spec. apply Hn. rewrite <- E. by apply list_elem_of_fmap_2.
Qed.

(** One row of flags for a user and a wave. *)
Definition flags_keyed db : Prop := keyed (λ f, (fr_user_id f, fr_wave_id f)) (db_flags db).

Lemma pass_flags db me s :
  flags_keyed db →
  pass fr_wave_id (λ f, with_flags (fr_flags f)) (select_where (λ f, str_eqb (fr_user_id f) me) (db_flags db)) s =
  match flags_row db me (su_id s) with Some f => with_flags f s | None => s end.
Proof.
  intros Hk. unfold pass, flags_row, find_row.
  assert (filter (λ x, fr_wave_id x = su_id s) (select_where (λ f, str_eqb (fr_user_id f) me) (db_flags db)) =
    select_where (λ f, str_eqb (fr_user_id f) me && str_eqb (fr_wave_id f) (su_id s)) (db_flags db)) as ->.
  { unfold select_where. rewrite list_filter_filter. apply list_filter_iff. intros f. rewrite andb_true_iff, !str_eqb_spec. tauto. }
  pose proof (keyed_filter _ (λ f, str_eqb (fr_user_id f) me && str_eqb (fr_wave_id f) (su_id s) = true) _ Hk) as Hk'.
  fold (select_where (λ f, str_eqb (fr_user_id f) me && str_eqb (fr_wave_id f) (su_id s)) (db_flags db)) in Hk'.
  assert (∀ f, f ∈ select_where (λ f, str_eqb (fr_user_id f) me && str_eqb (fr_wave_id f) (su_id s)) (db_flags db) →
    (fr_user_id f, fr_wave_id f) = (me, su_id s)) as Hall.
  { intros f [_ [->%str_eqb_spec ->%str_eqb_spec]%andb_true_iff]%elem_of_select. done. }
  destruct (select_where _ _) as [|f1 [|f2 fs]]; [done|done|]. exfalso. unfold keyed in Hk'. rewrite !fmap_cons in Hk'.
  apply list.NoDup_cons in Hk' as [Hk' _]. apply Hk'. rewrite (Hall f1) by by left. rewrite (Hall f2) by (right; by left). by left.
Qed.

Lemma inbox_row_same db me root :
  flags_keyed db → one_root_each db → root ∈ my_roots db me →
  ∃ s', wave_summary db me (wlr_wave_id root) = Some s' ∧ same_row (inbox_row db me root) s'.
Proof.
  intros Hk H1 [Hroot Hp]%elem_of_select. set (w := wlr_wave_id root).
  assert (find_row (λ s, str_eqb (wlr_wave_id s) w && is_participant db me w) (root_rows db) = Some root) as Hfind.
  { apply find_row_unique; [done|rewrite andb_true_iff; split; [by apply str_eqb_spec|done]|].
    intros r Hr [E%str_eqb_spec _]%andb_true_iff. by apply (keyed_eq _ _ _ _ H1). }
  unfold wave_summary. rewrite Hfind. cbn [mbind option_bind]. eexists. split; [reflexivity|].
  unfold inbox_row. unfold pass at 4. rewrite push_all. cbn [su_participants su_id summary_of app].
  set (rows := filter _ (member_rows db (my_roots db me))).
  rewrite (pass_groups (shown db me)).
  2:{ unfold latest_of. by intros ->. }
  cbn [su_id with_participants summary_of]. unfold latest_of at 1. rewrite own_shown.
  rewrite (pass_groups (unread db me)).
  2:{ unfold unread_of. intros ->. destruct (newest _); reflexivity. }
  unfold unread_of at 1. rewrite own_unread, pass_flags by done.
  assert (∀ n (l : option Blip) s, su_id (with_latest n l s) = su_id s) as Hli by (intros n l s; by destruct l).
  assert (rows ≡ₚ member_rows db (select_where (λ s, str_eqb (wlr_wave_id s) w) (root_rows db))) as Hrows.
  { unfold rows. rewrite member_rows_wave. apply reflexive_eq. f_equal. unfold my_roots. rewrite select_comm.
    unfold select_where at 1. apply filter_all. intros s [_ E%str_eqb_spec]%elem_of_select. by rewrite E. }
  cbn [su_id with_unread]. rewrite !Hli. cbn [su_id with_participants summary_of]. fold w.
  apply (fmap_Permutation (λ r, r.2.2)) in Hrows. unfold same_row.
  destruct (newest (conversation_blips db me w)), (flags_row db me w); simpl; split; done.
Qed.

Lemma StronglySorted_impl {A} (Q R : relation A) l : (∀ x y, Q x y → R x y) → StronglySorted Q l → StronglySorted R l.
Proof. intros H. induction 1 as [|x l _ IH Hl]; constructor; [done|]. exact (list.Forall_impl _ _ _ Hl (H x)). Qed.

Lemma inbox_row_id db me root : su_id (inbox_row db me root) = wlr_wave_id root.
Proof.
  unfold inbox_row. rewrite pass_id by done. rewrite pass_id by done. rewrite pass_id by (intros w; apply latest_keeps).
  by rewrite pass_id.
Qed.

#[local] Instance key_total {R} (key : R → Z) : Total (key_before key).
Proof. intros a b. unfold key_before. lia. Qed.

#[local] Instance key_transitive {R} (key : R → Z) : Transitive (key_before key).
Proof. intros a b c. unfold key_before. lia. Qed.

Lemma order_by_sorted {R} (key : R → Z) t : StronglySorted (key_before key) (order_by key t).
Proof.
  unfold order_by. apply StronglySorted_merge_sort; apply _.
Qed.

(** C18: the inbox, computed for all waves at once by grouped queries, holds exactly the row that the summary of
    each of the reader's waves gives on its own, each wave once, last changed first. *)
Theorem inbox_is_summaries db me :
  one_root_each db → flags_keyed db →
  (∀ s, s ∈ inbox db me → ∃ s', wave_summary db me (su_id s) = Some s' ∧ same_row s s') ∧
  (∀ w s', wave_summary db me w = Some s' → ∃ s, s ∈ inbox db me ∧ su_id s = w) ∧
  NoDup (su_id <$> inbox db me) ∧
  StronglySorted (λ s1 s2, (su_last_modified s2 ≤ su_last_modified s1)%Z) (inbox db me).
Proof.
  intros H1 Hk. rewrite inbox_rows by done. repeat split.
  - intros s (root & -> & Hroot)%elem_of_order_by%list_elem_of_fmap. rewrite inbox_row_id. by apply inbox_row_same.
  - intros w s' (root & [Hin [E%str_eqb_spec Hp]%andb_true_iff]%find_row_some & _)%bind_Some.
    exists (inbox_row db me root). rewrite elem_of_order_by, inbox_row_id. split; [|done]. apply list_elem_of_fmap_2.
    apply elem_of_select. by rewrite E.
  - rewrite order_by_perm, <- list_fmap_compose. erewrite list_fmap_ext; [by apply my_roots_nodup|].
    intros i root _. apply inbox_row_id.
  - eapply StronglySorted_impl; [|apply order_by_sorted]. intros a b Hab. unfold key_before in Hab. lia.
Qed.

End inbox.

(** ** A concrete inbox *)

Definition db_inbox : Db := app_db edited_wave.

Lemma keyed_by {R K} `{EqDecision K} (f : R → K) (t : list R) : bool_decide (NoDup (f <$> t)) = true → NoDup (f <$> t).
Proof. apply bool_decide_eq_true. Qed.

(** Bob's inbox holds the shared wave; its row is the one a change to the wave gives him. *)
Lemma inbox_is_summaries_witness :
  su_id <$> inbox db_inbox (lit "u-bob") = [the_wave] ∧
  (∀ s, s ∈ inbox db_inbox (lit "u-bob") → ∃ s', wave_summary db_inbox (lit "u-bob") (su_id s) = Some s' ∧ same_row s s').
Proof.
  split; [vm_compute; reflexivity|].
  refine (proj1 (inbox_is_summaries db_inbox (lit "u-bob") _ _)); apply keyed_by; vm_compute; reflexivity.
Defined.
