(* ===== verification/Auth.v ===== *)
(** * Accounts, passwords and cookies ([crates/gal-server/src/auth.rs])

    What a sign-up may look like, the names derived from a provider's, the session cookie, and the check of a
    WebSocket's origin.  Argon2 and SHA-256 are third-party code, and so parameters of what uses them. *)

From S2P Require Import Prelude Strings Unicode Snippet.

Definition COOKIE_NAME : str := lit "gal_session".

(** ** Strings *)

(** [str::split_once] at a string. *)
Fixpoint split_once_str (sep s : str) : option (str * str) :=
  match strip_prefix s sep with
  | Some rest => Some ([], rest)
  | None =>
      match s with
      | [] => None
      | c :: s => '(before, after) ← split_once_str sep s; Some (c :: before, after)
      end
  end.

(** [str::contains]. *)
Fixpoint str_contains (s p : str) : bool :=
  starts_with s p || match s with [] => false | _ :: s => str_contains s p end.

(** [String::truncate]: a panic inside a character. *)
Definition str_truncate (s : str) (n : N) : option str := if (str_len s <=? n)%N then Some s else str_upto s n.

(** ** Secrets *)

(** The digests of the two sides are compared to the last byte, whatever differs before. *)
Definition constant_time_eq (sha256 : list N → list N) (a b : list N) : bool :=
  (foldl (λ difference xy, N.lor difference (N.lxor xy.1 xy.2)) 0 (zip (sha256 a) (sha256 b)) =? 0)%N.

(** ** Cookies *)

Definition session_cookie (token : str) (secure : bool) (max_age_secs : Z) : str :=
  COOKIE_NAME ++ [61%N] ++ token ++ lit "; Path=/; HttpOnly; SameSite=Lax; Max-Age=" ++ show_i64 max_age_secs
    ++ (if secure then lit "; Secure" else []).

Definition clear_cookie (secure : bool) : str :=
  COOKIE_NAME ++ lit "=; Path=/; HttpOnly; SameSite=Lax; Max-Age=0" ++ (if secure then lit "; Secure" else []).

(** [find_map] over the pairs of the header. *)
Fixpoint find_pair (name : str) (pairs : list str) : option str :=
  match pairs with
  | [] => None
  | p :: pairs =>
      match split_once 61 p with
      | Some (n, value) => if str_eqb (trim n) name then Some (trim value) else find_pair name pairs
      | None => find_pair name pairs
      end
  end.

Definition token_from_cookies (header : str) : option str := find_pair COOKIE_NAME (split_on 59 header).

(** ** Sign-up *)

Inductive SignupError :=
| NameTooShort
| NameTooLong
| NameCharacters
| PasswordTooShort
| PasswordTooLong
| PasswordTooCommon
| PasswordContainsName
| DisplayNameTooLong.

Definition signup_text (e : SignupError) : str :=
  match e with
  | NameTooShort => lit "Username must be at least 2 characters."
  | NameTooLong => lit "Username must be at most 32 characters."
  | NameCharacters => lit "Username may only contain letters, numbers, dots, dashes and underscores."
  | PasswordTooShort => lit "Password must be at least 12 characters."
  | PasswordTooLong => lit "Password must be at most 1024 characters."
  | PasswordTooCommon => lit "That password is one of the most common ones in use. Please choose another."
  | PasswordContainsName => lit "Password must not contain your username."
  | DisplayNameTooLong => lit "Display name must be at most 64 characters."
  end.

Definition MIN_PASSWORD : nat := 12.
Definition MAX_PASSWORD : nat := 1024.

Definition COMMON_PASSWORDS : list str :=
  [lit "123456789012"; lit "1234567890123"; lit "12345678901234"; lit "111111111111"; lit "aaaaaaaaaaaa";
   lit "password1234"; lit "passw0rd1234"; lit "passwordpassword"; lit "qwertyuiop123"; lit "qwertyuiopasdfghjkl";
   lit "administrator"; lit "iloveyou1234"; lit "letmein123456"; lit "welcome123456"; lit "abcdefghijklmnop";
   lit "thisisapassword"; lit "correcthorsebatterystaple"].

Section auth.
Context `{U : Unicode}.

Definition contains_name (folded : str) (name : option str) : bool :=
  match name with
  | Some name => let name := to_lowercase (trim name) in (3 <=? length name)%nat && str_contains folded name
  | None => false
  end.

Definition validate_password (password : str) (name : option str) : result () SignupError :=
  if (length password <? MIN_PASSWORD)%nat then Err PasswordTooShort
  else if (MAX_PASSWORD <? length password)%nat then Err PasswordTooLong
  else
    let folded := to_lowercase password in
    if bool_decide (folded ∈ COMMON_PASSWORDS) then Err PasswordTooCommon
    else if contains_name folded name then Err PasswordContainsName
    else Ok tt.

Definition name_char (c : char) : bool := is_ascii_alphanumeric c || is_separator c.

Definition validate_name (name : str) : result str SignupError :=
  let name := to_lowercase (trim name) in
  if (length name <? 2)%nat then Err NameTooShort
  else if (32 <? length name)%nat then Err NameTooLong
  else if negb (forallb name_char name) then Err NameCharacters
  else Ok name.

Definition validate_signup (name display_name password : str) : result (str * str) SignupError :=
  name <-? validate_name name;
  _ <-? validate_password password (Some name);
  let display := trim display_name in
  let display := if bool_decide (display = []) then name else display in
  if (64 <? length display)%nat then Err DisplayNameTooLong else Ok (name, display).

(** The name of an account for somebody a provider calls [raw]; the outer [None] is a panic. *)
Definition name_from_external (raw : str) : option (option str) :=
  let local := default raw (head (split_on 64 raw)) in
  name ← str_truncate (filter (λ c, name_char c = true) (to_lowercase (trim local))) 32;
  let name := trim_end_by is_separator (trim_start_by is_separator name) in
  Some match validate_name name with Ok name => Some name | Err _ => None end.

End auth.

(** ** Origins *)

Definition canonical_origin (origin : str) : str := to_ascii_lowercase <$> trim_end_by (λ c, (c =? 47)%N) (trim origin).

Definition origin_allowed (origin host : option str) (allowed : list str) : bool :=
  match origin with
  | None => true
  | Some origin =>
      let origin := canonical_origin origin in
      if str_eqb origin (lit "null") then false
      else if bool_decide (origin ∈ allowed) then true
      else
        match split_once_str (lit "://") origin, host with
        | Some (_, authority), Some host => str_eqb authority (to_ascii_lowercase <$> trim host)
        | _, _ => false
        end
  end.

(** ** Lemmas *)

Lemma trim_start_none p s : Forall (λ c, p c = false) s → trim_start_by p s = s.
Proof. destruct 1 as [|c s H _]; simpl; [done|by rewrite H]. Qed.

Lemma trim_end_none p s : Forall (λ c, p c = false) s → trim_end_by p s = s.
Proof. intros H. unfold trim_end_by. rewrite trim_start_none; [apply reverse_involutive|by apply Forall_reverse]. Qed.

Lemma trim_none s : Forall (λ c, is_whitespace c = false) s → trim s = s.
Proof. intros H. unfold trim, trim_start, trim_end. by rewrite trim_start_none, trim_end_none. Qed.

Lemma trim_start_forall (P : char → Prop) p s : Forall P s → Forall P (trim_start_by p s).
Proof. intros H. destruct (trim_start_by_suffix p s) as (pre & E & _). rewrite E in H. by apply Forall_app in H as [_ H]. Qed.

Lemma trim_end_forall (P : char → Prop) p s : Forall P s → Forall P (trim_end_by p s).
Proof. intros H. destruct (trim_end_by_prefix p s) as (post & E & _). rewrite E in H. by apply Forall_app in H as [H _]. Qed.

Lemma ascii_str_len s : Forall (λ c, (c < 128)%N) s → str_len s = N.of_nat (length s).
Proof.
  induction 1 as [|c s H _ IH]; [done|]. rewrite str_len_cons, IH. unfold len_utf8. rewrite (proj2 (N.ltb_lt _ _) H). simpl length. lia.
Qed.

Lemma ascii_upto s n : Forall (λ c, (c < 128)%N) s → (n ≤ N.of_nat (length s))%N → str_upto s n = Some (take (N.to_nat n) s).
Proof.
  intros H. revert n. induction H as [|c s H _ IH]; intros n Hn.
  - simpl in Hn. assert (n = 0%N) as -> by lia. done.
  - destruct (decide (n = 0%N)) as [->|Hn0]; [done|]. simpl in Hn.
    cbn [str_upto]. unfold len_utf8. rewrite (proj2 (N.ltb_lt _ _) H).
    destruct (n =? 0)%N eqn:E0; bool_to_prop; [done|].
    destruct (n <? 1)%N eqn:E1; bool_to_prop; [lia|].
    rewrite IH by lia. simpl. replace (N.to_nat n) with (S (N.to_nat (n - 1))) by lia. done.
Qed.

(** *** Names *)

Lemma name_char_cases c : name_char c = true → (c < 128)%N ∧ is_whitespace c = false.
Proof.
  unfold name_char, is_ascii_alphanumeric, is_ascii_digit, is_ascii_lowercase, is_ascii_uppercase, is_separator.
  intros H. assert (c < 128)%N as Hc.
  { rewrite !orb_true_iff, !andb_true_iff, !N.leb_le, !N.eqb_eq in H. lia. }
  split; [done|]. unfold is_whitespace. rewrite !orb_false_iff, !andb_false_iff, !N.leb_gt, !N.eqb_neq.
  rewrite !orb_true_iff, !andb_true_iff, !N.leb_le, !N.eqb_eq in H. lia.
Qed.

Section names.
Context `{U : Unicode} `{!UnicodeLaws U}.

(** An account name as the rules want it. *)
Definition account_name (n : str) : Prop :=
  (2 ≤ length n)%nat ∧ (length n ≤ 32)%nat ∧ Forall (λ c, name_char c = true) n ∧ to_lowercase n = n.

Lemma account_name_trim n : account_name n → trim n = n.
Proof. intros (_ & _ & H & _). apply trim_none. eapply list.Forall_impl; [exact H|]. intros c Hc. by apply name_char_cases. Qed.

Lemma validate_name_canonical raw n : validate_name raw = Ok n → n = to_lowercase (trim raw) ∧ account_name n.
Proof using Type*.
  unfold validate_name. set (m := to_lowercase (trim raw)). destruct (length m <? 2)%nat eqn:E1; [done|].
  destruct (32 <? length m)%nat eqn:E2; [done|]. destruct (forallb name_char m) eqn:E3; [|done]. intros [= <-].
  apply Nat.ltb_ge in E1, E2. split; [done|]. split_and!; [done|done| |apply to_lowercase_idemp].
  apply list.Forall_forall. intros c Hc. rewrite forallb_forall in E3. by apply E3, list_elem_of_In.
Qed.

Lemma validate_name_accepts n : account_name n → validate_name n = Ok n.
Proof.
  intros H. unfold validate_name. rewrite (account_name_trim n H). destruct H as (H1 & H2 & H3 & ->).
  apply Nat.ltb_ge in H1, H2. rewrite H1, H2.
  replace (forallb name_char n) with true; [done|]. symmetry. apply forallb_forall. intros c Hc.
  rewrite list.Forall_forall in H3. by apply H3, list_elem_of_In.
Qed.

Lemma name_chars_ascii s : Forall (λ c, name_char c = true) s → Forall (λ c, (c < 128)%N) s.
Proof. intros H. eapply list.Forall_impl; [exact H|]. intros c Hc. by apply name_char_cases. Qed.

Lemma truncate_ascii s : Forall (λ c, (c < 128)%N) s → str_truncate s 32 = Some (take 32 s).
Proof.
  intros H. unfold str_truncate. rewrite (ascii_str_len s H). destruct (N.of_nat (length s) <=? 32)%N eqn:E; bool_to_prop.
  - by rewrite take_ge by lia.
  - apply (ascii_upto s 32); [done|lia].
Qed.

Lemma kept_forall (p : char → bool) s : Forall (λ c, p c = true) (filter (λ c, p c = true) s).
Proof. apply list.Forall_forall. intros c Hc. by apply list_elem_of_filter in Hc as [Hc _]. Qed.

(** Deriving a name never panics, and what it gives is an account name. *)
Lemma name_from_external_total raw : ∃ r, name_from_external raw = Some r ∧ ∀ n, r = Some n → account_name n.
Proof using Type*.
  unfold name_from_external. set (local := default raw _). set (kept := filter _ _).
  assert (Forall (λ c, (c < 128)%N) kept) as Hk by (apply name_chars_ascii, kept_forall).
  rewrite (truncate_ascii kept Hk). cbn [mbind option_bind]. eexists. split; [reflexivity|].
  intros n. destruct (validate_name _) as [m|e] eqn:E; [|done]. intros [= <-]. by apply validate_name_canonical in E as [_ E].
Qed.

End names.

(** *** Cookies *)

Lemma split_on_app sep a s : sep ∉ a → split_on sep (a ++ sep :: s) = a :: split_on sep s.
Proof.
  induction a as [|c a IH]; intros Hn; simpl; [by rewrite N.eqb_refl|]. rewrite not_elem_of_cons in Hn. destruct Hn as [Hc Hn].
  rewrite (proj2 (N.eqb_neq c sep)) by congruence. by rewrite IH.
Qed.

Lemma split_on_none sep a : sep ∉ a → split_on sep a = [a].
Proof.
  induction a as [|c a IH]; intros Hn; [done|]. rewrite not_elem_of_cons in Hn. destruct Hn as [Hc Hn]. simpl.
  rewrite (proj2 (N.eqb_neq c sep)) by congruence. by rewrite IH.
Qed.

(** The cookies a browser sends, each after the first behind a semicolon and a space. *)
Fixpoint cookie_header (pairs : list str) : str :=
  match pairs with
  | [] => []
  | [p] => p
  | p :: pairs => p ++ [59%N; 32%N] ++ cookie_header pairs
  end.

(** A pair of another name, or of none. *)
Definition other_cookie (p : str) : Prop :=
  (59%N ∉ p) ∧ (∀ n v, split_once 61 p = Some (n, v) → trim n ≠ COOKIE_NAME).

(** The first part of a [Set-Cookie] value is what the browser sends back. *)
Lemma session_cookie_pair token secure age :
  59%N ∉ token → head (split_on 59 (session_cookie token secure age)) = Some (COOKIE_NAME ++ [61%N] ++ token).
Proof.
  intros Hn. unfold session_cookie.
  change (lit "; Path=/; HttpOnly; SameSite=Lax; Max-Age=") with (59%N :: lit " Path=/; HttpOnly; SameSite=Lax; Max-Age=").
  replace (COOKIE_NAME ++ [61%N] ++ token ++ (59%N :: lit " Path=/; HttpOnly; SameSite=Lax; Max-Age=") ++ show_i64 age
    ++ (if secure then lit "; Secure" else []))
    with ((COOKIE_NAME ++ [61%N] ++ token) ++ 59%N :: lit " Path=/; HttpOnly; SameSite=Lax; Max-Age=" ++ show_i64 age
    ++ (if secure then lit "; Secure" else [])) by by rewrite <- !app_assoc.
  rewrite split_on_app; [done|]. rewrite !not_elem_of_app. split_and!; [|apply not_elem_of_cons; split; [done|apply not_elem_of_nil]|done].
  by apply (bool_decide_unpack _).
Qed.

Lemma split_cookie sp token : Forall (λ c, is_whitespace c = true) sp →
  split_once 61 (sp ++ COOKIE_NAME ++ [61%N] ++ token) = Some (sp ++ COOKIE_NAME, token).
Proof.
  intros Hsp. apply split_once_spec. split; [by rewrite <- app_assoc|]. rewrite not_elem_of_app. split.
  - intros Hin. rewrite list.Forall_forall in Hsp. by apply Hsp in Hin.
  - by apply (bool_decide_unpack _).
Qed.

Definition spaced (pairs : list str) : list str :=
  match pairs with [] => [[]] | p :: pairs => p :: (cons 32%N <$> pairs) end.

Lemma split_cookies pairs : Forall (λ p, 59%N ∉ p) pairs → split_on 59 (cookie_header pairs) = spaced pairs.
Proof.
  induction 1 as [|p pairs Hp Hps IH]; [done|]. destruct pairs as [|q pairs]; [by apply split_on_none|].
  assert (cookie_header (p :: q :: pairs) = p ++ 59%N :: (32%N :: cookie_header (q :: pairs))) as -> by done.
  rewrite split_on_app by done. cbn [spaced]. f_equal. cbn [split_on]. rewrite IH. done.
Qed.

Lemma find_other p pairs : other_cookie p → find_pair COOKIE_NAME (p :: pairs) = find_pair COOKIE_NAME pairs.
Proof.
  intros [_ H]. cbn [find_pair]. destruct (split_once 61 p) as [[n v]|] eqn:E; [|done]. unfold str_eqb.
  rewrite bool_decide_eq_false_2; [done|by eapply H].
Qed.

Lemma trim_space s : trim (32%N :: s) = trim s.
Proof. done. Qed.

Lemma other_spaced p : other_cookie p → other_cookie (32%N :: p).
Proof.
  intros [H1 H2]. split; [by apply not_elem_of_cons|]. intros n v. cbn [split_once].
  change (32 =? 61)%N with false. cbv iota. intros ([a b] & Hab & [= <- <-])%bind_Some. rewrite trim_space. by eapply H2.
Qed.

Lemma find_here sp token pairs :
  Forall (λ c, is_whitespace c = true) sp → trim (sp ++ COOKIE_NAME) = COOKIE_NAME → trim token = token →
  find_pair COOKIE_NAME ((sp ++ COOKIE_NAME ++ [61%N] ++ token) :: pairs) = Some token.
Proof.
  intros Hsp Hn Ht. cbn [find_pair]. rewrite split_cookie by done. unfold str_eqb. rewrite Hn, bool_decide_eq_true_2 by done. by rewrite Ht.
Qed.

Lemma find_others before pairs : Forall other_cookie before → find_pair COOKIE_NAME (before ++ pairs) = find_pair COOKIE_NAME pairs.
Proof. induction 1 as [|p ps Hp _ IH]; [done|]. simpl app. by rewrite find_other. Qed.

(** The session's token is read back from among the other cookies. *)
Lemma token_read_back before token after :
  Forall other_cookie before → Forall (λ p, 59%N ∉ p) after → 59%N ∉ token → trim token = token →
  token_from_cookies (cookie_header (before ++ (COOKIE_NAME ++ [61%N] ++ token) :: after)) = Some token.
Proof.
  intros Hb Ha Ht Htr. assert (59%N ∉ COOKIE_NAME ++ [61%N] ++ token) as Hp.
  { rewrite !not_elem_of_app. split_and!; [|apply not_elem_of_cons; split; [done|apply not_elem_of_nil]|done]. by apply (bool_decide_unpack _). }
  unfold token_from_cookies. rewrite split_cookies.
  2:{ apply list.Forall_app. split; [|by constructor]. eapply list.Forall_impl; [exact Hb|]. by intros p [H _]. }
  destruct Hb as [|p ps H1 H2].
  - by apply (find_here []).
  - cbn [app spaced]. rewrite fmap_app, fmap_cons, find_other, find_others; [|by apply Forall_fmap, (list.Forall_impl _ _ _ H2), other_spaced|done].
    apply (find_here [32%N]); [by repeat constructor|done|done].
Qed.

(** *** Secrets *)

Lemma lor_zero a b : N.lor a b = 0%N ↔ a = 0%N ∧ b = 0%N.
Proof. apply N.lor_eq_0_iff. Qed.

Lemma differences_zero (xs : list (N * N)) d :
  foldl (λ difference xy, N.lor difference (N.lxor xy.1 xy.2)) d xs = 0%N ↔ d = 0%N ∧ Forall (λ xy, xy.1 = xy.2) xs.
Proof.
  revert d. induction xs as [|[x y] xs IH]; intros d; simpl.
  - split; [by intros ->|by intros [-> _]].
  - rewrite IH, lor_zero, N.lxor_eq_0_iff, list.Forall_cons. simpl. tauto.
Qed.

(** Digests of one length are compared exactly. *)
Lemma constant_time_eq_spec sha256 a b :
  length (sha256 a) = length (sha256 b) → constant_time_eq sha256 a b = true ↔ sha256 a = sha256 b.
Proof.
  intros Hl. unfold constant_time_eq. rewrite N.eqb_eq, differences_zero. revert Hl. generalize (sha256 a) (sha256 b).
  intros l1. induction l1 as [|x l1 IH]; intros [|y l2]; try done. intros [= Hl]. simpl. rewrite list.Forall_cons. simpl.
  specialize (IH _ Hl). split.
  - intros [_ [-> H]]. f_equal. apply IH. by split.
  - intros [= -> E]. split; [done|]. split; [done|]. by apply IH in E as [_ E].
Qed.

(** *** Origins *)

Lemma split_once_str_sound sep s a b : split_once_str sep s = Some (a, b) → s = a ++ sep ++ b.
Proof.
  revert a. induction s as [|c s IH]; intros a; cbn [split_once_str].
  - destruct (strip_prefix [] sep) eqn:E; [|done]. intros [= <- <-]. by apply strip_prefix_spec in E.
  - destruct (strip_prefix (c :: s) sep) eqn:E; [intros [= <- <-]; by apply strip_prefix_spec in E|].
    intros ([a' b'] & H & [= <- <-])%bind_Some. simpl. f_equal. by apply IH.
Qed.

(** Without configured origins a browser connects from the server's own host only. *)
Lemma origin_allowed_same o h :
  origin_allowed (Some o) (Some h) [] = true → ∃ scheme, canonical_origin o = scheme ++ lit "://" ++ (to_ascii_lowercase <$> trim h).
Proof.
  unfold origin_allowed. destruct (str_eqb (canonical_origin o) (lit "null")); [done|].
  rewrite bool_decide_eq_false_2 by apply not_elem_of_nil. destruct (split_once_str _ _) as [[scheme authority]|] eqn:E; [|done].
  intros ->%bool_decide_eq_true. exists scheme. by apply split_once_str_sound.
Qed.
