(* ===== verification/Accounts.v ===== *)
(** * Accounts over HTTP ([crates/gal-server/src/http.rs])

    Registering, signing in and out, changing a password, looking people up, and who may open a WebSocket.
    A handler answers with a response and the state of the rate limiters.  Argon2, SHA-256, random tokens, the
    monotonic clock and the [http] crate's check of a header value are parameters. *)

From Stdlib Require Import QArith.
From S2P Require Import Prelude Tables Strings Unicode Json Attributes Text Delta Model Protocol ServerDoc.
From S2P Require Import Content LiveWave Snippet Storage Queries Effects Critical Handlers App Limit Agent Auth.

(** The settings the handlers read ([config.rs]). *)
Record Config := mkConfig {
  secure_cookies : bool;
  open_registration : bool;
  allowed_origins : list str;
  trust_forwarded_for : bool;
  hsts : bool;
  metrics_token : option str;
}.

Definition config_default : Config := mkConfig false true [] false false None.

Inductive AccountResponse :=
| HBadRequest (message : str)
| HForbidden (message : str)
| HNotFound (message : str)
| HUnauthorised (message : str)
| HTooMany (message : str)
| HTooLarge (message : str)
| HServerError
| HSession (set_cookie : option str) (user : PublicUser)
| HDone (set_cookie : option str)
| HRevoked (revoked : N)
| HSessions (sessions : N)
| HUser (user : PublicUser)
| HUsers (users : list PublicUser).

(** The signed-in user of a request. *)
Record Identity := mkIdent { id_user : User; id_token_hash : str }.

(** What a rate limiter goes by: the forwarding header and the peer's address. *)
Record Caller := mkCaller { cl_forwarded : option str; cl_peer : option str }.

Record SignupRequest := mkSignup { sg_name : str; sg_display_name : str; sg_password : str }.
Record LoginRequest := mkLogin { lg_name : str; lg_password : str }.
Record PasswordChange := mkChange { pc_current : str; pc_new : str }.

Definition not_signed_in : AccountResponse := HUnauthorised (lit "Not signed in.").
Definition name_is_taken : AccountResponse := HBadRequest (lit "That username is already taken.").
Definition bad_login : AccountResponse := HBadRequest (lit "Incorrect username or password.").
Definition too_many_attempts : AccountResponse := HTooMany (lit "Too many attempts. Wait a moment and try again.").
Definition too_many_lookups : AccountResponse := HTooMany (lit "Too many lookups. Slow down.").

Definition DUMMY_HASH : str :=
  lit "$argon2id$v=19$m=19456,t=2,p=1$c29tZXNhbHRzb21lc2FsdA$Yl5S5xJHRLPTPXQD0oPGxNzTfPFHKPYnUdRJXvJ7Hqo".

(** The third-party code behind the accounts. *)
Class Secrets := {
  hash_password : nat → str → option str;
  verify_password : str → str → bool;
  hash_token : str → str;
  generate_token : nat → str;
  sha256 : list N → list N;
  instant : nat → Q;
  worker_panics : nat → bool;
  header_value : str → bool;
}.

Section accounts.
Context `{J : Json} `{U : Unicode} `{W : World} `{Sec : Secrets}.

Definition instant_ : AM Q := λ a, (Ok (instant (app_tick a)), app_step a).
Definition token_ : AM str := λ a, (Ok (generate_token (app_tick a)), app_step a).

(** Work on the blocking pool; [None] is a worker that panicked. *)
Definition password_work {T} (work : nat → T) : AM (option T) := λ a,
  (Ok (if worker_panics (app_tick a) then None else Some (work (app_tick a))), app_step a).

Definition set_cookie (cookie : str) : option str := if header_value cookie then Some cookie else None.

(** [FromRequestParts for Identity]. *)
Definition identity (cookies : option str) : AM (option Identity) :=
  match cookies ≫= token_from_cookies with
  | None => cm_ret None
  | Some token =>
      let token_hash := hash_token token in
      ts <-! now_;
      user <-! attempt (reading (λ db, user_for_session db ts token_hash));
      cm_ret match user with Some (Some user) => Some (mkIdent user token_hash) | _ => None end
  end.

(** A handler that asks for an [Identity]. *)
Definition signed_in {T} (refused : T) (cookies : option str) (k : Identity → AM T) : AM T :=
  who <-! identity cookies;
  match who with Some who => k who | None => cm_ret refused end.

Definition issue_session (cfg : Config) (user : User) : AM AccountResponse :=
  token <-! token_;
  ts <-! now_;
  stored <-! attempt (λ db, match create_session db ts (user_id user) (hash_token token) with
                           | Ok db => Ok (tt, db) | Err e => Err e end);
  cm_ret match stored with
         | None => HServerError
         | Some _ => HSession (set_cookie (session_cookie token (secure_cookies cfg) (SESSION_TTL_MS / 1000))) (public user)
         end.

(** The rest of a handler behind the limiter of the unauthenticated endpoints. *)
Definition auth_limited (cfg : Config) (caller : Caller) (ls : Limiters) (k : Limiters → AM (AccountResponse * Limiters))
    : AM (AccountResponse * Limiters) :=
  t <-! instant_;
  let '(ok, ls) := check_auth_rate t (trust_forwarded_for cfg) (cl_forwarded caller) (cl_peer caller) ls in
  if ok then k ls else cm_ret (too_many_attempts, ls).

(** Answer without touching the limiters again. *)
Definition answering (ls : Limiters) (m : AM AccountResponse) : AM (AccountResponse * Limiters) :=
  r <-! m; cm_ret (r, ls).

Definition register_account (cfg : Config) (name display_name password : str) : AM AccountResponse :=
  found <-! attempt (reading (λ db, user_by_name db name));
  match found with
  | None => cm_ret HServerError
  | Some (Some _) => cm_ret name_is_taken
  | Some None =>
      hash <-! password_work (λ salt, hash_password salt password);
      match hash with
      | Some (Some hash) =>
          uuid <-! uuid_;
          ts <-! now_;
          user <-! attempt (λ db, create_user db uuid ts name display_name [] hash);
          match user with
          | None => cm_ret name_is_taken
          | Some user => issue_session cfg user
          end
      | _ => cm_ret HServerError
      end
  end.

Definition register (cfg : Config) (caller : Caller) (body : SignupRequest) (ls : Limiters) : AM (AccountResponse * Limiters) :=
  auth_limited cfg caller ls (λ ls, answering ls (
    if negb (open_registration cfg) then cm_ret (HForbidden (lit "Registration is closed on this server."))
    else
      match validate_signup (sg_name body) (sg_display_name body) (sg_password body) with
      | Err e => cm_ret (HBadRequest (signup_text e))
      | Ok (name, display_name) => register_account cfg name display_name (sg_password body)
      end)).

(** Signing in, once a stored account was looked for: the hash is checked either way. *)
Definition check_login (cfg : Config) (body : LoginRequest) (stored : option User) (ls : Limiters)
    : AM (AccountResponse * Limiters) :=
  let hash := match stored with Some u => user_password_hash u | None => DUMMY_HASH end in
  t <-! instant_;
  let '(throttled, ls) := account_is_throttled t (lg_name body) ls in
  checked <-! password_work (λ _, if throttled then None else Some (verify_password (lg_password body) hash));
  match checked with
  | None => cm_ret (HServerError, ls)
  | Some None => cm_ret (bad_login, ls)
  | Some (Some ok) =>
      match ok, stored with
      | true, Some user => answering ls (issue_session cfg user)
      | _, _ =>
          t <-! instant_;
          cm_ret (bad_login, note_failed_signin t (lg_name body) ls)
      end
  end.

Definition login (cfg : Config) (caller : Caller) (body : LoginRequest) (ls : Limiters) : AM (AccountResponse * Limiters) :=
  auth_limited cfg caller ls (λ ls,
    t <-! instant_;
    let '(throttled, ls) := account_is_throttled t (lg_name body) ls in
    if throttled then cm_ret (bad_login, ls)
    else
      stored <-! attempt (reading (λ db, user_by_name db (trim (lg_name body))));
      match stored with
      | None => cm_ret (HServerError, ls)
      | Some stored => check_login cfg body stored ls
      end).

Definition logout (cfg : Config) (who : Identity) : AM AccountResponse :=
  gone <-! attempt (λ db, Ok (tt, delete_session db (id_token_hash who)));
  match gone with
  | None => cm_ret HServerError
  | Some _ =>
      modify (disconnect_session (user_id (id_user who)) (id_token_hash who)) ;!
      cm_ret (HDone (set_cookie (clear_cookie (secure_cookies cfg))))
  end.

Definition sign_out_everywhere (who : Identity) : AM AccountResponse :=
  revoked <-! attempt (λ db, Ok (revoke_other_sessions db (user_id (id_user who)) (id_token_hash who)));
  match revoked with
  | None => cm_ret HServerError
  | Some revoked =>
      modify (disconnect_other_sessions (user_id (id_user who)) (id_token_hash who)) ;!
      cm_ret (HRevoked revoked)
  end.

Definition session_info (who : Identity) : AM AccountResponse :=
  ts <-! now_;
  n <-! attempt (reading (λ db, session_count db ts (user_id (id_user who))));
  cm_ret match n with Some n => HSessions n | None => HServerError end.

Definition store_password (who : Identity) (hash : str) : AM AccountResponse :=
  changed <-! attempt (λ db, Ok (tt, change_password db (user_id (id_user who)) hash (id_token_hash who)));
  match changed with
  | None => cm_ret HServerError
  | Some _ =>
      modify (disconnect_other_sessions (user_id (id_user who)) (id_token_hash who)) ;!
      cm_ret (HDone None)
  end.

Definition change_own_password (cfg : Config) (caller : Caller) (who : Identity) (body : PasswordChange) (ls : Limiters)
    : AM (AccountResponse * Limiters) :=
  auth_limited cfg caller ls (λ ls, answering ls (
    match validate_password (pc_new body) (Some (user_name (id_user who))) with
    | Err e => cm_ret (HBadRequest (signup_text e))
    | Ok _ =>
        ok <-! password_work (λ _, verify_password (pc_current body) (user_password_hash (id_user who)));
        match ok with
        | None => cm_ret HServerError
        | Some false => cm_ret (HBadRequest (lit "Current password is incorrect."))
        | Some true =>
            hash <-! password_work (λ salt, hash_password salt (pc_new body));
            match hash with
            | Some (Some hash) => store_password who hash
            | _ => cm_ret HServerError
            end
        end
    end)).

Definition me (who : Identity) : AccountResponse := HUser (public (id_user who)).

Definition users (who : Identity) : AM AccountResponse :=
  found <-! attempt (reading (λ db, known_users db (user_id (id_user who))));
  cm_ret match found with Some found => HUsers found | None => HServerError end.

Definition lookup_user (cfg : Config) (caller : Caller) (name : str) (ls : Limiters) : AM (AccountResponse * Limiters) :=
  t <-! instant_;
  let '(ok, ls) := check_lookup_rate t (trust_forwarded_for cfg) (cl_forwarded caller) (cl_peer caller) ls in
  if negb ok then cm_ret (too_many_lookups, ls)
  else
    found <-! attempt (reading (λ db, user_by_name db (trim name)));
    cm_ret (match found with
            | None => HServerError
            | Some None => HNotFound (lit "No such user.")
            | Some (Some user) => HUser (public user)
            end, ls).

(** ** Sockets and metrics *)

(** Who a WebSocket is opened for ([ws.rs], [handler]). *)
Definition ws_handler (cfg : Config) (cookies origin host : option str) : AM (result Identity AccountResponse) :=
  signed_in (Err not_signed_in) cookies (λ who,
    cm_ret (if origin_allowed origin host (allowed_origins cfg) then Ok who
            else Err (HForbidden (lit "This origin is not allowed to connect.")))).

Definition metrics_allowed (cfg : Config) (authorization : option str) : result () AccountResponse :=
  match metrics_token cfg with
  | None => Err (HNotFound (lit "No such endpoint."))
  | Some expected =>
      let presented := default [] (v ← authorization; strip_prefix v (lit "Bearer ")) in
      if constant_time_eq sha256 (as_bytes presented) (as_bytes expected) then Ok tt
      else Err (HUnauthorised (lit "Not authorised."))
  end.

End accounts.
