(* ===== verification/AccountTheory.v ===== *)
(** * How the account handlers run

    Rules for the steps of a handler, the proof that no account handler touches a wave, and what a new session
    opens; then how the failures of one account are limited: a sign-in that looks at a wrong password costs the
    account a token, and an account without one is refused before its password is looked at. *)

From Stdlib Require Import QArith Lqa Qminmax.
From S2P Require Import Prelude Tables Strings Unicode Json Attributes Text Delta Model Protocol ServerDoc.
From S2P Require Import Content LiveWave Snippet Storage Queries Effects Critical Handlers Coherence App AppTheory Limit.
From S2P Require Import Agent Auth Accounts.

Section theory.
Context `{J : Json} `{U : Unicode} `{W : World} `{Sec : Secrets}.
Implicit Types a : App.
Implicit Types db : Db.

(** ** Runs of a handler *)

Definition runs {T} (m : AM T) a (t : T) a' : Prop := m a = (Ok t, a').

Lemma runs_ret {T} (t t' : T) a a' : runs (cm_ret t) a t' a' → t' = t ∧ a' = a.
Proof. by intros [= <- <-]. Qed.

Lemma runs_bind {T V} (m : AM T) (f : T → AM V) a v a' :
  runs (cm_bind m f) a v a' → ∃ t a1, runs m a t a1 ∧ runs (f t) a1 v a'.
Proof. unfold runs, cm_bind. destruct (m a) as [[t|e] a1]; [|done]. intros H. by exists t, a1. Qed.

Lemma runs_now a t a' : runs now_ a t a' → t = clock (app_tick a) ∧ a' = app_step a.
Proof. by intros [= <- <-]. Qed.

Lemma runs_uuid a t a' : runs uuid_ a t a' → t = fresh_uuid (app_tick a) ∧ a' = app_step a.
Proof. by intros [= <- <-]. Qed.

Lemma runs_instant a t a' : runs instant_ a t a' → t = instant (app_tick a) ∧ a' = app_step a.
Proof. by intros [= <- <-]. Qed.

Lemma runs_token a t a' : runs token_ a t a' → t = generate_token (app_tick a) ∧ a' = app_step a.
Proof. by intros [= <- <-]. Qed.

Lemma runs_work {T} (work : nat → T) a r a' :
  runs (password_work work) a r a' →
  a' = app_step a ∧ (r = None ∧ worker_panics (app_tick a) = true ∨ r = Some (work (app_tick a)) ∧ worker_panics (app_tick a) = false).
Proof. intros [= <- <-]. split; [done|]. destruct (worker_panics _); [by left|by right]. Qed.

Lemma runs_modify f a t a' : runs (modify f) a t a' → a' = f a.
Proof. by intros [= <- <-]. Qed.

Lemma put_db_same a : put_db (app_db a) a = a.
Proof. by destruct a. Qed.

(** A storage call of a handler: refused, with the tables as they were, or done. *)
Lemma runs_attempt {T} (f : Db → DbResult (T * Db)) a r a' :
  runs (attempt f) a r a' →
  (r = None ∧ a' = app_step a) ∨
  ∃ t db, r = Some t ∧ f (app_db a) = Ok (t, db) ∧ a' = app_step (put_db db a) ∧ disk_fails (app_tick a) = false.
Proof.
  unfold runs, attempt, cm_bind, try_db. cbn [st_tick st_db app_stored].
  destruct (disk_fails (app_tick a)); [intros [= <- <-]; by left|].
  destruct (f (app_db a)) as [[t db]|e] eqn:E; intros [= <- <-]; [right; by exists t, db|by left].
Qed.

Lemma runs_attempt_read {T} (f : Db → T) a r a' :
  runs (attempt (reading f)) a r a' → a' = app_step a ∧ (r = None ∨ r = Some (f (app_db a))).
Proof.
  intros [[-> ->]|(t & db & -> & [= <- <-] & -> & _)]%runs_attempt; [by auto|]. rewrite put_db_same. by auto.
Qed.

(** In a world where nothing fails. *)
Lemma attempt_done {T} (f : Db → DbResult (T * Db)) a t db :
  disk_fails (app_tick a) = false → f (app_db a) = Ok (t, db) → runs (attempt f) a (Some t) (app_step (put_db db a)).
Proof. intros H1 H2. unfold runs, attempt, cm_bind, try_db. cbn [st_tick st_db app_stored]. by rewrite H1, H2. Qed.

Lemma attempt_read_done {T} (f : Db → T) a :
  disk_fails (app_tick a) = false → runs (attempt (reading f)) a (Some (f (app_db a))) (app_step a).
Proof.
  intros H. pose proof (attempt_done (reading f) a _ _ H eq_refl) as Hr. by rewrite put_db_same in Hr.
Qed.

Lemma bind_runs {T V} (m : AM T) (f : T → AM V) a t a1 : runs m a t a1 → cm_bind m f a = f t a1.
Proof. unfold runs, cm_bind. by intros ->. Qed.

(** ** Beside the waves *)

Definition beside {T} (m : AM T) : Prop := ∀ a, aside a (m a).2.

Lemma aside_refl a : aside a a.
Proof. done. Qed.

Lemma aside_trans a1 a2 a3 : aside a1 a2 → aside a2 a3 → aside a1 a3.
Proof.
  intros (C1 & E1 & E2 & E3 & E4 & E5 & E6 & E7 & S1) (C2 & F1 & F2 & F3 & F4 & F5 & F6 & F7 & S2).
  split; [unfold same_core in *; intuition congruence|]. split_and!; congruence.
Qed.

Lemma beside_ret {T} (t : T) : beside (cm_ret t).
Proof. intros a. apply aside_refl. Qed.

Lemma beside_bind {T V} (m : AM T) (f : T → AM V) : beside m → (∀ t, beside (f t)) → beside (cm_bind m f).
Proof.
  intros Hm Hf a. unfold cm_bind. specialize (Hm a). destruct (m a) as [[t|e] a1]; [|done]. simpl in Hm.
  by eapply aside_trans; [exact Hm|apply Hf].
Qed.

Lemma beside_now : beside now_.
Proof. done. Qed.
Lemma beside_uuid : beside uuid_.
Proof. done. Qed.
Lemma beside_instant : beside instant_.
Proof. done. Qed.
Lemma beside_token : beside token_.
Proof. done. Qed.
Lemma beside_work {T} (work : nat → T) : beside (password_work work).
Proof. done. Qed.

Lemma beside_attempt {T} (f : Db → DbResult (T * Db)) :
  (∀ db t db', f db = Ok (t, db') → same_core db db') → beside (attempt f).
Proof.
  intros H a. unfold attempt, cm_bind, try_db. cbn [st_tick st_db app_stored]. destruct (disk_fails _); [done|].
  destruct (f (app_db a)) as [[t db]|e] eqn:E; [|done]. split; [by eapply H|done].
Qed.

Lemma beside_read {T} (f : Db → T) : beside (attempt (reading f)).
Proof. apply beside_attempt. by intros db t db' [= _ <-]. Qed.

(** Telling connections to close queues nothing. *)
Lemma killed_sent p a out conns c :
  ch_sent <$> out_channels (foldl (kill_where p a) out conns) !! c = ch_sent <$> out_channels out !! c.
Proof.
  revert out. induction conns as [|conn conns IH]; intros out; [done|]. simpl. rewrite IH. unfold kill_where.
  destruct (app_conns a !! conn) as [h|]; [|done]. destruct (p _); [|done]. unfold notify_one. simpl.
  destruct (decide (conn = c)) as [->|Hne]; [rewrite lookup_alter_eq; by destruct (out_channels out !! c)|by rewrite lookup_alter_ne].
Qed.

Lemma beside_disconnect p user : beside (modify (disconnect_where p user)).
Proof.
  intros a. unfold modify, disconnect_where. simpl. destruct (app_user_conns a !! user); [|done].
  split; [done|]. split_and!; try done. intros c. apply killed_sent.
Qed.

(** ** What a new session opens *)

Lemma head_only {A} (x : A) l : (∀ y, y ∈ l → y = x) → x ∈ l → head l = Some x.
Proof. destruct l as [|y l]; intros H Hx; [by apply elem_of_nil in Hx|]. simpl. f_equal. apply H. by left. Qed.

Lemma create_session_ok db ts uid h db' :
  create_session db ts uid h = Ok db' →
  user_exists db uid = true ∧ exists_row (λ s, str_eqb (se_token_hash s) h) (db_sessions db) = false ∧
  db' = on_sessions (λ _, delete_where (λ s, (se_expires_at s <? ts)%Z) (db_sessions db ++ [mkSession h uid ts (ts + SESSION_TTL_MS)])) db.
Proof.
  unfold create_session, insert_into, insert_row. destruct (negb _ && _) eqn:E; [|done].
  apply andb_true_iff in E as [E1%negb_true_iff E2]. intros [= <-]. by split_and!.
Qed.

Lemma create_session_users db ts uid h db' : create_session db ts uid h = Ok db' → db_users db' = db_users db.
Proof. by intros (_ & _ & ->)%create_session_ok. Qed.

Lemma elem_user_for_session db ts h u :
  u ∈ (u ← db_users db;
       const u <$> select_where (λ s, str_eqb (se_user_id s) (user_id u) && str_eqb (se_token_hash s) h
                                       && (ts <? se_expires_at s)%Z) (db_sessions db)) ↔
  u ∈ db_users db ∧ ∃ s, s ∈ db_sessions db ∧ se_user_id s = user_id u ∧ se_token_hash s = h ∧ (ts < se_expires_at s)%Z.
Proof.
  rewrite list_elem_of_bind. split.
  - intros (u' & (s & -> & Hs)%list_elem_of_fmap & Hu). apply elem_of_select in Hs as [Hs H].
    rewrite !andb_true_iff, !str_eqb_spec, Z.ltb_lt in H. split; [done|]. exists s. tauto.
  - intros (Hu & s & Hs & H1 & H2 & H3). exists u. split; [|done]. apply list_elem_of_fmap. exists s. split; [done|].
    apply elem_of_select. rewrite !andb_true_iff, !str_eqb_spec, Z.ltb_lt. tauto.
Qed.

Lemma user_for_session_some db ts h u :
  user_for_session db ts h = Some u →
  u ∈ db_users db ∧ ∃ s, s ∈ db_sessions db ∧ se_user_id s = user_id u ∧ se_token_hash s = h ∧ (ts < se_expires_at s)%Z.
Proof. intros H%head_Some_elem_of. by apply elem_user_for_session. Qed.

(** Until it runs out, the token of a new session is its user's. *)
Lemma session_opens db ts uid h db' u t :
  NoDup (user_id <$> db_users db) → u ∈ db_users db → user_id u = uid → create_session db ts uid h = Ok db' →
  (t < ts + SESSION_TTL_MS)%Z → user_for_session db' t h = Some u.
Proof.
  intros Hk Hu <- (_ & Hfresh & ->)%create_session_ok Ht. unfold user_for_session. apply head_only.
  - intros v (Hv & s & [Hs _]%elem_of_delete & H1 & H2 & _)%elem_user_for_session. cbn [db_users on_sessions] in Hv.
    apply (keyed_eq _ _ _ _ Hk); [done..|]. rewrite <- H1. apply elem_of_app in Hs as [Hs|Hs%list_elem_of_singleton].
    + rewrite exists_row_false in Hfresh. apply Hfresh in Hs. rewrite H2 in Hs. unfold str_eqb in Hs.
      by rewrite bool_decide_eq_true_2 in Hs.
    + by subst s.
  - apply elem_user_for_session. split; [done|]. exists (mkSession h (user_id u) ts (ts + SESSION_TTL_MS)).
    split_and!; [|done|done|done]. apply elem_of_delete. split; [apply elem_of_app; right; by left|]. simpl.
    apply Z.ltb_ge. unfold SESSION_TTL_MS. lia.
Qed.

(** ** Closing connections *)

Definition told_to_close (ch : Channel) : Channel := mkChannel (ch_room ch) (ch_sent ch) true.

Definition picked (p : str → bool) a (c : ConnId) : bool :=
  match app_conns a !! c with Some h => p (conn_token_hash h) | None => false end.

Lemma kill_where_channels p a out conn c :
  out_channels (kill_where p a out conn) !! c =
  (if bool_decide (c = conn) && picked p a c then told_to_close <$> out_channels out !! c else out_channels out !! c).
Proof.
  unfold kill_where, picked. destruct (decide (c = conn)) as [->|Hne].
  - rewrite bool_decide_eq_true_2 by done. destruct (app_conns a !! conn) as [h|]; [|done]. simpl.
    destruct (p _); [|done]. unfold notify_one. simpl. apply lookup_alter_eq.
  - rewrite bool_decide_eq_false_2 by done. simpl. destruct (app_conns a !! conn) as [h|]; [|done].
    destruct (p _); [|done]. unfold notify_one. simpl. by apply lookup_alter_ne.
Qed.

Lemma kill_all_channels p a conns out c :
  out_channels (foldl (kill_where p a) out conns) !! c =
  (if bool_decide (c ∈ conns) && picked p a c then told_to_close <$> out_channels out !! c else out_channels out !! c).
Proof.
  revert out. induction conns as [|conn conns IH]; intros out; simpl.
  - done.
  - rewrite IH, kill_where_channels. destruct (picked p a c); [|by rewrite !andb_false_r]. rewrite !andb_true_r.
    destruct (decide (c ∈ conns)) as [Hin|Hn], (decide (c = conn)) as [->|Hne]; repeat case_bool_decide; set_unfold; try tauto; try done.
    by destruct (out_channels out !! conn).
Qed.

(** The user's connections whose session passes the test are closed, nobody else's. *)
Lemma disconnect_channels p user a c :
  conns_ok a →
  out_channels (app_out (disconnect_where p user a)) !! c =
  match app_conns a !! c with
  | Some h => if str_eqb (conn_user h) user && p (conn_token_hash h) then told_to_close <$> out_channels (app_out a) !! c
              else out_channels (app_out a) !! c
  | None => out_channels (app_out a) !! c
  end.
Proof.
  intros Hc. unfold disconnect_where. destruct (app_user_conns a !! user) as [cs|] eqn:Ecs.
  - cbn [app_out put_out]. rewrite kill_all_channels. unfold picked. destruct (app_conns a !! c) as [h|] eqn:Eh; [|by rewrite andb_false_r].
    assert (bool_decide (c ∈ elements cs) = str_eqb (conn_user h) user) as ->; [|done].
    unfold str_eqb. apply bool_decide_ext. rewrite elem_of_elements. split.
    + intros Hin. destruct (co_owned _ Hc _ _ _ Ecs Hin) as (h' & Eh' & E). congruence.
    + intros <-. destruct (co_listed _ Hc _ _ Eh) as (cs' & E & Hin). congruence.
  - destruct (app_conns a !! c) as [h|] eqn:Eh; [|done]. destruct (str_eqb (conn_user h) user) eqn:E; [|done].
    apply str_eqb_spec in E. destruct (co_listed _ Hc _ _ Eh) as (cs' & E' & _). congruence.
Qed.

(** ** The shape of a run *)

Definition is_session (r : AccountResponse) : bool := match r with HSession _ _ => true | _ => false end.

Lemma runs_issue cfg user a r a' :
  runs (issue_session cfg user) a r a' →
  (r = HServerError ∧ app_db a' = app_db a) ∨
  ∃ n m, r = HSession (set_cookie (session_cookie (generate_token n) (secure_cookies cfg) (SESSION_TTL_MS / 1000))) (public user) ∧
    create_session (app_db a) (clock m) (user_id user) (hash_token (generate_token n)) = Ok (app_db a').
Proof.
  intros (token & a1 & [-> ->]%runs_token & H)%runs_bind. apply runs_bind in H as (ts & a2 & [-> ->]%runs_now & H).
  apply runs_bind in H as (stored & a3 & H & [-> ->]%runs_ret).
  apply runs_attempt in H as [[-> ->]|([] & db & -> & H & -> & _)]; [by left|right].
  exists (app_tick a), (app_tick (app_step a)). split; [done|]. cbn [app_db app_step put_db] in *.
  by destruct (create_session _ _ _ _) as [db'|]; [injection H as ->|].
Qed.

Lemma runs_limited cfg caller ls k a r a' :
  runs (auth_limited cfg caller ls k) a r a' → r.1 = too_many_attempts ∧ a' = app_step a ∨ ∃ ls1, runs (k ls1) (app_step a) r a'.
Proof.
  intros (t & a1 & [-> ->]%runs_instant & H)%runs_bind.
  destruct (check_auth_rate _ _ _ _ _) as [[] ls1]; [right; by exists ls1|left]. by apply runs_ret in H as [-> ->].
Qed.

Lemma runs_answering ls m a r a' : runs (answering ls m) a r a' → runs m a r.1 a'.
Proof. by intros (r1 & a1 & H & [-> ->]%runs_ret)%runs_bind. Qed.

(** Looking at a password: a session for the right one, nothing stored for a wrong one. *)
Lemma runs_check_login cfg body stored ls a r a' :
  runs (check_login cfg body stored ls) a r a' →
  is_session r.1 = false ∧ app_db a' = app_db a ∨
  ∃ user a1, stored = Some user ∧ verify_password (lg_password body) (user_password_hash user) = true ∧
    app_db a1 = app_db a ∧ runs (issue_session cfg user) a1 r.1 a'.
Proof.
  intros (t & a1 & [-> ->]%runs_instant & H)%runs_bind. destruct (account_is_throttled _ _ _) as [throttled ls1].
  apply runs_bind in H as (checked & a2 & [-> [[-> _]|[-> _]]]%runs_work & H); [by apply runs_ret in H as [-> ->]; left|].
  destruct throttled; [by apply runs_ret in H as [-> ->]; left|].
  destruct (verify_password _ _) eqn:E, stored as [user|].
  - right. exists user, (app_step (app_step a)). apply runs_answering in H. done.
  - apply runs_bind in H as (t & a2 & [-> ->]%runs_instant & [-> ->]%runs_ret). by left.
  - apply runs_bind in H as (t & a2 & [-> ->]%runs_instant & [-> ->]%runs_ret). by left.
  - apply runs_bind in H as (t & a2 & [-> ->]%runs_instant & [-> ->]%runs_ret). by left.
Qed.

Lemma runs_login cfg caller body ls a r a' :
  runs (login cfg caller body ls) a r a' →
  is_session r.1 = false ∧ app_db a' = app_db a ∨
  ∃ user a1, user_by_name (app_db a) (trim (lg_name body)) = Some user ∧
    verify_password (lg_password body) (user_password_hash user) = true ∧
    app_db a1 = app_db a ∧ runs (issue_session cfg user) a1 r.1 a'.
Proof.
  unfold login. intros H. apply runs_limited in H as [[E ->]|[ls1 H]]; [left; by rewrite E|].
  apply runs_bind in H as (t & a1 & [-> ->]%runs_instant & H). destruct (account_is_throttled _ _ _) as [throttled ls2].
  destruct throttled; [by apply runs_ret in H as [-> ->]; left|].
  apply runs_bind in H as (stored & a1 & [-> [->| ->]]%runs_attempt_read & H); [by apply runs_ret in H as [-> ->]; left|].
  apply runs_check_login in H as [?|(user & a1 & H1 & H2 & H3 & H4)]; [by left|right]. by exists user, a1.
Qed.

End theory.

Create HintDb beside discriminated.
#[export] Hint Resolve beside_ret beside_bind beside_now beside_uuid beside_instant beside_token beside_work beside_read
  beside_disconnect : beside.

(** ** Guessing a password *)

#[local] Open Scope Q_scope.

Section limits.
Context `{J : Json} `{U : Unicode} `{W : World} `{Sec : Secrets}.
Implicit Types rl : RateLimiter.
Implicit Types ls : Limiters.
Implicit Types a : App.

(** ** One limiter, step by step *)

Lemma available_grows rl t now now' key :
  limiter_ok rl t → t <= now → now <= now' → available rl now key <= available rl now' key.
Proof.
  intros Hok Ht Hn. pose proof (lo_rate _ _ Hok). unfold available.
  destruct (rl_entries rl !! key) as [b|] eqn:E; [|lra].
  destruct (refilled_range _ now _ _ _ Hok E Ht) as (_ & _ & ->).
  destruct (refilled_range _ now' _ _ _ Hok E) as (_ & _ & ->); [lra|].
  assert ((now - bk_last b) * rl_refill_per_sec rl <= (now' - bk_last b) * rl_refill_per_sec rl) by (apply Qmult_le_compat_r; lra).
  apply Q.min_le_compat_r. lra.
Qed.

Lemma limiter_ok_later rl t t' : limiter_ok rl t → t <= t' → limiter_ok rl t'.
Proof.
  intros [H1 H2 H3 H4] Ht. constructor; try done. intros k b Hb. destruct (H4 k b Hb) as (? & ? & ?). repeat split; try done. lra.
Qed.

(** Time passes and calls are made; nobody gains more than the refill. *)
Definition spends rl (t : Q) rl' (t' : Q) : Prop :=
  t <= t' ∧ limiter_ok rl' t' ∧ rl_refill_per_sec rl' = rl_refill_per_sec rl ∧
  ∀ k, available rl' t' k <= available rl t k + (t' - t) * rl_refill_per_sec rl.

Lemma spends_wait rl t t' : limiter_ok rl t → t <= t' → spends rl t rl t'.
Proof.
  intros Hok Ht. split_and!; [done|by eapply limiter_ok_later|done|]. intros k. apply (available_later rl t); [done|lra|done].
Qed.

Lemma spends_trans rl1 t1 rl2 t2 rl3 t3 : spends rl1 t1 rl2 t2 → spends rl2 t2 rl3 t3 → spends rl1 t1 rl3 t3.
Proof.
  intros (H1 & _ & E1 & A1) (H2 & K2 & E2 & A2). split_and!; [lra|done|congruence|]. intros k.
  pose proof (A1 k). pose proof (A2 k) as A. rewrite E1 in A. lra.
Qed.

Lemma spends_take rl t now key cost consume :
  limiter_ok rl t → t <= now → 0 <= cost → spends rl t (take_tokens now key cost consume rl).2 now.
Proof.
  intros Hok Ht Hc. destruct (take_spec rl t now key cost consume Hok Ht Hc) as (H1 & _ & E & _ & Hav & Hother).
  split_and!; [done..|]. intros k. pose proof (available_later rl t t now k Hok (Qle_refl t) Ht) as Hl.
  destruct (decide (k = key)) as [->|Hne]; [|rewrite (Hother k Hne); exact Hl].
  rewrite Hav. destruct (_ && _); lra.
Qed.

(** ** The limiter of the accounts *)

Lemma throttled_account now name ls :
  account_limiter (account_is_throttled now name ls).2 = (take_tokens now (account_key name) 1 false (account_limiter ls)).2.
Proof. unfold account_is_throttled, would_allow. by destruct (take_tokens _ _ _ _ _). Qed.

Lemma throttled_open now name ls t :
  limiter_ok (account_limiter ls) t → t <= now →
  (account_is_throttled now name ls).1 = false → 1 <= available (account_limiter ls) now (account_key name) ∧
    available (account_limiter (account_is_throttled now name ls).2) now (account_key name) == available (account_limiter ls) now (account_key name).
Proof.
  intros Hok Ht H. destruct (take_spec (account_limiter ls) t now (account_key name) 1 false Hok Ht) as (_ & _ & _ & Hall & Hav & _); [lra|].
  rewrite throttled_account, Hav, andb_false_r. split; [|lra]. apply Hall. revert H. unfold account_is_throttled, would_allow.
  destruct (take_tokens _ _ _ _ _) as [[] ?]; [done|discriminate].
Qed.

Lemma throttled_spends now name ls t :
  limiter_ok (account_limiter ls) t → t <= now → spends (account_limiter ls) t (account_limiter (account_is_throttled now name ls).2) now.
Proof. intros Hok Ht. rewrite throttled_account. apply spends_take; [done..|lra]. Qed.

Lemma failed_spends now name ls t :
  limiter_ok (account_limiter ls) t → t <= now → spends (account_limiter ls) t (account_limiter (note_failed_signin now name ls)) now.
Proof. intros Hok Ht. apply (spends_take _ _ _ (account_key name) 1 true); [done..|lra]. Qed.

Lemma failed_charged now name ls t :
  limiter_ok (account_limiter ls) t → t <= now → 1 <= available (account_limiter ls) now (account_key name) →
  available (account_limiter (note_failed_signin now name ls)) now (account_key name) == available (account_limiter ls) now (account_key name) - 1.
Proof.
  intros Hok Ht H1. destruct (take_spec (account_limiter ls) t now (account_key name) 1 true Hok Ht) as (_ & _ & _ & Hall & Hav & _); [lra|].
  unfold note_failed_signin, check, check_cost. cbn [account_limiter]. rewrite Hav, (proj2 Hall H1). simpl. lra.
Qed.

Lemma auth_keeps_account now trust forwarded peer ls :
  account_limiter (check_auth_rate now trust forwarded peer ls).2 = account_limiter ls.
Proof. unfold check_auth_rate. by destruct (check _ _ _). Qed.

(** ** A sign-in and the limiter *)

Lemma runs_issue_tick cfg user a r a' : runs (issue_session cfg user) a r a' → app_tick a' = (3 + app_tick a)%nat.
Proof.
  intros (token & a1 & [_ ->]%runs_token & H)%runs_bind. apply runs_bind in H as (ts & a2 & [_ ->]%runs_now & H).
  apply runs_bind in H as (stored & a3 & H & [_ ->]%runs_ret). by apply runs_attempt in H as [[_ ->]|(t & db & _ & _ & -> & _)].
Qed.

(** The clock of the limiters does not go back. *)
Definition monotone : Prop := ∀ n m, (n ≤ m)%nat → instant n <= instant m.

Lemma ok_instant n m rl : monotone → limiter_ok rl (instant n) → (n ≤ m)%nat → limiter_ok rl (instant m).
Proof. intros Hm Hok Hn. eapply limiter_ok_later; [exact Hok|by apply Hm]. Qed.

Lemma spends_wait_to n m rl : monotone → limiter_ok rl (instant n) → (n ≤ m)%nat → spends rl (instant n) rl (instant m).
Proof. intros Hm Hok Hn. apply spends_wait; [done|by apply Hm]. Qed.

Lemma check_login_spends cfg body stored ls a r a' :
  monotone → limiter_ok (account_limiter ls) (instant (app_tick a)) → runs (check_login cfg body stored ls) a r a' →
  spends (account_limiter ls) (instant (app_tick a)) (account_limiter r.2) (instant (app_tick a')).
Proof.
  intros Hm Hok (t & a1 & [-> ->]%runs_instant & H)%runs_bind.
  pose proof (throttled_spends (instant (app_tick a)) (lg_name body) ls _ Hok (Qle_refl _)) as Hs.
  destruct (account_is_throttled _ _ _) as [throttled ls1]. cbn [snd] in Hs.
  assert (∀ m, (app_tick a ≤ m)%nat → spends (account_limiter ls) (instant (app_tick a)) (account_limiter ls1) (instant m)) as Hw.
  { intros m Hn. eapply spends_trans; [exact Hs|]. apply spends_wait_to; [done|apply Hs|done]. }
  apply runs_bind in H as (checked & a2 & [-> Hc]%runs_work & H).
  assert (∀ t' a3, runs (t <-! instant_; cm_ret (bad_login, note_failed_signin t (lg_name body) ls1)) (app_step (app_step a)) t' a3 →
    spends (account_limiter ls) (instant (app_tick a)) (account_limiter t'.2) (instant (app_tick a3))) as Hfail.
  { intros t' a3 (t & a4 & [-> ->]%runs_instant & [-> ->]%runs_ret)%runs_bind. cbn [snd app_step app_tick].
    eapply spends_trans; [apply Hw with (m := S (S (app_tick a))); lia|].
    assert (limiter_ok (account_limiter ls1) (instant (S (S (app_tick a))))) as Hok1 by (eapply ok_instant; [done|apply Hs|lia]).
    pose proof (failed_spends (instant (S (S (app_tick a)))) (lg_name body) ls1 _ Hok1 (Qle_refl _)) as Hf.
    eapply spends_trans; [exact Hf|]. apply spends_wait_to; [done|apply Hf|lia]. }
  destruct Hc as [[-> _]|[-> _]]; [apply runs_ret in H as [-> ->]; apply Hw; simpl; lia|].
  destruct throttled; [apply runs_ret in H as [-> ->]; apply Hw; simpl; lia|].
  destruct (verify_password _ _), stored as [user|]; try by apply Hfail.
  apply runs_bind in H as (r1 & a3 & H%runs_issue_tick & [-> ->]%runs_ret). apply Hw. rewrite H. simpl. lia.
Qed.

Lemma login_spends cfg caller body ls a r a' :
  monotone → limiter_ok (account_limiter ls) (instant (app_tick a)) → runs (login cfg caller body ls) a r a' →
  spends (account_limiter ls) (instant (app_tick a)) (account_limiter r.2) (instant (app_tick a')).
Proof.
  intros Hm Hok. unfold login, auth_limited. intros (t & a1 & [-> ->]%runs_instant & H)%runs_bind.
  pose proof (auth_keeps_account (instant (app_tick a)) (trust_forwarded_for cfg) (cl_forwarded caller) (cl_peer caller) ls) as E.
  destruct (check_auth_rate _ _ _ _ _) as [ok ls1]. cbn [snd] in E. rewrite <- E in *.
  assert (∀ m, (app_tick a ≤ m)%nat → spends (account_limiter ls1) (instant (app_tick a)) (account_limiter ls1) (instant m)) as Hw.
  { intros m Hn. by apply spends_wait_to. }
  destruct ok; [|apply runs_ret in H as [-> ->]; apply Hw; simpl; lia].
  apply runs_bind in H as (t & a1 & [-> ->]%runs_instant & H). cbn [app_step app_tick] in *.
  assert (limiter_ok (account_limiter ls1) (instant (S (app_tick a)))) as Hok1 by (eapply ok_instant; [done|exact Hok|lia]).
  pose proof (throttled_spends (instant (S (app_tick a))) (lg_name body) ls1 _ Hok1 (Qle_refl _)) as Hs.
  destruct (account_is_throttled _ _ _) as [throttled ls2]. cbn [snd] in Hs.
  assert (∀ m, (S (app_tick a) ≤ m)%nat → spends (account_limiter ls1) (instant (app_tick a)) (account_limiter ls2) (instant m)) as Hw2.
  { intros m Hn. eapply spends_trans; [apply Hw with (m := S (app_tick a)); lia|]. eapply spends_trans; [exact Hs|].
    apply spends_wait_to; [done|apply Hs|done]. }
  destruct throttled; [apply runs_ret in H as [-> ->]; apply Hw2; simpl; lia|].
  apply runs_bind in H as (stored & a1 & [-> [->| ->]]%runs_attempt_read & H); [apply runs_ret in H as [-> ->]; apply Hw2; simpl; lia|].
  eapply spends_trans; [apply Hw2 with (m := S (S (S (app_tick a)))); lia|].
  apply check_login_spends in H; [exact H|done|]. cbn [app_step app_tick]. eapply ok_instant; [done|apply Hs|lia].
Qed.

(** ** A guess that could have been right *)

Definition sign_in (cfg : Config) (caller : Caller) (name password : str) (ls : Limiters) : AM (AccountResponse * Limiters) :=
  login cfg caller (mkLogin name password) ls.

(** What a sign-in passes before the password is looked at. *)
Record passes (cfg : Config) (caller : Caller) (name : str) ls a (ls1 ls2 ls3 : Limiters) (user : User) : Prop := {
  ps_rate : check_auth_rate (instant (app_tick a)) (trust_forwarded_for cfg) (cl_forwarded caller) (cl_peer caller) ls = (true, ls1);
  ps_open : account_is_throttled (instant (1 + app_tick a)) name ls1 = (false, ls2);
  ps_disk : disk_fails (2 + app_tick a) = false;
  ps_user : user_by_name (app_db a) (trim name) = Some user;
  ps_still : account_is_throttled (instant (3 + app_tick a)) name ls2 = (false, ls3);
  ps_worker : worker_panics (4 + app_tick a) = false;
}.

(** Only then does the answer depend on the password. *)
Lemma passes_run cfg caller name ls a ls1 ls2 ls3 user p :
  passes cfg caller name ls a ls1 ls2 ls3 user →
  sign_in cfg caller name p ls a =
  (if verify_password p (user_password_hash user) then answering ls3 (issue_session cfg user)
   else t <-! instant_; cm_ret (bad_login, note_failed_signin t name ls3))
    (app_step (app_step (app_step (app_step (app_step a))))).
Proof.
  intros [H1 H2 H3 H4 H5 H6]. unfold sign_in, login, auth_limited.
  erewrite bind_runs by (by unfold runs, instant_). cbv beta. rewrite H1. cbv iota beta.
  erewrite bind_runs by (by unfold runs, instant_). cbv beta. cbn [lg_name app_tick app_step]. simpl in H2. rewrite H2. cbv iota beta.
  erewrite bind_runs by (by apply attempt_read_done). cbv beta iota. cbn [app_db app_step]. rewrite H4. unfold check_login.
  erewrite bind_runs by (by unfold runs, instant_). cbv beta. cbn [lg_name lg_password app_tick app_step]. simpl in H5. rewrite H5. cbv iota beta.
  erewrite bind_runs; [|unfold runs, password_work; cbn [app_tick app_step]; simpl in H6; by rewrite H6]. cbv beta iota.
  by destruct (verify_password _ _).
Qed.

Lemma session_passes cfg caller name p ls a r a' :
  runs (sign_in cfg caller name p ls) a r a' → is_session r.1 = true →
  ∃ ls1 ls2 ls3 user, passes cfg caller name ls a ls1 ls2 ls3 user.
Proof.
  unfold sign_in, login, auth_limited. intros (t & a1 & [-> ->]%runs_instant & H)%runs_bind Hr.
  destruct (check_auth_rate _ _ _ _ _) as [[] ls1] eqn:E1; [|by apply runs_ret in H as [-> ->]].
  apply runs_bind in H as (t & a1 & [-> ->]%runs_instant & H).
  destruct (account_is_throttled _ _ ls1) as [[] ls2] eqn:E2; [by apply runs_ret in H as [-> ->]|].
  apply runs_bind in H as (stored & a1 & H1 & H). cbn [lg_name lg_password] in *.
  apply runs_attempt in H1 as [[-> ->]|(u & db & -> & [= Eu <-] & -> & Hd)]; [by apply runs_ret in H as [-> ->]|].
  unfold check_login in H. apply runs_bind in H as (t & a1 & [-> ->]%runs_instant & H). cbn [lg_name] in H.
  destruct (account_is_throttled _ _ ls2) as [throttled ls3] eqn:E3.
  apply runs_bind in H as (checked & a1 & [-> [[-> _]|[-> Hw]]]%runs_work & H); [by apply runs_ret in H as [-> ->]|].
  destruct throttled; [by apply runs_ret in H as [-> ->]|].
  destruct (verify_password _ _), u as [user|].
  - exists ls1, ls2, ls3, user. by constructor.
  - apply runs_bind in H as (t & a1 & [-> ->]%runs_instant & [-> ->]%runs_ret). done.
  - apply runs_bind in H as (t & a1 & [-> ->]%runs_instant & [-> ->]%runs_ret). done.
  - apply runs_bind in H as (t & a1 & [-> ->]%runs_instant & [-> ->]%runs_ret). done.
Qed.

(** Refused, where another password would have been accepted. *)
Definition failed_guess (cfg : Config) (caller : Caller) (name password : str) ls a (r : AccountResponse) : Prop :=
  r = bad_login ∧ ∃ p r' a', runs (sign_in cfg caller name p ls) a r' a' ∧ is_session r'.1 = true.

Lemma failed_guess_charged cfg caller name password ls a r a' :
  monotone → limiter_ok (account_limiter ls) (instant (app_tick a)) →
  runs (sign_in cfg caller name password ls) a r a' → failed_guess cfg caller name password ls a r.1 →
  available (account_limiter r.2) (instant (app_tick a')) (account_key name) <=
    available (account_limiter ls) (instant (app_tick a)) (account_key name)
    + (instant (app_tick a') - instant (app_tick a)) * rl_refill_per_sec (account_limiter ls) - 1.
Proof.
  intros Hm Hok H [Hbad (p & r' & a'' & Hp & Hs)]. destruct (session_passes _ _ _ _ _ _ _ _ Hp Hs) as (ls1 & ls2 & ls3 & user & Hps).
  unfold runs in H. rewrite (passes_run _ _ _ _ _ _ _ _ _ _ Hps) in H. destruct (verify_password _ _).
  { exfalso. apply runs_answering in H as [[E _]|(n & m & E & _)]%runs_issue; rewrite E in Hbad; done. }
  apply runs_bind in H as (t & a3 & [-> ->]%runs_instant & [-> ->]%runs_ret). cbn [fst snd app_tick app_step] in *.
  destruct Hps as [H1 H2 _ _ H3 _]. simpl in H2, H3. set (n := app_tick a) in *.
  pose proof (auth_keeps_account (instant n) (trust_forwarded_for cfg) (cl_forwarded caller) (cl_peer caller) ls) as E1.
  rewrite H1 in E1. cbn [snd] in E1.
  assert (limiter_ok (account_limiter ls1) (instant (S n))) as Hok1 by (rewrite E1; eapply ok_instant; [done|exact Hok|lia]).
  pose proof (throttled_spends (instant (S n)) name ls1 _ Hok1 (Qle_refl _)) as S2. rewrite H2 in S2. cbn [snd] in S2.
  assert (limiter_ok (account_limiter ls2) (instant (S (S (S n))))) as Hok2 by (eapply ok_instant; [done|apply S2|lia]).
  pose proof (throttled_spends (instant (S (S (S n)))) name ls2 _ Hok2 (Qle_refl _)) as S3.
  destruct (throttled_open (instant (S (S (S n)))) name ls2 _ Hok2 (Qle_refl _)) as [Hone Heq]; [by rewrite H3|].
  rewrite H3 in S3, Heq. cbn [snd] in S3, Heq.
  assert (limiter_ok (account_limiter ls3) (instant (S (S (S (S (S n))))))) as Hok3 by (eapply ok_instant; [done|apply S3|lia]).
  assert (1 <= available (account_limiter ls3) (instant (S (S (S (S (S n)))))) (account_key name)) as Hleft.
  { eapply Qle_trans; [|apply (available_grows _ (instant (S (S (S n))))); [apply S3|apply Qle_refl|apply Hm; lia]]. lra. }
  pose proof (failed_charged _ name ls3 _ Hok3 (Qle_refl _) Hleft) as Hch.
  pose proof (failed_spends (instant (S (S (S (S (S n)))))) name ls3 _ Hok3 (Qle_refl _)) as S4.
  assert (spends (account_limiter ls) (instant n) (account_limiter ls3) (instant (S (S (S (S (S n))))))) as Sall.
  { rewrite <- E1 in *. eapply spends_trans; [apply (spends_wait_to n (S n)); [done|done|lia]|].
    eapply spends_trans; [exact S2|]. eapply spends_trans; [apply (spends_wait_to (S n) (S (S (S n)))); [done|apply S2|lia]|].
    eapply spends_trans; [exact S3|]. apply spends_wait_to; [done|apply S3|lia]. }
  destruct Sall as (_ & _ & Er & Hav). pose proof (Hav (account_key name)) as Hav'.
  destruct S4 as (_ & Hok4 & Er4 & _).
  pose proof (available_later _ _ _ (instant (S (S (S (S (S (S n))))))) (account_key name) Hok4 (Qle_refl _)) as Hl.
  rewrite Er4, Er in Hl. assert (instant (S (S (S (S (S n))))) <= instant (S (S (S (S (S (S n))))))) as Hmm by (apply Hm; lia).
  specialize (Hl Hmm). lra.
Qed.

End limits.
