(* ===== verification/AccountGuarantees.v ===== *)
(** * What the accounts promise

    A session is for whoever knows the password and lasts as long as it says; wrong guesses are bounded; changing
    the password ends every other way in. *)

From Stdlib Require Import QArith Lqa Qminmax.
From S2P Require Import Prelude Tables Strings Unicode Json Attributes Text Delta Model Protocol ServerDoc.
From S2P Require Import Content LiveWave Snippet Storage Queries Effects Critical Handlers Coherence App AppTheory Limit.
From S2P Require Import Dispatch Agent Server Scenario Auth Accounts AccountTheory.

Section guarantees.
Context `{J : Json} `{U : Unicode} `{W : World} `{Sec : Secrets}.
Implicit Types a : App.
Implicit Types ls : Limiters.

(** ** Signing in *)

(** Tokens are base64url without padding. *)
Definition tokens_plain : Prop := ∀ n, (59%N ∉ generate_token n) ∧ trim (generate_token n) = generate_token n.

(** A browser that was given a [Set-Cookie] value sends its first part back among its other cookies. *)
Definition browser_sends (set_cookie : str) (header : str) : Prop :=
  ∃ pair before after, head (split_on 59 set_cookie) = Some pair ∧ header = cookie_header (before ++ pair :: after) ∧
    Forall other_cookie before ∧ Forall (λ p, 59%N ∉ p) after.

(** The session of a cookie: requests carrying it are the user's until it runs out. *)
Definition session_of (db : Db) (cookie : str) (user : User) (expires : Timestamp) : Prop :=
  ∀ a header, app_db a = db → browser_sends cookie header → disk_fails (S (app_tick a)) = false →
    (clock (app_tick a) < expires)%Z → ∃ token_hash a', runs (identity (Some header)) a (Some (mkIdent user token_hash)) a'.

Lemma session_identified db ts n age secure user db' :
  tokens_plain → NoDup (user_id <$> db_users db) → user ∈ db_users db →
  create_session db ts (user_id user) (hash_token (generate_token n)) = Ok db' →
  session_of db' (session_cookie (generate_token n) secure age) user (ts + SESSION_TTL_MS)%Z.
Proof.
  intros Hplain Hk Hu Hc a header <- (pair & before & after & Hpair & -> & Hb & Ha) Hd Ht. destruct (Hplain n) as [Hn Htr].
  rewrite session_cookie_pair in Hpair by done. apply (inj Some) in Hpair as <-.
  pose proof (token_read_back before _ after Hb Ha Hn Htr) as E. revert E. generalize (cookie_header (before ++ (COOKIE_NAME ++ [61%N] ++ generate_token n) :: after)).
  intros header E. unfold identity. change (Some header ≫= token_from_cookies) with (token_from_cookies header). rewrite E.
  exists (hash_token (generate_token n)). eexists. unfold runs.
  erewrite bind_runs by (by unfold runs, now_). cbv beta zeta.
  erewrite bind_runs by (by apply attempt_read_done). cbv beta. cbn [app_db app_step app_tick st_step st_tick app_stored] in *.
  rewrite (session_opens _ _ _ _ _ _ _ Hk Hu eq_refl Hc) by done. reflexivity.
Qed.


(** ** Guessing *)

#[local] Open Scope Q_scope.

(** Sign-ins one after another from any addresses on any names, other use of the server in between; some of the
    failed guesses at the account [key] are counted. *)
Inductive signins (key : str) : Limiters → nat → nat → Limiters → nat → Prop :=
| si_done ls n : signins key ls n 0 ls n
| si_other ls ls1 n n1 count ls' n' :
    account_limiter ls1 = account_limiter ls → (n ≤ n1)%nat → signins key ls1 n1 count ls' n' → signins key ls n count ls' n'
| si_sign_in cfg caller name password ls a r a1 count ls' n' :
    runs (sign_in cfg caller name password ls) a r a1 →
    signins key r.2 (app_tick a1) count ls' n' → signins key ls (app_tick a) count ls' n'
| si_guess cfg caller name password ls a r a1 count ls' n' :
    account_key name = key → runs (sign_in cfg caller name password ls) a r a1 →
    failed_guess cfg caller name password ls a r.1 →
    signins key r.2 (app_tick a1) count ls' n' → signins key ls (app_tick a) (S count) ls' n'.

Lemma guesses_available key ls n count ls' n' :
  monotone → limiter_ok (account_limiter ls) (instant n) → signins key ls n count ls' n' →
  inject_Z (Z.of_nat count) <=
    available (account_limiter ls) (instant n) key + (instant n' - instant n) * rl_refill_per_sec (account_limiter ls).
Proof.
  intros Hm Hok H. revert Hok.
  induction H as [ls n|ls ls1 n n1 count ls' n' E Hn H IH|cfg caller name pw ls a r a1 count ls' n' Hr H IH
    |cfg caller name pw ls a r a1 count ls' n' Hkey Hr Hf H IH]; intros Hok.
  - assert (0 <= available (account_limiter ls) (instant n) key) as H0.
    { unfold available. destruct (rl_entries _ !! key) eqn:E; [|apply Hok]. eapply (refilled_range _ (instant n)); [done..|lra]. }
    assert ((instant n - instant n) * rl_refill_per_sec (account_limiter ls) == 0) as Hz by ring. rewrite Hz. change (inject_Z (Z.of_nat 0)) with 0. lra.
  - rewrite E in IH. pose proof (spends_wait_to n n1 _ Hm Hok Hn) as (_ & Hok1 & _ & Hav).
    pose proof (Hav key). pose proof (IH Hok1). lra.
  - destruct (login_spends _ _ _ _ _ _ _ Hm Hok Hr) as (_ & Hok1 & Er & Hav). pose proof (Hav key) as Hk.
    pose proof (IH Hok1) as Hi. rewrite Er in Hi. lra.
  - pose proof (failed_guess_charged _ _ _ _ _ _ _ _ Hm Hok Hr Hf) as Hk. rewrite Hkey in Hk.
    destruct (login_spends _ _ _ _ _ _ _ Hm Hok Hr) as (_ & Hok1 & Er & _).
    pose proof (IH Hok1) as Hi. rewrite Er in Hi. rewrite Nat2Z.inj_succ, <- Z.add_1_r, inject_Z_plus. change (inject_Z 1) with 1. lra.
Qed.


(** ** Ending every other way in *)

(** A connection of the user under another session than [keep]. *)
Definition elsewhere a (user : UserId) (keep : str) (c : ConnId) : bool :=
  match app_conns a !! c with
  | Some h => str_eqb (conn_user h) user && negb (str_eqb (conn_token_hash h) keep)
  | None => false
  end.

(** The user is signed out everywhere but under [keep]: no other cookie and no agent's credential is theirs any
    more, their other connections are told to close, and nobody else notices. *)
Record signed_out_elsewhere a a' (user : UserId) (keep : str) : Prop := {
  so_cookies t h u : user_for_session (app_db a') t h = Some u → user_id u = user → h = keep;
  so_agents t h tok : valid_agent_token (app_db a') t h = Some tok → tok_user_id tok ≠ user;
  so_sessions s : s ∈ db_sessions (app_db a') ↔ s ∈ db_sessions (app_db a) ∧ (se_user_id s = user → se_token_hash s = keep);
  so_conns c : out_channels (app_out a') !! c =
    if elsewhere a user keep c then told_to_close <$> out_channels (app_out a) !! c else out_channels (app_out a) !! c;
}.

(** Tables in which the sessions of a user but [keep], and the user's credentials, are gone. *)
Lemma gone_elsewhere db user keep f t h u :
  user_for_session (delete_agent_tokens (λ t, str_eqb (tr_user_id t) user)
    (on_sessions (delete_where (other_sessions user keep)) (on_users f db))) t h = Some u → user_id u = user → h = keep.
Proof.
  intros (_ & s & Hs & H1 & H2 & _)%user_for_session_some Hu. apply elem_of_delete in Hs as [_ Hs].
  unfold other_sessions in Hs. rewrite H1, H2, Hu in Hs. unfold str_eqb in Hs. rewrite bool_decide_eq_true_2 in Hs by done.
  simpl in Hs. apply negb_false_iff in Hs. by apply bool_decide_eq_true in Hs.
Qed.

Lemma no_agents db user t h tok :
  valid_agent_token (delete_agent_tokens (λ t, str_eqb (tr_user_id t) user) db) t h = Some tok → tok_user_id tok ≠ user.
Proof.
  intros (row & [Hr _]%find_row_some & H)%bind_Some. apply elem_of_delete in Hr as [_ Hr].
  apply fmap_Some in H as (s & _ & ->). simpl. intros E. by rewrite (proj2 (str_eqb_spec _ _) E) in Hr.
Qed.

Lemma sessions_left db user keep s :
  s ∈ delete_where (other_sessions user keep) (db_sessions db) ↔
  s ∈ db_sessions db ∧ (se_user_id s = user → se_token_hash s = keep).
Proof.
  rewrite elem_of_delete. unfold other_sessions. rewrite andb_false_iff, negb_false_iff, <- (not_true_iff_false (str_eqb _ _)), !str_eqb_spec.
  destruct (decide (se_user_id s = user)); tauto.
Qed.

Lemma disconnected_elsewhere a user keep c :
  conns_ok a → out_channels (app_out (disconnect_other_sessions user keep a)) !! c =
  if elsewhere a user keep c then told_to_close <$> out_channels (app_out a) !! c else out_channels (app_out a) !! c.
Proof. intros H. unfold disconnect_other_sessions, elsewhere. rewrite disconnect_channels by done. by destruct (app_conns a !! c). Qed.

(** The database a disconnection leaves is the one it found. *)
Lemma disconnect_db p user a : app_db (disconnect_where p user a) = app_db a.
Proof. unfold disconnect_where. by destruct (app_user_conns a !! user). Qed.

Lemma signed_out_after a a1 user keep f :
  conns_ok a1 → app_conns a1 = app_conns a → app_out a1 = app_out a →
  app_db a1 = delete_agent_tokens (λ t, str_eqb (tr_user_id t) user)
    (on_sessions (delete_where (other_sessions user keep)) (on_users f (app_db a))) →
  signed_out_elsewhere a (disconnect_other_sessions user keep a1) user keep.
Proof.
  intros Hc E1 E2 E3. constructor.
  - intros t h u. unfold disconnect_other_sessions. rewrite disconnect_db, E3. apply gone_elsewhere.
  - intros t h tok. unfold disconnect_other_sessions. rewrite disconnect_db, E3. apply no_agents.
  - intros s. unfold disconnect_other_sessions. rewrite disconnect_db, E3. apply (sessions_left (app_db a)).
  - intros c. rewrite disconnected_elsewhere by done. unfold elsewhere. by rewrite E1, E2.
Qed.

(** What a change of password did to the accounts. *)
Definition rehashed (user : UserId) (hash : str) (before after : list User) : Prop :=
  after = (λ u, if str_eqb (user_id u) user then with_password_hash hash u else u) <$> before.

(** C23: changing a password.  It takes the old one and an acceptable new one; the account then has the new one's
    hash, and whoever was signed in elsewhere, browser or agent, is not any more; a refusal changes nothing. *)
Theorem password_change_signs_out cfg caller who body ls a r ls' a' :
  conns_ok a → runs (change_own_password cfg caller who body ls) a (r, ls') a' →
  match r with
  | HDone _ =>
      validate_password (pc_new body) (Some (user_name (id_user who))) = Ok tt ∧
      verify_password (pc_current body) (user_password_hash (id_user who)) = true ∧
      (∃ salt hash, hash_password salt (pc_new body) = Some hash ∧
        rehashed (user_id (id_user who)) hash (db_users (app_db a)) (db_users (app_db a'))) ∧
      signed_out_elsewhere a a' (user_id (id_user who)) (id_token_hash who)
  | _ => app_db a' = app_db a ∧ app_out a' = app_out a
  end.
Proof.
  intros Hc H. unfold change_own_password in H. apply runs_limited in H as [[E ->]|[ls1 H]]; [simpl in E; by subst r|].
  apply runs_answering in H. cbn [fst] in H. destruct (validate_password _ _) as [[]|e] eqn:Ev; [|by apply runs_ret in H as [-> ->]].
  apply runs_bind in H as (ok & a1 & [-> [[-> _]|[-> _]]]%runs_work & H); [by apply runs_ret in H as [-> ->]|].
  destruct (verify_password _ _) eqn:Eok; [|by apply runs_ret in H as [-> ->]].
  apply runs_bind in H as (hash & a1 & [-> [[-> _]|[-> _]]]%runs_work & H); [by apply runs_ret in H as [-> ->]|].
  destruct (hash_password _ _) as [hash|] eqn:Eh; [|by apply runs_ret in H as [-> ->]].
  apply runs_bind in H as (changed & a1 & H1 & H). apply runs_attempt in H1 as [[-> ->]|([] & db & -> & [= <-] & -> & _)].
  { by apply runs_ret in H as [-> ->]. }
  apply runs_bind in H as ([] & a1 & ->%runs_modify & [-> ->]%runs_ret). split_and!; [done..| |].
  - eexists _, hash. split; [exact Eh|]. unfold rehashed, disconnect_other_sessions. by rewrite disconnect_db.
  - by apply (signed_out_after a _ _ _ (update_where (λ u, str_eqb (user_id u) (user_id (id_user who))) (with_password_hash hash)));
      [apply (conns_quiet a)|..].
Qed.

(** The same without a new password: the sessions end, the hash stays. *)
Lemma sign_out_everywhere_ends_others who a r a' :
  conns_ok a → runs (sign_out_everywhere who) a r a' →
  match r with
  | HRevoked n =>
      signed_out_elsewhere a a' (user_id (id_user who)) (id_token_hash who) ∧ db_users (app_db a') = db_users (app_db a)
  | _ => app_db a' = app_db a ∧ app_out a' = app_out a
  end.
Proof.
  intros Hc H. apply runs_bind in H as (revoked & a1 & H1 & H).
  apply runs_attempt in H1 as [[-> ->]|(n & db & -> & [= <- <-] & -> & _)]; [by apply runs_ret in H as [-> ->]|].
  apply runs_bind in H as ([] & a1 & ->%runs_modify & [-> ->]%runs_ret). split.
  - by apply (signed_out_after a _ _ _ id); [apply (conns_quiet a)|..].
  - unfold disconnect_other_sessions. by rewrite disconnect_db.
Qed.

End guarantees.

(** ** Ann signs in, and changes her password *)

#[export] Instance secrets_good : Secrets := {|
  hash_password _ p := Some (35%N :: p);
  verify_password p h := str_eqb h (35%N :: p);
  hash_token s := 35%N :: s;
  generate_token n := decimal (N.of_nat n);
  sha256 s := s;
  instant n := inject_Z (Z.of_nat n);
  worker_panics _ := false;
  header_value _ := true;
|}.

Definition ann_account : User := mkUser (lit "u-ann") (lit "ann") (lit "Ann") [] (lit "#old passphrase") 1 0.
Definition db_accounts : Db := mkDb [ann_account; bob] [] [] [] [] [] [] [] [] [] [] [] [] [] [] [].
Definition app_accounts : App := (register_conn (lit "u-ann") MAX_CONNECTIONS_PER_USER (lit "#other") (app_new db_accounts)).2.
Definition somebody : Caller := mkCaller None None.

(** The answer of a run that gives one. *)
Definition answer_of {T} (d : T) (x : result T ServerMessage * App) : T := match x.1 with Ok t => t | Err _ => d end.

Lemma runs_by {T} (m : AM T) a d : is_ok (m a).1 = true → runs m a (answer_of d (m a)) (m a).2.
Proof. unfold runs, answer_of. destruct (m a) as [[t|e] a']; [done|discriminate]. Qed.

Lemma runs_pair {T V} (m : AM (T * V)) a d : is_ok (m a).1 = true → runs m a ((answer_of d (m a)).1, (answer_of d (m a)).2) (m a).2.
Proof. intros H. pose proof (runs_by m a d H) as Hr. by destruct (answer_of d (m a)). Qed.

Lemma tokens_plain_good : tokens_plain.
Proof.
  intros n. cbn [generate_token secrets_good]. destruct (decimal_value (N.of_nat n)) as [H%digits_all _]. split.
  - intros Hin. rewrite list.Forall_forall in H. by apply H in Hin.
  - apply trim_none. eapply list.Forall_impl; [exact H|]. intros c Hc. unfold is_ascii_digit in Hc.
    rewrite andb_true_iff, !N.leb_le in Hc. apply name_char_cases. unfold name_char, is_ascii_alphanumeric, is_ascii_digit.
    rewrite !orb_true_iff, andb_true_iff, !N.leb_le. tauto.
Qed.

Lemma accounts_keyed : NoDup (user_id <$> db_users (app_db app_accounts)).
Proof. apply (bool_decide_eq_true (NoDup _)). vm_compute. reflexivity. Qed.

Definition ann_login : LoginRequest := mkLogin (lit " Ann") (lit "old passphrase").
Definition ann_signs_in : result (AccountResponse * Limiters) ServerMessage * App :=
  login config_default somebody ann_login limits0 app_accounts.
Definition no_answer : AccountResponse * Limiters := (HServerError, limits0).

Lemma ann_signs_in_runs :
  runs (login config_default somebody ann_login limits0) app_accounts
    ((answer_of no_answer ann_signs_in).1, (answer_of no_answer ann_signs_in).2) ann_signs_in.2.
Proof. unfold ann_signs_in. apply runs_pair. vm_compute. reflexivity. Qed.


#[local] Open Scope Q_scope.

Lemma monotone_good : monotone.
Proof. intros n m H. cbn [instant secrets_good]. rewrite <- Zle_Qle. lia. Qed.

Definition wrong_guess : result (AccountResponse * Limiters) ServerMessage * App :=
  sign_in config_default somebody (lit "ann") (lit "hunter2") limits0 app_accounts.

Lemma wrong_guess_failed :
  failed_guess config_default somebody (lit "ann") (lit "hunter2") limits0 app_accounts (answer_of no_answer wrong_guess).1.
Proof.
  split; [vm_compute; reflexivity|]. eexists (lit "old passphrase"), _, _. split.
  - apply (runs_by (sign_in config_default somebody (lit "ann") (lit "old passphrase") limits0) app_accounts no_answer).
    vm_compute; reflexivity.
  - vm_compute; reflexivity.
Qed.


Definition ann_identity : Identity := mkIdent ann_account (lit "#here").
Definition ann_change : PasswordChange := mkChange (lit "old passphrase") (lit "a new passphrase").
Definition ann_changes : result (AccountResponse * Limiters) ServerMessage * App :=
  change_own_password config_default somebody ann_identity ann_change limits0 app_accounts.

Lemma app_accounts_conns : conns_ok app_accounts.
Proof.
  assert (app_ok (app_new db_accounts)) as H.
  { by apply app_new_ok, (sound_core db_start), db_start_sound. }
  apply (ao_conns app_accounts), (register_conn_ok _ _ _ H). vm_compute. reflexivity.
Qed.

Lemma ann_changes_runs :
  runs (change_own_password config_default somebody ann_identity ann_change limits0) app_accounts
    ((answer_of no_answer ann_changes).1, (answer_of no_answer ann_changes).2) ann_changes.2.
Proof. unfold ann_changes. apply runs_pair. vm_compute. reflexivity. Qed.

Definition is_done (r : AccountResponse) : bool := match r with HDone _ => true | _ => false end.

(** Her other connection is told to close. *)
Lemma password_change_signs_out_witness :
  elsewhere app_accounts (lit "u-ann") (lit "#here") 1 = true ∧
  signed_out_elsewhere app_accounts ann_changes.2 (lit "u-ann") (lit "#here").
Proof.
  split; [vm_compute; reflexivity|].
  pose proof (password_change_signs_out config_default somebody ann_identity ann_change limits0 app_accounts
    (answer_of no_answer ann_changes).1 (answer_of no_answer ann_changes).2 ann_changes.2 app_accounts_conns ann_changes_runs) as H.
  assert (is_done (answer_of no_answer ann_changes).1 = true) as Hr by (vm_compute; reflexivity).
  revert H Hr. generalize (answer_of no_answer ann_changes).1. intros [] H Hr; try discriminate. apply H.
Defined.
