(* ===== verification/Uploads.v ===== *)
(** * Files over HTTP ([crates/gal-server/src/http.rs])

    Accepting an upload for a wavelet and serving it back: recognising images by their bytes, cleaning and
    encoding file names, and the response headers. *)

From Stdlib Require Import QArith.
From S2P Require Import Prelude Tables Strings Unicode Json Attributes Text Delta ServerDoc Model Protocol Content.
From S2P Require Import LiveWave Snippet Storage Queries Effects Critical Handlers Coherence App AppTheory.
From S2P Require Import Limit Dispatch Agent Server Scenario Auth Accounts AccountTheory AccountGuarantees.

Definition MAX_ATTACHMENT_BYTES : N := 10 * 1024 * 1024.
Definition UPLOAD_QUOTA_BYTES : N := 200 * 1024 * 1024.
Definition UPLOAD_QUOTA_WINDOW_MS : Z := 24 * 60 * 60 * 1000.

(** What the bytes say they are. *)
Definition sniff_image (bytes : list N) : option str :=
  if starts_with bytes [137; 80; 78; 71; 13; 10; 26; 10]%N then Some (lit "image/png")
  else if starts_with bytes [255; 216; 255]%N then Some (lit "image/jpeg")
  else if starts_with bytes (lit "GIF87a") || starts_with bytes (lit "GIF89a") then Some (lit "image/gif")
  else if (12 <? length bytes)%nat && starts_with bytes (lit "RIFF") && str_eqb (take 4 (drop 8 bytes)) (lit "WEBP")
  then Some (lit "image/webp")
  else None.

Definition octet_stream : str := lit "application/octet-stream".

Definition mime_of (bytes : list N) : str := default octet_stream (sniff_image bytes).

Definition is_slash (c : char) : bool := ((c =? 47) || (c =? 92))%N.
Definition is_dot (c : char) : bool := (c =? 46)%N.

(** [s.split(p).next()]. *)
Fixpoint before_first (p : char → bool) (s : str) : str :=
  match s with
  | [] => []
  | c :: s => if p c then [] else c :: before_first p s
  end.

(** [s.rsplit(p).next()]. *)
Definition after_last (p : char → bool) (s : str) : str := reverse (before_first p (reverse s)).

Definition name_keeps (c : char) : bool := negb (is_control c) && negb (c =? 34)%N && negb (c =? 92)%N.

Definition clean_filename (raw : str) : str :=
  let base := after_last is_slash raw in
  let cleaned := take 120 (filter (λ c, name_keeps c = true) base) in
  let trimmed := trim (trim_end_by is_dot (trim_start_by is_dot (trim cleaned))) in
  if bool_decide (trimmed = []) then lit "file" else trimmed.

(** [{byte:02X}]. *)
Definition hex_digit (n : N) : char := if (n <? 10)%N then (48 + n)%N else (55 + n)%N.

Definition encode_byte (b : N) : str :=
  if is_ascii_alphanumeric b || (b =? 45)%N || (b =? 46)%N || (b =? 95)%N || (b =? 126)%N then [b]
  else [37%N; hex_digit (b / 16); hex_digit (b mod 16)].

Definition encode_filename (name : str) : str := as_bytes name ≫= encode_byte.

Definition is_image (a : Attachment) : bool := starts_with (at_mime a) (lit "image/").

Inductive FileResponse :=
| FRefused (r : AccountResponse)
| FCreated (a : Attachment)
| FBytes (content_type content_disposition cache_control : option str) (bytes : list N).

Definition disposition (a : Attachment) : str :=
  (if is_image a then lit "inline" else lit "attachment") ++ lit "; filename=" ++ [34%N] ++ at_name a ++ [34%N]
    ++ lit "; filename*=UTF-8''" ++ encode_filename (at_name a).

Section uploads.
Context `{J : Json} `{U : Unicode} `{W : World} `{Sec : Secrets}.

Definition upload_attachment (who : Identity) (wavelet : WaveletId) (name : str) (body : list N) : AM FileResponse :=
  member <-! attempt (reading (λ db, is_wavelet_participant db (user_id (id_user who)) wavelet));
  match member with
  | None => cm_ret (FRefused HServerError)
  | Some false => cm_ret (FRefused (HNotFound (lit "No such conversation.")))
  | Some true =>
      if bool_decide (body = []) then cm_ret (FRefused (HBadRequest (lit "That file is empty.")))
      else if (MAX_ATTACHMENT_BYTES <? N.of_nat (length body))%N
      then cm_ret (FRefused (HTooLarge (lit "That file is too large. The limit is 10 MB.")))
      else
        now <-! now_;
        uuid <-! uuid_;
        ts <-! now_;
        stored <-! attempt (λ db, create_attachment db uuid ts wavelet (user_id (id_user who)) (clean_filename name) (mime_of body)
                                    body (mkQuota UPLOAD_QUOTA_BYTES (now - UPLOAD_QUOTA_WINDOW_MS)));
        cm_ret match stored with
               | None => FRefused HServerError
               | Some None => FRefused (HTooMany (lit "You have uploaded too much today. Try again tomorrow."))
               | Some (Some a) => FCreated a
               end
  end.

Definition get_attachment (who : Identity) (id : AttachmentId) : AM FileResponse :=
  found <-! attempt (reading (λ db, attachment_for db (user_id (id_user who)) id));
  cm_ret match found with
         | None => FRefused HServerError
         | Some None => FRefused (HNotFound (lit "No such attachment."))
         | Some (Some (a, bytes)) =>
             FBytes (set_cookie (at_mime a)) (set_cookie (disposition a))
               (set_cookie (lit "private, max-age=31536000, immutable")) bytes
         end.

End uploads.

(** ** File names *)

(** A name fit for a header and a save dialogue. *)
Definition harmless (name : str) : Prop :=
  name ≠ [] ∧ (length name ≤ 120)%nat ∧ Forall (λ c, name_keeps c = true ∧ is_slash c = false) name.

Lemma before_first_none p s : Forall (λ c, p c = false) (before_first p s).
Proof. induction s as [|c s IH]; simpl; [constructor|]. destruct (p c) eqn:E; by constructor. Qed.

Lemma after_last_none p s : Forall (λ c, p c = false) (after_last p s).
Proof. apply Forall_reverse, before_first_none. Qed.

Lemma trim_start_length p s : (length (trim_start_by p s) ≤ length s)%nat.
Proof. destruct (trim_start_by_suffix p s) as (pre & E & _). rewrite E at 2. rewrite length_app. lia. Qed.

Lemma trim_forall (P : char → Prop) s : Forall P s → Forall P (trim s).
Proof. intros H. by apply trim_end_forall, trim_start_forall. Qed.

Lemma trim_length s : (length (trim s) ≤ length s)%nat.
Proof. etrans; [apply trim_end_by_length|apply trim_start_length]. Qed.

Lemma clean_filename_harmless raw : harmless (clean_filename raw).
Proof.
  unfold clean_filename. set (base := after_last is_slash raw). set (cleaned := take 120 _). set (trimmed := trim _).
  assert (Forall (λ c, name_keeps c = true ∧ is_slash c = false) trimmed ∧ (length trimmed ≤ 120)%nat) as [H1 H2].
  { split.
    - apply trim_forall, trim_end_forall, trim_start_forall, trim_forall, Forall_take, list.Forall_forall. intros c [Hk Hc]%list_elem_of_filter.
      split; [done|]. pose proof (after_last_none is_slash raw) as H. rewrite list.Forall_forall in H. by apply H.
    - etrans; [apply trim_length|]. etrans; [apply trim_end_by_length|]. etrans; [apply trim_start_length|].
      etrans; [apply trim_length|]. unfold cleaned. rewrite length_take. lia. }
  case_bool_decide; [|by split_and!]. split_and!; [done|simpl; lia|]. by repeat constructor.
Qed.

(** The documented promise, no directory components, has one gap: dots between spaces. *)
Example clean_dots : clean_filename (lit ". .. .") = lit "..".
Proof. vm_compute. reflexivity. Qed.

(** *** A reader of percent-encoding *)

Definition hex_value (c : char) : option N :=
  if is_ascii_digit c then Some (c - 48)%N
  else if ((65 <=? c) && (c <=? 70))%N then Some (c - 55)%N
  else None.

Fixpoint percent_decode (s : str) : option (list N) :=
  match s with
  | [] => Some []
  | c :: rest =>
      if (c =? 37)%N then
        match rest with
        | h :: l :: rest => h ← hex_value h; l ← hex_value l; cons (h * 16 + l)%N <$> percent_decode rest
        | _ => None
        end
      else cons c <$> percent_decode rest
  end.

Lemma hex_round n : (n < 16)%N → hex_value (hex_digit n) = Some n.
Proof.
  intros H. assert (n ∈ N.of_nat <$> seq 0 16) as Hn.
  { apply list_elem_of_fmap. exists (N.to_nat n). split; [lia|]. apply elem_of_seq. lia. }
  clear H. revert n Hn. rewrite <- list.Forall_forall. vm_compute. by repeat constructor.
Qed.

Lemma decode_byte b s : (b < 256)%N → percent_decode (encode_byte b ++ s) = cons b <$> percent_decode s.
Proof.
  intros Hb. unfold encode_byte. destruct (_ || _) eqn:E.
  - assert (b ≠ 37%N) as Hne by (intros ->; discriminate E). simpl. by rewrite (proj2 (N.eqb_neq _ _) Hne).
  - simpl. rewrite !hex_round; [|apply N.Div0.div_lt_upper_bound; lia|apply N.mod_lt; lia]. simpl.
    by rewrite (N.mul_comm _ 16), <- N.div_mod'.
Qed.

(** Scalar values: what a [char] can be. *)
Lemma utf8_bytes_small c : (c < 1114112)%N → Forall (λ b, (b < 256)%N) (utf8_bytes c).
Proof.
  intros Hc. unfold utf8_bytes.
  assert (∀ n, 128 + n mod 64 < 256)%N as Hm by (intros n; pose proof (N.mod_lt n 64); lia).
  destruct (c <? 128)%N eqn:E1; [bool_to_prop; repeat constructor; lia|].
  destruct (c <? 2048)%N eqn:E2; [bool_to_prop; repeat constructor; [|apply Hm]|].
  { assert (c / 64 < 64)%N by (apply N.Div0.div_lt_upper_bound; lia). lia. }
  destruct (c <? 65536)%N eqn:E3; bool_to_prop; repeat constructor; try apply Hm.
  - assert (c / 4096 < 32)%N by (apply N.Div0.div_lt_upper_bound; lia). lia.
  - assert (c / 262144 < 16)%N by (apply N.Div0.div_lt_upper_bound; lia). lia.
Qed.

(** The encoded name reads back as the name's bytes. *)
Lemma encode_filename_decodes name :
  Forall (λ c, (c < 1114112)%N) name → percent_decode (encode_filename name) = Some (as_bytes name).
Proof.
  intros H. unfold encode_filename. assert (Forall (λ b, (b < 256)%N) (as_bytes name)) as Hb.
  { unfold as_bytes. induction H as [|c s Hc _ IH]; [constructor|]. apply list.Forall_app. split; [by apply utf8_bytes_small|exact IH]. }
  revert Hb. generalize (as_bytes name). induction 1 as [|b bs Hb _ IH]; [done|]. simpl. rewrite decode_byte by done. unfold mbind in IH. by rewrite IH.
Qed.

(** *** A reader of the header *)

(** The value of the [filename] parameter as a header parser finds it: up to the next quote. *)
Definition quoted_filename (header : str) : option str :=
  '(_, rest) ← split_once_str (lit "filename=" ++ [34%N]) header;
  fst <$> split_once 34 rest.

Lemma strip_prefix_app p s : strip_prefix (p ++ s) p = Some s.
Proof. by apply strip_prefix_spec. Qed.

Lemma disposition_filename a : harmless (at_name a) → quoted_filename (disposition a) = Some (at_name a).
Proof.
  intros (_ & _ & H). assert (34%N ∉ at_name a) as Hq.
  { intros Hin. rewrite list.Forall_forall in H. apply H in Hin as [Hin _]. discriminate Hin. }
  unfold quoted_filename. set (rest := lit "; filename*=UTF-8''" ++ encode_filename (at_name a)).
  assert (∃ pre, split_once_str (lit "filename=" ++ [34%N]) (disposition a) = Some (pre, at_name a ++ 34%N :: rest)) as [pre ->].
  { unfold disposition. fold rest. clear H Hq. clearbody rest. generalize (at_name a) as n. intros n.
    destruct (is_image a); eexists; vm_compute; reflexivity. }
  cbn [mbind option_bind]. rewrite (proj2 (split_once_spec 34 _ (at_name a) rest)); done.
Qed.

(** * What uploaded files may do

    A file belongs to a wavelet and is described by its bytes; who may read it, and in what form, follows. *)

Section served.
Context `{J : Json} `{U : Unicode} `{W : World} `{Sec : Secrets}.
Implicit Types a : App.
Implicit Types db : Db.

(** A stored file: described by its bytes, never by its uploader. *)
Record file_ok (r : AttachmentRow) : Prop := {
  fo_mime : at_mime (ar_attachment r) = mime_of (ar_bytes r);
  fo_size : at_size (ar_attachment r) = N.of_nat (length (ar_bytes r));
  fo_limit : (at_size (ar_attachment r) ≤ MAX_ATTACHMENT_BYTES)%N;
  fo_name : harmless (at_name (ar_attachment r));
}.

Definition files_ok db : Prop := Forall file_ok (db_attachments db).

Lemma sniffed_image bytes mime : sniff_image bytes = Some mime → starts_with mime (lit "image/") = true.
Proof.
  unfold sniff_image. destruct (starts_with _ _); [by intros [= <-]|]. destruct (starts_with _ _); [by intros [= <-]|].
  destruct (_ || _); [by intros [= <-]|]. destruct (_ && _); [by intros [= <-]|done].
Qed.

Lemma served_inline r : file_ok r → is_image (ar_attachment r) = true → sniff_image (ar_bytes r) = Some (at_mime (ar_attachment r)).
Proof.
  intros [Hm _ _ _]. unfold is_image. rewrite Hm. unfold mime_of. destruct (sniff_image _) as [m|] eqn:E; [done|]. discriminate.
Qed.

Lemma served_download r : file_ok r → is_image (ar_attachment r) = false → at_mime (ar_attachment r) = octet_stream.
Proof.
  intros [Hm _ _ _]. unfold is_image. rewrite Hm. unfold mime_of. destruct (sniff_image _) as [m|] eqn:E; [|done].
  simpl. by rewrite (sniffed_image _ _ E).
Qed.

Lemma create_attachment_ok db uuid ts wavelet uploader name mime bytes quota r db' :
  create_attachment db uuid ts wavelet uploader name mime bytes quota = Ok (r, db') →
  (r = None ∧ db' = db ∧ (quota_bytes quota < used_bytes db uploader (quota_since quota) + N.of_nat (length bytes))%N) ∨
  (∃ f, r = Some f ∧ f = mkAttachment (id_new (lit "a-") uuid) wavelet name mime (N.of_nat (length bytes)) uploader ts ∧
    db' = on_attachments (λ t, t ++ [mkAttachmentRow f bytes]) db ∧
    (used_bytes db uploader (quota_since quota) + N.of_nat (length bytes) ≤ quota_bytes quota)%N).
Proof.
  unfold create_attachment. cbv zeta. cbn [at_size at_id]. destruct (_ <? _)%N eqn:E; bool_to_prop; [intros [= <- <-]; by left|].
  unfold insert_into, insert_row. destruct (_ && _); [|done]. intros [= <- <-]. right. eexists. split_and!; [done..|lia].
Qed.

(** What an accepted upload is. *)
Definition uploaded a a' (user : UserId) (wavelet : WaveletId) (body : list N) (f : Attachment) : Prop :=
  is_wavelet_participant (app_db a) user wavelet = true ∧ at_wavelet_id f = wavelet ∧ at_uploader f = user ∧
  db_attachments (app_db a') = db_attachments (app_db a) ++ [mkAttachmentRow f body] ∧
  ∃ n, (app_tick a ≤ n < app_tick a')%nat ∧
    (used_bytes (app_db a) user (clock n - UPLOAD_QUOTA_WINDOW_MS) + N.of_nat (length body) ≤ UPLOAD_QUOTA_BYTES)%N.

(** What a served file is: one the reader may see, with the bytes stored for it; shown in place only when the bytes
    are those of the image it is declared to be, saved as an opaque file otherwise, under a name that is one. *)
Definition served db (user : UserId) (id : AttachmentId) (ct cd : option str) (bytes : list N) : Prop :=
  ∃ f, mkAttachmentRow f bytes ∈ db_attachments db ∧ at_id f = id ∧
    is_wavelet_participant db user (at_wavelet_id f) = true ∧
    ct = set_cookie (at_mime f) ∧ cd = set_cookie (disposition f) ∧
    quoted_filename (disposition f) = Some (at_name f) ∧ harmless (at_name f) ∧
    (if is_image f then sniff_image bytes = Some (at_mime f) else at_mime f = octet_stream).

(** C25: files.  A file is accepted from a member of its wavelet within the limits, and described by its bytes; it is
    served to members only, and never as anything a browser would run. *)
Theorem uploads_are_served_safely a who wavelet name body id r a' :
  files_ok (app_db a) →
  (runs (upload_attachment who wavelet name body) a r a' → files_ok (app_db a') ∧
    match r with
    | FCreated f => uploaded a a' (user_id (id_user who)) wavelet body f
    | FBytes _ _ _ _ => False
    | FRefused _ => app_db a' = app_db a
    end) ∧
  (runs (get_attachment who id) a r a' → app_db a' = app_db a ∧
    match r with
    | FBytes ct cd _ bytes => served (app_db a) (user_id (id_user who)) id ct cd bytes
    | FCreated _ => False
    | FRefused _ => True
    end).
Proof.
  intros Hok. split; intros H.
  - apply runs_bind in H as (member & a1 & [-> [->| ->]]%runs_attempt_read & H); [by apply runs_ret in H as [-> ->]|].
    destruct (is_wavelet_participant _ _ _) eqn:Em; [|by apply runs_ret in H as [-> ->]].
    destruct (bool_decide _); [by apply runs_ret in H as [-> ->]|].
    destruct (_ <? _)%N eqn:El; [by apply runs_ret in H as [-> ->]|]. bool_to_prop.
    apply runs_bind in H as (now & a1 & [-> ->]%runs_now & H). apply runs_bind in H as (uuid & a1 & [-> ->]%runs_uuid & H).
    apply runs_bind in H as (ts & a1 & [-> ->]%runs_now & H). apply runs_bind in H as (stored & a1 & H1 & [-> ->]%runs_ret).
    apply runs_attempt in H1 as [[-> ->]|(f & db & -> & [(-> & -> & _)|(f' & -> & -> & -> & Hq)]%create_attachment_ok & -> & _)];
      [done|done|]. split.
    + cbn [app_db app_step put_db on_attachments db_attachments]. apply list.Forall_app. split; [exact Hok|]. constructor; [|constructor].
      constructor; cbn; [done|done|lia|apply clean_filename_harmless].
    + split_and!; [exact Em|done|done|done|]. exists (S (app_tick a)). split; [simpl; lia|exact Hq].
  - apply runs_bind in H as (found & a1 & [-> [->| ->]]%runs_attempt_read & [-> ->]%runs_ret); [done|]. split; [done|].
    destruct (attachment_for _ _ _) as [[f bytes]|] eqn:E; [|done]. cbv iota beta.
    apply fmap_Some in E as (row & [Hrow H]%find_row_some & [= -> ->]). apply andb_true_iff in H as [Hid%str_eqb_spec Hm].
    assert (file_ok row) as Hf by (by apply (proj1 (list.Forall_forall _ _) Hok)).
    exists (ar_attachment row). split_and!; [by destruct row|done|exact Hm|done|done|by apply disposition_filename, Hf|by apply Hf|].
    destruct (is_image _) eqn:Ei; [by apply served_inline|by apply served_download].
Qed.

End served.

(** ** Bob uploads a picture and reads it back *)

Definition bob_identity : Identity := mkIdent bob (lit "#b").
Definition picture : list N := [137; 80; 78; 71; 13; 10; 26; 10; 1; 2; 3]%N.
Definition no_file : FileResponse := FRefused HServerError.

Definition bob_uploads : result FileResponse ServerMessage * App :=
  upload_attachment bob_identity the_wavelet (lit "../plan.png") picture edited_wave.

Definition uploaded_id : AttachmentId := match answer_of no_file bob_uploads with FCreated f => at_id f | _ => [] end.

Definition bob_reads : result FileResponse ServerMessage * App := get_attachment bob_identity uploaded_id bob_uploads.2.

Lemma bob_uploads_runs :
  runs (upload_attachment bob_identity the_wavelet (lit "../plan.png") picture) edited_wave (answer_of no_file bob_uploads) bob_uploads.2.
Proof. unfold bob_uploads. apply runs_by. vm_compute. reflexivity. Qed.

Lemma bob_reads_runs : runs (get_attachment bob_identity uploaded_id) bob_uploads.2 (answer_of no_file bob_reads) bob_reads.2.
Proof. unfold bob_reads. apply runs_by. vm_compute. reflexivity. Qed.

Lemma no_files_yet : files_ok (app_db edited_wave).
Proof.
  unfold files_ok. assert (length (db_attachments (app_db edited_wave)) = 0%nat) as H by (vm_compute; reflexivity).
  by destruct (db_attachments (app_db edited_wave)).
Qed.

Definition is_bytes (r : FileResponse) : bool := match r with FBytes _ _ _ _ => true | _ => false end.

Lemma uploads_are_served_safely_witness :
  files_ok (app_db bob_uploads.2) ∧
  match answer_of no_file bob_reads with
  | FBytes ct cd _ bytes => served (app_db bob_uploads.2) (lit "u-bob") uploaded_id ct cd bytes
  | _ => False
  end.
Proof.
  destruct (uploads_are_served_safely edited_wave bob_identity the_wavelet (lit "../plan.png") picture uploaded_id
    (answer_of no_file bob_uploads) bob_uploads.2 no_files_yet) as [Hup _]. destruct (Hup bob_uploads_runs) as [Hok _].
  split; [exact Hok|].
  destruct (uploads_are_served_safely bob_uploads.2 bob_identity the_wavelet [] [] uploaded_id
    (answer_of no_file bob_reads) bob_reads.2 Hok) as [_ Hget]. destruct (Hget bob_reads_runs) as [_ H].
  assert (is_bytes (answer_of no_file bob_reads) = true) as Hr by (vm_compute; reflexivity).
  revert H Hr. generalize (answer_of no_file bob_reads). intros [] H Hr; try discriminate. exact H.
Defined.
