(* ===== verification/Oidc.v ===== *)
(** * Signing in through a provider ([crates/gal-server/src/oidc.rs])

    The authorization code flow: flows in progress, the discovery document, the two endpoints.  What the provider
    answers over the network is a parameter, as are hashing, base64 and random tokens.  The elapsed times of one
    pass over the flows are taken at one moment. *)

From Stdlib Require Import QArith.
From S2P Require Import Prelude Tables Strings Unicode Json Attributes Text Delta ServerDoc Model Protocol Content.
From S2P Require Import LiveWave Snippet Storage OpLog Queries Effects Critical Handlers Coherence.
From S2P Require Import CoherenceLemmas App AppTheory Limit Dispatch Agent Server Scenario Auth Accounts.
From S2P Require Import AccountTheory AccountGuarantees Uploads.

Definition FLOW_COOKIE : str := lit "gal_oauth".
Definition FLOW_TTL : Q := 600.
Definition MAX_FLOWS : nat := 4096.
Definition DISCOVERY_TTL : Q := 3600.

Record OidcConfig := mkOidcConfig {
  oc_issuer : str;
  oc_client_id : str;
  oc_client_secret : str;
  oc_redirect_url : str;
  oc_scopes : str;
  oc_label : str;
}.

Record Pending := mkPending { pd_state : str; pd_verifier : str; pd_started : Q }.

Record Endpoints := mkEndpoints { ep_issuer : str; ep_authorization : str; ep_token : str; ep_userinfo : str }.

Record Oidc := mkOidc { od_discovery : option (Endpoints * Q); od_flows : gmap str Pending }.

Definition oidc_new : Oidc := mkOidc None ∅.

Record UserInfo := mkUserInfo { ui_sub : str; ui_preferred_username : option str; ui_name : option str }.

Record CallbackQuery := mkCallback { cq_code : option str; cq_state : option str; cq_error : option str }.

(** The provider and the encoders: what a request answers may differ each time it is made. *)
Class Provider := {
  fetch_discovery : nat → str → option Endpoints;
  post_token : nat → str → str → str → str → option str;
  get_userinfo : nat → str → str → option UserInfo;
  base64_url : list N → str;
}.

Inductive OidcResponse :=
| ORefused (r : AccountResponse)
| ORedirect (target : str) (cookies : list str).

(** ** Encodings and cookies *)

Definition urlencode (s : str) : str := as_bytes s ≫= encode_byte.

Definition form_urlencode (pairs : list (str * str)) : str :=
  join (lit "&") ((λ p, urlencode p.1 ++ lit "=" ++ urlencode p.2) <$> pairs).

Definition flow_cookie (secret : str) (secure : bool) : str :=
  FLOW_COOKIE ++ [61%N] ++ secret ++ lit "; Path=/api/oauth; HttpOnly; SameSite=Lax; Max-Age=600"
    ++ (if secure then lit "; Secure" else []).

Definition clear_flow_cookie (secure : bool) : str :=
  FLOW_COOKIE ++ lit "=; Path=/api/oauth; HttpOnly; SameSite=Lax; Max-Age=0" ++ (if secure then lit "; Secure" else []).

Definition cookie_value (header name : str) : option str := find_pair name (split_on 59 header).

(** ** Flows in progress *)

Definition fresh (now : Q) (f : Pending) : bool := negb (Qle_bool FLOW_TTL (duration_since now (pd_started f))).

(** [min_by_key(started)] over the map: the first of the earliest. *)
Fixpoint oldest_of (flows : list (str * Pending)) : option (str * Pending) :=
  match flows with
  | [] => None
  | f :: flows =>
      match oldest_of flows with
      | Some g => if Qle_bool (pd_started f.2) (pd_started g.2) then Some f else Some g
      | None => Some f
      end
  end.

Definition make_room (flows : gmap str Pending) : gmap str Pending :=
  if (MAX_FLOWS <=? size flows)%nat then
    match oldest_of (map_to_list flows) with Some (key, _) => delete key flows | None => flows end
  else flows.

Section oidc.
Context `{J : Json} `{U : Unicode} `{W : World} `{Sec : Secrets} `{P : Provider}.

Definition redirect_with_cookies (target : str) (cookies : list str) : OidcResponse :=
  ORedirect target (filter (λ c, header_value c = true) cookies).

Definition begin (now : Q) (secret state verifier : str) (o : Oidc) : Oidc :=
  let flows := filter (λ kv, fresh now kv.2 = true) (od_flows o) in
  mkOidc (od_discovery o) (<[hash_token secret := mkPending state verifier now]> (make_room flows)).

Definition take_flow (now : Q) (secret : str) (o : Oidc) : option Pending * Oidc :=
  match od_flows o !! hash_token secret with
  | None => (None, o)
  | Some flow => (if fresh now flow then Some flow else None, mkOidc (od_discovery o) (delete (hash_token secret) (od_flows o)))
  end.

(** A call over the network. *)
Definition network {T} (f : nat → T) : AM T := λ a, (Ok (f (app_tick a)), app_step a).

Definition endpoints (pc : OidcConfig) (o : Oidc) : AM (option Endpoints * Oidc) :=
  now <-! instant_;
  match match od_discovery o with
        | Some (cached, at_) => if Qle_bool DISCOVERY_TTL (duration_since now at_) then None else Some cached
        | None => None
        end with
  | Some cached => cm_ret (Some cached, o)
  | None =>
      found <-! network (λ n, fetch_discovery n (oc_issuer pc ++ lit "/.well-known/openid-configuration"));
      match found with
      | None => cm_ret (None, o)
      | Some found =>
          if str_eqb (trim_end_by (λ c, (c =? 47)%N) (ep_issuer found)) (oc_issuer pc) then
            now <-! instant_;
            cm_ret (Some found, mkOidc (Some (found, now)) (od_flows o))
          else cm_ret (None, o)
      end
  end.

Definition challenge_of (verifier : str) : str := base64_url (sha256 (as_bytes verifier)).

Definition authorization_url (pc : OidcConfig) (ep : Endpoints) (state verifier : str) : str :=
  ep_authorization ep ++ lit "?response_type=code&client_id=" ++ urlencode (oc_client_id pc)
    ++ lit "&redirect_uri=" ++ urlencode (oc_redirect_url pc) ++ lit "&scope=" ++ urlencode (oc_scopes pc)
    ++ lit "&state=" ++ urlencode state ++ lit "&code_challenge=" ++ urlencode (challenge_of verifier)
    ++ lit "&code_challenge_method=S256".

(** Both endpoints are limited under the forwarded address, or under no address at all. *)
Definition oidc_limited {T} (cfg : Config) (forwarded : option str) (refused : AccountResponse → Limiters → T) (ls : Limiters)
    (k : Limiters → AM T) : AM T :=
  t <-! instant_;
  let '(ok, ls) := check_auth_rate t (trust_forwarded_for cfg) forwarded None ls in
  if ok then k ls else cm_ret (refused too_many_attempts ls).

Definition start (cfg : Config) (pc : option OidcConfig) (forwarded : option str) (o : Oidc) (ls : Limiters)
    : AM (OidcResponse * (Oidc * Limiters)) :=
  match pc with
  | None => cm_ret (ORefused (HNotFound (lit "Single sign-on is not configured.")), (o, ls))
  | Some pc =>
      oidc_limited cfg forwarded (λ r ls, (ORefused r, (o, ls))) ls (λ ls,
        found <-! endpoints pc o;
        match found with
        | (None, o) => cm_ret (ORefused HServerError, (o, ls))
        | (Some ep, o) =>
            state <-! token_;
            verifier <-! token_;
            now <-! instant_;
            secret <-! token_;
            let o := begin now secret state verifier o in
            cm_ret (redirect_with_cookies (authorization_url pc ep state verifier) [flow_cookie secret (secure_cookies cfg)], (o, ls))
        end)
  end.

Definition exchange (pc : OidcConfig) (ep : Endpoints) (code verifier : str) : AM (option UserInfo) :=
  let body := form_urlencode
    [(lit "grant_type", lit "authorization_code"); (lit "code", code); (lit "redirect_uri", oc_redirect_url pc);
     (lit "client_id", oc_client_id pc); (lit "code_verifier", verifier)] in
  token <-! network (λ n, post_token n (ep_token ep) (oc_client_id pc) (oc_client_secret pc) body);
  match token with
  | None => cm_ret None
  | Some token => network (λ n, get_userinfo n (ep_userinfo ep) token)
  end.

(** Deriving a name does not panic; see [name_from_external_total]. *)
Definition external_name (raw : option str) : option str := raw ← raw; default None (name_from_external raw).

Definition name_hint (claims : UserInfo) : str :=
  match external_name (ui_preferred_username claims) with
  | Some name => name
  | None => match external_name (ui_name claims) with Some name => name | None => lit "user" end
  end.

Definition display_hint (claims : UserInfo) (hint : str) : str :=
  match ui_name claims with
  | Some n => if negb (bool_decide (trim n = [])) && (length n <=? 64)%nat then n else hint
  | None => hint
  end.

(** The account of an identity, and a session for it.  A panic of the database task is a failed call. *)
Definition finish (cfg : Config) (issuer : str) (claims : UserInfo) : AM OidcResponse :=
  let hint := name_hint claims in
  uuid <-! uuid_;
  ts <-! now_;
  outcome <-! attempt (λ db,
    match user_for_oauth_identity db uuid ts issuer (ui_sub claims) hint (display_hint claims hint) with
    | Some r => r
    | None => Err Unavailable
    end);
  match outcome with
  | None => cm_ret (ORefused HServerError)
  | Some outcome =>
      let user := match outcome with Existing u | Created u => u end in
      token <-! token_;
      ts <-! now_;
      stored <-! attempt (λ db, match create_session db ts (user_id user) (hash_token token) with
                               | Ok db => Ok (tt, db) | Err e => Err e end);
      cm_ret match stored with
             | None => ORefused HServerError
             | Some _ => redirect_with_cookies (lit "/")
                           [session_cookie token (secure_cookies cfg) (SESSION_TTL_MS / 1000); clear_flow_cookie (secure_cookies cfg)]
             end
  end.

Definition did_not_start : OidcResponse := ORefused (HBadRequest (lit "That sign-in did not start here.")).

(** The callback from the point it has its flow. *)
Definition complete (cfg : Config) (pc : OidcConfig) (query : CallbackQuery) (flow : Pending) (o : Oidc)
    : AM (OidcResponse * Oidc) :=
  let returned := default [] (cq_state query) in
  if negb (constant_time_eq sha256 (as_bytes returned) (as_bytes (pd_state flow))) then cm_ret (did_not_start, o)
  else
    match cq_code query with
    | None => cm_ret (ORefused (HBadRequest (lit "The identity provider returned no code.")), o)
    | Some code =>
        found <-! endpoints pc o;
        match found with
        | (None, o) => cm_ret (ORefused HServerError, o)
        | (Some ep, o) =>
            claims <-! exchange pc ep code (pd_verifier flow);
            match claims with
            | None => cm_ret (ORefused HServerError, o)
            | Some claims =>
                if bool_decide (trim (ui_sub claims) = []) then cm_ret (ORefused HServerError, o)
                else r <-! finish cfg (ep_issuer ep) claims; cm_ret (r, o)
            end
        end
    end.

Definition callback (cfg : Config) (pc : option OidcConfig) (forwarded cookies : option str) (query : CallbackQuery)
    (o : Oidc) (ls : Limiters) : AM (OidcResponse * (Oidc * Limiters)) :=
  match pc with
  | None => cm_ret (ORefused (HNotFound (lit "Single sign-on is not configured.")), (o, ls))
  | Some pc =>
      oidc_limited cfg forwarded (λ r ls, (ORefused r, (o, ls))) ls (λ ls,
        match cq_error query with
        | Some _ => cm_ret (redirect_with_cookies (lit "/") [clear_flow_cookie (secure_cookies cfg)], (o, ls))
        | None =>
            match header ← cookies; cookie_value header FLOW_COOKIE with
            | None => cm_ret (did_not_start, (o, ls))
            | Some cookie =>
                now <-! instant_;
                match take_flow now cookie o with
                | (None, o) => cm_ret (ORefused (HBadRequest (lit "That sign-in has expired. Please try again.")), (o, ls))
                | (Some flow, o) => r <-! complete cfg pc query flow o; cm_ret (r.1, (r.2, ls))
                end
            end
        end)
  end.

Definition provider_info (pc : option OidcConfig) : option (str * str) := (λ pc, (oc_label pc, lit "/api/oauth/start")) <$> pc.

End oidc.

(** * What signing in through a provider promises

    A session comes out of a callback only for a flow this browser started, once, and only for the account of the
    identity the provider vouches for. *)

Section guarantees.
Context `{J : Json} `{U : Unicode} `{W : World} `{Sec : Secrets} `{P : Provider}.
Implicit Types a : App.
Implicit Types db : Db.
Implicit Types ls : Limiters.
Implicit Types o : Oidc.

(** ** Identities *)

Lemma elem_user_of_identity db issuer subject u :
  u ∈ (i ← select_where (λ i, str_eqb (oi_issuer i) issuer && str_eqb (oi_subject i) subject) (db_oauth db);
       select_where (λ u, str_eqb (user_id u) (oi_user_id i)) (db_users db)) ↔
  u ∈ db_users db ∧ ∃ i, i ∈ db_oauth db ∧ oi_issuer i = issuer ∧ oi_subject i = subject ∧ user_id u = oi_user_id i.
Proof.
  rewrite list_elem_of_bind. setoid_rewrite elem_of_select. setoid_rewrite andb_true_iff. setoid_rewrite str_eqb_spec. naive_solver.
Qed.

(** An identity's account: the one it had, or a new one that nobody can sign in to with a password. *)
Definition account_of db db' (issuer subject : str) (user : User) : Prop :=
  user_of_identity db' issuer subject = Some user ∧
  (user_of_identity db issuer subject = Some user ∧ db_users db' = db_users db ∨
   user_of_identity db issuer subject = None ∧ name_taken db (user_name user) = false ∧
     user_password_hash user = lit "!" ∧ db_users db' = db_users db ++ [user]).

Lemma identity_account db uuid ts issuer subject hint display outcome db' :
  user_for_oauth_identity db uuid ts issuer subject hint display = Some (Ok (outcome, db')) →
  account_of db db' issuer subject (match outcome with Existing u | Created u => u end) ∧ db_sessions db' = db_sessions db ∧
  (match outcome with Existing u | Created u => u end) ∈ db_users db' ∧
  (NoDup (user_id <$> db_users db) → NoDup (user_id <$> db_users db')).
Proof.
  unfold user_for_oauth_identity. destruct (user_of_identity db issuer subject) as [user|] eqn:Eu.
  - intros [= <- <-]. split; [by split; [done|left]|]. split; [done|]. split; [|done].
    apply head_Some_elem_of, elem_user_of_identity in Eu. by destruct Eu.
  - intros (r & _ & [= H])%bind_Some. apply bind_ok in H as (name & _ & H). set (user := mkUser _ _ _ _ _ _ _) in H.
    apply bind_ok in H as (db1 & H1 & H). apply bind_ok in H as (db2 & H2 & [= <- <-]).
    unfold insert_user in H1. apply bind_ok in H1 as (t1 & H1 & [= <-]). unfold insert_into, insert_row in H1.
    destruct (negb _ && negb _) eqn:E1; [|done]. injection H1 as <-. apply andb_true_iff in E1 as [E1%negb_true_iff E2%negb_true_iff].
    unfold insert_identity in H2. apply bind_ok in H2 as (t2 & H2 & [= <-]). unfold insert_into, insert_row in H2.
    destruct (negb _ && _) eqn:E3; [|done]. injection H2 as <-. apply andb_true_iff in E3 as [E3%negb_true_iff _].
    split; [|split; [done|split; [apply elem_of_app; right; by left|]]].
    2:{ intros Hk. cbn [db_users on_users on_oauth]. rewrite fmap_app. apply list.NoDup_app. split; [done|]. split; [|apply NoDup_singleton].
      intros id (u & -> & Hu)%list_elem_of_fmap Hid%list_elem_of_singleton. unfold user_exists in E1. rewrite exists_row_false in E1.
      apply E1 in Hu. rewrite Hid in Hu. unfold str_eqb in Hu. by rewrite bool_decide_eq_true_2 in Hu. }
    split; [|right; by split_and!].
    unfold user_of_identity. apply head_only.
    + intros u [Hu (i & Hi & H1 & H2 & H3)]%elem_user_of_identity. cbn [db_users db_oauth on_users on_oauth] in *.
      apply elem_of_app in Hi as [Hi|Hi%list_elem_of_singleton].
      { exfalso. rewrite exists_row_false in E3. apply E3 in Hi. cbn [oi_issuer oi_subject] in Hi. rewrite H1, H2 in Hi.
        unfold str_eqb in Hi. by rewrite !bool_decide_eq_true_2 in Hi. }
      subst i. cbn [oi_user_id] in H3. apply elem_of_app in Hu as [Hu|Hu%list_elem_of_singleton]; [|done].
      exfalso. unfold user_exists in E1. rewrite exists_row_false in E1. apply E1 in Hu. rewrite H3 in Hu. unfold str_eqb in Hu.
      by rewrite bool_decide_eq_true_2 in Hu.
    + apply elem_user_of_identity. cbn [db_users db_oauth on_users on_oauth]. split; [apply elem_of_app; right; by left|].
      eexists. split; [apply elem_of_app; right; by left|done].
Qed.
(** ** The provider's word *)

(** The cached discovery document names the configured issuer. *)
Definition discovery_ok (pc : OidcConfig) o : Prop :=
  match od_discovery o with Some (ep, _) => trim_end_by (λ c, (c =? 47)%N) (ep_issuer ep) = oc_issuer pc | None => True end.

Lemma runs_network {T} (f : nat → T) a t a' : runs (network f) a t a' → t = f (app_tick a) ∧ a' = app_step a.
Proof. by intros [= <- <-]. Qed.

Lemma runs_endpoints pc o a r o' a' :
  discovery_ok pc o → runs (endpoints pc o) a (r, o') a' →
  app_db a' = app_db a ∧ discovery_ok pc o' ∧ od_flows o' = od_flows o ∧
  match r with Some ep => trim_end_by (λ c, (c =? 47)%N) (ep_issuer ep) = oc_issuer pc | None => True end.
Proof.
  unfold discovery_ok, endpoints. intros Hok (now & a1 & [-> ->]%runs_instant & H)%runs_bind.
  destruct (match od_discovery o with Some _ => _ | None => _ end) as [cached|] eqn:E.
  - apply runs_ret in H as [[= -> ->] ->]. split_and!; [done..|]. destruct (od_discovery o) as [[ep at_]|]; [|done].
    destruct (Qle_bool _ _); [done|]. by injection E as <-.
  - apply runs_bind in H as (found & a1 & [-> ->]%runs_network & H). destruct (fetch_discovery _ _) as [found|].
    2:{ by apply runs_ret in H as [[= -> ->] ->]. }
    destruct (str_eqb _ _) eqn:Ei; [|by apply runs_ret in H as [[= -> ->] ->]]. apply str_eqb_spec in Ei.
    apply runs_bind in H as (now & a1 & [-> ->]%runs_instant & H). by apply runs_ret in H as [[= -> ->] ->].
Qed.

(** The provider's answer to a code: the claims behind the token it gave for that code and its verifier. *)
Definition vouched (pc : OidcConfig) (ep : Endpoints) (code verifier : str) (claims : UserInfo) : Prop :=
  ∃ n m token, get_userinfo m (ep_userinfo ep) token = Some claims ∧
    post_token n (ep_token ep) (oc_client_id pc) (oc_client_secret pc) (form_urlencode
      [(lit "grant_type", lit "authorization_code"); (lit "code", code); (lit "redirect_uri", oc_redirect_url pc);
       (lit "client_id", oc_client_id pc); (lit "code_verifier", verifier)]) = Some token.

Lemma runs_exchange pc ep code verifier a r a' :
  runs (exchange pc ep code verifier) a r a' → app_db a' = app_db a ∧ match r with Some claims => vouched pc ep code verifier claims | None => True end.
Proof.
  unfold exchange. intros (token & a1 & [-> ->]%runs_network & H)%runs_bind. destruct (post_token _ _ _ _ _) as [token|] eqn:E.
  - apply runs_network in H as [-> ->]. split; [done|]. destruct (get_userinfo _ _ _) eqn:E2; [|done]. by eexists _, _, token.
  - by apply runs_ret in H as [-> ->].
Qed.

(** ** Finishing a sign-in *)

(** The response that carries the session of a user. *)
Definition session_response (cfg : Config) db (r : OidcResponse) (user : User) : Prop :=
  ∃ token issued, r = redirect_with_cookies (lit "/")
      [session_cookie token (secure_cookies cfg) (SESSION_TTL_MS / 1000); clear_flow_cookie (secure_cookies cfg)] ∧
    session_of db (session_cookie token (secure_cookies cfg) (SESSION_TTL_MS / 1000)) user (issued + SESSION_TTL_MS)%Z.

Lemma runs_finish cfg issuer claims a r a' :
  tokens_plain → NoDup (user_id <$> db_users (app_db a)) → runs (finish cfg issuer claims) a r a' →
  db_sessions (app_db a') = db_sessions (app_db a) ∨
  ∃ user, account_of (app_db a) (app_db a') issuer (ui_sub claims) user ∧ session_response cfg (app_db a') r user.
Proof.
  intros Hplain Hk. unfold finish. intros (uuid & a1 & [-> ->]%runs_uuid & H)%runs_bind.
  apply runs_bind in H as (ts & a1 & [-> ->]%runs_now & H). apply runs_bind in H as (outcome & a1 & H1 & H).
  apply runs_attempt in H1 as [[-> ->]|(outcome' & db & -> & H1 & -> & _)]; [by apply runs_ret in H as [-> ->]; left|].
  cbn [app_db app_step app_tick] in H1.
  destruct (user_for_oauth_identity _ _ _ _ _ _ _) as [u|] eqn:Eu; [|done]. subst u.
  destruct (identity_account _ _ _ _ _ _ _ _ _ Eu) as ([Hid Hacc] & Hsess & Hin & Hk').
  cbv zeta in H. revert Hid Hacc Hin H. generalize (match outcome' with Existing u | Created u => u end). intros user Hid Hacc Hin H.
  apply runs_bind in H as (token & a1 & [-> ->]%runs_token & H). apply runs_bind in H as (ts & a1 & [-> ->]%runs_now & H).
  apply runs_bind in H as (stored & a1 & H1 & [-> ->]%runs_ret).
  apply runs_attempt in H1 as [[-> ->]|([] & db2 & -> & H1 & -> & _)]; [left; exact Hsess|right].
  cbn [app_db app_step put_db app_tick] in *. destruct (create_session _ _ _ _) as [db3|] eqn:Ec; [|done]. injection H1 as ->.
  exists user. split.
  - pose proof (create_session_ok _ _ _ _ _ Ec) as (_ & _ & E). unfold account_of. by rewrite E.
  - eexists _, _. split; [reflexivity|]. eapply session_identified; [exact Hplain|by apply Hk'|exact Hin|exact Ec].
Qed.

(** A callback that a browser's own flow entitles to the account of what the provider vouched for. *)
Definition entitled (cfg : Config) (pc : OidcConfig) (cookies : option str) (query : CallbackQuery) o o' db db' (r : OidcResponse) : Prop :=
  ∃ (user : User) (secret code : str) (flow : Pending) (ep : Endpoints) (claims : UserInfo),
    (* the browser's own flow, still fresh, and spent *)
    (header ← cookies; cookie_value header FLOW_COOKIE) = Some secret ∧ od_flows o !! hash_token secret = Some flow ∧
    (∃ n, fresh (instant n) flow = true) ∧ od_flows o' !! hash_token secret = None ∧
    (* its state, and a code the provider answered for *)
    sha256 (as_bytes (default [] (cq_state query))) = sha256 (as_bytes (pd_state flow)) ∧
    cq_code query = Some code ∧ vouched pc ep code (pd_verifier flow) claims ∧
    trim_end_by (λ c, (c =? 47)%N) (ep_issuer ep) = oc_issuer pc ∧
    (* the account of that identity *)
    account_of db db' (ep_issuer ep) (ui_sub claims) user ∧ session_response cfg db' r user.

Lemma runs_complete cfg pc query flow o a r o' a' :
  tokens_plain → (∀ x, length (sha256 x) = 32%nat) → NoDup (user_id <$> db_users (app_db a)) → discovery_ok pc o →
  runs (complete cfg pc query flow o) a (r, o') a' →
  od_flows o' = od_flows o ∧ discovery_ok pc o' ∧
  (db_sessions (app_db a') = db_sessions (app_db a) ∨
   ∃ user code ep claims, sha256 (as_bytes (default [] (cq_state query))) = sha256 (as_bytes (pd_state flow)) ∧
     cq_code query = Some code ∧ vouched pc ep code (pd_verifier flow) claims ∧
     trim_end_by (λ c, (c =? 47)%N) (ep_issuer ep) = oc_issuer pc ∧
     account_of (app_db a) (app_db a') (ep_issuer ep) (ui_sub claims) user ∧ session_response cfg (app_db a') r user).
Proof.
  intros Hplain Hsha Hk Hd. unfold complete. intros H. destruct (constant_time_eq _ _ _) eqn:Est; [|apply runs_ret in H as [[= -> ->] ->]; by auto].
  apply constant_time_eq_spec in Est; [|by rewrite !Hsha]. cbn [negb] in H.
  destruct (cq_code query) as [code|]; [|apply runs_ret in H as [[= -> ->] ->]; by auto].
  apply runs_bind in H as ([[ep|] o1] & a1 & H1 & H); destruct (runs_endpoints _ _ _ _ _ _ Hd H1) as (E1 & Hd1 & Ef & Hi).
  2:{ apply runs_ret in H as [[= -> ->] ->]. split_and!; [done..|by left; rewrite E1]. }
  apply runs_bind in H as (claims & a2 & H2 & H). apply runs_exchange in H2 as [E2 Hv].
  destruct claims as [claims|]; [|apply runs_ret in H as [[= -> ->] ->]; split_and!; [done..|by left; rewrite E2, E1]].
  destruct (bool_decide _); [apply runs_ret in H as [[= -> ->] ->]; split_and!; [done..|by left; rewrite E2, E1]|].
  apply runs_bind in H as (r1 & a3 & H3 & H). apply runs_ret in H as [[= -> ->] ->]. split_and!; [done..|].
  apply runs_finish in H3; [|done|by rewrite E2, E1]. rewrite E2, E1 in H3. destruct H3 as [?|(user & Hacc & Hs)]; [by left|right].
  by exists user, code, ep, claims.
Qed.

Lemma take_flow_spec now secret o r o' :
  take_flow now secret o = (r, o') →
  od_discovery o' = od_discovery o ∧
  match r with
  | Some flow => od_flows o !! hash_token secret = Some flow ∧ fresh now flow = true ∧ od_flows o' = delete (hash_token secret) (od_flows o)
  | None => True
  end.
Proof.
  unfold take_flow. destruct (od_flows o !! hash_token secret) as [flow|] eqn:E; [|by intros [= <- <-]].
  destruct (fresh now flow) eqn:Ef; by intros [= <- <-].
Qed.


End guarantees.

(** ** Carol comes from a provider *)

Definition secrets_32 : Secrets := {|
  hash_password _ p := Some (35%N :: p);
  verify_password p h := str_eqb h (35%N :: p);
  hash_token s := 35%N :: s;
  generate_token n := decimal (N.of_nat n);
  sha256 s := take 32 (s ++ replicate 32 0%N);
  instant n := inject_Z (Z.of_nat n);
  worker_panics _ := false;
  header_value _ := true;
|}.

Definition provider_carol : Provider := {|
  fetch_discovery _ _ := Some (mkEndpoints (lit "https://id.example/") (lit "https://id.example/auth") (lit "t") (lit "u"));
  post_token _ _ _ _ _ := Some (lit "access");
  get_userinfo _ _ _ := Some (mkUserInfo (lit "7") (Some (lit "ann@example.com")) (Some (lit "Carol")));
  base64_url bytes := bytes;
|}.

Definition carol_config : OidcConfig :=
  mkOidcConfig (lit "https://id.example") (lit "gal") (lit "secret") (lit "https://gal.example/cb") (lit "openid") (lit "ID").

Definition carol_starts : result (OidcResponse * (Oidc * Limiters)) ServerMessage * App :=
  start (Sec := secrets_32) (P := provider_carol) config_default (Some carol_config) None oidc_new limits0 app_accounts.

Definition nothing_yet : OidcResponse * (Oidc * Limiters) := (did_not_start, (oidc_new, limits0)).
Definition carol_flows : Oidc := (answer_of nothing_yet carol_starts).2.1.
Definition carol_query : CallbackQuery := mkCallback (Some (lit "code")) (Some (lit "4")) None.
Definition carol_cookies : option str := Some (lit "a=b; gal_oauth=7").

Definition carol_returns : result (OidcResponse * (Oidc * Limiters)) ServerMessage * App :=
  callback (Sec := secrets_32) (P := provider_carol) config_default (Some carol_config) None carol_cookies carol_query carol_flows limits0
    carol_starts.2.

Lemma runs_triple {T V X} (m : AM (T * (V * X))) a d :
  is_ok (m a).1 = true → runs m a ((answer_of d (m a)).1, ((answer_of d (m a)).2.1, (answer_of d (m a)).2.2)) (m a).2.
Proof. intros H. pose proof (runs_by m a d H) as Hr. by destruct (answer_of d (m a)) as [? [? ?]]. Qed.

Lemma carol_returns_runs :
  runs (callback (Sec := secrets_32) (P := provider_carol) config_default (Some carol_config) None carol_cookies carol_query carol_flows limits0)
    carol_starts.2
    ((answer_of nothing_yet carol_returns).1, ((answer_of nothing_yet carol_returns).2.1, (answer_of nothing_yet carol_returns).2.2))
    carol_returns.2.
Proof. unfold carol_returns. apply runs_triple. vm_compute. reflexivity. Qed.

Lemma carol_plain : tokens_plain (Sec := secrets_32).
Proof. exact tokens_plain_good. Qed.

Lemma carol_digests x : length (sha256 (Secrets := secrets_32) x) = 32%nat.
Proof. cbn [sha256 secrets_32]. rewrite length_take, length_app, length_replicate. lia. Qed.

Lemma carol_keyed : NoDup (user_id <$> db_users (app_db carol_starts.2)).
Proof. apply (bool_decide_eq_true (NoDup _)). vm_compute. reflexivity. Qed.

Lemma carol_discovered : discovery_ok carol_config carol_flows.
Proof. vm_compute. reflexivity. Qed.

