(* ===== verification/Router.v ===== *)
(** * The HTTP surface ([crates/gal-server/src/http.rs], [router])

    Every route with its handler, the pages of the client, the headers of every response; and the proof that no
    request does anything to the server but what its transition system allows. *)

From Stdlib Require Import QArith.
From S2P Require Import Prelude Tables Strings Unicode Json Attributes Text Delta ServerDoc Model Protocol Content.
From S2P Require Import LiveWave Snippet Storage OpLog Queries Effects Critical Handlers Coherence.
From S2P Require Import CoherenceLemmas App AppTheory Limit Dispatch Agent AgentTheory Server Scenario.
From S2P Require Import ServerGuarantees Auth Accounts AccountTheory AccountGuarantees Uploads Oidc.

(** ** The client's pages *)

Definition html : str := lit "text/html; charset=utf-8".
Definition script : str := lit "text/javascript; charset=utf-8".

(** Path and content type of the embedded assets; their bytes are put in by the build. *)
Definition ASSETS : list (str * str) :=
  [(lit "/", html); (lit "/index.html", html); (lit "/style.css", lit "text/css; charset=utf-8"); (lit "/ot.js", script);
   (lit "/client.js", script); (lit "/editor.js", script); (lit "/ui.js", script); (lit "/app.js", script)].

Definition is_client_route (path : str) : bool :=
  str_eqb path (lit "/") ||
  match strip_prefix path (lit "/wave/") with Some id => negb (bool_decide (47%N ∈ id)) | None => false end.

(** The asset served for a path and its content type; [None] is the 404. *)
Definition static_asset (path : str) : option (str * str) :=
  match find_row (λ a, str_eqb a.1 path) ASSETS with
  | Some a => Some a
  | None => if is_client_route path then Some (lit "/", html) else None
  end.

(** ** Headers *)

Definition CSP : str :=
  lit "default-src 'self'; script-src 'self'; style-src 'self'; img-src 'self' data:; connect-src 'self'; "
    ++ lit "frame-ancestors 'none'; base-uri 'none'; form-action 'self'".

Definition security_headers (cfg : Config) : list (str * str) :=
  [(lit "content-security-policy", CSP); (lit "x-content-type-options", lit "nosniff"); (lit "x-frame-options", lit "DENY");
   (lit "referrer-policy", lit "same-origin")]
    ++ (if hsts cfg then [(lit "strict-transport-security", lit "max-age=31536000; includeSubDomains")] else []).

(** The id a request is logged under and answered with. *)
Definition request_id (presented : option str) (uuid : str) : str :=
  match presented with
  | Some v => if negb (bool_decide (v = [])) && (str_len v <=? 200)%N && forallb (λ c, (c <? 128)%N) v then v else uuid
  | None => uuid
  end.

(** ** Routes *)

Record HttpRequest := mkRequest {
  hr_caller : Caller;
  hr_cookies : option str;
  hr_authorization : option str;
  hr_origin : option str;
  hr_host : option str;
}.

Inductive Endpoint :=
| PostRegister (body : SignupRequest)
| PostLogin (body : LoginRequest)
| PostLogout
| PostPassword (body : PasswordChange)
| GetSessions
| PostRevoke
| GetMe
| GetOauthStart
| GetOauthCallback (query : CallbackQuery)
| GetUsers
| GetLookup (name : str)
| GetServer
| PostAttachment (wavelet : WaveletId) (name : str) (body : list N)
| GetAttachment (id : AttachmentId)
| GetHealth
| GetMetrics
| GetSocket
| GetAgentTokens
| PostAgentToken (body : CreateToken)
| DeleteAgentToken (id : str)
| GetAgentContext (query : ContextQuery)
| PostAgentReply (body : ReplyRequest)
| GetAsset (path : str).

(** [RSpinning] is a reply still going round its loop. *)
Inductive HttpResponse :=
| RAccount (r : AccountResponse)
| RFile (r : FileResponse)
| ROidc (r : OidcResponse)
| RAgent (r : AgentResponse)
| RSpinning
| RSocket (who : Identity)
| RMetrics
| RHealth (ok : bool)
| RServerInfo (registration : bool) (provider : option (str * str))
| RAsset (path content_type : str).

Section router.
Context `{J : Json} `{U : Unicode} `{W : World} `{Sec : Secrets} `{P : Provider}.
Context (fts_match : str → list SearchRow → list (SearchRow * str)) (request_json : ReplyRequest → str).

Definition health : AM HttpResponse :=
  n <-! attempt (reading user_count);
  cm_ret (RHealth (match n with Some _ => true | None => false end)).

Definition server_info (cfg : Config) (pc : option OidcConfig) : HttpResponse :=
  RServerInfo (open_registration cfg) (provider_info pc).

(** The state of the limiters and of the provider goes along. *)
Definition Side : Type := Limiters * Oidc.

Definition account (s : Side) (m : AM AccountResponse) : AM (HttpResponse * Side) := r <-! m; cm_ret (RAccount r, s).
Definition file (s : Side) (m : AM FileResponse) : AM (HttpResponse * Side) := r <-! m; cm_ret (RFile r, s).
Definition limited (s : Side) (m : Limiters → AM (AccountResponse * Limiters)) : AM (HttpResponse * Side) :=
  r <-! m s.1; cm_ret (RAccount r.1, (r.2, s.2)).
Definition provided (s : Side) (m : Oidc → Limiters → AM (OidcResponse * (Oidc * Limiters))) : AM (HttpResponse * Side) :=
  r <-! m s.2 s.1; cm_ret (ROidc r.1, (r.2.2, r.2.1)).
Definition agent_made (s : Side) (m : Limiters → AM (AgentResponse * Limiters)) : AM (HttpResponse * Side) :=
  r <-! m s.1; cm_ret (RAgent r.1, (r.2, s.2)).

Definition refused (s : Side) : HttpResponse * Side := (RAccount not_signed_in, s).

(** A handler that asks for an [AgentIdentity]. *)
Definition as_agent (q : HttpRequest) (s : Side) (k : AgentIdentity → AM (HttpResponse * Side)) : AM (HttpResponse * Side) :=
  who <-! agent_identity hash_token (hr_authorization q);
  match who with Ok who => k who | Err r => cm_ret (RAgent r, s) end.

Definition serve (cfg : Config) (pc : option OidcConfig) (fuel : nat) (q : HttpRequest) (ep : Endpoint) (s : Side)
    : AM (HttpResponse * Side) :=
  let as_user := signed_in (refused s) (hr_cookies q) in
  let caller := hr_caller q in
  match ep with
  | PostRegister body => limited s (register cfg caller body)
  | PostLogin body => limited s (login cfg caller body)
  | PostLogout => as_user (λ who, account s (logout cfg who))
  | PostPassword body => as_user (λ who, limited s (change_own_password cfg caller who body))
  | GetSessions => as_user (λ who, account s (session_info who))
  | PostRevoke => as_user (λ who, account s (sign_out_everywhere who))
  | GetMe => as_user (λ who, account s (cm_ret (Accounts.me who)))
  | GetOauthStart => provided s (start cfg pc (cl_forwarded caller))
  | GetOauthCallback query => provided s (callback cfg pc (cl_forwarded caller) (hr_cookies q) query)
  | GetUsers => as_user (λ who, account s (users who))
  | GetLookup name => as_user (λ who, limited s (lookup_user cfg caller name))
  | GetServer => cm_ret (server_info cfg pc, s)
  | PostAttachment wavelet name body => as_user (λ who, file s (upload_attachment who wavelet name body))
  | GetAttachment id => as_user (λ who, file s (get_attachment who id))
  | GetHealth => r <-! health; cm_ret (r, s)
  | GetMetrics => cm_ret (match metrics_allowed cfg (hr_authorization q) with Ok _ => RMetrics | Err r => RAccount r end, s)
  | GetSocket =>
      who <-! ws_handler cfg (hr_cookies q) (hr_origin q) (hr_host q);
      cm_ret (match who with Ok who => RSocket who | Err r => RAccount r end, s)
  | GetAgentTokens => as_user (λ who, r <-! list_tokens (user_id (id_user who)); cm_ret (RAgent r, s))
  | PostAgentToken body =>
      as_user (λ who, t <-! instant_; agent_made s (create_token hash_token generate_token t (user_id (id_user who)) body))
  | DeleteAgentToken id => as_user (λ who, r <-! revoke_token (user_id (id_user who)) id; cm_ret (RAgent r, s))
  | GetAgentContext query => as_agent q s (λ who, t <-! instant_; agent_made s (context t who query))
  | PostAgentReply body =>
      as_agent q s (λ who,
        t <-! instant_;
        r <-! reply hash_token request_json fuel t who body s.1;
        cm_ret (match r.1 with Some r => RAgent r | None => RSpinning end, (r.2, s.2)))
  | GetAsset path =>
      cm_ret (match static_asset path with
              | Some (asset, content_type) => RAsset asset content_type
              | None => RAccount (HNotFound (lit "No such endpoint."))
              end, s)
  end.

End router.

(** * No request does more than the server's transition system allows

    Every handler behind a route is made of events of the server, so what is proved of reachable states holds
    whatever is requested. *)

Section events.
Context `{J : Json} `{U : Unicode} `{W : World} `{Sec : Secrets} `{P : Provider}.
Context (fts_match : str → list SearchRow → list (SearchRow * str)) (request_json : ReplyRequest → str).
Implicit Types a : App.

Local Abbreviation happens := (happens fts_match hash_token generate_token request_json).

(** ** Handlers beside the waves *)

Lemma beside_identity cookies : beside (identity cookies).
Proof. unfold identity. destruct (cookies ≫= token_from_cookies); eauto 6 with beside nocore. Qed.

Lemma beside_issue cfg user : beside (issue_session cfg user).
Proof.
  apply beside_bind; [apply beside_token|intros token]. apply beside_bind; [apply beside_now|intros ts].
  apply beside_bind; [|intros; apply beside_ret]. apply beside_attempt. intros db t db'.
  destruct (create_session _ _ _ _) eqn:E; [|done]. intros [= _ <-]. by apply create_session_ok in E as (_ & _ & ->).
Qed.

Lemma beside_answering ls m : beside m → beside (answering ls m).
Proof. intros H. apply beside_bind; [done|intros; apply beside_ret]. Qed.

Lemma beside_limited cfg caller ls k : (∀ ls, beside (k ls)) → beside (auth_limited cfg caller ls k).
Proof.
  intros H. apply beside_bind; [apply beside_instant|intros t]. destruct (check_auth_rate _ _ _ _ _) as [[] ls1]; [apply H|apply beside_ret].
Qed.

Lemma create_user_core db uuid ts name display email hash t db' : create_user db uuid ts name display email hash = Ok (t, db') → same_core db db'.
Proof. intros (db1 & H & [= <- <-])%bind_ok. by apply bind_ok in H as (rows & _ & [= <-]). Qed.

Lemma beside_register cfg caller body ls : beside (register cfg caller body ls).
Proof.
  apply beside_limited. intros ls1. apply beside_answering. destruct (negb _); [apply beside_ret|].
  destruct (validate_signup _ _ _) as [[name display]|e]; [|apply beside_ret].
  apply beside_bind; [apply beside_read|intros [[u|]|]]; [apply beside_ret| |apply beside_ret].
  apply beside_bind; [apply beside_work|intros [[hash|]|]]; [|apply beside_ret..].
  apply beside_bind; [apply beside_uuid|intros uuid]. apply beside_bind; [apply beside_now|intros ts].
  apply beside_bind; [apply beside_attempt; intros db t db'; apply create_user_core|intros [user|]]; [apply beside_issue|apply beside_ret].
Qed.

Lemma beside_login cfg caller body ls : beside (login cfg caller body ls).
Proof.
  apply beside_limited. intros ls1. apply beside_bind; [apply beside_instant|intros t].
  destruct (account_is_throttled _ _ _) as [[] ls2]; [apply beside_ret|].
  apply beside_bind; [apply beside_read|intros [stored|]]; [|apply beside_ret].
  apply beside_bind; [apply beside_instant|intros t2]. destruct (account_is_throttled _ _ _) as [throttled ls3].
  apply beside_bind; [apply beside_work|intros [[ok|]|]]; [|apply beside_ret..].
  assert (∀ (r : AccountResponse) (ls : Limiters), beside (cm_bind instant_ (λ t, cm_ret (r, note_failed_signin t (lg_name body) ls)))) as Hfail.
  { intros r ls'. apply beside_bind; [apply beside_instant|intros; apply beside_ret]. }
  destruct ok, stored; try apply Hfail. apply beside_answering, beside_issue.
Qed.

Lemma beside_closing {T} (f : Db → DbResult (T * Db)) (k : T → AM AccountResponse) :
  (∀ db t db', f db = Ok (t, db') → same_core db db') → (∀ t, beside (k t)) →
  beside (r <-! attempt f; match r with None => cm_ret HServerError | Some t => k t end).
Proof. intros Hf Hk. apply beside_bind; [by apply beside_attempt|intros [t|]]; [apply Hk|apply beside_ret]. Qed.

Lemma beside_after p user r : beside (modify (disconnect_where p user) ;! cm_ret r : AM AccountResponse).
Proof. apply beside_bind; [apply beside_disconnect|intros; apply beside_ret]. Qed.

Lemma beside_logout cfg who : beside (logout cfg who).
Proof. apply beside_closing; [by intros db t db' [= <- <-]|intros _; apply beside_after]. Qed.

Lemma beside_sign_out who : beside (sign_out_everywhere who).
Proof. apply beside_closing; [by intros db t db' [= <- <-]|intros n; apply beside_after]. Qed.

Lemma beside_password cfg caller who body ls : beside (change_own_password cfg caller who body ls).
Proof.
  apply beside_limited. intros ls1. apply beside_answering. destruct (validate_password _ _) as [[]|e]; [|apply beside_ret].
  apply beside_bind; [apply beside_work|intros [[]|]]; [|apply beside_ret..].
  apply beside_bind; [apply beside_work|intros [[hash|]|]]; [|apply beside_ret..].
  apply beside_closing; [by intros db t db' [= <- <-]|intros _; apply beside_after].
Qed.

Lemma beside_lookup cfg caller name ls : beside (lookup_user cfg caller name ls).
Proof.
  apply beside_bind; [apply beside_instant|intros t]. destruct (check_lookup_rate _ _ _ _ _) as [[] ls1]; [|apply beside_ret].
  apply beside_bind; [apply beside_read|intros; apply beside_ret].
Qed.

Lemma beside_upload who wavelet name body : beside (upload_attachment who wavelet name body).
Proof.
  apply beside_bind; [apply beside_read|intros [[]|]]; [|apply beside_ret..].
  destruct (bool_decide _); [apply beside_ret|]. destruct (_ <? _)%N; [apply beside_ret|].
  apply beside_bind; [apply beside_now|intros now]. apply beside_bind; [apply beside_uuid|intros uuid].
  apply beside_bind; [apply beside_now|intros ts]. apply beside_bind; [|intros; apply beside_ret].
  apply beside_attempt. intros db t db'. unfold create_attachment. cbv zeta. destruct (_ <? _)%N; [by intros [= <- <-]|].
  by intros (rows & _ & [= _ <-])%bind_ok.
Qed.

Lemma beside_get_attachment who id : beside (get_attachment who id).
Proof. apply beside_bind; [apply beside_read|intros; apply beside_ret]. Qed.

(** *** The provider's endpoints *)

Lemma beside_network {T} (f : nat → T) : beside (network f).
Proof. done. Qed.

Lemma beside_endpoints pc o : beside (endpoints pc o).
Proof.
  apply beside_bind; [apply beside_instant|intros now]. destruct (match od_discovery o with Some _ => _ | None => _ end); [apply beside_ret|].
  apply beside_bind; [apply beside_network|intros [ep|]]; [|apply beside_ret]. destruct (str_eqb _ _); [|apply beside_ret].
  apply beside_bind; [apply beside_instant|intros; apply beside_ret].
Qed.

Lemma beside_oidc_limited {T} cfg forwarded (r : AccountResponse → Limiters → T) ls k :
  (∀ ls, beside (k ls)) → beside (oidc_limited cfg forwarded r ls k).
Proof.
  intros H. apply beside_bind; [apply beside_instant|intros t]. destruct (check_auth_rate _ _ _ _ _) as [[] ls1]; [apply H|apply beside_ret].
Qed.

Lemma beside_start cfg pc forwarded o ls : beside (start cfg pc forwarded o ls).
Proof.
  destruct pc as [pc|]; [|apply beside_ret]. apply beside_oidc_limited. intros ls1.
  apply beside_bind; [apply beside_endpoints|intros [[ep|] o1]]; [|apply beside_ret].
  apply beside_bind; [apply beside_token|intros state]. apply beside_bind; [apply beside_token|intros verifier].
  apply beside_bind; [apply beside_instant|intros now]. apply beside_bind; [apply beside_token|intros; apply beside_ret].
Qed.

Lemma identity_core db uuid ts issuer subject hint display r db' :
  user_for_oauth_identity db uuid ts issuer subject hint display = Some (Ok (r, db')) → same_core db db'.
Proof.
  unfold user_for_oauth_identity. destruct (user_of_identity db issuer subject); [by intros [= <- <-]|].
  intros (n & _ & [= H])%bind_Some. apply bind_ok in H as (name & _ & H). apply bind_ok in H as (db1 & H1 & H).
  apply bind_ok in H as (db2 & H2 & [= _ <-]). apply bind_ok in H1 as (t1 & _ & [= <-]). by apply bind_ok in H2 as (t2 & _ & [= <-]).
Qed.

Lemma beside_finish cfg issuer claims : beside (finish cfg issuer claims).
Proof.
  apply beside_bind; [apply beside_uuid|intros uuid]. apply beside_bind; [apply beside_now|intros ts].
  apply beside_bind; [apply beside_attempt; intros db t db'|intros [outcome|]]; [| |apply beside_ret].
  { destruct (user_for_oauth_identity _ _ _ _ _ _ _) as [r|] eqn:E; [|done]. intros ->. by eapply identity_core. }
  apply beside_bind; [apply beside_token|intros token]. apply beside_bind; [apply beside_now|intros ts2].
  apply beside_bind; [apply beside_attempt; intros db t db'|intros; apply beside_ret].
  destruct (create_session _ _ _ _) eqn:E; [|done]. intros [= _ <-]. by apply create_session_ok in E as (_ & _ & ->).
Qed.

Lemma beside_callback cfg pc forwarded cookies query o ls : beside (callback cfg pc forwarded cookies query o ls).
Proof.
  destruct pc as [pc|]; [|apply beside_ret]. apply beside_oidc_limited. intros ls1. destruct (cq_error query); [apply beside_ret|].
  destruct (header ← cookies; _); [|apply beside_ret]. apply beside_bind; [apply beside_instant|intros now].
  destruct (take_flow _ _ _) as [[flow|] o1]; [|apply beside_ret]. apply beside_bind; [|intros; apply beside_ret].
  unfold complete. destruct (negb _); [apply beside_ret|]. destruct (cq_code query); [|apply beside_ret].
  apply beside_bind; [apply beside_endpoints|intros [[ep|] o2]]; [|apply beside_ret].
  apply beside_bind; [apply beside_bind; [apply beside_network|intros [t|]]; [apply beside_network|apply beside_ret]|intros [claims|]];
    [|apply beside_ret].
  destruct (bool_decide _); [apply beside_ret|]. apply beside_bind; [apply beside_finish|intros; apply beside_ret].
Qed.

(** ** Requests *)

Definition steps {T} (m : AM T) : Prop := ∀ a, rtc happens a (m a).2.

Lemma steps_beside {T} (m : AM T) : beside m → steps m.
Proof. intros H a. apply rtc_once. by apply h_account. Qed.

Lemma steps_bind {T V} (m : AM T) (f : T → AM V) : steps m → (∀ t, steps (f t)) → steps (cm_bind m f).
Proof.
  intros Hm Hf a. unfold cm_bind. specialize (Hm a). destruct (m a) as [[t|e] a1]; [|done]. simpl in Hm.
  etrans; [exact Hm|apply Hf].
Qed.

Lemma steps_ret {T} (t : T) : steps (cm_ret t).
Proof. intros a. apply rtc_refl. Qed.

Lemma steps_then {T V} (m : AM T) (g : T → V) : steps m → steps (r <-! m; cm_ret (g r)).
Proof. intros H. apply steps_bind; [done|intros; apply steps_ret]. Qed.

Lemma steps_once {T} (m : AM T) : (∀ a, happens a (m a).2) → steps m.
Proof. intros H a. by apply rtc_once. Qed.

Lemma steps_signed_in {T} (refusal : T) cookies k : (∀ who, steps (k who)) → steps (signed_in refusal cookies k).
Proof.
  intros H. apply steps_bind; [apply steps_beside, beside_identity|intros [who|]]; [apply H|apply steps_ret].
Qed.

Lemma beside_agent_identity authorization : beside (agent_identity hash_token authorization).
Proof.
  unfold agent_identity. destruct (bearer_token authorization); [|apply beside_ret].
  apply beside_bind; [apply beside_now|intros ts]. apply beside_bind; [apply beside_read|intros; apply beside_ret].
Qed.

Lemma steps_as_agent q s k : (∀ who, steps (k who)) → steps (as_agent q s k).
Proof.
  intros H. apply steps_bind; [apply steps_beside, beside_agent_identity|intros [who|r]]; [apply H|apply steps_ret].
Qed.

Lemma steps_timed {T} (k : Q → AM T) : (∀ t, steps (k t)) → steps (t <-! instant_; k t).
Proof. intros H. apply steps_bind; [apply steps_beside, beside_instant|exact H]. Qed.

Lemma beside_context t who query ls : beside (context t who query ls).
Proof.
  unfold context. destruct (negb _); [apply beside_ret|].
  destruct (match cq_after query with None => _ | Some _ => _ end); [|apply beside_ret].
  destruct (check_command_rate _ _ _ _) as [ok ls1]. destruct (negb ok); [apply beside_ret|].
  apply beside_bind; [apply beside_now|intros ts]. apply beside_bind; [|intros; apply beside_ret].
  apply beside_attempt. intros db r db'. destruct (agent_context _ _ _ _ _ _) as [[c|e]|]; [|done..]. by intros [= _ <-].
Qed.

Lemma beside_list_tokens user : beside (list_tokens user).
Proof. apply beside_bind; [apply beside_now|intros ts]. apply beside_bind; [apply beside_read|intros; apply beside_ret]. Qed.

Lemma steps_account s m : beside m → steps (account s m).
Proof. intros H. by apply steps_then, steps_beside. Qed.

Lemma steps_file s m : beside m → steps (file s m).
Proof. intros H. by apply steps_then, steps_beside. Qed.

Lemma steps_limited s m : (∀ ls, beside (m ls)) → steps (limited s m).
Proof. intros H. by apply steps_then, steps_beside. Qed.

Lemma steps_provided s m : (∀ o ls, beside (m o ls)) → steps (provided s m).
Proof. intros H. by apply steps_then, steps_beside. Qed.

Lemma steps_agent_made s m : (∀ ls, steps (m ls)) → steps (agent_made s m).
Proof. intros H. by apply steps_then. Qed.

Lemma beside_reading_account {T} (f : Db → T) (g : option T → AccountResponse) : beside (r <-! attempt (reading f); cm_ret (g r)).
Proof. apply beside_bind; [apply beside_read|intros; apply beside_ret]. Qed.

Lemma beside_session_info who : beside (session_info who).
Proof. apply beside_bind; [apply beside_now|intros ts]. apply beside_reading_account. Qed.

Lemma beside_users who : beside (users who).
Proof. apply beside_reading_account. Qed.

Lemma beside_health : beside health.
Proof. apply beside_bind; [apply beside_read|intros; apply beside_ret]. Qed.

Lemma steps_ws_handler cfg cookies origin host : steps (ws_handler cfg cookies origin host).
Proof. apply steps_signed_in. intros who. apply steps_ret. Qed.

(** Every request is a sequence of events of the server. *)
Lemma serve_steps cfg pc fuel q ep s : steps (serve request_json cfg pc fuel q ep s).
Proof.
  destruct ep; cbn [serve].
  - apply steps_limited. intros ls. apply beside_register.
  - apply steps_limited. intros ls. apply beside_login.
  - apply steps_signed_in. intros who. apply steps_account, beside_logout.
  - apply steps_signed_in. intros who. apply steps_limited. intros ls. apply beside_password.
  - apply steps_signed_in. intros who. apply steps_account, beside_session_info.
  - apply steps_signed_in. intros who. apply steps_account, beside_sign_out.
  - apply steps_signed_in. intros who. apply steps_account, beside_ret.
  - apply steps_provided. intros o ls. apply beside_start.
  - apply steps_provided. intros o ls. apply beside_callback.
  - apply steps_signed_in. intros who. apply steps_account, beside_users.
  - apply steps_signed_in. intros who. apply steps_limited. intros ls. apply beside_lookup.
  - apply steps_ret.
  - apply steps_signed_in. intros who. apply steps_file, beside_upload.
  - apply steps_signed_in. intros who. apply steps_file, beside_get_attachment.
  - apply (steps_then health), steps_beside, beside_health.
  - apply steps_ret.
  - apply steps_then, steps_ws_handler.
  - apply steps_signed_in. intros who. apply steps_then, steps_beside, beside_list_tokens.
  - apply steps_signed_in. intros who. apply steps_timed. intros t. apply steps_agent_made. intros ls. apply steps_once. intros a.
    by apply h_create_token.
  - apply steps_signed_in. intros who. apply steps_then, steps_once. intros a. by apply h_revoke_token.
  - apply steps_as_agent. intros who. apply steps_timed. intros t. apply steps_agent_made. intros ls. apply steps_beside, beside_context.
  - apply steps_as_agent. intros who. apply steps_timed. intros t. apply (steps_then (reply _ _ _ _ _ _ _)), steps_once. intros a.
    by apply h_agent_reply.
  - apply steps_ret.
Qed.


End events.

(** Bob asks for his sessions in the middle of the scenario, with a cookie that is not one. *)
Definition bob_asks : HttpRequest := mkRequest somebody (Some (lit "gal_session=stale")) None None None.

