(* ===== verification/Migrate.v ===== *)
(** * Opening a database ([crates/gal-server/src/db.rs], [migrate], and schema.sql)

    A database is its version, its tables with their columns and rows, and its indexes.  SQL is reduced to the
    statements the schema and its migrations use; a statement either does its work or fails. *)

From S2P Require Import Prelude Tables Strings.

Inductive SqlValue :=
| SNull
| SInt (z : Z)
| SText (s : str).

#[global] Instance SqlValue_eq_dec : EqDecision SqlValue.
Proof. solve_decision. Defined.

Abbreviation SqlRow := (gmap str SqlValue).

Record Table := mkTable { tb_columns : list str; tb_rows : list SqlRow }.

Record Database := mkDatabase { dv_version : Z; dv_tables : gmap str Table; dv_indexes : gset str }.

Definition empty_database : Database := mkDatabase 0 ∅ ∅.

Definition set_version (v : Z) (d : Database) : Database := mkDatabase v (dv_tables d) (dv_indexes d).
Definition put_table (name : str) (t : Table) (d : Database) : Database :=
  mkDatabase (dv_version d) (<[name := t]> (dv_tables d)) (dv_indexes d).

(** ** Statements *)

(** The constraints an [INSERT .. SELECT] meets: columns whose values are unique, and one that names rows of another table. *)
Record Keys := mkKeys { ks_unique : list str; ks_reference : option (str * (str * str)) }.

Inductive Statement :=
| CreateTable (if_not_exists : bool) (name : str) (columns : list str)
| CreateIndex (if_not_exists : bool) (name table : str) (columns : list str)
| AddColumn (table column : str) (value : SqlValue)
| InsertSelect (into : str) (columns : list str) (from : str) (from_columns : list str) (keys : Keys)
| SetVersion (v : Z).

Definition has_columns (t : Table) (cols : list str) : bool := forallb (λ c, bool_decide (c ∈ tb_columns t)) cols.

Definition column (c : str) (rows : list SqlRow) : list SqlValue := (λ r, default SNull (r !! c)) <$> rows.

(** The row an [INSERT .. SELECT] makes of a row it reads. *)
Definition copied (cols from_cols : list str) (r : SqlRow) : SqlRow :=
  list_to_map (zip cols ((λ c, default SNull (r !! c)) <$> from_cols)).

Definition keys_ok (d : Database) (keys : Keys) (rows : list SqlRow) : bool :=
  forallb (λ c, bool_decide (NoDup (column c rows))) (ks_unique keys) &&
  match ks_reference keys with
  | None => true
  | Some (c, (table, key)) =>
      match dv_tables d !! table with
      | Some t => forallb (λ v, bool_decide (v ∈ column key (tb_rows t))) (column c rows)
      | None => false
      end
  end.

Definition exec (s : Statement) (d : Database) : option Database :=
  match s with
  | CreateTable quiet name cols =>
      match dv_tables d !! name with
      | Some _ => if quiet then Some d else None
      | None => Some (put_table name (mkTable cols []) d)
      end
  | CreateIndex quiet name table cols =>
      if bool_decide (name ∈ dv_indexes d) then (if quiet then Some d else None)
      else
        t ← dv_tables d !! table;
        if has_columns t cols then Some (mkDatabase (dv_version d) (dv_tables d) ({[name]} ∪ dv_indexes d)) else None
  | AddColumn table c v =>
      t ← dv_tables d !! table;
      if bool_decide (c ∈ tb_columns t) then None
      else Some (put_table table (mkTable (tb_columns t ++ [c]) (insert c v <$> tb_rows t)) d)
  | InsertSelect into cols from from_cols keys =>
      t ← dv_tables d !! into;
      f ← dv_tables d !! from;
      if has_columns t cols && has_columns f from_cols then
        let rows := tb_rows t ++ (copied cols from_cols <$> tb_rows f) in
        if keys_ok d keys rows then Some (put_table into (mkTable (tb_columns t) rows) d) else None
      else None
  | SetVersion v => Some (set_version v d)
  end.

(** [execute_batch] outside a transaction: every statement stays, up to the first that fails. *)
Fixpoint execute_batch (ss : list Statement) (d : Database) : bool * Database :=
  match ss with
  | [] => (true, d)
  | s :: ss => match exec s d with Some d => execute_batch ss d | None => (false, d) end
  end.

(** The same in a transaction: all or nothing. *)
Definition transaction (ss : list Statement) (d : Database) : bool * Database :=
  let '(ok, d') := execute_batch ss d in if ok then (true, d') else (false, d).

(** ** The schema *)

Definition SCHEMA_VERSION : Z := 9.
Definition BASELINE_VERSION : Z := 1.

Definition table (name : string) (cols : list string) : Statement := CreateTable true (lit name) (lit <$> cols).
Definition index (name on : string) (cols : list string) : Statement := CreateIndex true (lit name) (lit on) (lit <$> cols).

(** schema.sql; the pragmas have nothing to do here.  An FTS5 table has its implicit [rowid]. *)
Definition SCHEMA : list Statement :=
  [table "users" ["id"; "name"; "display_name"; "email"; "password_hash"; "color"; "created_at"]%string;
   table "sessions" ["token_hash"; "user_id"; "created_at"; "expires_at"]%string;
   index "sessions_user" "sessions" ["user_id"]%string;
   index "sessions_expiry" "sessions" ["expires_at"]%string;
   table "waves" ["id"; "creator"; "created_at"]%string;
   table "wavelets" ["id"; "wave_id"; "kind"; "title"; "anchor_blip"; "created_at"; "last_modified"]%string;
   index "wavelets_wave" "wavelets" ["wave_id"]%string;
   table "participants" ["wavelet_id"; "user_id"; "added_at"]%string;
   index "participants_user" "participants" ["user_id"]%string;
   table "blips" ["id"; "wavelet_id"; "wave_id"; "parent"; "seq"; "author"; "contributors"; "created_at"; "last_modified";
                  "content"; "revision"; "deleted"]%string;
   index "blips_wavelet" "blips" ["wavelet_id"; "seq"]%string;
   index "blips_wave" "blips" ["wave_id"; "last_modified"]%string;
   table "ops" ["blip_id"; "revision"; "wave_id"; "author"; "timestamp"; "delta"]%string;
   index "ops_wave_time" "ops" ["wave_id"; "timestamp"]%string;
   table "read_marks" ["user_id"; "blip_id"; "revision"]%string;
   table "wave_flags" ["user_id"; "wave_id"; "archived"; "muted"]%string;
   table "blip_search" ["rowid"; "blip_id"; "wave_id"; "body"]%string].

(** What each version does to become the next. *)
Definition migration (version : Z) : option (list Statement) :=
  match version with
  | 1 => Some [AddColumn (lit "ops") (lit "op_id") SNull; index "ops_op_id" "ops" ["blip_id"; "op_id"]%string]
  | 2 => Some [AddColumn (lit "waves") (lit "mode") (SText (lit "document"))]
  | 3 => Some [table "attachments" ["id"; "wavelet_id"; "uploader"; "name"; "mime"; "size"; "created_at"; "bytes"]%string;
               index "attachments_wavelet" "attachments" ["wavelet_id"]%string;
               index "attachments_uploader" "attachments" ["uploader"; "created_at"]%string]
  | 4 => Some [table "comments" ["id"; "wave_id"; "wavelet_id"; "blip_id"; "author"; "created_at"; "resolved_by"; "resolved_at"]%string;
               index "comments_wave" "comments" ["wave_id"]%string;
               index "comments_blip" "comments" ["blip_id"]%string;
               AddColumn (lit "blips") (lit "comment") SNull;
               index "blips_comment" "blips" ["comment"]%string]
  | 5 => Some [table "oauth_identities" ["issuer"; "subject"; "user_id"; "created_at"]%string;
               index "oauth_identities_user" "oauth_identities" ["user_id"]%string]
  | 6 => Some [CreateTable false (lit "blip_search_keys") [lit "id"; lit "blip_id"];
               InsertSelect (lit "blip_search_keys") [lit "id"; lit "blip_id"] (lit "blip_search") [lit "rowid"; lit "blip_id"]
                 (mkKeys [lit "id"; lit "blip_id"] (Some (lit "blip_id", (lit "blips", lit "id"))))]
  | 7 => Some [CreateTable false (lit "agent_tokens")
                 (lit <$> ["id"; "token_hash"; "user_id"; "wavelet_id"; "label"; "scope"; "created_at"; "expires_at"]%string);
               CreateIndex false (lit "agent_tokens_user") (lit "agent_tokens") [lit "user_id"]]
  | 8 => Some [CreateTable false (lit "agent_replies") (lit <$> ["token_id"; "request_id"; "request_hash"; "blip_id"; "revision"]%string)]
  | _ => None
  end%Z.

(** ** Migrating *)

Inductive MigrateError :=
| SqlFailed
| Unrecognised (table column : str)
| NewerVersion (v : Z)
| NoMigration (v : Z).

Definition LEGACY : list (str * str) :=
  [(lit "blips", lit "deleted"); (lit "blips", lit "revision"); (lit "wave_flags", lit "archived");
   (lit "read_marks", lit "revision"); (lit "ops", lit "delta")].

(** [PRAGMA table_info] of a table that is not there is empty. *)
Definition column_present (d : Database) (tc : str * str) : bool :=
  match dv_tables d !! tc.1 with Some t => bool_decide (tc.2 ∈ tb_columns t) | None => false end.

Definition adopt_legacy (d : Database) : result () MigrateError :=
  match find_row (λ tc, negb (column_present d tc)) LEGACY with
  | Some (t, c) => Err (Unrecognised t c)
  | None => Ok tt
  end.

Definition initialised (d : Database) : bool := match dv_tables d !! lit "users" with Some _ => true | None => false end.

(** A database without a version gets the first. *)
Definition baseline (d : Database) : result () MigrateError * Database :=
  if initialised d then
    match adopt_legacy d with
    | Ok _ => (Ok tt, set_version BASELINE_VERSION d)
    | Err e => (Err e, d)
    end
  else
    let '(ok, d) := execute_batch SCHEMA d in
    if ok then (Ok tt, set_version BASELINE_VERSION d) else (Err SqlFailed, d).

(** The chain of [if version == n] blocks, from [n]. *)
Fixpoint upgrade (steps : nat) (n : Z) (d : Database) : bool * Database :=
  match steps with
  | O => (true, d)
  | S steps =>
      if (dv_version d =? n)%Z then
        match migration n with
        | Some ss =>
            let '(ok, d) := transaction (ss ++ [SetVersion (n + 1)]) d in
            if ok then upgrade steps (n + 1) d else (false, d)
        | None => upgrade steps (n + 1) d
        end
      else upgrade steps (n + 1) d
  end.

Definition upgrade_all (d : Database) : result () MigrateError * Database :=
  if (SCHEMA_VERSION <? dv_version d)%Z then (Err (NewerVersion (dv_version d)), d)
  else
    let '(ok, d) := upgrade 8 1 d in
    if negb ok then (Err SqlFailed, d)
    else if (dv_version d <? SCHEMA_VERSION)%Z then (Err (NoMigration (dv_version d)), d)
    else (Ok tt, d).

(** What [migrate] answers and the database it leaves. *)
Definition migrate (d : Database) : result () MigrateError * Database :=
  if (dv_version d =? 0)%Z then
    match baseline d with
    | (Ok _, d) => upgrade_all d
    | (Err e, d) => (Err e, d)
    end
  else upgrade_all d.

(** A first start makes the whole schema. *)
Example fresh_start : dv_version (migrate empty_database).2 = 9%Z ∧ size (dv_tables (migrate empty_database).2) = 16%nat.
Proof. split; vm_compute; reflexivity. Qed.

(** * Opening a database: what it keeps and promises

    A migration adds tables, columns and index entries; it never drops a row or a value of one.  It may be cut off
    between two of its steps and begun again.  The very first start is the exception: its statements are not one
    transaction. *)

(** ** Tables that only grow *)

(** A row has values for columns of its table only. *)
Definition table_wf (t : Table) : Prop := Forall (λ r, ∀ c, is_Some (r !! c) → c ∈ tb_columns t) (tb_rows t).
Definition database_wf (d : Database) : Prop := map_Forall (λ _ t, table_wf t) (dv_tables d).

(** [t'] is [t] with more columns and more rows: every row of [t] is there, in its place, with all its values. *)
Definition extends (t t' : Table) : Prop :=
  tb_columns t `prefix_of` tb_columns t' ∧
  ∃ kept added, tb_rows t' = kept ++ added ∧ Forall2 (⊆) (tb_rows t) kept.

Definition grows (d d' : Database) : Prop :=
  ∀ name t, dv_tables d !! name = Some t → ∃ t', dv_tables d' !! name = Some t' ∧ extends t t'.

#[local] Lemma Forall2_same {A} (R : relation A) `{!Reflexive R} (l : list A) : Forall2 R l l.
Proof. induction l; constructor; auto. Qed.

#[export] Instance extends_refl : Reflexive extends.
Proof. intros t. split; [done|]. exists (tb_rows t), []. rewrite app_nil_r. split; [done|]. apply Forall2_same, _. Qed.

#[export] Instance extends_trans : Transitive extends.
Proof.
  intros t t' t'' [Hc (k & a & Hr & Hk)] [Hc' (k' & a' & Hr' & Hk')]. split; [by etrans|].
  rewrite Hr in Hk'. apply Forall2_app_inv_l in Hk' as (k1 & k2 & H1 & H2 & ->).
  exists k1, (k2 ++ a'). rewrite app_assoc. split; [done|].
  by trans k.
Qed.

#[export] Instance grows_refl : Reflexive grows.
Proof. intros d name t Ht. by exists t. Qed.

#[export] Instance grows_trans : Transitive grows.
Proof.
  intros d d' d'' H H' name t Ht. destruct (H _ _ Ht) as (t' & Ht' & He). destruct (H' _ _ Ht') as (t'' & ? & ?).
  exists t''. split; [done|]. by etrans.
Qed.

Lemma grows_put (d : Database) (name : str) (t : Table) :
  (∀ old, dv_tables d !! name = Some old → extends old t) → grows d (put_table name t d).
Proof.
  intros H n o Ho. cbn. destruct (decide (n = name)) as [->|Hn].
  - rewrite lookup_insert_eq. eauto.
  - rewrite lookup_insert_ne by done. by exists o.
Qed.

Lemma same_tables (d d' : Database) : database_wf d → dv_tables d' = dv_tables d → grows d d' ∧ database_wf d'.
Proof. intros Hd He. unfold grows, database_wf. rewrite He. split; [|done]. intros name t Ht. by exists t. Qed.

Lemma wf_put (d : Database) (name : str) (t : Table) : database_wf d → table_wf t → database_wf (put_table name t d).
Proof. intros Hd Ht. by apply map_Forall_insert_2. Qed.

(** ** Statements *)

Lemma extends_add_column (t : Table) (c : str) (v : SqlValue) :
  table_wf t → c ∉ tb_columns t → extends t (mkTable (tb_columns t ++ [c]) (insert c v <$> tb_rows t)).
Proof.
  intros Ht Hc. split; [by apply prefix_app_r|]. eexists _, []. rewrite app_nil_r. split; [done|]. cbn.
  apply Forall2_fmap_r. unfold table_wf in Ht. induction Ht as [|r rs Hr _ IH]; constructor; [|done].
  apply insert_subseteq. apply eq_None_not_Some. naive_solver.
Qed.

Lemma wf_add_column (t : Table) (c : str) (v : SqlValue) :
  table_wf t → table_wf (mkTable (tb_columns t ++ [c]) (insert c v <$> tb_rows t)).
Proof.
  intros Ht. apply list.Forall_fmap. eapply list.Forall_impl; [exact Ht|]. intros r Hr c' Hc'. cbn in *.
  apply elem_of_app. destruct (decide (c' = c)) as [->|]; [right; set_solver|].
  rewrite lookup_insert_ne in Hc' by done. left. auto.
Qed.

Lemma copied_columns (cols from_cols : list str) (r : SqlRow) (c : str) :
  is_Some (copied cols from_cols r !! c) → c ∈ cols.
Proof.
  intros [v Hv]. apply elem_of_list_to_map_2 in Hv. by apply elem_of_zip_l in Hv.
Qed.

Lemma exec_grows (s : Statement) (d d' : Database) :
  database_wf d → exec s d = Some d' → grows d d' ∧ database_wf d'.
Proof.
  intros Hd. destruct s as [quiet name cols|quiet name tbl cols|tbl c v|into cols from fcols keys|v]; cbn; intros H.
  - destruct (dv_tables d !! name) as [t|] eqn:Ht; [by destruct quiet; simplify_eq|]. simplify_eq. split.
    + apply grows_put. intros old Ho. congruence.
    + by apply wf_put; [|constructor].
  - repeat (case_match; simplify_option_eq; try done); by apply same_tables.
  - destruct (dv_tables d !! tbl) as [t|] eqn:Ht; [|done]. cbn in H. case_bool_decide as Hc; [done|]. simplify_eq.
    assert (table_wf t) by (by eapply Hd). split.
    + apply grows_put. intros old Ho. simplify_eq. by apply extends_add_column.
    + apply wf_put; [done|]. by apply wf_add_column.
  - destruct (dv_tables d !! into) as [t|] eqn:Ht; [|done]. destruct (dv_tables d !! from) as [f|]; [|done]. cbn in H.
    destruct (_ && _) eqn:Hcols; [|done]. destruct (keys_ok _ _ _); [|done]. simplify_eq.
    assert (table_wf t) as Hwf by (by eapply Hd). apply andb_true_iff in Hcols as [Hcols _]. split.
    + apply grows_put. intros old Ho. simplify_eq. split; [done|]. eexists _, _. split; [done|]. apply Forall2_same, _.
    + apply wf_put; [done|]. apply list.Forall_app. split; [done|]. apply list.Forall_fmap, list.Forall_forall.
      intros r _ c Hc. apply copied_columns in Hc. unfold has_columns in Hcols. rewrite forallb_forall in Hcols.
      apply list_elem_of_In, Hcols in Hc. by apply bool_decide_eq_true_1 in Hc.
  - simplify_eq. by apply same_tables.
Qed.

Lemma batch_grows (ss : list Statement) (d : Database) :
  database_wf d → grows d (execute_batch ss d).2 ∧ database_wf (execute_batch ss d).2.
Proof.
  revert d. induction ss as [|s ss IH]; intros d Hd; cbn; [done|].
  destruct (exec s d) as [d1|] eqn:He; [|done]. destruct (exec_grows s d d1 Hd He) as [Hg Hw].
  destruct (IH d1 Hw). split; [by etrans|done].
Qed.

Lemma transaction_grows (ss : list Statement) (d : Database) :
  database_wf d → grows d (transaction ss d).2 ∧ database_wf (transaction ss d).2.
Proof.
  intros Hd. unfold transaction. pose proof (batch_grows ss d Hd) as H. destruct (execute_batch ss d) as [[] d']; [done|].
  by split.
Qed.

(** ** Steps *)

Lemma upgrade_grows (k : nat) (n : Z) (d : Database) :
  database_wf d → grows d (upgrade k n d).2 ∧ database_wf (upgrade k n d).2.
Proof.
  revert n d. induction k as [|k IH]; intros n d Hd; cbn; [done|].
  destruct (_ =? _)%Z; [|by apply IH]. destruct (migration n) as [ss|]; [|by apply IH].
  pose proof (transaction_grows (ss ++ [SetVersion (n + 1)]) d Hd) as [Hg Hw].
  destruct (transaction _ _) as [[] d1]; [|done]. destruct (IH (n + 1)%Z d1 Hw). split; [by etrans|done].
Qed.

Lemma upgrade_all_grows (d : Database) : database_wf d → grows d (upgrade_all d).2 ∧ database_wf (upgrade_all d).2.
Proof.
  intros Hd. unfold upgrade_all. destruct (_ <? _)%Z; [done|]. pose proof (upgrade_grows 8 1 d Hd) as H.
  destruct (upgrade 8 1 d) as [[] d1]; [|done]. cbn [negb]. by destruct (_ <? _)%Z.
Qed.

Lemma baseline_grows (d : Database) : database_wf d → grows d (baseline d).2 ∧ database_wf (baseline d).2.
Proof.
  intros Hd. unfold baseline. destruct (initialised d).
  - destruct (adopt_legacy d); [by apply same_tables|done].
  - pose proof (batch_grows SCHEMA d Hd) as [Hg Hw]. destruct (execute_batch SCHEMA d) as [[] d1]; [|done].
    destruct (same_tables d1 (set_version BASELINE_VERSION d1)); [done..|]. split; [by etrans|done].
Qed.

Lemma migrate_grows (d : Database) : database_wf d → grows d (migrate d).2 ∧ database_wf (migrate d).2.
Proof.
  intros Hd. unfold migrate. destruct (_ =? _)%Z; [|by apply upgrade_all_grows].
  pose proof (baseline_grows d Hd) as [Hg Hw]. destruct (baseline d) as [[u|e] d1]; [|done].
  destruct (upgrade_all_grows d1 Hw). split; [by etrans|done].
Qed.

(** ** Versions *)

Lemma batch_app (ss ss' : list Statement) (d : Database) :
  execute_batch (ss ++ ss') d =
  let '(ok, d1) := execute_batch ss d in if ok then execute_batch ss' d1 else (false, d1).
Proof. revert d. induction ss as [|s ss IH]; intros d; cbn; [done|]. by destruct (exec s d). Qed.

Lemma step_version (ss : list Statement) (n : Z) (d d' : Database) :
  transaction (ss ++ [SetVersion n]) d = (true, d') → dv_version d' = n.
Proof.
  unfold transaction. rewrite batch_app. destruct (execute_batch ss d) as [[] d1]; cbn; intros ?; by simplify_eq.
Qed.

Lemma upgrade_app (k k' : nat) (n : Z) (d : Database) :
  upgrade (k + k') n d =
  let '(ok, d1) := upgrade k n d in if ok then upgrade k' (n + Z.of_nat k) d1 else (false, d1).
Proof.
  revert n d. induction k as [|k IH]; intros n d.
  - cbn [Nat.add upgrade]. by rewrite Z.add_0_r.
  - cbn [Nat.add upgrade]. replace (n + Z.of_nat (S k))%Z with (n + 1 + Z.of_nat k)%Z by lia.
    destruct (_ =? _)%Z; [|apply IH]. destruct (migration n); [|apply IH].
    destruct (transaction _ _) as [[] d1]; [apply IH|done].
Qed.

(** Steps behind the version of a database, or before it, do nothing. *)
Lemma upgrade_past (k : nat) (n : Z) (d : Database) :
  (dv_version d < n ∨ n + Z.of_nat k <= dv_version d)%Z → upgrade k n d = (true, d).
Proof.
  revert n. induction k as [|k IH]; intros n Hn; cbn; [done|].
  rewrite (proj2 (Z.eqb_neq _ _)) by lia. apply IH. lia.
Qed.

Lemma upgrade_version (k : nat) (n : Z) (d d' : Database) :
  (1 <= n)%Z → (n + Z.of_nat k <= SCHEMA_VERSION)%Z → upgrade k n d = (true, d') →
  (n <= dv_version d < n + Z.of_nat k)%Z → dv_version d' = (n + Z.of_nat k)%Z.
Proof.
  revert n d. induction k as [|k IH]; intros n d Hn Hk; [lia|]. cbn [upgrade].
  destruct (_ =? _)%Z eqn:Hv; [apply Z.eqb_eq in Hv|apply Z.eqb_neq in Hv]; intros H Hr.
  - destruct (migration n) as [ss|] eqn:Hm.
    + destruct (transaction _ _) as [[] d1] eqn:Ht; [|done]. apply step_version in Ht.
      destruct k as [|k]; [cbn in H; simplify_eq; lia|]. rewrite (IH (n + 1)%Z d1); [lia..|done|lia].
    + exfalso. unfold SCHEMA_VERSION in Hk.
      assert (n = 1 ∨ n = 2 ∨ n = 3 ∨ n = 4 ∨ n = 5 ∨ n = 6 ∨ n = 7 ∨ n = 8)%Z as Hcases by lia.
      destruct_or! Hcases; rewrite Hcases in Hm; discriminate Hm.
  - rewrite (IH (n + 1)%Z d); [lia..|done|lia].
Qed.

Lemma upgrade_all_version (d d' : Database) : upgrade_all d = (Ok tt, d') → dv_version d' = SCHEMA_VERSION.
Proof.
  unfold upgrade_all. destruct (Z.ltb_spec SCHEMA_VERSION (dv_version d)) as [|Hv]; [done|].
  destruct (upgrade 8 1 d) as [ok d1] eqn:Hu. destruct ok; [cbn|done].
  destruct (Z.ltb_spec (dv_version d1) SCHEMA_VERSION) as [|Hv']; [done|]. intros ?; simplify_eq.
  unfold SCHEMA_VERSION in *.
  destruct (decide (dv_version d < 1 ∨ 9 <= dv_version d)%Z) as [Hout|Hin].
  - rewrite upgrade_past in Hu by (cbn; lia). simplify_eq. lia.
  - apply (upgrade_version 8 1 d d'); unfold SCHEMA_VERSION; [lia..|done|lia].
Qed.

Lemma migrate_version (d d' : Database) : migrate d = (Ok tt, d') → dv_version d' = SCHEMA_VERSION.
Proof.
  unfold migrate. destruct (_ =? _)%Z; [|apply upgrade_all_version].
  destruct (baseline d) as [[u|e] d1]; [|done]. apply upgrade_all_version.
Qed.

(** A database of this build's version is left alone. *)
Lemma migrate_current (d : Database) : dv_version d = SCHEMA_VERSION → migrate d = (Ok tt, d).
Proof.
  intros Hv. unfold migrate, upgrade_all. rewrite (upgrade_past 8 1 d) by (rewrite Hv; unfold SCHEMA_VERSION; lia).
  by rewrite Hv.
Qed.

(** After any number of the steps, the rest of them is what it was. *)
Lemma upgrade_resumes (k : nat) (d d1 : Database) :
  (k <= 8)%nat → (1 <= dv_version d)%Z → upgrade k 1 d = (true, d1) → upgrade 8 1 d1 = upgrade 8 1 d.
Proof.
  intros Hk Hd Hu. replace 8%nat with (k + (8 - k))%nat by lia. rewrite !upgrade_app, Hu.
  rewrite upgrade_past; [done|].
  destruct (decide (1 + Z.of_nat k <= dv_version d)%Z) as [Hpast|Hin].
  - rewrite upgrade_past in Hu by lia. simplify_eq. lia.
  - apply upgrade_version in Hu; unfold SCHEMA_VERSION; lia.
Qed.

Lemma upgrade_version_range (k : nat) (d d1 : Database) :
  (k <= 8)%nat → (1 <= dv_version d <= SCHEMA_VERSION)%Z → upgrade k 1 d = (true, d1) →
  (1 <= dv_version d1 <= SCHEMA_VERSION)%Z.
Proof.
  unfold SCHEMA_VERSION. intros Hk Hd Hu. destruct (decide (1 + Z.of_nat k <= dv_version d)%Z) as [Hpast|Hin].
  - rewrite upgrade_past in Hu by lia. by simplify_eq.
  - apply upgrade_version in Hu; unfold SCHEMA_VERSION; lia.
Qed.

(** ** Interruptions *)

(** The database a migration has once it has a version. *)
Definition opened (d : Database) : result () MigrateError * Database :=
  if (dv_version d =? 0)%Z then baseline d else (Ok tt, d).

Lemma migrate_opened (d : Database) :
  migrate d = match opened d with (Ok _, d) => upgrade_all d | (Err e, d) => (Err e, d) end.
Proof. unfold migrate, opened. by destruct (_ =? _)%Z. Qed.

Lemma opened_version (d d0 : Database) : opened d = (Ok tt, d0) → dv_version d0 ≠ 0%Z.
Proof.
  unfold opened, baseline. destruct (Z.eqb_spec (dv_version d) 0); [|by intros ?; simplify_eq].
  destruct (initialised d).
  - destruct (adopt_legacy d) as [[]|]; [|done]. by intros ?; simplify_eq.
  - destruct (execute_batch SCHEMA d) as [[] d1]; [|done]. by intros ?; simplify_eq.
Qed.

Lemma migrate_versioned (d : Database) : dv_version d ≠ 0%Z → migrate d = upgrade_all d.
Proof. intros Hv. unfold migrate. by rewrite (proj2 (Z.eqb_neq _ _)). Qed.

Lemma upgrade_all_resumes (k : nat) (d d1 : Database) :
  (k <= 8)%nat → dv_version d ≠ 0%Z → upgrade k 1 d = (true, d1) → migrate d1 = upgrade_all d.
Proof.
  intros Hk Hd Hu. destruct (decide (1 <= dv_version d <= SCHEMA_VERSION)%Z) as [Hin|Hout].
  - pose proof (upgrade_version_range k d d1 Hk Hin Hu) as Hr. rewrite migrate_versioned by lia.
    unfold upgrade_all. rewrite (upgrade_resumes k d d1) by (done || lia).
    by rewrite !(proj2 (Z.ltb_ge _ _)) by lia.
  - rewrite upgrade_past in Hu by (unfold SCHEMA_VERSION in Hout; lia). simplify_eq. by apply migrate_versioned.
Qed.

(** ** Refusals *)

Lemma upgrade_all_refused (d : Database) (e : MigrateError) :
  (upgrade_all d).1 = Err e → e ≠ SqlFailed → (upgrade_all d).2 = d ∧ (dv_version d < 1 ∨ SCHEMA_VERSION < dv_version d)%Z.
Proof.
  unfold upgrade_all. destruct (Z.ltb_spec SCHEMA_VERSION (dv_version d)) as [Hv|Hv]; [by auto|].
  destruct (upgrade 8 1 d) as [[] d1] eqn:Hu; cbn [negb]; [|cbn; congruence].
  destruct (Z.ltb_spec (dv_version d1) SCHEMA_VERSION) as [Hv'|]; [|done]. intros _ _. unfold SCHEMA_VERSION in *.
  destruct (decide (dv_version d < 1 ∨ 9 <= dv_version d)%Z) as [Hout|Hin].
  - rewrite upgrade_past in Hu by (cbn; lia). simplify_eq. split; [done|lia].
  - apply upgrade_version in Hu; unfold SCHEMA_VERSION; lia.
Qed.

Lemma migrate_refused (d : Database) (e : MigrateError) :
  (migrate d).1 = Err e → e ≠ SqlFailed → (migrate d).2 = d.
Proof.
  unfold migrate. destruct (Z.eqb_spec (dv_version d) 0) as [H0|H0]; [|by intros; eapply upgrade_all_refused].
  unfold baseline. destruct (initialised d); [destruct (adopt_legacy d); [|done]|].
  - intros H He. destruct (upgrade_all_refused _ _ H He) as [_ Hv]. unfold SCHEMA_VERSION, set_version, BASELINE_VERSION in Hv. cbn in Hv. lia.
  - destruct (execute_batch SCHEMA d) as [[] d1]; [|cbn; congruence].
    intros H He. destruct (upgrade_all_refused _ _ H He) as [_ Hv]. unfold SCHEMA_VERSION, set_version, BASELINE_VERSION in Hv. cbn in Hv. lia.
Qed.

(** ** A first start that is cut off *)

Definition first_start (k : nat) : Database := (execute_batch (take k SCHEMA) empty_database).2.

(** A database that a start refuses and leaves as it was is refused for ever. *)
Lemma stuck_forever (d : Database) (e : MigrateError) :
  migrate (migrate d).2 = (Err e, (migrate d).2) → (migrate d).1 = Err e →
  ∀ n, (migrate (Nat.iter n (λ d, (migrate d).2) d)).1 = Err e.
Proof.
  intros Hs He n. destruct n as [|n]; [done|].
  assert (Nat.iter (S n) (λ d, (migrate d).2) d = (migrate d).2) as ->; [|by rewrite Hs].
  induction n as [|n IH]; [done|].
  exact (eq_trans (f_equal (λ d, (migrate d).2) IH) (f_equal snd Hs)).
Qed.

(** ** What is promised *)

(** C39: Whatever opening a database comes to, every table of it is still there with every row and every value in its
    place.  When it succeeds the database has this build's version and opening it again does nothing; when it refuses
    a layout or a version, nothing was changed.  An upgrade cut off between any two of its steps ends, when it is begun
    again, as the uninterrupted one does. *)
Theorem migrating_loses_nothing (d : Database) :
  database_wf d →
  grows d (migrate d).2 ∧
  match (migrate d).1 with
  | Ok _ => dv_version (migrate d).2 = SCHEMA_VERSION ∧ migrate (migrate d).2 = (Ok tt, (migrate d).2)
  | Err SqlFailed => True
  | Err _ => (migrate d).2 = d
  end ∧
  ∀ k d0 d1, (k <= 8)%nat → opened d = (Ok tt, d0) → upgrade k 1 d0 = (true, d1) → migrate d1 = migrate d.
Proof.
  intros Hd. split; [by apply migrate_grows|]. split.
  - destruct (migrate d) as [[[]|e] d'] eqn:Hm.
    + apply migrate_version in Hm. split; [done|]. by apply migrate_current.
    + pose proof (migrate_refused d e) as Hr. rewrite Hm in Hr. destruct e; [done|..]; by apply Hr.
  - intros k d0 d1 Hk Ho Hu. rewrite (migrate_opened d), Ho. eapply upgrade_all_resumes; [done| |done].
    by eapply opened_version.
Qed.

(** A database as the first version left it, with an operation in it. *)
Definition old_database : Database :=
  let d := (execute_batch SCHEMA empty_database).2 in
  put_table (lit "ops") (mkTable (lit <$> ["blip_id"; "revision"; "wave_id"; "author"; "timestamp"; "delta"]%string)
    [{[lit "blip_id" := SText (lit "b1"); lit "revision" := SInt 1]}]) d.

Lemma old_database_wf : database_wf old_database.
Proof.
  assert (forallb (λ p : str * Table, forallb (λ r, forallb (λ e : str * SqlValue, bool_decide (e.1 ∈ tb_columns p.2))
      (map_to_list r)) (tb_rows p.2)) (map_to_list (dv_tables old_database)) = true) as H by (vm_compute; reflexivity).
  intros name t Ht. rewrite forallb_forall in H. apply elem_of_map_to_list, list_elem_of_In, H in Ht.
  rewrite forallb_forall in Ht. apply list.Forall_forall. intros r Hr c [v Hv].
  apply list_elem_of_In, Ht in Hr. rewrite forallb_forall in Hr.
  apply elem_of_map_to_list, list_elem_of_In, Hr in Hv. by apply bool_decide_eq_true_1 in Hv.
Qed.

Lemma migrating_loses_nothing_witness :
  grows old_database (migrate old_database).2 ∧ dv_version (migrate old_database).2 = 9%Z ∧
  migrate (upgrade 3 1 (opened old_database).2).2 = migrate old_database.
Proof.
  destruct (migrating_loses_nothing old_database old_database_wf) as (Hg & _ & Hr).
  split; [exact Hg|]. split; [vm_compute; reflexivity|].
  apply (Hr 3%nat (opened old_database).2 _); [lia|vm_compute; reflexivity..].
Defined.

(** C37: The statements of a first start are not one transaction.  Cut off after any of them but the last, they leave a
    database that no later start accepts: its [users] table says that it was initialised. *)
Theorem interrupted_first_start (k : nat) :
  (0 < k < 17)%nat →
  ∃ e, ∀ n, (migrate (Nat.iter n (λ d, (migrate d).2) (first_start k))).1 = Err e.
Proof.
  intros Hk.
  assert (∃ e, migrate (migrate (first_start k)).2 = (Err e, (migrate (first_start k)).2) ∧
               (migrate (first_start k)).1 = Err e) as (e & ? & ?); [|exists e; by apply stuck_forever].
  destruct k as [|k]; [lia|].
  do 16 (destruct k as [|k]; [clear; eexists; split; vm_compute; reflexivity|]). lia.
Qed.

Lemma interrupted_first_start_witness :
  dv_version (first_start 5) = 0%Z ∧ ∃ e, ∀ n, (migrate (Nat.iter n (λ d, (migrate d).2) (first_start 5))).1 = Err e.
Proof. split; [vm_compute; reflexivity|]. apply (interrupted_first_start 5). lia. Defined.
