(* ===== verification/Settings.v ===== *)
(** * Settings from the environment ([crates/gal-server/src/config.rs])

    The environment is a function from names to values, without the variables that are not Unicode.  The parsing of
    IP addresses is that of [core::net].  A server starts only with settings it can read: no misspelt switch is taken
    for off, and a provider is only ever reached over TLS or on this machine. *)

From S2P Require Import Prelude.
From S2P Require Import Strings Snippet.

From S2P Require Import Auth.
From S2P Require Import Accounts.
From S2P Require Import Oidc.

(** ** Strings *)

Definition ascii_lower (s : str) : str := to_ascii_lowercase <$> s.
Definition eq_ignore_ascii_case (a b : str) : bool := str_eqb (ascii_lower a) (ascii_lower b).

(** [str::rsplit_once]: the last occurrence. *)
Definition rsplit_once (sep : char) (s : str) : option (str * str) :=
  '(after, before) ← split_once sep (reverse s); Some (reverse before, reverse after).

(** The first piece of [str::split] at any of several characters. *)
Fixpoint split_first (seps : list char) (s : str) : str :=
  match s with
  | [] => []
  | c :: s => if bool_decide (c ∈ seps) then [] else c :: split_first seps s
  end.

(** [str::split_whitespace]. *)
Fixpoint whitespace_pieces (s : str) : list str :=
  match s with
  | [] => [[]]
  | c :: s =>
      if is_whitespace c then [] :: whitespace_pieces s
      else match whitespace_pieces s with l :: ls => (c :: l) :: ls | [] => [[c]] end
  end.
Definition split_whitespace (s : str) : list str := filter (λ w, w ≠ []) (whitespace_pieces s).

(** ** IP addresses *)

Inductive IpAddr :=
| V4 (octets : list N)
| V6 (segments : list N).

(** [char::to_digit]. *)
Definition to_digit (radix : N) (c : char) : option N :=
  let d :=
    if is_ascii_digit c then Some (c - 48)%N
    else if is_ascii_lowercase c then Some (c - 87)%N
    else if is_ascii_uppercase c then Some (c - 55)%N
    else None in
  d ← d; if (d <? radix)%N then Some d else None.

(** [Parser::read_number]: [None] leaves the input where it was. *)
Fixpoint read_digits (radix : N) (max_digits : nat) (s : str) (result : N) (count : nat) : option (N * nat * str) :=
  match s with
  | [] => Some (result, count, s)
  | c :: rest =>
      match to_digit radix c with
      | None => Some (result, count, s)
      | Some d =>
          if (max_digits <? S count)%nat then None
          else read_digits radix max_digits rest (result * radix + d) (S count)
      end
  end.

Definition read_number (radix : N) (max_digits : nat) (allow_zero_prefix : bool) (limit : N) (s : str) : option (N * str) :=
  '(result, count, rest) ← read_digits radix max_digits s 0 0;
  let has_leading_zero := bool_decide (head s = Some 48%N) in
  if (count =? 0)%nat then None
  else if negb allow_zero_prefix && has_leading_zero && (1 <? count)%nat then None
  else if (result <? limit)%N then Some (result, rest) else None.

Definition read_separator {A} (sep : char) (index : nat) (inner : str → option (A * str)) (s : str) : option (A * str) :=
  if (0 <? index)%nat then
    match s with c :: s => if (c =? sep)%N then inner s else None | [] => None end
  else inner s.

Fixpoint read_octets (i n : nat) (s : str) : option (list N * str) :=
  match n with
  | O => Some ([], s)
  | S n =>
      '(o, s) ← read_separator 46 i (read_number 10 3 false 256) s;
      '(os, s) ← read_octets (S i) n s;
      Some (o :: os, s)
  end.

Definition read_ipv4_addr (s : str) : option (list N * str) := read_octets 0 4 s.

(** [read_groups]: the groups read of at most [limit], [i] of them already, and whether an IPv4 address ended them. *)
Fixpoint read_groups (n i limit : nat) (s : str) : list N * bool * str :=
  match n with
  | O => ([], false, s)
  | S n =>
      match (if (i <? limit - 1)%nat then read_separator 58 i read_ipv4_addr s else None) with
      | Some ([one; two; three; four], s) => ([one * 256 + two; three * 256 + four]%N, true, s)
      | _ =>
          match read_separator 58 i (read_number 16 4 true 65536) s with
          | Some (g, s) => let '(gs, ipv4, s) := read_groups n (S i) limit s in (g :: gs, ipv4, s)
          | None => ([], false, s)
          end
      end
  end.

Definition read_ipv6_addr (s : str) : option (list N * str) :=
  let '(front, front_ipv4, s) := read_groups 8 0 8 s in
  if (length front =? 8)%nat then Some (front, s)
  else if front_ipv4 then None
  else
    match s with
    | 58%N :: 58%N :: s =>
        let limit := (8 - (length front + 1))%nat in
        let '(back, _, s) := read_groups limit 0 limit s in
        Some (front ++ replicate (8 - length front - length back) 0%N ++ back, s)
    | _ => None
    end.

(** [str::parse::<IpAddr>]: all of the text. *)
Definition parse_ip (s : str) : option IpAddr :=
  match read_ipv4_addr s with
  | Some (octets, []) => Some (V4 octets)
  | Some _ => None
  | None => match read_ipv6_addr s with Some (segments, []) => Some (V6 segments) | _ => None end
  end.

Definition is_loopback (ip : IpAddr) : bool :=
  match ip with
  | V4 octets => bool_decide (head octets = Some 127%N)
  | V6 segments => bool_decide (segments = [0; 0; 0; 0; 0; 0; 0; 1]%N)
  end.

(** [str::parse::<u16>]. *)
Definition parse_u16 (s : str) : option N :=
  let digits := match s with 43%N :: s => s | _ => s end in
  match digits with
  | [] => None
  | _ => n ← digits_value 0 digits; if (n <? 65536)%Z then Some (Z.to_N n) else None
  end.

(** ** Helpers *)

Definition Env := str → option str.

Inductive SettingError :=
| NotAnAddress (value : str)
| NotAPort (value : str)
| NotABoolean (name value : str)
| ShortToken
| Missing (name : str)
| NotAWebUrl (name url : str)
| PlainHttp (name host : str)
| NoOpenid.

Definition non_empty (env : Env) (key : str) : option str :=
  value ← env key; let value := trim value in if str_eqb value [] then None else Some value.

Definition TRUE_SPELLINGS : list str := lit <$> ["1"; "true"; "yes"; "on"]%string.
Definition FALSE_SPELLINGS : list str := lit <$> ["0"; "false"; "no"; "off"; ""]%string.

Definition parse_bool (name value : str) : result bool SettingError :=
  let spelling := ascii_lower (trim value) in
  if bool_decide (spelling ∈ TRUE_SPELLINGS) then Ok true
  else if bool_decide (spelling ∈ FALSE_SPELLINGS) then Ok false
  else Err (NotABoolean name spelling).

Definition scheme_and_host (url : str) : option (str * str) :=
  '(scheme, rest) ← split_once_str (lit "://") url;
  if negb (bool_decide (scheme ∈ [lit "http"; lit "https"])) then None
  else
    let authority := split_first [47; 63; 35]%N rest in
    let authority := match rsplit_once 64 authority with Some (_, h) => h | None => authority end in
    host ← (match strip_prefix authority [91%N] with
            | Some rest => '(host, _) ← split_once 93 rest; Some host
            | None => Some (split_first [58%N] authority)
            end);
    if str_eqb host [] then None else Some (scheme, host).

Definition host_of (url : str) : option str := '(_, host) ← scheme_and_host url; Some host.

Definition is_loopback_host (host : str) : bool :=
  eq_ignore_ascii_case host (lit "localhost") || match parse_ip host with Some ip => is_loopback ip | None => false end.

Definition require_web_url (name url : str) : result () SettingError :=
  match scheme_and_host url with
  | None => Err (NotAWebUrl name url)
  | Some (scheme, host) =>
      if str_eqb scheme (lit "http") && negb (is_loopback_host host) then Err (PlainHttp name host) else Ok tt
  end.

(** ** The settings *)

Record Settings := mkSettings {
  st_ip : IpAddr;
  st_port : N;
  st_database : str;
  st_config : Config;
  st_log_json : bool;
  st_oidc : option OidcConfig;
}.

Definition settings_default : Settings := mkSettings (V4 [127; 0; 0; 1]%N) 8080 (lit "gal.db") config_default false None.

(** [if let Ok(value) = env::var(key)], and the default without. *)
Definition setting {A} (env : Env) (key : string) (default : A) (read : str → result A SettingError) : result A SettingError :=
  match env (lit key) with Some value => read value | None => Ok default end.

Definition bool_setting (env : Env) (key : string) (default : bool) : result bool SettingError :=
  setting env key default (parse_bool (lit key)).

Definition required (env : Env) (key : string) : result str SettingError :=
  match non_empty env (lit key) with Some value => Ok value | None => Err (Missing (lit key)) end.

Definition trim_end_slashes (s : str) : str := trim_end_by (λ c, (c =? 47)%N) s.

Definition origins (value : str) : list str :=
  filter (λ o, o ≠ []) ((λ o, ascii_lower (trim_end_slashes (trim o))) <$> split_on 44 value).

Definition metrics_setting (value : str) : result (option str) SettingError :=
  let value := trim value in
  if str_eqb value [] then Ok None else if (str_len value <? 16)%N then Err ShortToken else Ok (Some value).

(** [OidcConfig::from_env]. *)
Definition oidc_from_env (env : Env) : result (option OidcConfig) SettingError :=
  match non_empty env (lit "GAL_OIDC_ISSUER") with
  | None => Ok None
  | Some issuer =>
      let issuer := trim_end_slashes issuer in
      _ <-? require_web_url (lit "GAL_OIDC_ISSUER") issuer;
      client_id <-? required env "GAL_OIDC_CLIENT_ID";
      client_secret <-? required env "GAL_OIDC_CLIENT_SECRET";
      redirect_url <-? required env "GAL_OIDC_REDIRECT_URL";
      _ <-? require_web_url (lit "GAL_OIDC_REDIRECT_URL") redirect_url;
      let scopes := default (lit "openid profile") (non_empty env (lit "GAL_OIDC_SCOPES")) in
      if negb (bool_decide (lit "openid" ∈ split_whitespace scopes)) then Err NoOpenid
      else
        let label := default (default (lit "your provider") (host_of issuer)) (non_empty env (lit "GAL_OIDC_LABEL")) in
        Ok (Some (mkOidcConfig issuer client_id client_secret redirect_url scopes label))
  end.

(** [Config::from_env]. *)
Definition from_env (env : Env) : result Settings SettingError :=
  ip <-? setting env "GAL_HOST" (st_ip settings_default)
           (λ host, match parse_ip host with Some ip => Ok ip | None => Err (NotAnAddress host) end);
  port <-? setting env "GAL_PORT" (st_port settings_default)
             (λ port, match parse_u16 port with Some n => Ok n | None => Err (NotAPort port) end);
  database <-? setting env "GAL_DB" (st_database settings_default) Ok;
  secure <-? bool_setting env "GAL_SECURE_COOKIES" (secure_cookies config_default);
  open <-? bool_setting env "GAL_OPEN_REGISTRATION" (open_registration config_default);
  allowed <-? setting env "GAL_ALLOWED_ORIGINS" (allowed_origins config_default) (λ value, Ok (origins value));
  forwarded <-? bool_setting env "GAL_TRUST_FORWARDED_FOR" (trust_forwarded_for config_default);
  hsts <-? bool_setting env "GAL_HSTS" (hsts config_default);
  token <-? setting env "GAL_METRICS_TOKEN" (metrics_token config_default) metrics_setting;
  log_json <-? bool_setting env "GAL_LOG_JSON" (st_log_json settings_default);
  oidc <-? oidc_from_env env;
  Ok (mkSettings ip port database (mkConfig secure open allowed forwarded hsts token) log_json oidc).

(** The examples of the source. *)
Example urls_split :
  scheme_and_host (lit "https://git.example.com/path?q=1#f") = Some (lit "https", lit "git.example.com") ∧
  scheme_and_host (lit "http://[::1]:3000/x") = Some (lit "http", lit "::1") ∧
  scheme_and_host (lit "https://user@example.com/") = Some (lit "https", lit "example.com") ∧
  scheme_and_host (lit "ftp://example.com") = None ∧ scheme_and_host (lit "https://") = None.
Proof. split_and!; vm_compute; reflexivity. Qed.

Example loopbacks :
  is_loopback_host (lit "LOCALHOST") = true ∧ is_loopback_host (lit "127.9.9.9") = true ∧
  is_loopback_host (lit "::1") = true ∧ is_loopback_host (lit "127.0.0.1.evil.net") = false ∧
  is_loopback_host (lit "localhost.example.com") = false ∧ is_loopback_host (lit "::ffff:127.0.0.1") = false.
Proof. split_and!; vm_compute; reflexivity. Qed.

Example addresses :
  parse_ip (lit "1::2:10.0.0.255") = Some (V6 [1; 0; 0; 0; 0; 2; 2560; 255]%N) ∧ parse_ip (lit "01.2.3.4") = None ∧
  parse_ip (lit "1.2.3.256") = None ∧ parse_ip (lit "::") = Some (V6 (replicate 8 0%N)) ∧
  parse_ip (lit "1:2:3:4:5:6:7:8") = Some (V6 [1; 2; 3; 4; 5; 6; 7; 8]%N) ∧ parse_ip (lit "12345::") = None.
Proof. split_and!; vm_compute; reflexivity. Qed.

(** ** Splitting *)

Lemma split_once_none (sep : char) (s : str) : split_once sep s = None ↔ sep ∉ s.
Proof.
  induction s as [|c s IH]; cbn; [split; [intros _; apply not_elem_of_nil|done]|].
  destruct (N.eqb_spec c sep) as [->|Hc]; [split; [done|set_solver]|].
  destruct (split_once sep s) as [[a b]|]; cbn; [|set_solver].
  split; [done|]. intros Hn. destruct (IH) as [_ IH']. discriminate IH'. set_solver.
Qed.

Lemma rsplit_once_some (sep : char) (s before after : str) :
  rsplit_once sep s = Some (before, after) ↔ s = before ++ sep :: after ∧ sep ∉ after.
Proof.
  unfold rsplit_once. destruct (split_once sep (reverse s)) as [[a b]|] eqn:E; cbn.
  - apply split_once_spec in E as [E Ha]. apply (f_equal reverse) in E.
    rewrite reverse_involutive, reverse_app, reverse_cons, <- app_assoc in E. cbn in E. split.
    + intros [= <- <-]. split; [done|]. set_solver.
    + intros [-> Hn]. f_equal.
      assert (split_once sep (reverse (before ++ sep :: after)) = Some (reverse after, reverse before)) as H1.
      { apply split_once_spec. rewrite reverse_app, reverse_cons, <- app_assoc. split; [done|set_solver]. }
      assert (split_once sep (reverse (before ++ sep :: after)) = Some (a, b)) as H2.
      { apply split_once_spec. rewrite E, reverse_app, reverse_cons, <- app_assoc, !reverse_involutive. done. }
      rewrite H1 in H2. simplify_eq. by rewrite !reverse_involutive.
  - apply split_once_none in E. split; [done|]. intros [-> _]. set_solver.
Qed.

Lemma rsplit_once_none (sep : char) (s : str) : rsplit_once sep s = None ↔ sep ∉ s.
Proof.
  unfold rsplit_once. destruct (split_once sep (reverse s)) as [[a b]|] eqn:E; cbn.
  - apply split_once_spec in E as [E Ha]. split; [done|]. intros Hn. exfalso. apply Hn, elem_of_reverse. rewrite E. set_solver.
  - apply split_once_none in E. set_solver.
Qed.

(** The first piece and what is left: nothing, or a separator and the rest. *)
Lemma split_first_exact (seps : list char) (s piece : str) :
  split_first seps s = piece ↔
  ∃ tail, s = piece ++ tail ∧ Forall (λ c, c ∉ seps) piece ∧ (tail = [] ∨ (∃ c rest, tail = c :: rest ∧ c ∈ seps)).
Proof.
  revert piece. induction s as [|c s IH]; intros piece; cbn.
  - split; [intros <-; exists []; by auto|]. by intros (tail & E & _); destruct piece.
  - case_bool_decide as Hc.
    + split; [intros <-; exists (c :: s); split_and!; [done|done|right; eauto]|].
      intros (tail & E & Hp & _). destruct piece as [|d piece]; [done|]. inversion Hp; simplify_eq/=. done.
    + split.
      * intros <-. destruct (proj1 (IH _) eq_refl) as (tail & E & Hp & Ht). exists tail.
        split_and!; [cbn; by rewrite E at 1|by constructor|done].
      * intros (tail & E & Hp & Ht). destruct piece as [|d piece]; simplify_eq/=.
        -- by destruct Ht as [?|(? & ? & ? & ?)]; simplify_eq.
        -- inversion Hp; subst. f_equal. apply IH. eauto.
Qed.

(** ** URLs *)

(** [scheme://userinfo@host:port/...] or [scheme://userinfo@[host]...], the parts kept apart by their delimiters. *)
Definition host_part (hostport host : str) : Prop :=
  (head hostport ≠ Some 91%N ∧ (58%N ∉ host) ∧
   (∃ port, hostport = host ++ port ∧ (port = [] ∨ (∃ p, port = 58%N :: p)))) ∨
  ((93%N ∉ host) ∧ ∃ after, hostport = [91%N] ++ host ++ 93%N :: after).

Definition names_host (url scheme host : str) : Prop :=
  (scheme = lit "http" ∨ scheme = lit "https") ∧ host ≠ [] ∧
  ∃ userinfo hostport tail,
    url = scheme ++ lit "://" ++ (userinfo ++ hostport) ++ tail ∧
    Forall (λ c, c ∉ [47; 63; 35]%N) (userinfo ++ hostport) ∧
    (tail = [] ∨ (∃ c rest, tail = c :: rest ∧ c ∈ [47; 63; 35]%N)) ∧
    (userinfo = [] ∨ (∃ u, userinfo = u ++ [64%N])) ∧ (64%N ∉ hostport) ∧
    host_part hostport host.

(** What [scheme_and_host] does after the scheme. *)
Definition authority_host (authority : str) : option str :=
  let authority := match rsplit_once 64 authority with Some (_, h) => h | None => authority end in
  match strip_prefix authority [91%N] with
  | Some rest => '(host, _) ← split_once 93 rest; Some host
  | None => Some (split_first [58%N] authority)
  end.

Lemma host_part_exact (hostport host : str) :
  match strip_prefix hostport [91%N] with
  | Some rest => '(host, _) ← split_once 93 rest; Some host
  | None => Some (split_first [58%N] hostport)
  end = Some host ↔ host_part hostport host.
Proof.
  unfold host_part. destruct (strip_prefix hostport [91%N]) as [rest|] eqn:E.
  - apply strip_prefix_spec in E as ->. cbn. split.
    + intros ([a b] & Hs & Ha)%bind_Some. simplify_eq. apply split_once_spec in Hs as [-> Hn]. right. eauto.
    + intros [[? _]|[Hn [after Ha]]]; [done|]. simplify_eq/=. by rewrite (proj2 (split_once_spec 93 _ host after)).
  - assert (head hostport ≠ Some 91%N) as Hh.
    { intros H. destruct hostport as [|c s]; [done|]. simplify_eq/=. }
    split.
    + intros [= H]. apply split_first_exact in H as (tail & E' & Hp & Ht). left. split_and!; [done| |].
      * rewrite list.Forall_forall in Hp. intros Hin. by apply Hp in Hin; set_solver.
      * exists tail. split; [done|]. destruct Ht as [->|(c & r & -> & Hc)]; [by left|right]. exists r. set_solver.
    + intros [(_ & Hn & port & -> & Hp)|[_ [after ->]]]; [|done]. f_equal. apply split_first_exact.
      exists port. split_and!; [done| |].
      * apply list.Forall_forall. intros c Hc. set_solver.
      * destruct Hp as [->|[p ->]]; [by left|right]. exists 58%N, p. set_solver.
Qed.

Lemma authority_host_exact (authority host : str) :
  authority_host authority = Some host ↔
  ∃ userinfo hostport, authority = userinfo ++ hostport ∧ (userinfo = [] ∨ (∃ u, userinfo = u ++ [64%N])) ∧
    (64%N ∉ hostport) ∧ host_part hostport host.
Proof.
  unfold authority_host. destruct (rsplit_once 64 authority) as [[u h]|] eqn:E; rewrite host_part_exact.
  - apply rsplit_once_some in E as [E Hn]. split.
    + intros H. exists (u ++ [64%N]), h. rewrite <- app_assoc. split_and!; eauto.
    + intros (ui & hp & E' & [->|[u' ->]] & Hn' & H).
      * simplify_eq/=. exfalso. set_solver.
      * rewrite <- app_assoc in E'. cbn in E'.
        assert (rsplit_once 64 authority = Some (u, h)) as H1 by (by apply rsplit_once_some).
        rewrite (proj2 (rsplit_once_some 64 authority u' hp)) in H1 by done. by simplify_eq.
  - apply rsplit_once_none in E. split.
    + intros H. exists [], authority. split_and!; auto.
    + intros (ui & hp & -> & [->|[u' ->]] & Hn' & H); [done|]. exfalso. set_solver.
Qed.

Lemma split_scheme (url scheme rest : str) :
  scheme = lit "http" ∨ scheme = lit "https" →
  split_once_str (lit "://") url = Some (scheme, rest) ↔ url = scheme ++ lit "://" ++ rest.
Proof.
  intros Hs. split; [apply split_once_str_sound|]. by destruct Hs as [-> | ->]; intros ->.
Qed.

(** [scheme_and_host] names the host a client would connect to, and nothing else. *)
Lemma scheme_and_host_exact (url scheme host : str) :
  scheme_and_host url = Some (scheme, host) ↔ names_host url scheme host.
Proof.
  unfold scheme_and_host, names_host. split.
  - intros ([s rest] & Hs & H)%bind_Some. case_bool_decide as Hin; [|done]. cbn [negb] in H.
    assert (s = lit "http" ∨ s = lit "https") as Hs' by set_solver.
    apply split_scheme in Hs as ->; [|done]. apply bind_Some in H as (h & Hh & H).
    destruct (str_eqb h []) eqn:He; [done|]. simplify_eq. split; [done|].
    split; [intros ->; by apply bool_decide_eq_false_1 in He|].
    apply (authority_host_exact (split_first [47; 63; 35]%N rest)) in Hh as (ui & hp & E & Hui & Hn & Hp).
    apply split_first_exact in E as (tail & -> & Hf & Ht). exists ui, hp, tail. by split_and!.
  - intros (Hs & Hne & ui & hp & tail & -> & Hf & Ht & Hui & Hn & Hp). apply bind_Some. exists (scheme, (ui ++ hp) ++ tail).
    split; [by apply split_scheme|]. rewrite bool_decide_eq_true_2 by set_solver. cbn [negb].
    rewrite (proj2 (split_first_exact [47; 63; 35]%N ((ui ++ hp) ++ tail) (ui ++ hp))) by eauto.
    apply bind_Some. exists host. split; [apply (authority_host_exact (ui ++ hp)); eauto 10|].
    unfold str_eqb. by rewrite bool_decide_eq_false_2.
Qed.

(** ** Addresses *)

Definition ip_wf (ip : IpAddr) : Prop :=
  match ip with
  | V4 octets => length octets = 4%nat ∧ Forall (λ o, (o < 256)%N) octets
  | V6 segments => length segments = 8%nat ∧ Forall (λ g, (g < 65536)%N) segments
  end.

Lemma read_number_limit (radix limit : N) (digits : nat) (zero : bool) (s rest : str) (n : N) :
  read_number radix digits zero limit s = Some (n, rest) → (n < limit)%N.
Proof.
  unfold read_number. intros ([[r c] s'] & _ & H)%bind_Some. cbn zeta in H. repeat (case_match; try done). simplify_eq.
  by apply N.ltb_lt.
Qed.

Lemma read_separator_inner {A} (sep : char) (i : nat) (inner : str → option (A * str)) (s : str) (r : A * str) :
  read_separator sep i inner s = Some r → ∃ s', inner s' = Some r.
Proof. unfold read_separator. intros H. repeat (case_match; try done); eauto. Qed.

Lemma read_octets_wf (n i : nat) (s rest : str) (os : list N) :
  read_octets i n s = Some (os, rest) → length os = n ∧ Forall (λ o, (o < 256)%N) os.
Proof.
  revert i s os. induction n as [|n IH]; intros i s os; cbn [read_octets]; [by intros [= <- <-]|].
  intros ([o s1] & Ho & H)%bind_Some. apply bind_Some in H as ([os' s2] & Hos & H). simplify_eq.
  apply read_separator_inner in Ho as [s' Ho%read_number_limit]. destruct (IH _ _ _ Hos) as [<- ?].
  split; [done|]. by constructor.
Qed.

Lemma read_groups_wf (n i limit : nat) (s rest : str) (gs : list N) (ipv4 : bool) :
  (i + n = limit)%nat → read_groups n i limit s = (gs, ipv4, rest) →
  (length gs <= n)%nat ∧ Forall (λ g, (g < 65536)%N) gs.
Proof.
  revert i s gs. induction n as [|n IH]; intros i s gs Hi; cbn [read_groups]; [by intros [= <- <- <-]|].
  assert (∀ r, match read_separator 58 i (read_number 16 4 true 65536) s with
               | Some (g, s) => let '(gs, ipv4, s) := read_groups n (S i) limit s in (g :: gs, ipv4, s)
               | None => ([], false, s)
               end = r → r = (gs, ipv4, rest) → (length gs <= S n)%nat ∧ Forall (λ g, (g < 65536)%N) gs) as Hgroup.
  { intros r <-. destruct (read_separator 58 i _ s) as [[g s1]|] eqn:Hg; [|intros [= <- <- <-]; split; [cbn; lia|done]].
    apply read_separator_inner in Hg as [s' Hg%read_number_limit].
    destruct (read_groups n (S i) limit s1) as [[gs' b] s2] eqn:Hr. intros [= <- -> ->].
    destruct (IH (S i) s1 gs') as [??]; [lia|done|]. split; [cbn; lia|by constructor]. }
  destruct (if (i <? limit - 1)%nat then _ else None) as [[os s1]|] eqn:Hv4; [|by apply Hgroup].
  destruct (Nat.ltb_spec i (limit - 1)) as [Hl|]; [|done].
  apply read_separator_inner in Hv4 as (s' & Hos). apply read_octets_wf in Hos as [Hlen Hos].
  destruct os as [|one [|two [|three [|four [|]]]]]; try discriminate Hlen. intros [= <- <- <-].
  rewrite !list.Forall_cons in Hos. destruct Hos as (? & ? & ? & ? & _). split; [cbn; lia|]. repeat constructor; lia.
Qed.

Lemma read_ipv6_wf (s rest : str) (gs : list N) : read_ipv6_addr s = Some (gs, rest) → ip_wf (V6 gs).
Proof.
  unfold read_ipv6_addr. destruct (read_groups 8 0 8 s) as [[front b] s1] eqn:Hf.
  apply read_groups_wf in Hf as [Hlf Hf]; [|done]. destruct (Nat.eqb_spec (length front) 8) as [H8|H8].
  - intros [= <- <-]. by split.
  - destruct b; [done|]. intros H. repeat (case_match; simplify_eq; try done).
    match goal with H : read_groups _ _ _ _ = _ |- _ => apply read_groups_wf in H as [Hlb Hb]; [|lia] end.
    split; [rewrite !length_app, length_replicate; lia|].
    rewrite !list.Forall_app. split_and!; [done| |done]. by apply Forall_replicate.
Qed.

Lemma parse_ip_wf (s : str) (ip : IpAddr) : parse_ip s = Some ip → ip_wf ip.
Proof.
  unfold parse_ip. destruct (read_ipv4_addr s) as [[os [|]]|] eqn:H4; [intros [= <-]|done|].
  - by apply read_octets_wf in H4.
  - destruct (read_ipv6_addr s) as [[gs [|]]|] eqn:H6; [intros [= <-]|done|done]. by apply read_ipv6_wf in H6.
Qed.

(** ** Origins *)

Lemma trim_end_slashes_last (s : str) : list.last (trim_end_slashes s) ≠ Some 47%N.
Proof.
  intros H. apply last_Some in H as [l H]. by apply trim_end_by_last in H.
Qed.

Lemma to_ascii_lowercase_idem (c : char) : to_ascii_lowercase (to_ascii_lowercase c) = to_ascii_lowercase c.
Proof.
  unfold to_ascii_lowercase. destruct (is_ascii_uppercase c) eqn:E; [|by rewrite E].
  unfold is_ascii_uppercase in *. apply andb_true_iff in E as [H1%N.leb_le H2%N.leb_le].
  by rewrite (proj2 (N.leb_gt (c + 32) 90)), andb_false_r by lia.
Qed.

Lemma ascii_lower_idem (s : str) : ascii_lower (ascii_lower s) = ascii_lower s.
Proof. unfold ascii_lower. rewrite <- list_fmap_compose. apply list_fmap_ext. intros; apply to_ascii_lowercase_idem. Qed.

Lemma origins_clean (value o : str) :
  o ∈ origins value → o ≠ [] ∧ list.last o ≠ Some 47%N ∧ ascii_lower o = o.
Proof.
  intros [Hne (p & -> & _)%list_elem_of_fmap]%list_elem_of_filter. split_and!; [done| |apply ascii_lower_idem].
  unfold ascii_lower. rewrite list.fmap_last. intros [c [Hl Hc]]%fmap_Some.
  assert (c = 47%N) as ->; [|by apply trim_end_slashes_last in Hl].
  unfold to_ascii_lowercase in Hc. destruct (is_ascii_uppercase c) eqn:E; [|by subst].
  unfold is_ascii_uppercase in E. apply andb_true_iff in E as [H1%N.leb_le H2%N.leb_le]. lia.
Qed.

(** ** What a server starts with *)

Definition spelt (env : Env) (key : string) (default b : bool) : Prop :=
  match env (lit key) with
  | None => b = default
  | Some value => ascii_lower (trim value) ∈ if b then TRUE_SPELLINGS else FALSE_SPELLINGS
  end.

(** The connection is encrypted or does not leave the machine. *)
Definition confidential (url : str) : Prop :=
  ∃ scheme host, names_host url scheme host ∧
    (scheme = lit "https" ∨ ascii_lower host = lit "localhost" ∨
     ∃ ip, parse_ip host = Some ip ∧ ((∃ a b c, ip = V4 [127; a; b; c]%N) ∨ ip = V6 [0; 0; 0; 0; 0; 0; 0; 1]%N)).

Lemma bool_setting_spelt (env : Env) (key : string) (default b : bool) :
  bool_setting env key default = Ok b → spelt env key default b.
Proof.
  unfold bool_setting, setting, spelt. destruct (env (lit key)) as [v|]; [|congruence].
  unfold parse_bool. cbn zeta. repeat case_bool_decide; intros ?; by simplify_eq.
Qed.

Lemma loopback_wf (ip : IpAddr) :
  ip_wf ip → is_loopback ip = true →
  (∃ a b c, ip = V4 [127; a; b; c]%N) ∨ ip = V6 [0; 0; 0; 0; 0; 0; 0; 1]%N.
Proof.
  destruct ip as [os|gs]; cbn; intros [Hl _] H%bool_decide_eq_true_1; [left|right; by subst].
  destruct os as [|o [|a [|b [|c [|]]]]]; try discriminate Hl. simplify_eq/=. eauto.
Qed.

Lemma require_web_url_confidential (name url : str) : require_web_url name url = Ok tt → confidential url.
Proof.
  unfold require_web_url, confidential. destruct (scheme_and_host url) as [[scheme host]|] eqn:Hs; [|done].
  apply scheme_and_host_exact in Hs as Hn. destruct (_ && _) eqn:E; [done|]. intros _. exists scheme, host. split; [done|].
  apply andb_false_iff in E as [E|E].
  - left. destruct Hn as [[->|] _]; [by apply bool_decide_eq_false_1 in E|done].
  - right. apply negb_false_iff, orb_true_iff in E as [E|E]; [left; by apply bool_decide_eq_true_1 in E|right].
    destruct (parse_ip host) as [ip|] eqn:Hip; [|done]. exists ip. split; [done|].
    apply loopback_wf; [|done]. by eapply parse_ip_wf.
Qed.

Lemma required_some (env : Env) (key : string) (v : str) : required env key = Ok v → non_empty env (lit key) = Some v ∧ v ≠ [].
Proof.
  unfold required. destruct (non_empty env (lit key)) as [w|] eqn:E; [|done]. intros [= ->]. split; [done|].
  unfold non_empty in E. apply bind_Some in E as (u & _ & E). cbn zeta in E. destruct (str_eqb (trim u) []) eqn:Ee; [done|].
  simplify_eq. by apply bool_decide_eq_false_1 in Ee.
Qed.

Definition provider_ok (p : OidcConfig) : Prop :=
  confidential (oc_issuer p) ∧ list.last (oc_issuer p) ≠ Some 47%N ∧ confidential (oc_redirect_url p) ∧
  oc_client_id p ≠ [] ∧ oc_client_secret p ≠ [] ∧ lit "openid" ∈ split_whitespace (oc_scopes p).

Lemma oidc_from_env_ok (env : Env) (o : option OidcConfig) :
  oidc_from_env env = Ok o →
  match o with None => non_empty env (lit "GAL_OIDC_ISSUER") = None | Some p => provider_ok p end.
Proof.
  unfold oidc_from_env. destruct (non_empty env (lit "GAL_OIDC_ISSUER")) as [issuer|]; [|by intros [= <-]]. cbn zeta.
  intros ([] & Hi & H)%bind_ok. apply bind_ok in H as (id & Hid & H).
  apply bind_ok in H as (secret & Hsec & H). apply bind_ok in H as (url & Hurl & H).
  apply bind_ok in H as ([] & Hr & H). case_bool_decide as Hs; [|done]. cbn [negb] in H. simplify_eq.
  unfold provider_ok. cbn. split_and!; [by eapply require_web_url_confidential|apply trim_end_slashes_last| | | |done].
  - by eapply require_web_url_confidential.
  - by eapply required_some.
  - by eapply required_some.
Qed.

Lemma parse_u16_bound (s : str) (n : N) : parse_u16 s = Some n → (n < 65536)%N.
Proof.
  unfold parse_u16. cbn zeta. set (digits := match s with 43%N :: s => s | _ => s end). clearbody digits.
  destruct digits as [|d ds]; [done|]. intros (z & _ & H)%bind_Some. destruct (Z.ltb_spec z 65536); [|done]. simplify_eq. lia.
Qed.

Lemma metrics_setting_long (value : str) (t : option str) : metrics_setting value = Ok t → ∀ token, t = Some token → (16 <= str_len token)%N.
Proof.
  unfold metrics_setting. cbn zeta. destruct (str_eqb _ _); [by intros [= <-]|].
  destruct (N.ltb_spec (str_len (trim value)) 16); [done|]. by intros [= <-] token [= <-].
Qed.

(** C38: A server that starts runs with what its environment says: every switch has a spelling that is one of on or off,
    and has that value; the address is an address and the port a port; a metrics token has sixteen bytes or more; the
    extra origins are in the form an [Origin] header is compared with; and a provider is used only when it is
    configured whole, over TLS or on this machine at the host the URLs really name, and asked for [openid].  Anything
    else is refused. *)
Theorem started_as_configured (env : Env) (s : Settings) :
  from_env env = Ok s →
  let c := st_config s in
  (spelt env "GAL_SECURE_COOKIES" false (secure_cookies c) ∧ spelt env "GAL_OPEN_REGISTRATION" true (open_registration c) ∧
   spelt env "GAL_TRUST_FORWARDED_FOR" false (trust_forwarded_for c) ∧ spelt env "GAL_HSTS" false (hsts c) ∧
   spelt env "GAL_LOG_JSON" false (st_log_json s)) ∧
  ip_wf (st_ip s) ∧ (st_port s < 65536)%N ∧
  (∀ token, metrics_token c = Some token → (16 <= str_len token)%N) ∧
  (∀ o, o ∈ allowed_origins c → o ≠ [] ∧ list.last o ≠ Some 47%N ∧ ascii_lower o = o) ∧
  match st_oidc s with None => non_empty env (lit "GAL_OIDC_ISSUER") = None | Some p => provider_ok p end.
Proof.
  unfold from_env. intros (ip & Hip & H)%bind_ok. apply bind_ok in H as (port & Hport & H).
  apply bind_ok in H as (database & _ & H). apply bind_ok in H as (secure & Hsecure%bool_setting_spelt & H).
  apply bind_ok in H as (open & Hopen%bool_setting_spelt & H). apply bind_ok in H as (allowed & Ho & H).
  apply bind_ok in H as (forwarded & Hfor%bool_setting_spelt & H).
  apply bind_ok in H as (hs & Hhs%bool_setting_spelt & H). apply bind_ok in H as (token & Htoken & H).
  apply bind_ok in H as (json & Hjson%bool_setting_spelt & H).
  apply bind_ok in H as (oidc & Hoidc%oidc_from_env_ok & H). simplify_eq. cbn.
  split; [done|]. split_and!; [| | | |done].
  - revert Hip. unfold setting. destruct (env _); [|by intros [= <-]; split; [done|repeat constructor]].
    destruct (parse_ip _) as [ip'|] eqn:E; [|done]. intros [= <-]. by eapply parse_ip_wf.
  - revert Hport. unfold setting. destruct (env _) as [v|]; [|by intros [= <-]].
    destruct (parse_u16 v) as [n|] eqn:E; [|done]. intros [= <-]. by eapply parse_u16_bound.
  - revert Htoken. unfold setting. destruct (env _) as [v|]; [|by intros [= <-]]. apply metrics_setting_long.
  - revert Ho. unfold setting. destruct (env _) as [v|]; [intros [= <-]|intros [= <-]; set_solver]. apply origins_clean.
Qed.

(** An environment with a provider on this machine and a switch in capitals. *)
Definition sample_env : Env := λ name,
  (list_to_map (prod_map lit lit <$>
     [("GAL_PORT", "9000"); ("GAL_SECURE_COOKIES", " TRUE "); ("GAL_ALLOWED_ORIGINS", "https://App.example.com/, ");
      ("GAL_OIDC_ISSUER", "http://me@[::1]:3000/"); ("GAL_OIDC_CLIENT_ID", "id"); ("GAL_OIDC_CLIENT_SECRET", "secret");
      ("GAL_OIDC_REDIRECT_URL", "https://gal.example.com/cb")]%string) : gmap str str) !! name.

Definition sample_settings : Settings :=
  mkSettings (V4 [127; 0; 0; 1]%N) 9000 (lit "gal.db")
    (mkConfig true true [lit "https://app.example.com"] false false None) false
    (Some (mkOidcConfig (lit "http://me@[::1]:3000") (lit "id") (lit "secret") (lit "https://gal.example.com/cb")
             (lit "openid profile") (lit "::1"))).

Lemma started_as_configured_witness :
  from_env sample_env = Ok sample_settings ∧ confidential (lit "http://me@[::1]:3000") ∧
  ascii_lower (trim (lit " TRUE ")) ∈ TRUE_SPELLINGS.
Proof.
  assert (from_env sample_env = Ok sample_settings) as H by (vm_compute; reflexivity).
  destruct (started_as_configured sample_env sample_settings H) as ((Hs & _) & _ & _ & _ & _ & Hp).
  split; [exact H|]. split; [exact (proj1 Hp)|exact Hs].
Defined.
