(* ===== verification/Metrics.v ===== *)
(** * Counters, gauges and their exposition ([crates/gal-server/src/metrics.rs])

    The counters a server keeps, what adds to them, and the text they are scraped from.  A reader of that text gets
    every series once, with the number of times its event happened. *)

From S2P Require Import Prelude Strings Unicode Json Attributes Text Delta Model Protocol Snippet.

(** ** The numbers *)

(** The fields of the struct that are one number. *)
Inductive Counter :=
| ws_connections_opened
| ws_slow_client_disconnects
| ws_command_panics
| agent_reply_panics
| ws_frames_unparseable
| ops_applied
| ops_refused
| ops_persist_failures
| waves_loaded
| waves_evicted_after_panic.

Inductive Gauge := ws_connections_active | waves_resident.

#[global] Instance Counter_eq_dec : EqDecision Counter.
Proof. solve_decision. Defined.
#[global] Instance Gauge_eq_dec : EqDecision Gauge.
Proof. solve_decision. Defined.

Record Metrics := mkMetrics {
  http_requests : gmap N N;
  ws_commands : gmap str N;
  rate_limited : gmap str N;
  counters : Counter → N;
  gauges : Gauge → Z;
}.

Definition metrics_default : Metrics := mkMetrics ∅ ∅ ∅ (λ _, 0%N) (λ _, 0%Z).

(** [fetch_add] wraps around: unsigned for a counter, signed for a gauge. *)
Definition tally_up {K} `{Countable K} (k : K) (m : gmap K N) : gmap K N := <[k := wadd (default 0%N (m !! k)) 1]> m.
Definition wrap_i64 (z : Z) : Z := ((z + 2 ^ 63) `mod` 2 ^ 64 - 2 ^ 63)%Z.

Definition bump (c : Counter) (m : Metrics) : Metrics :=
  mkMetrics (http_requests m) (ws_commands m) (rate_limited m)
    (λ c', if decide (c' = c) then wadd (counters m c) 1 else counters m c') (gauges m).
Definition fetch_add (g : Gauge) (d : Z) (m : Metrics) : Metrics :=
  mkMetrics (http_requests m) (ws_commands m) (rate_limited m) (counters m)
    (λ g', if decide (g' = g) then wrap_i64 (gauges m g + d) else gauges m g').

Definition command (name : str) (m : Metrics) : Metrics :=
  mkMetrics (http_requests m) (tally_up name (ws_commands m)) (rate_limited m) (counters m) (gauges m).
Definition http_response (status : N) (m : Metrics) : Metrics :=
  mkMetrics (tally_up status (http_requests m)) (ws_commands m) (rate_limited m) (counters m) (gauges m).
Definition rate_limit (limiter : str) (m : Metrics) : Metrics :=
  mkMetrics (http_requests m) (ws_commands m) (tally_up limiter (rate_limited m)) (counters m) (gauges m).

Definition connection_opened (m : Metrics) : Metrics := fetch_add ws_connections_active 1 (bump ws_connections_opened m).
Definition connection_closed (m : Metrics) : Metrics := fetch_add ws_connections_active (-1) m.
Definition wave_loaded (m : Metrics) : Metrics := fetch_add waves_resident 1 (bump waves_loaded m).
Definition wave_evicted (m : Metrics) : Metrics := fetch_add waves_resident (-1) m.

(** ** The text *)

Definition line (s : str) : str := s ++ [10%N].

Definition preamble (name help kind : str) : str :=
  line (lit "# HELP " ++ name ++ lit " " ++ help) ++ line (lit "# TYPE " ++ name ++ lit " " ++ kind).

Definition counter (name help : str) (value : N) : str :=
  preamble name help (lit "counter") ++ line (name ++ lit " " ++ decimal value).
Definition gauge (name help : str) (value : Z) : str :=
  preamble name help (lit "gauge") ++ line (name ++ lit " " ++ show_i64 value).

Definition quoted (s : str) : str := 34%N :: s ++ [34%N].

(** One sample of a labelled family. *)
Definition labelled (name label value : str) : str := name ++ lit "{" ++ label ++ lit "=" ++ quoted value ++ lit "}".
Definition labelled_line (name label value : str) (n : N) : str := line (labelled name label value ++ lit " " ++ decimal n).

Definition render (m : Metrics) : str :=
  preamble (lit "gal_http_responses_total") (lit "HTTP responses by status code.") (lit "counter")
  ++ (map_to_list (http_requests m) ≫= λ e, labelled_line (lit "gal_http_responses_total") (lit "status") (decimal e.1) e.2)
  ++ preamble (lit "gal_ws_commands_total") (lit "WebSocket commands handled, by command.") (lit "counter")
  ++ (map_to_list (ws_commands m) ≫= λ e, labelled_line (lit "gal_ws_commands_total") (lit "command") e.1 e.2)
  ++ preamble (lit "gal_rate_limited_total") (lit "Requests refused by a rate limiter.") (lit "counter")
  ++ (map_to_list (rate_limited m) ≫= λ e, labelled_line (lit "gal_rate_limited_total") (lit "limiter") e.1 e.2)
  ++ counter (lit "gal_ws_connections_opened_total") (lit "WebSocket connections accepted.")
       (counters m ws_connections_opened)
  ++ counter (lit "gal_ws_slow_client_disconnects_total")
       (lit "Clients disconnected for overflowing their outbound queue. Each one missed messages and had to resynchronise.")
       (counters m ws_slow_client_disconnects)
  ++ counter (lit "gal_ws_command_panics_total") (lit "Commands that panicked. Always a bug.") (counters m ws_command_panics)
  ++ counter (lit "gal_agent_reply_panics_total") (lit "Agent reply tasks that panicked. Always a bug.")
       (counters m agent_reply_panics)
  ++ counter (lit "gal_ws_unparseable_frames_total") (lit "Frames that were not a message this server defines.")
       (counters m ws_frames_unparseable)
  ++ counter (lit "gal_ops_applied_total") (lit "Edits applied to a document and persisted.") (counters m ops_applied)
  ++ counter (lit "gal_ops_refused_total")
       (lit "Edits the server declined: mode, document limits, or a revision it could no longer transform from.")
       (counters m ops_refused)
  ++ counter (lit "gal_ops_persist_failures_total") (lit "Edits applied in memory that would not persist and were rolled back.")
       (counters m ops_persist_failures)
  ++ counter (lit "gal_waves_loaded_total") (lit "Waves read from storage into memory.") (counters m waves_loaded)
  ++ counter (lit "gal_waves_evicted_after_panic_total")
       (lit "Waves thrown out of memory because a command panicked while holding them.") (counters m waves_evicted_after_panic)
  ++ gauge (lit "gal_ws_connections_active") (lit "WebSocket connections open right now.") (gauges m ws_connections_active)
  ++ gauge (lit "gal_waves_resident") (lit "Waves held in memory right now.") (gauges m waves_resident).

(** ** What is counted *)

Section counting.
Context `{J : Json}.

(** The names the limiters are counted under. *)
Inductive LimiterName := auth | lookup | signin_failures | commands.

Definition limiter_name (l : LimiterName) : str :=
  match l with
  | auth => lit "auth"
  | lookup => lit "lookup"
  | signin_failures => lit "signin_failures"
  | commands => lit "command"
  end.

(** What the server reports, wherever it does. *)
Inductive Counted :=
| Handled (c : ClientMessage)
| Responded (status : N)
| Limited (l : LimiterName)
| Opened
| Closed
| Loaded
| Evicted
| Counts (c : Counter).

Definition record (m : Metrics) (e : Counted) : Metrics :=
  match e with
  | Handled c => command (name c) m
  | Responded status => http_response status m
  | Limited l => rate_limit (limiter_name l) m
  | Opened => connection_opened m
  | Closed => connection_closed m
  | Loaded => wave_loaded m
  | Evicted => wave_evicted m
  | Counts c => bump c m
  end.

Definition recorded (es : list Counted) : Metrics := foldl record metrics_default es.

(** How often something happened. *)
Definition tally (p : Counted → bool) (es : list Counted) : N := N.of_nat (length (List.filter p es)).

Definition handled (command : str) (e : Counted) : bool := match e with Handled c => bool_decide (name c = command) | _ => false end.
Definition responded (status : N) (e : Counted) : bool := match e with Responded s => (s =? status)%N | _ => false end.
Definition limited (limiter : str) (e : Counted) : bool := match e with Limited l => bool_decide (limiter_name l = limiter) | _ => false end.
Definition adds (c : Counter) (e : Counted) : bool :=
  match e with
  | Counts c' => bool_decide (c' = c)
  | Opened => bool_decide (c = ws_connections_opened)
  | Loaded => bool_decide (c = waves_loaded)
  | _ => false
  end.
Definition ups (g : Gauge) (e : Counted) : bool :=
  match g, e with ws_connections_active, Opened | waves_resident, Loaded => true | _, _ => false end.
Definition downs (g : Gauge) (e : Counted) : bool :=
  match g, e with ws_connections_active, Closed | waves_resident, Evicted => true | _, _ => false end.

Definition seen (n : N) : option N := if (n =? 0)%N then None else Some n.

Lemma tally_snoc p es e : tally p (es ++ [e]) = (tally p es + if p e then 1 else 0)%N.
Proof. unfold tally. rewrite List.filter_app, length_app. simpl. destruct (p e); simpl; lia. Qed.

Lemma tally_le p es : (tally p es ≤ N.of_nat (length es))%N.
Proof. unfold tally. pose proof (List.filter_length_le p es). lia. Qed.

Lemma seen_up {K} `{Countable K} (m : gmap K N) (f : K → N) (k k' : K) (b : bool) :
  (∀ j, m !! j = seen (f j)) → (f k < 2 ^ 63)%N → (b = true ↔ k = k') →
  tally_up k m !! k' = seen (f k' + if b then 1 else 0)%N.
Proof.
  intros Hm Hf Hb. unfold tally_up. destruct (decide (k = k')) as [<-|Hne].
  - rewrite lookup_insert_eq, (proj2 Hb) by done. rewrite Hm. unfold seen. rewrite (proj2 (N.eqb_neq (f k + 1) 0)) by lia.
    destruct (f k =? 0)%N eqn:E; simpl; [apply N.eqb_eq in E; rewrite E; done|]. f_equal. apply wadd_small. unfold usize_max. lia.
  - rewrite lookup_insert_ne, Hm by done. destruct b; [destruct Hne; by apply Hb|by rewrite N.add_0_r].
Qed.

(** The numbers are the tallies. *)
Record tallied (es : list Counted) (m : Metrics) : Prop := {
  ta_status : ∀ k, http_requests m !! k = seen (tally (responded k) es);
  ta_command : ∀ k, ws_commands m !! k = seen (tally (handled k) es);
  ta_limiter : ∀ k, rate_limited m !! k = seen (tally (limited k) es);
  ta_counter : ∀ c, counters m c = tally (adds c) es;
  ta_gauge : ∀ g, gauges m g = (Z.of_N (tally (ups g) es) - Z.of_N (tally (downs g) es))%Z;
}.

Lemma tally_snoc_no p es e : p e = false → tally p (es ++ [e]) = tally p es.
Proof. intros E. rewrite tally_snoc, E. apply N.add_0_r. Qed.

Lemma wrap_small z : (- 2 ^ 63 ≤ z < 2 ^ 63)%Z → wrap_i64 z = z.
Proof. intros H. unfold wrap_i64. rewrite Z.mod_small; lia. Qed.

Section step.
Context (es : list Counted) (e : Counted) (m : Metrics).
Hypothesis room : (N.of_nat (length es) + 1 < 2 ^ 63)%N.
Hypothesis so_far : tallied es m.

Lemma bump_tally c c' (b : bool) : (b = true ↔ c' = c) →
  counters (bump c m) c' = (tally (adds c') es + if b then 1 else 0)%N.
Proof using room so_far.
  intros Hb. cbn. rewrite !(ta_counter _ _ so_far). pose proof (tally_le (adds c) es). case_decide as Hd.
  - rewrite (proj2 Hb), Hd by done. apply wadd_small. unfold usize_max. lia.
  - destruct b; [by destruct Hd; apply Hb|by rewrite N.add_0_r].
Qed.

Lemma gauge_step (g g' : Gauge) (d : Z) m' : gauges m' = gauges m → (d = 1 ∨ d = -1)%Z →
  gauges (fetch_add g d m') g' = (gauges m g' + if decide (g' = g) then d else 0)%Z.
Proof using room so_far.
  intros Em Hd. cbn. rewrite Em. case_decide as Hg; [subst|lia]. apply wrap_small. rewrite (ta_gauge _ _ so_far).
  pose proof (tally_le (ups g) es). pose proof (tally_le (downs g) es). lia.
Qed.

Lemma record_tallied : tallied (es ++ [e]) (record m e).
Proof using room so_far.
  constructor.
  - intros k. destruct e; rewrite tally_snoc; cbn [responded]; rewrite ?N.add_0_r; try apply (ta_status _ _ so_far).
    apply (seen_up _ (λ k, tally (responded k) es)); [apply so_far|pose proof (tally_le (responded status) es); lia|by rewrite N.eqb_eq].
  - intros k. destruct e; rewrite tally_snoc; cbn [handled]; rewrite ?N.add_0_r; try apply (ta_command _ _ so_far).
    apply (seen_up _ (λ k, tally (handled k) es)); [apply so_far|pose proof (tally_le (handled (name c)) es); lia|apply bool_decide_eq_true].
  - intros k. destruct e; rewrite tally_snoc; cbn [limited]; rewrite ?N.add_0_r; try apply (ta_limiter _ _ so_far).
    apply (seen_up _ (λ k, tally (limited k) es));
      [apply so_far|pose proof (tally_le (limited (limiter_name l)) es); lia|apply bool_decide_eq_true].
  - intros c. destruct e; rewrite tally_snoc; cbn [adds]; rewrite ?N.add_0_r; try apply (ta_counter _ _ so_far).
    + apply bump_tally, bool_decide_eq_true.
    + apply bump_tally, bool_decide_eq_true.
    + apply bump_tally. rewrite bool_decide_eq_true. split; congruence.
  - intros g. rewrite !tally_snoc. pose proof (ta_gauge _ _ so_far g) as Hg.
    destruct e; cbn [record]; try (destruct g; cbn [ups downs]; rewrite !N.add_0_r; exact Hg);
      unfold connection_opened, connection_closed, wave_loaded, wave_evicted;
      rewrite gauge_step by (done || lia); rewrite Hg; destruct g; cbn [ups downs]; case_decide; (done || lia).
Qed.
End step.

Lemma recorded_tallied es : (N.of_nat (length es) < 2 ^ 63)%N → tallied es (recorded es).
Proof.
  induction es as [|e es IH] using rev_ind; intros Hlen; [by constructor|].
  rewrite length_app in Hlen. cbn in Hlen. unfold recorded. rewrite foldl_app. apply record_tallied; [lia|]. apply IH. lia.
Qed.
End counting.

(** ** What a scraper reads *)

Definition read_sample (l : str) : option (str * Z) :=
  match l with
  | 35%N :: _ => None
  | _ => '(series, value) ← split_once 32 l; z ← parse_i64 value; Some (series, z)
  end.

Definition samples (text : str) : list (str * Z) := omap read_sample (split_on 10 text).

(** The families declared with a keyword. *)
Definition declaration (keyword l : str) : option str := rest ← strip_prefix l keyword; '(family, _) ← split_once 32 rest; Some family.
Definition declared (keyword text : str) : list str := omap (declaration keyword) (split_on 10 text).

Definition one_line (s : str) : bool := forallb (λ c, negb (c =? 10)%N) s.
Definition one_word (s : str) : bool := forallb (λ c, negb (c =? 10)%N && negb (c =? 32)%N) s.

Lemma one_line_app a b : one_line (a ++ b) = one_line a && one_line b.
Proof. apply forallb_app. Qed.
Lemma one_word_app a b : one_word (a ++ b) = one_word a && one_word b.
Proof. apply forallb_app. Qed.

Lemma one_word_line s : one_word s = true → one_line s = true.
Proof. unfold one_word, one_line. rewrite !forallb_forall. intros H c Hc. by apply H, andb_true_iff in Hc as [? _]. Qed.

Lemma one_word_free s : one_word s = true → 32%N ∉ s.
Proof. unfold one_word. rewrite forallb_forall. intros H Hin%list_elem_of_In%H. done. Qed.

Lemma decimal_word n : one_word (decimal n) = true.
Proof.
  unfold one_word. apply forallb_forall. intros c Hc%list_elem_of_In. pose proof (decimal_digits n) as H.
  rewrite list.Forall_forall in H. apply H in Hc. unfold is_ascii_digit in Hc. rewrite andb_true_iff, !N.leb_le in Hc.
  rewrite andb_true_iff, !negb_true_iff, !N.eqb_neq. lia.
Qed.

Lemma show_word z : one_word (show_i64 z) = true.
Proof. unfold show_i64. destruct (z <? 0)%Z; [change (one_word (decimal (Z.to_N (- z))) = true)|]; apply decimal_word. Qed.

Lemma split_line l rest : one_line l = true → split_on 10 (line l ++ rest) = l :: split_on 10 rest.
Proof.
  unfold line. induction l as [|c l IH]; [done|]. intros [Hc%negb_true_iff Hl]%andb_true_iff.
  change ((c :: l) ++ [10%N]) with (c :: l ++ [10%N]). cbn [app split_on]. rewrite Hc.
  change ((l ++ [10%N]) ++ rest) with (line l ++ rest) in *. unfold line in *. by rewrite IH.
Qed.

Definition unlines (ls : list str) : str := ls ≫= line.

Lemma unlines_app a b : unlines (a ++ b) = unlines a ++ unlines b.
Proof. apply bind_app. Qed.

Lemma read_unlines {T} (f : str → option T) ls :
  f [] = None → Forall (λ l, one_line l = true) ls → omap f (split_on 10 (unlines ls)) = omap f ls.
Proof.
  intros Hf. induction 1 as [|l ls Hl _ IH]; [cbn; by rewrite Hf|].
  change (unlines (l :: ls)) with (line l ++ unlines ls). rewrite split_line by done. cbn [omap list_omap]. by rewrite IH.
Qed.

(** A sample: a name that is one word, then its value. *)
Lemma read_value_line s z : one_word (103%N :: s) = true → (- 2 ^ 63 ≤ z < 2 ^ 63)%Z →
  read_sample ((103%N :: s) ++ lit " " ++ show_i64 z) = Some (103%N :: s, z).
Proof.
  intros Hs Hz. unfold read_sample. change ((103%N :: s) ++ lit " " ++ show_i64 z) with (103%N :: s ++ 32%N :: show_i64 z).
  cbv beta iota. change (103%N :: s ++ 32%N :: show_i64 z) with ((103%N :: s) ++ 32%N :: show_i64 z).
  rewrite (proj2 (split_once_spec 32 _ (103%N :: s) (show_i64 z))) by (split; [done|by apply one_word_free]).
  cbn [mbind option_bind]. by rewrite parse_show_i64.
Qed.

Lemma show_natural n : show_i64 (Z.of_N n) = decimal n.
Proof. unfold show_i64. rewrite (proj2 (Z.ltb_ge _ 0)) by lia. by rewrite N2Z.id. Qed.

(** ** Families *)

Record Family := mkFamily { fa_name : str; fa_help : str; fa_kind : str; fa_samples : list (str * Z) }.

Definition sample_line (x : str * Z) : str := x.1 ++ lit " " ++ show_i64 x.2.
Definition family_lines (f : Family) : list str :=
  (lit "# HELP " ++ fa_name f ++ lit " " ++ fa_help f) :: (lit "# TYPE " ++ fa_name f ++ lit " " ++ fa_kind f) :: (sample_line <$> fa_samples f).

Definition good_series (s : str) : bool := match s with c :: _ => (c =? 103)%N && one_word s | [] => false end.
Definition good_family (f : Family) : Prop :=
  one_word (fa_name f) = true ∧ one_line (fa_help f) = true ∧ one_line (fa_kind f) = true ∧
  Forall (λ x, good_series x.1 = true ∧ (- 2 ^ 63 ≤ x.2 < 2 ^ 63)%Z) (fa_samples f).

Lemma sample_reads x : good_series x.1 = true → (- 2 ^ 63 ≤ x.2 < 2 ^ 63)%Z →
  read_sample (sample_line x) = Some x ∧ one_line (sample_line x) = true ∧ ∃ rest, sample_line x = 103%N :: rest.
Proof.
  destruct x as [[|c s] z]; [done|]. cbn [fst snd]. intros [->%N.eqb_eq Hs]%andb_true_iff Hz. split_and!.
  - by apply read_value_line.
  - unfold sample_line. cbn [fst snd]. rewrite !one_line_app, (one_word_line _ Hs), (one_word_line _ (show_word z)). done.
  - by eexists.
Qed.

Lemma family_one_line f : good_family f → Forall (λ l, one_line l = true) (family_lines f).
Proof.
  intros (Hn & Hh & Hk & Hs). constructor; [|constructor].
  - by rewrite !one_line_app, (one_word_line _ Hn), Hh.
  - by rewrite !one_line_app, (one_word_line _ Hn), Hk.
  - apply list.Forall_fmap. eapply list.Forall_impl; [exact Hs|]. intros x [H1 H2]. by apply sample_reads.
Qed.

Lemma family_samples f : good_family f → omap read_sample (family_lines f) = fa_samples f.
Proof.
  intros (_ & _ & _ & Hs). unfold family_lines. cbn [omap list_omap].
  change (read_sample (lit "# HELP " ++ ?x)) with (@None (str * Z)). change (read_sample (lit "# TYPE " ++ ?x)) with (@None (str * Z)).
  cbv iota. induction Hs as [|x xs [H1 H2] _ IH]; [done|]. cbn. destruct (sample_reads x H1 H2) as (-> & _). by f_equal.
Qed.

Lemma declaration_reads keyword name rest : one_word name = true → declaration keyword (keyword ++ name ++ lit " " ++ rest) = Some name.
Proof.
  intros Hn. unfold declaration. rewrite (proj2 (strip_prefix_spec _ keyword (name ++ lit " " ++ rest)) eq_refl). cbn [mbind option_bind].
  rewrite (proj2 (split_once_spec 32 _ name rest)); [done|]. split; [done|by apply one_word_free].
Qed.

Lemma family_declared f : good_family f →
  omap (declaration (lit "# HELP ")) (family_lines f) = [fa_name f] ∧ omap (declaration (lit "# TYPE ")) (family_lines f) = [fa_name f].
Proof.
  intros (Hn & _ & _ & Hs). assert (∀ kw, kw = lit "# HELP " ∨ kw = lit "# TYPE " → omap (declaration kw) (sample_line <$> fa_samples f) = []) as Hnone.
  { intros kw Hkw. induction Hs as [|x xs [H1 H2] _ IH]; [done|]. cbn. rewrite IH. destruct (sample_reads x H1 H2) as (_ & _ & rest & ->).
    by destruct Hkw as [-> | ->]. }
  unfold family_lines. cbn [omap list_omap]. split.
  - rewrite declaration_reads by done. change (declaration (lit "# HELP ") (lit "# TYPE " ++ ?x)) with (@None str). cbv iota.
    f_equal. apply Hnone. by left.
  - change (declaration (lit "# TYPE ") (lit "# HELP " ++ ?x)) with (@None str). cbv iota. rewrite declaration_reads by done.
    f_equal. apply Hnone. by right.
Qed.

Lemma omap_bind {A B C} (f : B → option C) (g : A → list B) (xs : list A) : omap f (xs ≫= g) = xs ≫= (λ x, omap f (g x)).
Proof. induction xs as [|x xs IH]; [done|]. cbn. by rewrite omap_app, <- IH. Qed.

Lemma families_read fs : Forall good_family fs → let text := unlines (fs ≫= family_lines) in
  samples text = fs ≫= fa_samples ∧ declared (lit "# HELP ") text = fa_name <$> fs ∧ declared (lit "# TYPE ") text = fa_name <$> fs.
Proof.
  intros Hfs. cbv zeta. assert (Forall (λ l, one_line l = true) (fs ≫= family_lines)) as Hl.
  { apply list.Forall_bind. eapply list.Forall_impl; [exact Hfs|]. intros f. apply family_one_line. }
  unfold samples, declared. rewrite !read_unlines by done. rewrite !omap_bind.
  induction Hfs as [|f fs Hf _ IH]; [done|]. rewrite bind_cons in Hl. apply list.Forall_app in Hl as [_ Hl]. destruct (IH Hl) as (E1 & E2 & E3).
  rewrite !bind_cons, !fmap_cons, E1, E2, E3, (family_samples f Hf). by destruct (family_declared f Hf) as [-> ->].
Qed.

(** ** The exposition, family by family *)

Definition natural (e : str * N) : str * Z := (e.1, Z.of_N e.2).

Definition status_name : str := lit "gal_http_responses_total".
Definition command_name : str := lit "gal_ws_commands_total".
Definition limiter_family : str := lit "gal_rate_limited_total".

Definition counter_name (c : Counter) : str :=
  match c with
  | ws_connections_opened => lit "gal_ws_connections_opened_total"
  | ws_slow_client_disconnects => lit "gal_ws_slow_client_disconnects_total"
  | ws_command_panics => lit "gal_ws_command_panics_total"
  | agent_reply_panics => lit "gal_agent_reply_panics_total"
  | ws_frames_unparseable => lit "gal_ws_unparseable_frames_total"
  | ops_applied => lit "gal_ops_applied_total"
  | ops_refused => lit "gal_ops_refused_total"
  | ops_persist_failures => lit "gal_ops_persist_failures_total"
  | waves_loaded => lit "gal_waves_loaded_total"
  | waves_evicted_after_panic => lit "gal_waves_evicted_after_panic_total"
  end.

Definition gauge_name (g : Gauge) : str :=
  match g with ws_connections_active => lit "gal_ws_connections_active" | waves_resident => lit "gal_waves_resident" end.

Definition counter_help (c : Counter) : str :=
  match c with
  | ws_connections_opened => lit "WebSocket connections accepted."
  | ws_slow_client_disconnects =>
      lit "Clients disconnected for overflowing their outbound queue. Each one missed messages and had to resynchronise."
  | ws_command_panics => lit "Commands that panicked. Always a bug."
  | agent_reply_panics => lit "Agent reply tasks that panicked. Always a bug."
  | ws_frames_unparseable => lit "Frames that were not a message this server defines."
  | ops_applied => lit "Edits applied to a document and persisted."
  | ops_refused => lit "Edits the server declined: mode, document limits, or a revision it could no longer transform from."
  | ops_persist_failures => lit "Edits applied in memory that would not persist and were rolled back."
  | waves_loaded => lit "Waves read from storage into memory."
  | waves_evicted_after_panic => lit "Waves thrown out of memory because a command panicked while holding them."
  end.

Definition gauge_help (g : Gauge) : str :=
  match g with ws_connections_active => lit "WebSocket connections open right now." | waves_resident => lit "Waves held in memory right now." end.

Definition labelled_samples {K} `{Countable K} (family label : str) (show : K → str) (m : gmap K N) : list (str * Z) :=
  (λ e, (labelled family label (show e.1), Z.of_N e.2)) <$> map_to_list m.

Definition all_counters : list Counter :=
  [ws_connections_opened; ws_slow_client_disconnects; ws_command_panics; agent_reply_panics; ws_frames_unparseable;
   ops_applied; ops_refused; ops_persist_failures; waves_loaded; waves_evicted_after_panic].
Definition all_gauges : list Gauge := [ws_connections_active; waves_resident].

Definition families (m : Metrics) : list Family :=
  [mkFamily status_name (lit "HTTP responses by status code.") (lit "counter")
     (labelled_samples status_name (lit "status") decimal (http_requests m));
   mkFamily command_name (lit "WebSocket commands handled, by command.") (lit "counter")
     (labelled_samples command_name (lit "command") (λ k, k) (ws_commands m));
   mkFamily limiter_family (lit "Requests refused by a rate limiter.") (lit "counter")
     (labelled_samples limiter_family (lit "limiter") (λ k, k) (rate_limited m))]
  ++ ((λ c, mkFamily (counter_name c) (counter_help c) (lit "counter") [(counter_name c, Z.of_N (counters m c))]) <$> all_counters)
  ++ ((λ g, mkFamily (gauge_name g) (gauge_help g) (lit "gauge") [(gauge_name g, gauges m g)]) <$> all_gauges).

Definition FAMILIES : list str := [status_name; command_name; limiter_family] ++ (counter_name <$> all_counters) ++ (gauge_name <$> all_gauges).

Lemma families_names m : fa_name <$> families m = FAMILIES.
Proof. reflexivity. Qed.

Lemma labelled_unlines {K} `{Countable K} (family label : str) (show : K → str) (m : gmap K N) :
  (map_to_list m ≫= λ e, labelled_line family label (show e.1) e.2) = unlines (sample_line <$> labelled_samples family label show m).
Proof.
  unfold labelled_samples, unlines. induction (map_to_list m) as [|[k n] es IH]; [reflexivity|]. rewrite !fmap_cons, !bind_cons, IH.
  f_equal. unfold labelled_line, sample_line. cbn [fst snd]. by rewrite show_natural.
Qed.

Lemma preamble_unlines name help kind samples :
  preamble name help kind ++ unlines (sample_line <$> samples) = unlines (family_lines (mkFamily name help kind samples)).
Proof. unfold preamble, family_lines, unlines. cbn [fa_name fa_help fa_kind fa_samples]. rewrite !bind_cons. by rewrite <- app_assoc. Qed.

Lemma counter_unlines name help n : counter name help n = unlines (family_lines (mkFamily name help (lit "counter") [(name, Z.of_N n)])).
Proof. unfold counter. rewrite <- preamble_unlines. f_equal. unfold unlines, sample_line. cbn [fmap list_fmap mbind list_bind fst snd]. by rewrite show_natural, app_nil_r. Qed.

Lemma gauge_unlines name help z : gauge name help z = unlines (family_lines (mkFamily name help (lit "gauge") [(name, z)])).
Proof. unfold gauge. rewrite <- preamble_unlines. f_equal. unfold unlines, sample_line. cbn [fmap list_fmap mbind list_bind fst snd]. by rewrite app_nil_r. Qed.

Lemma render_families m : render m = unlines (families m ≫= family_lines).
Proof.
  unfold render, families, all_counters, all_gauges. rewrite !counter_unlines, !gauge_unlines.
  rewrite (labelled_unlines _ _ decimal), (labelled_unlines _ _ (λ k, k) (ws_commands m)), (labelled_unlines _ _ (λ k, k) (rate_limited m)).
  rewrite !fmap_cons, !fmap_nil. cbn [app]. rewrite !bind_cons, !unlines_app, <- !preamble_unlines.
  change (unlines ([] ≫= family_lines)) with (@nil N). rewrite app_nil_r, <- !app_assoc. reflexivity.
Qed.

Section exposition.
Context `{J : Json}.
Context (es : list Counted).
Hypothesis room : (N.of_nat (length es) < 2 ^ 63)%N.

(** What a scrape should hold: one line for every status, command and limiter seen, one for every counter and gauge. *)
Inductive shows : str → Z → Prop :=
| shows_status k : tally (responded k) es ≠ 0%N →
    shows (labelled status_name (lit "status") (decimal k)) (Z.of_N (tally (responded k) es))
| shows_command k : tally (handled k) es ≠ 0%N →
    shows (labelled command_name (lit "command") k) (Z.of_N (tally (handled k) es))
| shows_limiter k : tally (limited k) es ≠ 0%N →
    shows (labelled limiter_family (lit "limiter") k) (Z.of_N (tally (limited k) es))
| shows_counter c : shows (counter_name c) (Z.of_N (tally (adds c) es))
| shows_gauge g : shows (gauge_name g) (Z.of_N (tally (ups g) es) - Z.of_N (tally (downs g) es)).

Lemma tally_seen p : tally p es ≠ 0%N → ∃ e, p e = true.
Proof using Type.
  unfold tally. destruct (List.filter p es) as [|e es'] eqn:E; [done|]. intros _. exists e.
  assert (In e (List.filter p es)) as [_ H]%filter_In by (rewrite E; by left). done.
Qed.

Lemma seen_some n k : seen n = Some k ↔ k = n ∧ n ≠ 0%N.
Proof. unfold seen. destruct (n =? 0)%N eqn:E; [apply N.eqb_eq in E|apply N.eqb_neq in E]; naive_solver. Qed.

Lemma in_labelled {K} `{Countable K} family label (show : K → str) (m : gmap K N) (p : K → Counted → bool) s z :
  (∀ k, m !! k = seen (tally (p k) es)) →
  (s, z) ∈ labelled_samples family label show m ↔
  ∃ k, tally (p k) es ≠ 0%N ∧ s = labelled family label (show k) ∧ z = Z.of_N (tally (p k) es).
Proof using Type.
  intros Hm. unfold labelled_samples. rewrite list_elem_of_fmap. split.
  - intros ([k n] & [= -> ->] & Hin%elem_of_map_to_list). rewrite Hm in Hin. apply seen_some in Hin as [-> Hn]. by exists k.
  - intros (k & Hn & -> & ->). exists (k, tally (p k) es). split; [done|]. apply elem_of_map_to_list. rewrite Hm. by apply seen_some.
Qed.

Lemma exposed s z : (s, z) ∈ families (recorded es) ≫= fa_samples ↔ shows s z.
Proof using room.
  pose proof (recorded_tallied es room) as [Hs Hc Hl Hn Hg]. unfold families. rewrite list.bind_app, list.bind_app.
  rewrite !bind_cons. cbn [fa_samples]. rewrite !elem_of_app.
  rewrite (in_labelled _ _ _ _ responded), (in_labelled _ _ (λ k, k) _ handled), (in_labelled _ _ (λ k, k) _ limited) by done.
  rewrite !list_elem_of_bind. split.
  - intros [[(k & ? & -> & ->)|[(k & ? & -> & ->)|[(k & ? & -> & ->)|(f & _ & []%not_elem_of_nil)]]]|[(f & Hin & Hf)|(f & Hin & Hf)]]; [by constructor..| |].
    + apply list_elem_of_fmap in Hf as (c & -> & _). cbn in Hin. apply list_elem_of_singleton in Hin as [= -> ->]. rewrite Hn. constructor.
    + apply list_elem_of_fmap in Hf as (g & -> & _). cbn in Hin. apply list_elem_of_singleton in Hin as [= -> ->]. rewrite Hg. constructor.
  - intros [k Hk|k Hk|k Hk|c|g]; [left; left; by exists k|left; right; left; by exists k|left; right; right; left; by exists k| |].
    + right. left. eexists. rewrite list_elem_of_fmap. split; [|exists c; split; [reflexivity|destruct c; set_solver]].
      cbn. rewrite Hn. by apply list_elem_of_singleton.
    + right. right. eexists. rewrite list_elem_of_fmap. split; [|exists g; split; [reflexivity|destruct g; set_solver]].
      cbn. rewrite Hg. by apply list_elem_of_singleton.
Qed.

(** ** Nothing breaks a line, nothing comes twice *)

Lemma labelled_good family label value :
  good_series family = true → one_word label = true → one_word value = true → good_series (labelled family label value) = true.
Proof using Type.
  intros Hf Hl Hv. destruct family as [|c family]; [done|]. apply andb_true_iff in Hf as [Hc Hf]. apply andb_true_iff. split; [done|].
  unfold labelled, quoted. rewrite !one_word_app, Hf, Hl. change (34%N :: value ++ [34%N]) with ([34%N] ++ value ++ [34%N]).
  by rewrite !one_word_app, Hv.
Qed.

Lemma labelled_inj family label v v' : labelled family label v = labelled family label v' → v = v'.
Proof using Type.
  unfold labelled, quoted. intros E. apply app_inv_head, app_inv_head, app_inv_head, app_inv_head in E.
  injection E as E. rewrite <- !app_assoc in E. by apply app_inv_tail in E.
Qed.

Lemma decimal_inj n n' : decimal n = decimal n' → n = n'.
Proof using Type. intros E. pose proof (decimal_value n) as [H _]. rewrite E in H. destruct (decimal_value n') as [H' _]. apply N2Z.inj. congruence. Qed.

Lemma names_words k : tally (handled k) es ≠ 0%N → one_word k = true.
Proof using Type. intros [e He]%tally_seen. destruct e; try done. apply bool_decide_eq_true in He as <-. by destruct c. Qed.

Lemma limiters_words k : tally (limited k) es ≠ 0%N → one_word k = true.
Proof using Type. intros [e He]%tally_seen. destruct e; try done. apply bool_decide_eq_true in He as <-. by destruct l. Qed.

Lemma tally_range p : (- 2 ^ 63 ≤ Z.of_N (tally p es) < 2 ^ 63)%Z.
Proof using room. pose proof (tally_le p es). lia. Qed.

Lemma labelled_samples_good {K} `{Countable K} family label (show : K → str) (m : gmap K N) (p : K → Counted → bool) :
  good_series family = true → one_word label = true → (∀ k, tally (p k) es ≠ 0%N → one_word (show k) = true) →
  (∀ k, m !! k = seen (tally (p k) es)) →
  Forall (λ x, good_series x.1 = true ∧ (- 2 ^ 63 ≤ x.2 < 2 ^ 63)%Z) (labelled_samples family label show m).
Proof using room.
  intros Hf Hl Hv Hm. apply list.Forall_forall. intros [s z] (k & Hk & -> & ->)%(in_labelled family label show m p _ _ Hm).
  split; [by apply labelled_good; auto|apply tally_range].
Qed.

Lemma families_good : Forall good_family (families (recorded es)).
Proof using room.
  pose proof (recorded_tallied es room) as [Hs Hc Hl Hn Hg]. unfold families.
  assert (∀ s z, good_series s = true → (- 2 ^ 63 ≤ z < 2 ^ 63)%Z → Forall (λ x, good_series x.1 = true ∧ (- 2 ^ 63 ≤ x.2 < 2 ^ 63)%Z) [(s, z)]) as Hone
    by (intros s z H1 H2; by constructor; [|constructor]).
  repeat apply list.Forall_app_2; [repeat apply list.Forall_cons_2; [..|constructor]| |].
  - split_and!; try done. apply (labelled_samples_good _ _ _ _ responded); try done. intros k _. apply decimal_word.
  - split_and!; try done. apply (labelled_samples_good _ _ (λ k, k) _ handled); try done. apply names_words.
  - split_and!; try done. apply (labelled_samples_good _ _ (λ k, k) _ limited); try done. apply limiters_words.
  - apply list.Forall_fmap, list.Forall_forall. intros c _.
    change (good_family (mkFamily (counter_name c) (counter_help c) (lit "counter") [(counter_name c, Z.of_N (counters (recorded es) c))])).
    rewrite Hn.
    split_and!; [by destruct c..|]. apply Hone; [by destruct c|apply tally_range].
  - apply list.Forall_fmap, list.Forall_forall. intros g _.
    change (good_family (mkFamily (gauge_name g) (gauge_help g) (lit "gauge") [(gauge_name g, gauges (recorded es) g)])).
    rewrite Hg.
    split_and!; [by destruct g..|]. apply Hone; [by destruct g|]. pose proof (tally_le (ups g) es). pose proof (tally_le (downs g) es). lia.
Qed.

(** The family a series belongs to: what precedes the labels. *)
Definition series_family (s : str) : str := match split_once 123 s with Some (family, _) => family | None => s end.

Lemma labelled_distinct {K} `{Countable K} family label (show : K → str) (m : gmap K N) :
  Inj (=) (=) show → NoDup (labelled_samples family label show m).*1.
Proof using Type.
  intros Hi. unfold labelled_samples. rewrite <- list_fmap_compose.
  assert (fst ∘ (λ e : K * N, (labelled family label (show e.1), Z.of_N e.2)) = (λ k, labelled family label (show k)) ∘ fst) as -> by done.
  rewrite list_fmap_compose. apply NoDup_fmap_2; [|apply NoDup_fst_map_to_list]. intros k k' E%labelled_inj. by apply Hi.
Qed.

Lemma families_disjoint fs :
  NoDup (fa_name <$> fs) → Forall (λ f, NoDup (fa_samples f).*1 ∧ Forall (λ x, series_family x.1 = fa_name f) (fa_samples f)) fs →
  NoDup (fs ≫= fa_samples).*1.
Proof using Type.
  induction fs as [|f fs IH]; intros Hn Hfs; [apply base.NoDup_nil_2|]. rewrite fmap_cons in Hn. apply list.NoDup_cons in Hn as [Hnew Hn].
  apply list.Forall_cons in Hfs as [[Hf Hs] Hfs]. rewrite bind_cons, fmap_app. apply list.NoDup_app. split_and!; [done| |by apply IH].
  intros s (x & -> & Hx)%list_elem_of_fmap (y & E & (f' & Hy & Hf')%list_elem_of_bind)%list_elem_of_fmap. apply Hnew.
  rewrite list.Forall_forall in Hs. rewrite list.Forall_forall in Hfs. specialize (Hs x Hx). destruct (Hfs f' Hf') as [_ Hs']. rewrite list.Forall_forall in Hs'.
  specialize (Hs' y Hy). apply list_elem_of_fmap. exists f'. split; [congruence|done].
Qed.

Lemma series_distinct m : NoDup (families m ≫= fa_samples).*1.
Proof using Type.
  apply families_disjoint; [rewrite families_names; apply (bool_decide_eq_true (NoDup FAMILIES)); vm_compute; reflexivity|].
  assert (∀ s z, NoDup [(s, z) : str * Z].*1) as Hone by (intros s z; cbn; apply NoDup_singleton). unfold families.
  repeat apply list.Forall_app_2; [repeat apply list.Forall_cons_2; [..|constructor]| |].
  - split; [apply labelled_distinct; exact decimal_inj|]. apply list.Forall_fmap, list.Forall_forall. by intros [k n] _.
  - split; [apply (labelled_distinct _ _ (λ k, k)); by intros ? ?|]. apply list.Forall_fmap, list.Forall_forall. by intros [k n] _.
  - split; [apply (labelled_distinct _ _ (λ k, k)); by intros ? ?|]. apply list.Forall_fmap, list.Forall_forall. by intros [k n] _.
  - apply list.Forall_fmap, list.Forall_forall. intros c _. split; [apply Hone|]. constructor; [by destruct c|constructor].
  - apply list.Forall_fmap, list.Forall_forall. intros g _. split; [apply Hone|]. constructor; [by destruct g|constructor].
Qed.

(** C26: A scrape tells what happened.  Whatever was counted, fewer than 2^63 times, the text of the endpoint reads back,
    line by line, as exactly these samples: for every status, command and limiter seen how often it was, for every
    counter how often it was added to, for every gauge how many came less how many went; no series is given twice, and
    every family is declared once by a help line and once by a type line, also where it has no sample. *)
Theorem scrape_tells_what_happened :
  let text := render (recorded es) in
  (∀ series value, (series, value) ∈ samples text ↔ shows series value) ∧
  NoDup (samples text).*1 ∧
  declared (lit "# HELP ") text = FAMILIES ∧ declared (lit "# TYPE ") text = FAMILIES ∧ NoDup FAMILIES.
Proof using room.
  cbv zeta. rewrite render_families. destruct (families_read _ families_good) as (-> & -> & ->). rewrite families_names.
  split_and!; [intros s z; apply exposed|apply series_distinct|done|done|].
  apply (bool_decide_eq_true (NoDup FAMILIES)). vm_compute. reflexivity.
Qed.
End exposition.

(** Two submissions and an opened wave, a connection that came and went and one that stayed. *)
Definition some_counts : list Counted :=
  [Opened; Handled (Open []); Handled (Submit [] 0 [] None); Opened; Handled (Submit [] 0 [] None); Closed; Responded 200; Limited auth].

Lemma scrape_tells_what_happened_witness :
  let text := render (recorded some_counts) in
  (lit "gal_ws_connections_active", 1%Z) ∈ samples text ∧
  (labelled (lit "gal_ws_commands_total") (lit "command") (lit "submit"), 2%Z) ∈ samples text ∧
  length (samples text) = 16%nat ∧ NoDup (samples text).*1.
Proof.
  assert ((N.of_nat (length some_counts) < 2 ^ 63)%N) as Hroom by (vm_compute; reflexivity).
  destruct (scrape_tells_what_happened some_counts Hroom) as (Hs & Hn & _). split; [|split; [|split; [vm_compute; reflexivity|exact Hn]]].
  - apply Hs. exact (shows_gauge some_counts ws_connections_active).
  - apply Hs. apply (shows_command some_counts (lit "submit")). vm_compute. discriminate.
Defined.
